(** * Mercury runtime type representation and the [mkinit] generator

    A shallow embedding of
    - [runtime/mercury_type_info.h]: the access macros for type_infos,
      base_type_layouts, base_type_functors and typeclass_infos;
    - [runtime/mercury_trace_util.h]: the declared interface of the
      debugger's introspection functions;
    - [util/mkinit.c]: the generator of the [*_init.c] file.

    Machine words are integers of [Z] with their wrap-around written out;
    memory is a finite map from addresses to words; the output of [mkinit]
    is the list of the [printf]/[fputs] calls it performs. *)

From Stdlib Require Import ZArith List String Ascii Lia Bool.
From stdpp Require Import base option list gmap strings.
From Equations Require Import Equations.

Local Open Scope Z_scope.

(** ** [runtime/mercury_type_info.h]

    [Word] is [unsigned MR_WORD_TYPE], [Integer] is [MR_WORD_TYPE]
    ([mercury_types.h]); the width of [MR_WORD_TYPE] comes from
    [mercury_conf.h], which is chosen by the configuration: it is the
    parameter [word_bits] here, and [sizeof_int] is the size of C's [int]
    on the same platform. *)

Module TypeInfo.

(** Memory: the scalar object (a word, a pointer, an [int]) stored at each
    address. Addresses count bytes. *)
Abbreviation memory := (gmap Z Z).

(** The result of preprocessing a conditional macro definition. *)
Inductive cpp_result (A : Type) : Type :=
| Expansion (a : A)
| CppError (msg : string).
Arguments Expansion {A} a.
Arguments CppError {A} msg.

(** One initializer of a handwritten type_layout. [mkword] and [mktag] are
    macros of [mercury_tags.h]; they are kept as written. *)
Inductive layout_word : Type :=
| LW_mkword_mktag (Tag Value : Z)     (* mkword(mktag(Tag), (Value)) *)
| LW_cast (v : Z).                    (* (const Word * ) (v) *)

(** A field of a C struct: its size and its alignment, in bytes. *)
Record c_field : Type := { field_size : Z; field_align : Z }.

(** The least multiple of [a] that is not below [off]. *)
Definition align_up (off a : Z) : Z := (off + a - 1) / a * a.

(** The offsets of the fields of a struct laid out from offset [off]: each
    field goes to the next address that is a multiple of its alignment. *)
Fixpoint field_offsets (off : Z) (fs : list c_field) : list Z :=
  match fs with
  | [] => []
  | f :: fs' =>
      let o := align_up off (field_align f) in
      o :: field_offsets (o + field_size f) fs'
  end.

(** The cells of a struct whose fields hold [vals], laid out at [base]. *)
Definition struct_image (base : Z) (fs : list c_field) (vals : list Z) : memory :=
  list_to_map (zip (Z.add base <$> field_offsets 0 fs) vals).

(** The position of the first occurrence of [x] in [l]. *)
Fixpoint index_of (x : Z) (l : list Z) : option nat :=
  match l with
  | [] => None
  | y :: l' => if Z.eq_dec x y then Some 0%nat else S <$> index_of x l'
  end.

(** Definitions for handwritten code, mostly for mercury_compare_typeinfo. *)
Definition COMPARE_EQUAL : Z := 0.
Definition COMPARE_LESS : Z := 1.
Definition COMPARE_GREATER : Z := 2.

Definition comparison_result (c : comparison) : Z :=
  match c with
  | Eq => COMPARE_EQUAL
  | Lt => COMPARE_LESS
  | Gt => COMPARE_GREATER
  end.

(** Modelled from the spec: the comparison of two constructors of an
    enumeration. The comparison operation itself is not among the macros of
    this header; the spec says of the Enum Vector that its constructors
    are listed "in declaration order; declaration order is the comparison
    order". [functors] is the declaration list, [a] and [b] are two
    constructor names of it. *)
Definition enum_compare (functors : list Z) (a b : Z) : option Z :=
  i ← index_of a functors;
  j ← index_of b functors;
  Some (comparison_result (Nat.compare i j)).

Section WithWordSize.

Variable word_bits : Z.
Variable sizeof_int : Z.

Definition MR_WORD_MODULUS : Z := 2 ^ word_bits.
Definition MR_INTEGER_MAX : Z := 2 ^ (word_bits - 1) - 1.
Definition MR_INTEGER_MIN : Z := - 2 ^ (word_bits - 1).

(** The cast [(Word) z]: reduction modulo [2 ^ word_bits]. *)
Definition cast_Word (z : Z) : Z := z mod 2 ^ word_bits.

(** The cast [(Integer) z]: the two's complement reading. *)
Definition cast_Integer (z : Z) : Z :=
  (z + 2 ^ (word_bits - 1)) mod 2 ^ word_bits - 2 ^ (word_bits - 1).

(** [Integer] arithmetic, wrapping as two's complement machines do. *)
Definition Integer_mul (a b : Z) : Z := cast_Integer (a * b).
Definition Integer_add (a b : Z) : Z := cast_Integer (a + b).

(** C's truth value of an integer expression. *)
Definition c_true (z : Z) : bool := negb (z =? 0).

(** Highest allowed type variable number. *)
Definition TYPELAYOUT_MAX_VARINT : Z := 1024.

(** [#define TYPEINFO_IS_VARIABLE(T) ( (Word) T <= TYPELAYOUT_MAX_VARINT )] *)
Definition TYPEINFO_IS_VARIABLE (T : Z) : bool :=
  cast_Word T <=? TYPELAYOUT_MAX_VARINT.

(** [#define MR_TYPECTOR_IS_HIGHER_ORDER(T) ( (Word) T <= TYPELAYOUT_MAX_VARINT )] *)
Definition MR_TYPECTOR_IS_HIGHER_ORDER (T : Z) : bool :=
  cast_Word T <=? TYPELAYOUT_MAX_VARINT.

(** [#define MR_TYPECTOR_MAKE_PRED(Arity) ( (Word) ((Integer) (Arity) * 2) )] *)
Definition MR_TYPECTOR_MAKE_PRED (Arity : Z) : Z :=
  cast_Word (Integer_mul (cast_Integer Arity) 2).

(** [#define MR_TYPECTOR_MAKE_FUNC(Arity) ( (Word) ((Integer) (Arity) * 2 + 1) )] *)
Definition MR_TYPECTOR_MAKE_FUNC (Arity : Z) : Z :=
  cast_Word (Integer_add (Integer_mul (cast_Integer Arity) 2) 1).

(** [#define MR_TYPECTOR_GET_HOT_ARITY(T) ((Integer) (T) / 2 )];
    C's division truncates: [Z.quot]. *)
Definition MR_TYPECTOR_GET_HOT_ARITY (T : Z) : Z :=
  Z.quot (cast_Integer T) 2.

(** [#define MR_TYPECTOR_GET_HOT_NAME(T)
      ((ConstString) ( ( ((Integer) (T)) % 2 ) ? "func" : "pred" ))];
    C's remainder is [Z.rem]. *)
Definition MR_TYPECTOR_GET_HOT_NAME (T : Z) : string :=
  if c_true (Z.rem (cast_Integer T) 2) then "func"%string else "pred"%string.

(** [#define MR_TYPECTOR_GET_HOT_MODULE_NAME(T) ((ConstString) "mercury_builtin")] *)
Definition MR_TYPECTOR_GET_HOT_MODULE_NAME (T : Z) : string :=
  "mercury_builtin"%string.

(** *** Tag-scheme replication (handwritten type_layouts) *)

(** [#if TAGBITS >= 2] [make_typelayout(Tag, Value)] is
    [mkword(mktag(Tag), (Value))], [#else] it is the two initializers
    [(const Word * ) (Tag), (const Word * ) (Value)]. *)
Definition make_typelayout (TAGBITS Tag Value : Z) : list layout_word :=
  if 2 <=? TAGBITS then [LW_mkword_mktag Tag Value]
  else [LW_cast Tag; LW_cast Value].

(** The [#if TAGBITS == 0 ... #elif TAGBITS == 3 ... #endif] chain: the
    definition of [make_typelayout_for_all_tags] it leaves, if any, as
    the list of the [make_typelayout(Tag, Value)] entries of its body. *)
Definition make_typelayout_for_all_tags_defined (TAGBITS Tag Value : Z)
  : option (list (list layout_word)) :=
  let e := make_typelayout TAGBITS Tag Value in
  if TAGBITS =? 0 then Some [e]
  else if TAGBITS =? 1 then Some [e; e]
  else if TAGBITS =? 2 then Some [e; e; e; e]
  else if TAGBITS =? 3 then Some [e; e; e; e; e; e; e; e]
  else None.

(** [#if !defined(make_typelayout_for_all_tags)] [#error ...] [#endif] *)
Definition make_typelayout_for_all_tags (TAGBITS Tag Value : Z)
  : cpp_result (list (list layout_word)) :=
  match make_typelayout_for_all_tags_defined TAGBITS Tag Value with
  | Some es => Expansion es
  | None =>
      CppError "make_typelayout_for_all_tags is not defined for this number of tags"
  end.

(** *** Memory access *)

Definition sizeof_Word : Z := word_bits / 8.

(** [sizeof(ConstString)]: a pointer is as wide as a word
    ([mercury_types.h] requires [sizeof(MR_Word) == sizeof(MR_Code * )]). *)
Definition sizeof_ConstString : Z := sizeof_Word.

(** The address of [((Word * ) p)[i]]. *)
Definition word_index (p i : Z) : Z := p + i * sizeof_Word.

(** [((Word * ) p)[i]] *)
Definition word_at (m : memory) (p i : Z) : option Z := m !! word_index p i.

(** *** type_infos and base_type_infos *)

Definition OFFSET_FOR_COUNT : Z := 0.
Definition OFFSET_FOR_ARG_TYPE_INFOS : Z := 1.

(** [#define MR_TYPEINFO_GET_BASE_TYPEINFO(TypeInfo)
      (( *TypeInfo) ? ((Word * ) *TypeInfo) : TypeInfo)] *)
Definition MR_TYPEINFO_GET_BASE_TYPEINFO (m : memory) (TypeInfo : Z) : option Z :=
  w ← m !! TypeInfo;
  Some (if c_true w then w else TypeInfo).

(** [#define MR_BASE_TYPEINFO_GET_TYPE_ARITY(BaseTypeInfo)
      (((Word * ) (BaseTypeInfo))[OFFSET_FOR_COUNT])] *)
Definition MR_BASE_TYPEINFO_GET_TYPE_ARITY (m : memory) (BaseTypeInfo : Z) : option Z :=
  word_at m BaseTypeInfo OFFSET_FOR_COUNT.

(** The cells of a type_info at [ti] for the type constructor whose
    base_type_info is at [base], applied to the type_infos [args]
    (the layout the header's offsets describe, see polymorphism.m):
    with no argument the type_info is the base_type_info itself, whose
    first word is the count 0; with arguments its first word points to
    the base_type_info and the arguments follow from
    [OFFSET_FOR_ARG_TYPE_INFOS]. *)
Definition type_info_image (ti base : Z) (args : list Z) : memory :=
  match args with
  | [] => {[ ti := 0 ]}
  | _ :: _ =>
      list_to_map
        ((ti, base)
           :: imap (fun i a => (word_index ti (OFFSET_FOR_ARG_TYPE_INFOS + Z.of_nat i), a)) args)
  end.

(** [m] holds a type_info at [ti]: a base_type_info is never at the null
    address, and a type_info without arguments is its base_type_info. *)
Definition type_info_at (m : memory) (ti base : Z) (args : list Z) : Prop :=
  base <> 0 /\ (args = [] -> ti = base) /\ type_info_image ti base args ⊆ m.

(** *** enum vectors *)

Definition TYPELAYOUT_CONST_FUNCTOR_OFFSET : Z := 2.
Definition TYPELAYOUT_ENUM_FUNCTOR_OFFSET : Z := 2.

Definition c_int : c_field := {| field_size := sizeof_int; field_align := sizeof_int |}.
Definition c_Word : c_field := {| field_size := sizeof_Word; field_align := sizeof_Word |}.
Definition c_ConstString : c_field :=
  {| field_size := sizeof_ConstString; field_align := sizeof_ConstString |}.

(** [typedef struct { int enum_or_comp_const; Word num_sharers;
      ConstString functor1; /* other functors follow, num_sharers of them. */
    } MR_TypeLayout_EnumVector;] with [n] functors in all. *)
Definition MR_TypeLayout_EnumVector (n : nat) : list c_field :=
  c_int :: c_Word :: replicate n c_ConstString.

Definition offsetof_enum_or_comp_const : Z :=
  default 0 (field_offsets 0 (MR_TypeLayout_EnumVector 1) !! 0%nat).
Definition offsetof_num_sharers : Z :=
  default 0 (field_offsets 0 (MR_TypeLayout_EnumVector 1) !! 1%nat).
Definition offsetof_functor1 : Z :=
  default 0 (field_offsets 0 (MR_TypeLayout_EnumVector 1) !! 2%nat).

(** [#define MR_TYPELAYOUT_ENUM_VECTOR_IS_ENUM(Vector)
      ((MR_TypeLayout_EnumVector * ) (Vector))->enum_or_comp_const] *)
Definition MR_TYPELAYOUT_ENUM_VECTOR_IS_ENUM (m : memory) (Vector : Z) : option Z :=
  m !! (Vector + offsetof_enum_or_comp_const).

(** [#define MR_TYPELAYOUT_ENUM_VECTOR_NUM_FUNCTORS(Vector)
      ((MR_TypeLayout_EnumVector * ) (Vector))->num_sharers] *)
Definition MR_TYPELAYOUT_ENUM_VECTOR_NUM_FUNCTORS (m : memory) (Vector : Z) : option Z :=
  m !! (Vector + offsetof_num_sharers).

(** [#define MR_TYPELAYOUT_ENUM_VECTOR_FUNCTOR_NAME(Vector, N)
      ( (&((MR_TypeLayout_EnumVector * )(Vector))->functor1) [N] )] *)
Definition MR_TYPELAYOUT_ENUM_VECTOR_FUNCTOR_NAME (m : memory) (Vector N : Z) : option Z :=
  m !! (Vector + offsetof_functor1 + N * sizeof_ConstString).

(** The cells of the enum vector of an enumeration ([is_enum]) whose
    constructors are, in declaration order, [functors]. *)
Definition enum_vector_image (Vector is_enum : Z) (functors : list Z) : memory :=
  struct_image Vector (MR_TypeLayout_EnumVector (length functors))
    (is_enum :: Z.of_nat (length functors) :: functors).

(** Decoding the values [0 .. n-1] of an enumeration, in order. *)
Definition enum_decode_all (m : memory) (Vector : Z) (n : nat) : list (option Z) :=
  (fun v => MR_TYPELAYOUT_ENUM_VECTOR_FUNCTOR_NAME m Vector (Z.of_nat v)) <$> seq 0 n.

(** *** typeclass_infos *)

(** [#define MR_typeclass_info_instance_arity(tci)
      ((Integer)( *(Word ** )(tci))[0])] *)
Definition MR_typeclass_info_instance_arity (m : memory) (tci : Z) : option Z :=
  tbl ← m !! tci;
  w ← word_at m tbl 0;
  Some (cast_Integer w).

(** [#define MR_typeclass_info_class_method(tci, n)
      ((Code * )( *(Word ** )tci)[(n)])] *)
Definition MR_typeclass_info_class_method (m : memory) (tci n : Z) : option Z :=
  tbl ← m !! tci;
  word_at m tbl n.

(** [#define MR_typeclass_info_arg_typeclass_info(tci, n)
      (((Word * )(tci))[(n)])] *)
Definition MR_typeclass_info_arg_typeclass_info (m : memory) (tci n : Z) : option Z :=
  word_at m tci n.

(** [#define MR_typeclass_info_superclass_info(tci, n)
      (((Word * )(tci))[MR_typeclass_info_instance_arity(tci) + (n)])] *)
Definition MR_typeclass_info_superclass_info (m : memory) (tci n : Z) : option Z :=
  a ← MR_typeclass_info_instance_arity m tci;
  word_at m tci (Integer_add a n).

(** [#define MR_typeclass_info_type_info(tci, n)
      (((Word * )(tci))[MR_typeclass_info_instance_arity(tci) + (n)])] *)
Definition MR_typeclass_info_type_info (m : memory) (tci n : Z) : option Z :=
  a ← MR_typeclass_info_instance_arity m tci;
  word_at m tci (Integer_add a n).

(** *** Higher-order arities that can be packed *)

(** An arity whose packed value [2 * N + 1] is an [Integer]: the
    arities on which the signed arithmetic of the packing macros does
    not overflow. *)
Definition packable_arity (N : Z) : Prop :=
  0 <= N /\ 2 * N + 1 <= MR_INTEGER_MAX.

(** What the round trip through the packed arity is, at one arity. *)
Definition hot_roundtrip_at (N : Z) : Prop :=
  MR_TYPECTOR_MAKE_PRED N = 2 * N /\
  MR_TYPECTOR_MAKE_FUNC N = 2 * N + 1 /\
  MR_TYPECTOR_GET_HOT_ARITY (MR_TYPECTOR_MAKE_PRED N) = N /\
  MR_TYPECTOR_GET_HOT_ARITY (MR_TYPECTOR_MAKE_FUNC N) = N /\
  MR_TYPECTOR_GET_HOT_ARITY (MR_TYPECTOR_MAKE_PRED N) = MR_TYPECTOR_MAKE_PRED N / 2 /\
  MR_TYPECTOR_GET_HOT_ARITY (MR_TYPECTOR_MAKE_FUNC N) = MR_TYPECTOR_MAKE_FUNC N / 2 /\
  MR_TYPECTOR_GET_HOT_NAME (MR_TYPECTOR_MAKE_PRED N) = "pred"%string /\
  MR_TYPECTOR_GET_HOT_NAME (MR_TYPECTOR_MAKE_FUNC N) = "func"%string.

(** *** Arrays of words *)

(** The cells of the words [ws] stored from [p] on. *)
Definition words_image (p : Z) (ws : list Z) : memory :=
  list_to_map (zip (word_index p <$> seqZ 0 (Z.of_nat (length ws))) ws).

(** *** The fields of a base_type_info, and of a higher-order type_info *)

Definition OFFSET_FOR_UNIFY_PRED : Z := 1.
Definition OFFSET_FOR_INDEX_PRED : Z := 2.
Definition OFFSET_FOR_COMPARE_PRED : Z := 3.
Definition OFFSET_FOR_BASE_TYPE_LAYOUT : Z := 4.
Definition OFFSET_FOR_BASE_TYPE_FUNCTORS : Z := 5.
Definition OFFSET_FOR_TYPE_MODULE_NAME : Z := 6.
Definition OFFSET_FOR_TYPE_NAME : Z := 7.

(** Where the predicate arity and args are stored in the type_info. *)
Definition TYPEINFO_OFFSET_FOR_PRED_ARITY : Z := 1.
Definition TYPEINFO_OFFSET_FOR_PRED_ARGS : Z := 2.

(** [#define MR_TYPEINFO_GET_HIGHER_ARITY(TypeInfo)
      ((Integer) (Word * ) (TypeInfo)[TYPEINFO_OFFSET_FOR_PRED_ARITY])] *)
Definition MR_TYPEINFO_GET_HIGHER_ARITY (m : memory) (TypeInfo : Z) : option Z :=
  cast_Integer <$> word_at m TypeInfo TYPEINFO_OFFSET_FOR_PRED_ARITY.

(** [#define MR_BASE_TYPEINFO_GET_TYPEFUNCTORS(BaseTypeInfo)
      ((Word * ) (BaseTypeInfo)[OFFSET_FOR_BASE_TYPE_FUNCTORS])] *)
Definition MR_BASE_TYPEINFO_GET_TYPEFUNCTORS (m : memory) (BaseTypeInfo : Z) : option Z :=
  word_at m BaseTypeInfo OFFSET_FOR_BASE_TYPE_FUNCTORS.

(** [#define MR_BASE_TYPEINFO_GET_TYPELAYOUT(BaseTypeInfo)
      ((Word * ) (BaseTypeInfo)[OFFSET_FOR_BASE_TYPE_LAYOUT])] *)
Definition MR_BASE_TYPEINFO_GET_TYPELAYOUT (m : memory) (BaseTypeInfo : Z) : option Z :=
  word_at m BaseTypeInfo OFFSET_FOR_BASE_TYPE_LAYOUT.

(** [#define MR_BASE_TYPEINFO_GET_TYPELAYOUT_ENTRY(BaseTypeInfo, Tag)
      (MR_BASE_TYPEINFO_GET_TYPELAYOUT(BaseTypeInfo)[(Tag)])] *)
Definition MR_BASE_TYPEINFO_GET_TYPELAYOUT_ENTRY (m : memory) (BaseTypeInfo Tag : Z)
  : option Z :=
  layout ← MR_BASE_TYPEINFO_GET_TYPELAYOUT m BaseTypeInfo;
  word_at m layout Tag.

(** [#define MR_BASE_TYPEINFO_GET_TYPE_NAME(BaseTypeInfo)
      (((String * ) (BaseTypeInfo))[OFFSET_FOR_TYPE_NAME])] *)
Definition MR_BASE_TYPEINFO_GET_TYPE_NAME (m : memory) (BaseTypeInfo : Z) : option Z :=
  m !! (BaseTypeInfo + OFFSET_FOR_TYPE_NAME * sizeof_ConstString).

(** [#define MR_BASE_TYPEINFO_GET_TYPE_MODULE_NAME(BaseTypeInfo)
      (((String * ) (BaseTypeInfo))[OFFSET_FOR_TYPE_MODULE_NAME])] *)
Definition MR_BASE_TYPEINFO_GET_TYPE_MODULE_NAME (m : memory) (BaseTypeInfo : Z)
  : option Z :=
  m !! (BaseTypeInfo + OFFSET_FOR_TYPE_MODULE_NAME * sizeof_ConstString).

(** The words of a base_type_info, in the order of their offsets. *)
Record base_type_info : Type := {
  bti_arity : Z;
  bti_unify_pred : Z;
  bti_index_pred : Z;
  bti_compare_pred : Z;
  bti_layout : Z;
  bti_functors : Z;
  bti_module_name : Z;
  bti_name : Z
}.

Definition base_type_info_image (base : Z) (b : base_type_info) : memory :=
  words_image base
    [bti_arity b; bti_unify_pred b; bti_index_pred b; bti_compare_pred b;
     bti_layout b; bti_functors b; bti_module_name b; bti_name b].

(** The type_info of a higher-order type: all of them share one
    base_type_info, so that the arity is in the type_info, before the
    arguments. *)
Definition higher_order_type_info_image (ti base arity : Z) (args : list Z) : memory :=
  words_image ti (base :: arity :: args).

(** *** The base_type_infos of the higher-order types *)

(** The addresses of [mercury_data___base_type_info_pred_0] and of
    [mercury_data___base_type_info_func_0]. *)
Variable base_type_info_pred_0 : Z.
Variable base_type_info_func_0 : Z.

(** [#define MR_BASE_TYPEINFO_HO_PRED
      ((const Word * ) &mercury_data___base_type_info_pred_0)] *)
Definition MR_BASE_TYPEINFO_HO_PRED : Z := base_type_info_pred_0.
Definition MR_BASE_TYPEINFO_HO_FUNC : Z := base_type_info_func_0.

(** [#define MR_BASE_TYPEINFO_IS_HO_PRED(T) (T == MR_BASE_TYPEINFO_HO_PRED)] *)
Definition MR_BASE_TYPEINFO_IS_HO_PRED (T : Z) : bool := T =? MR_BASE_TYPEINFO_HO_PRED.
Definition MR_BASE_TYPEINFO_IS_HO_FUNC (T : Z) : bool := T =? MR_BASE_TYPEINFO_HO_FUNC.

(** [#define MR_BASE_TYPEINFO_IS_HO(T)
      (T == MR_BASE_TYPEINFO_HO_FUNC || T == MR_BASE_TYPEINFO_HO_PRED)] *)
Definition MR_BASE_TYPEINFO_IS_HO (T : Z) : bool :=
  (T =? MR_BASE_TYPEINFO_HO_FUNC) || (T =? MR_BASE_TYPEINFO_HO_PRED).

(** [#define MR_TYPECTOR_GET_HOT_BASE_TYPE_INFO(T)
      ((Word) ( ( ((Integer) (T)) % 2 ) ?
         (const Word * ) &mercury_data___base_type_info_func_0 :
         (const Word * ) &mercury_data___base_type_info_pred_0 ))] *)
Definition MR_TYPECTOR_GET_HOT_BASE_TYPE_INFO (T : Z) : Z :=
  cast_Word (if c_true (Z.rem (cast_Integer T) 2)
             then base_type_info_func_0
             else base_type_info_pred_0).

(** *** base_type_functors *)

Definition MR_TYPEFUNCTORS_OFFSET_FOR_INDICATOR : Z := 0.

(** [#define MR_TYPEFUNCTORS_INDICATOR(Functors)
      ((Functors)[MR_TYPEFUNCTORS_OFFSET_FOR_INDICATOR])] *)
Definition MR_TYPEFUNCTORS_INDICATOR (m : memory) (Functors : Z) : option Z :=
  word_at m Functors MR_TYPEFUNCTORS_OFFSET_FOR_INDICATOR.

(** Values that the indicator can take. *)
Definition MR_TYPEFUNCTORS_DU : Z := 0.
Definition MR_TYPEFUNCTORS_ENUM : Z := 1.
Definition MR_TYPEFUNCTORS_EQUIV : Z := 2.
Definition MR_TYPEFUNCTORS_SPECIAL : Z := 3.
Definition MR_TYPEFUNCTORS_NO_TAG : Z := 4.
Definition MR_TYPEFUNCTORS_UNIV : Z := 5.

Definition MR_TYPEFUNCTORS_DU_OFFSET_FOR_NUM_FUNCTORS : Z := 1.
Definition MR_TYPEFUNCTORS_DU_OFFSET_FOR_FUNCTORS_VECTOR : Z := 2.

(** [#define MR_TYPEFUNCTORS_DU_NUM_FUNCTORS(Functors)
      ((Functors)[MR_TYPEFUNCTORS_DU_OFFSET_FOR_NUM_FUNCTORS])] *)
Definition MR_TYPEFUNCTORS_DU_NUM_FUNCTORS (m : memory) (Functors : Z) : option Z :=
  word_at m Functors MR_TYPEFUNCTORS_DU_OFFSET_FOR_NUM_FUNCTORS.

(** [#define MR_TYPEFUNCTORS_DU_FUNCTOR_N(Functor, N)
      ((Word * ) ((Functor)[MR_TYPEFUNCTORS_DU_OFFSET_FOR_FUNCTORS_VECTOR + N]))] *)
Definition MR_TYPEFUNCTORS_DU_FUNCTOR_N (m : memory) (Functor N : Z) : option Z :=
  word_at m Functor (Integer_add MR_TYPEFUNCTORS_DU_OFFSET_FOR_FUNCTORS_VECTOR N).

Definition MR_TYPEFUNCTORS_ENUM_OFFSET_FOR_FUNCTORS_VECTOR : Z := 1.

(** [#define MR_TYPEFUNCTORS_ENUM_FUNCTORS(Functor)
      ((Word * ) ((Functor)[MR_TYPEFUNCTORS_ENUM_OFFSET_FOR_FUNCTORS_VECTOR]))] *)
Definition MR_TYPEFUNCTORS_ENUM_FUNCTORS (m : memory) (Functor : Z) : option Z :=
  word_at m Functor MR_TYPEFUNCTORS_ENUM_OFFSET_FOR_FUNCTORS_VECTOR.

(** [#define MR_TYPEFUNCTORS_ENUM_NUM_FUNCTORS(Functors)
      MR_TYPELAYOUT_ENUM_VECTOR_NUM_FUNCTORS(
        MR_TYPEFUNCTORS_ENUM_FUNCTORS((Functors)))] *)
Definition MR_TYPEFUNCTORS_ENUM_NUM_FUNCTORS (m : memory) (Functors : Z) : option Z :=
  Vector ← MR_TYPEFUNCTORS_ENUM_FUNCTORS m Functors;
  MR_TYPELAYOUT_ENUM_VECTOR_NUM_FUNCTORS m Vector.

Definition MR_TYPEFUNCTORS_NO_TAG_OFFSET_FOR_FUNCTORS_VECTOR : Z := 1.

(** [#define MR_TYPEFUNCTORS_NO_TAG_FUNCTOR(Functors)
      ((Word * ) ((Functors)[MR_TYPEFUNCTORS_NO_TAG_OFFSET_FOR_FUNCTORS_VECTOR]))] *)
Definition MR_TYPEFUNCTORS_NO_TAG_FUNCTOR (m : memory) (Functors : Z) : option Z :=
  word_at m Functors MR_TYPEFUNCTORS_NO_TAG_OFFSET_FOR_FUNCTORS_VECTOR.

Definition MR_TYPEFUNCTORS_EQUIV_OFFSET_FOR_TYPE : Z := 1.

(** [#define MR_TYPEFUNCTORS_EQUIV_TYPE(Functors)
      ((Functors)[MR_TYPEFUNCTORS_EQUIV_OFFSET_FOR_TYPE])] *)
Definition MR_TYPEFUNCTORS_EQUIV_TYPE (m : memory) (Functors : Z) : option Z :=
  word_at m Functors MR_TYPEFUNCTORS_EQUIV_OFFSET_FOR_TYPE.

(** *** simple vectors *)

Definition TYPELAYOUT_SIMPLE_FUNCTOR_OFFSET : Z := 1.
Definition TYPELAYOUT_SIMPLE_ARITY_OFFSET : Z := 0.
Definition TYPELAYOUT_SIMPLE_ARGS_OFFSET : Z := 1.

Definition MR_TYPELAYOUT_SIMPLE_VECTOR_OFFSET_FOR_ARITY : Z := 0.
Definition MR_TYPELAYOUT_SIMPLE_VECTOR_OFFSET_FOR_ARGS : Z := 1.
(** Note, these offsets are from the end of the args *)
Definition MR_TYPELAYOUT_SIMPLE_VECTOR_OFFSET_FOR_FUNCTOR_NAME : Z := 1.
Definition MR_TYPELAYOUT_SIMPLE_VECTOR_OFFSET_FOR_FUNCTOR_TAG : Z := 2.

(** [#define MR_TYPELAYOUT_SIMPLE_VECTOR_ARITY(V)
      ((V)[MR_TYPELAYOUT_SIMPLE_VECTOR_OFFSET_FOR_ARITY])] *)
Definition MR_TYPELAYOUT_SIMPLE_VECTOR_ARITY (m : memory) (V : Z) : option Z :=
  word_at m V MR_TYPELAYOUT_SIMPLE_VECTOR_OFFSET_FOR_ARITY.

(** [#define MR_TYPELAYOUT_SIMPLE_VECTOR_ARGS(V)
      (V + MR_TYPELAYOUT_SIMPLE_VECTOR_OFFSET_FOR_ARGS)]: an address. *)
Definition MR_TYPELAYOUT_SIMPLE_VECTOR_ARGS (V : Z) : Z :=
  word_index V MR_TYPELAYOUT_SIMPLE_VECTOR_OFFSET_FOR_ARGS.

(** [#define MR_TYPELAYOUT_SIMPLE_VECTOR_FUNCTOR_NAME(V)
      ((String) ((V)[MR_TYPELAYOUT_SIMPLE_VECTOR_ARITY(V) +
         MR_TYPELAYOUT_SIMPLE_VECTOR_OFFSET_FOR_FUNCTOR_NAME]))]: the
    arity is a [Word], so that the index is computed as a [Word]. *)
Definition MR_TYPELAYOUT_SIMPLE_VECTOR_FUNCTOR_NAME (m : memory) (V : Z) : option Z :=
  arity ← MR_TYPELAYOUT_SIMPLE_VECTOR_ARITY m V;
  word_at m V (cast_Word (arity + MR_TYPELAYOUT_SIMPLE_VECTOR_OFFSET_FOR_FUNCTOR_NAME)).

(** [#define MR_TYPELAYOUT_SIMPLE_VECTOR_TAG(V)
      ((Word) ((V)[MR_TYPELAYOUT_SIMPLE_VECTOR_ARITY(V) +
         MR_TYPELAYOUT_SIMPLE_VECTOR_OFFSET_FOR_FUNCTOR_TAG]))] *)
Definition MR_TYPELAYOUT_SIMPLE_VECTOR_TAG (m : memory) (V : Z) : option Z :=
  arity ← MR_TYPELAYOUT_SIMPLE_VECTOR_ARITY m V;
  word_at m V (cast_Word (arity + MR_TYPELAYOUT_SIMPLE_VECTOR_OFFSET_FOR_FUNCTOR_TAG)).

(** The cells of a simple vector: the arity, "other arguments follow,
    there are arity of them, then followed by functor name, and functor
    tag". *)
Definition simple_vector_image (V : Z) (args : list Z) (name tag : Z) : memory :=
  words_image V (Z.of_nat (length args) :: args ++ [name; tag]).

(** *** complicated vectors *)

(** [typedef struct { Word num_sharers; Word simple_vector1;
      /* other simple_vectors follow, num_sharers of them. */
    } MR_TypeLayout_ComplicatedVector;] with [n] simple vectors in all. *)
Definition MR_TypeLayout_ComplicatedVector (n : nat) : list c_field :=
  c_Word :: replicate n c_Word.

Definition offsetof_complicated_num_sharers : Z :=
  default 0 (field_offsets 0 (MR_TypeLayout_ComplicatedVector 1) !! 0%nat).
Definition offsetof_simple_vector1 : Z :=
  default 0 (field_offsets 0 (MR_TypeLayout_ComplicatedVector 1) !! 1%nat).

(** [#define MR_TYPELAYOUT_COMPLICATED_VECTOR_NUM_SHARERS(Vector)
      ((MR_TypeLayout_ComplicatedVector * ) (Vector))->num_sharers] *)
Definition MR_TYPELAYOUT_COMPLICATED_VECTOR_NUM_SHARERS (m : memory) (Vector : Z)
  : option Z :=
  m !! (Vector + offsetof_complicated_num_sharers).

(** [#define MR_TYPELAYOUT_COMPLICATED_VECTOR_GET_SIMPLE_VECTOR(Vector, N)
      ( (&((MR_TypeLayout_ComplicatedVector * )(Vector))->simple_vector1) [N] )] *)
Definition MR_TYPELAYOUT_COMPLICATED_VECTOR_GET_SIMPLE_VECTOR (m : memory)
    (Vector N : Z) : option Z :=
  m !! (Vector + offsetof_simple_vector1 + N * sizeof_Word).

Definition complicated_vector_image (Vector : Z) (simple_vectors : list Z) : memory :=
  struct_image Vector (MR_TypeLayout_ComplicatedVector (length simple_vectors))
    (Z.of_nat (length simple_vectors) :: simple_vectors).

(** *** no_tag vectors and equivalent vectors *)

(** [typedef struct { int is_no_tag; Word arg; ConstString name; }
    MR_TypeLayout_NoTagVector;] *)
Definition MR_TypeLayout_NoTagVector : list c_field := [c_int; c_Word; c_ConstString].

(** [typedef struct { int is_no_tag; /* might be a no_tag */
      Word equiv_type; } MR_TypeLayout_EquivVector;] *)
Definition MR_TypeLayout_EquivVector : list c_field := [c_int; c_Word].

Definition offsetof_field (fs : list c_field) (i : nat) : Z :=
  default 0 (field_offsets 0 fs !! i).

(** [#define MR_TYPELAYOUT_NO_TAG_VECTOR_IS_NO_TAG(Vector)
      ((MR_TypeLayout_NoTagVector * ) (Vector))->is_no_tag] *)
Definition MR_TYPELAYOUT_NO_TAG_VECTOR_IS_NO_TAG (m : memory) (Vector : Z) : option Z :=
  m !! (Vector + offsetof_field MR_TypeLayout_NoTagVector 0).

(** [#define MR_TYPELAYOUT_NO_TAG_VECTOR_ARITY(Vector) (1)] *)
Definition MR_TYPELAYOUT_NO_TAG_VECTOR_ARITY (Vector : Z) : Z := 1.

(** [#define MR_TYPELAYOUT_NO_TAG_VECTOR_ARGS(Vector)
      &(((MR_TypeLayout_NoTagVector * ) (Vector))->arg)]: an address. *)
Definition MR_TYPELAYOUT_NO_TAG_VECTOR_ARGS (Vector : Z) : Z :=
  Vector + offsetof_field MR_TypeLayout_NoTagVector 1.

(** [#define MR_TYPELAYOUT_NO_TAG_VECTOR_FUNCTOR_NAME(Vector)
      ((MR_TypeLayout_NoTagVector * ) (Vector))->name] *)
Definition MR_TYPELAYOUT_NO_TAG_VECTOR_FUNCTOR_NAME (m : memory) (Vector : Z)
  : option Z :=
  m !! (Vector + offsetof_field MR_TypeLayout_NoTagVector 2).

Definition MR_TYPELAYOUT_EQUIV_OFFSET_FOR_TYPE : Z := 1.

(** [#define MR_TYPELAYOUT_EQUIV_IS_EQUIV(Vector)
      (!((MR_TypeLayout_EquivVector * ) (Vector))->is_no_tag)] *)
Definition MR_TYPELAYOUT_EQUIV_IS_EQUIV (m : memory) (Vector : Z) : option bool :=
  (fun is_no_tag => negb (c_true is_no_tag))
    <$> m !! (Vector + offsetof_field MR_TypeLayout_EquivVector 0).

(** [#define MR_TYPELAYOUT_EQUIV_TYPE(Vector)
      ((MR_TypeLayout_EquivVector * ) (Vector))->equiv_type] *)
Definition MR_TYPELAYOUT_EQUIV_TYPE (m : memory) (Vector : Z) : option Z :=
  m !! (Vector + offsetof_field MR_TypeLayout_EquivVector 1).

Definition no_tag_vector_image (Vector is_no_tag arg name : Z) : memory :=
  struct_image Vector MR_TypeLayout_NoTagVector [is_no_tag; arg; name].

Definition equiv_vector_image (Vector is_no_tag equiv_type : Z) : memory :=
  struct_image Vector MR_TypeLayout_EquivVector [is_no_tag; equiv_type].

(** *** [mercury_types.h]: sizes in words *)

(** The width of [size_t], the type of [sizeof(MR_Word)]. *)
Variable size_t_bits : Z.

Definition cast_size_t (z : Z) : Z := z mod 2 ^ size_t_bits.

(** [#define MR_bytes_to_words(x)
      (((x) + sizeof(MR_Word) - 1) / sizeof(MR_Word))], for an [x] of a
    type no wider than [size_t]: the arithmetic is that of [size_t]. *)
Definition MR_bytes_to_words (x : Z) : Z :=
  cast_size_t (cast_size_t (cast_size_t x + sizeof_Word) - 1) / sizeof_Word.

Hypothesis word_bits_ge : 16 <= word_bits.

Lemma half_modulus : 2 ^ word_bits = 2 * 2 ^ (word_bits - 1).
Proof using word_bits_ge.
  replace word_bits with (1 + (word_bits - 1)) at 1 by lia.
  rewrite Z.pow_add_r by lia. reflexivity.
Qed.

Lemma half_modulus_large : 2 ^ 15 <= 2 ^ (word_bits - 1).
Proof using word_bits_ge. apply Z.pow_le_mono_r; lia. Qed.

Lemma cast_Word_small z : 0 <= z < 2 ^ word_bits -> cast_Word z = z.
Proof. intros H. unfold cast_Word. apply Z.mod_small. exact H. Qed.

Lemma cast_Integer_small z :
  MR_INTEGER_MIN <= z <= MR_INTEGER_MAX -> cast_Integer z = z.
Proof using word_bits_ge.
  unfold MR_INTEGER_MIN, MR_INTEGER_MAX, cast_Integer. intros H.
  pose proof half_modulus as Hm.
  rewrite Z.mod_small by lia. lia.
Qed.

Lemma cast_Word_range z : 0 <= cast_Word z < 2 ^ word_bits.
Proof using word_bits_ge.
  unfold cast_Word. apply Z.mod_pos_bound.
  pose proof half_modulus. pose proof half_modulus_large. lia.
Qed.

Lemma MAKE_PRED_packable N :
  packable_arity N -> MR_TYPECTOR_MAKE_PRED N = 2 * N.
Proof using word_bits_ge.
  unfold packable_arity, MR_TYPECTOR_MAKE_PRED, Integer_mul.
  intros [H0 H1].
  pose proof half_modulus as Hm.
  assert (Hr : MR_INTEGER_MIN <= N <= MR_INTEGER_MAX)
    by (unfold MR_INTEGER_MIN, MR_INTEGER_MAX in *; lia).
  rewrite (cast_Integer_small N Hr).
  rewrite cast_Integer_small
    by (unfold MR_INTEGER_MIN, MR_INTEGER_MAX in *; lia).
  rewrite cast_Word_small by (unfold MR_INTEGER_MAX in *; lia).
  lia.
Qed.

Lemma MAKE_FUNC_packable N :
  packable_arity N -> MR_TYPECTOR_MAKE_FUNC N = 2 * N + 1.
Proof using word_bits_ge.
  unfold packable_arity, MR_TYPECTOR_MAKE_FUNC, Integer_mul, Integer_add.
  intros [H0 H1].
  pose proof half_modulus as Hm.
  assert (Hr : MR_INTEGER_MIN <= N <= MR_INTEGER_MAX)
    by (unfold MR_INTEGER_MIN, MR_INTEGER_MAX in *; lia).
  rewrite (cast_Integer_small N Hr).
  rewrite (cast_Integer_small (N * 2))
    by (unfold MR_INTEGER_MIN, MR_INTEGER_MAX in *; lia).
  rewrite cast_Integer_small
    by (unfold MR_INTEGER_MIN, MR_INTEGER_MAX in *; lia).
  rewrite cast_Word_small by (unfold MR_INTEGER_MAX in *; lia).
  lia.
Qed.

Lemma GET_HOT_ARITY_even N :
  packable_arity N -> MR_TYPECTOR_GET_HOT_ARITY (2 * N) = N.
Proof using word_bits_ge.
  unfold packable_arity, MR_TYPECTOR_GET_HOT_ARITY. intros [H0 H1].
  rewrite cast_Integer_small
    by (unfold MR_INTEGER_MIN, MR_INTEGER_MAX in *; lia).
  rewrite Z.mul_comm. apply Z.quot_mul. lia.
Qed.

Lemma GET_HOT_ARITY_odd N :
  packable_arity N -> MR_TYPECTOR_GET_HOT_ARITY (2 * N + 1) = N.
Proof using word_bits_ge.
  unfold packable_arity, MR_TYPECTOR_GET_HOT_ARITY. intros [H0 H1].
  rewrite cast_Integer_small
    by (unfold MR_INTEGER_MIN, MR_INTEGER_MAX in *; lia).
  rewrite Z.quot_div_nonneg by lia.
  symmetry. apply (Z.div_unique_pos (2 * N + 1) 2 N 1); lia.
Qed.

Lemma GET_HOT_NAME_even N :
  packable_arity N -> MR_TYPECTOR_GET_HOT_NAME (2 * N) = "pred"%string.
Proof using word_bits_ge.
  unfold packable_arity, MR_TYPECTOR_GET_HOT_NAME, c_true. intros [H0 H1].
  rewrite cast_Integer_small
    by (unfold MR_INTEGER_MIN, MR_INTEGER_MAX in *; lia).
  rewrite Z.rem_mod_nonneg by lia.
  replace ((2 * N) mod 2) with 0; [reflexivity|].
  symmetry. rewrite Z.mul_comm. apply Z_mod_mult.
Qed.

Lemma GET_HOT_NAME_odd N :
  packable_arity N -> MR_TYPECTOR_GET_HOT_NAME (2 * N + 1) = "func"%string.
Proof using word_bits_ge.
  unfold packable_arity, MR_TYPECTOR_GET_HOT_NAME, c_true. intros [H0 H1].
  rewrite cast_Integer_small
    by (unfold MR_INTEGER_MIN, MR_INTEGER_MAX in *; lia).
  rewrite Z.rem_mod_nonneg by lia.
  replace ((2 * N + 1) mod 2) with 1; [reflexivity|].
  symmetry. rewrite Z.add_comm, Z.mul_comm, Z_mod_plus_full. reflexivity.
Qed.

Lemma hot_roundtrip_packable N : packable_arity N -> hot_roundtrip_at N.
Proof using word_bits_ge.
  intros HN. unfold hot_roundtrip_at.
  rewrite (MAKE_PRED_packable N HN), (MAKE_FUNC_packable N HN).
  rewrite (GET_HOT_ARITY_even N HN), (GET_HOT_ARITY_odd N HN).
  rewrite (GET_HOT_NAME_even N HN), (GET_HOT_NAME_odd N HN).
  destruct HN as [H0 H1].
  repeat split; try reflexivity.
  - rewrite Z.mul_comm. symmetry. apply Z.div_mul. lia.
  - apply (Z.div_unique_pos (2 * N + 1) 2 N 1); lia.
Qed.

Lemma small_arity_packable N : 0 <= N <= 1024 -> packable_arity N.
Proof using word_bits_ge.
  intros H. unfold packable_arity, MR_INTEGER_MAX.
  pose proof half_modulus_large. lia.
Qed.

(** *** The tag-scheme replication *)

Lemma make_typelayout_for_all_tags_supported TAGBITS Tag Value :
  0 <= TAGBITS <= 3 ->
  make_typelayout_for_all_tags TAGBITS Tag Value =
    Expansion (replicate (Z.to_nat (2 ^ TAGBITS)) (make_typelayout TAGBITS Tag Value)).
Proof.
  intros H.
  assert (Hc : TAGBITS = 0 \/ TAGBITS = 1 \/ TAGBITS = 2 \/ TAGBITS = 3) by lia.
  destruct Hc as [-> | [-> | [-> | ->]]]; reflexivity.
Qed.

Lemma make_typelayout_for_all_tags_unsupported TAGBITS Tag Value :
  ~ 0 <= TAGBITS <= 3 ->
  make_typelayout_for_all_tags_defined TAGBITS Tag Value = None.
Proof.
  intros H. unfold make_typelayout_for_all_tags_defined.
  repeat match goal with
         | |- context [?a =? ?b] => destruct (Z.eqb_spec a b); [lia|]
         end.
  reflexivity.
Qed.

(** C3: for every TAGBITS in 0..3, make_typelayout_for_all_tags(Tag, Value)
    expands to exactly 2^TAGBITS identical make_typelayout(Tag, Value)
    entries (1, 2, 4 or 8 of them), and for every other TAGBITS the macro
    stays undefined and preprocessing stops at the #error directive:
    there is no expansion at all. *)
Theorem tag_scheme_replication (TAGBITS Tag Value : Z) :
  (0 <= TAGBITS <= 3 ->
     make_typelayout_for_all_tags TAGBITS Tag Value =
       Expansion (replicate (Z.to_nat (2 ^ TAGBITS)) (make_typelayout TAGBITS Tag Value))
     /\ (exists n, In n [1; 2; 4; 8]%nat /\ n = Z.to_nat (2 ^ TAGBITS)))
  /\ (~ 0 <= TAGBITS <= 3 ->
       make_typelayout_for_all_tags_defined TAGBITS Tag Value = None
       /\ exists msg, make_typelayout_for_all_tags TAGBITS Tag Value = CppError msg).
Proof.
  split.
  - intros H. split.
    + apply make_typelayout_for_all_tags_supported, H.
    + exists (Z.to_nat (2 ^ TAGBITS)). split; [|reflexivity].
      assert (Hc : TAGBITS = 0 \/ TAGBITS = 1 \/ TAGBITS = 2 \/ TAGBITS = 3) by lia.
      destruct Hc as [-> | [-> | [-> | ->]]]; simpl; auto.
  - intros H. split.
    + apply make_typelayout_for_all_tags_unsupported, H.
    + unfold make_typelayout_for_all_tags.
      rewrite (make_typelayout_for_all_tags_unsupported _ _ _ H). eauto.
Qed.

(** *** The packed higher-order arity *)

(** C1: for every arity N (one whose packed value is an Integer),
    MR_TYPECTOR_MAKE_PRED(N) is 2N and MR_TYPECTOR_MAKE_FUNC(N) is 2N+1;
    MR_TYPECTOR_GET_HOT_ARITY gives N back from either, which is the
    packed value divided by two, and MR_TYPECTOR_GET_HOT_NAME is "pred"
    for the even and "func" for the odd encoding; this holds in
    particular at N = 0, 1, 8 and 1024. *)
Theorem hot_arity_roundtrip :
  (forall N, packable_arity N -> hot_roundtrip_at N) /\
  Forall hot_roundtrip_at [0; 1; 8; 1024].
Proof using word_bits_ge.
  split.
  - apply hot_roundtrip_packable.
  - repeat (apply Forall_cons_2;
              [apply hot_roundtrip_packable, small_arity_packable; lia|]).
    apply Forall_nil_2.
Qed.

Lemma IS_HIGHER_ORDER_spec T :
  MR_TYPECTOR_IS_HIGHER_ORDER T = true <-> cast_Word T <= TYPELAYOUT_MAX_VARINT.
Proof. unfold MR_TYPECTOR_IS_HIGHER_ORDER. apply Z.leb_le. Qed.

(** C8: MR_TYPECTOR_IS_HIGHER_ORDER and TYPEINFO_IS_VARIABLE are the same
    test, (Word) T <= 1024; so of the packed arities exactly those above
    1024 (predicates of arity N >= 513, functions of arity N >= 512) are
    not classified as higher-order, while MR_TYPECTOR_GET_HOT_ARITY still
    recovers N from them. *)
Theorem higher_order_test_is_variable_test :
  (forall T, MR_TYPECTOR_IS_HIGHER_ORDER T = TYPEINFO_IS_VARIABLE T) /\
  (forall T, MR_TYPECTOR_IS_HIGHER_ORDER T = true <-> cast_Word T <= 1024) /\
  (forall T, TYPEINFO_IS_VARIABLE T = true <-> cast_Word T <= 1024) /\
  (forall N, packable_arity N ->
     (MR_TYPECTOR_IS_HIGHER_ORDER (MR_TYPECTOR_MAKE_PRED N) = false <-> 513 <= N) /\
     (MR_TYPECTOR_IS_HIGHER_ORDER (MR_TYPECTOR_MAKE_FUNC N) = false <-> 512 <= N) /\
     MR_TYPECTOR_GET_HOT_ARITY (MR_TYPECTOR_MAKE_PRED N) = N /\
     MR_TYPECTOR_GET_HOT_ARITY (MR_TYPECTOR_MAKE_FUNC N) = N).
Proof using word_bits_ge.
  split; [reflexivity|].
  split; [apply IS_HIGHER_ORDER_spec|].
  split; [apply IS_HIGHER_ORDER_spec|].
  intros N HN.
  rewrite (MAKE_PRED_packable N HN), (MAKE_FUNC_packable N HN).
  rewrite (GET_HOT_ARITY_even N HN), (GET_HOT_ARITY_odd N HN).
  pose proof half_modulus as Hm.
  destruct HN as [H0 H1]. unfold MR_INTEGER_MAX in H1.
  unfold MR_TYPECTOR_IS_HIGHER_ORDER, TYPELAYOUT_MAX_VARINT.
  rewrite !cast_Word_small by lia.
  rewrite !Z.leb_gt. repeat split; lia.
Qed.

(** *** Base-descriptor resolution *)

Lemma sizeof_Word_ge : 2 <= sizeof_Word.
Proof using word_bits_ge.
  unfold sizeof_Word. apply Z.div_le_lower_bound; lia.
Qed.

Lemma word_index_0 p : word_index p 0 = p.
Proof. unfold word_index. lia. Qed.

Lemma type_info_at_first_word m ti base args :
  type_info_at m ti base args ->
  m !! ti = Some (match args with [] => 0 | _ :: _ => base end).
Proof.
  intros (_ & _ & Hsub). destruct args as [|a args]; simpl in Hsub.
  - eapply lookup_weaken; [|exact Hsub]. apply lookup_singleton_eq.
  - eapply lookup_weaken; [|exact Hsub]. apply lookup_insert_eq.
Qed.

(** C4: MR_TYPEINFO_GET_BASE_TYPEINFO returns the type_info pointer
    itself when the first word of the type_info is zero, and the first
    word, read as the pointer to the base descriptor, otherwise; so a
    type_info with arguments resolves to the base_type_info stored at its
    element zero, and one without arguments to itself. *)
Theorem get_base_typeinfo_resolution (m : memory) (TypeInfo w : Z) :
  m !! TypeInfo = Some w ->
  (w = 0 -> MR_TYPEINFO_GET_BASE_TYPEINFO m TypeInfo = Some TypeInfo) /\
  (w <> 0 -> MR_TYPEINFO_GET_BASE_TYPEINFO m TypeInfo = Some w) /\
  (forall base args, type_info_at m TypeInfo base args ->
     MR_TYPEINFO_GET_BASE_TYPEINFO m TypeInfo = Some base /\
     (args <> [] -> w = base /\ word_at m TypeInfo 0 = Some base)).
Proof.
  intros Hw. unfold MR_TYPEINFO_GET_BASE_TYPEINFO, c_true. rewrite Hw. simpl.
  split; [|split].
  - intros ->. reflexivity.
  - intros Hne. destruct (Z.eqb_spec w 0); [contradiction|reflexivity].
  - intros base args Hat.
    pose proof (type_info_at_first_word _ _ _ _ Hat) as Hfirst.
    destruct Hat as (Hbase & Hself & _).
    rewrite Hw in Hfirst. injection Hfirst as ->.
    destruct args as [|a args].
    + rewrite (Hself eq_refl). split; [reflexivity|]. intros Hn. contradiction.
    + destruct (Z.eqb_spec base 0); [contradiction|]. simpl.
      split; [reflexivity|]. intros _. split; [reflexivity|].
      unfold word_at. rewrite word_index_0. exact Hw.
Qed.

(** *** The typeclass_info offsets *)

Lemma instance_arity_inv m tci A :
  MR_typeclass_info_instance_arity m tci = Some A <->
  exists tbl w, m !! tci = Some tbl /\ word_at m tbl 0 = Some w /\ A = cast_Integer w.
Proof.
  unfold MR_typeclass_info_instance_arity. split.
  - intros H. destruct (m !! tci) as [tbl|] eqn:Ht; simpl in H; [|discriminate].
    destruct (word_at m tbl 0) as [w|] eqn:Hw0; simpl in H; [|discriminate].
    injection H as <-. eauto.
  - intros (tbl & w & -> & Hw0 & ->). simpl. rewrite Hw0. reflexivity.
Qed.

Lemma class_method_frame m tci tbl N A' :
  m !! tci = Some tbl -> N <> 0 -> word_index tbl 0 <> tci ->
  MR_typeclass_info_class_method (<[word_index tbl 0 := A']> m) tci N =
  MR_typeclass_info_class_method m tci N.
Proof using word_bits_ge.
  intros Ht HN Hne. unfold MR_typeclass_info_class_method, word_at.
  rewrite lookup_insert_ne by exact Hne. rewrite Ht. simpl.
  apply lookup_insert_ne. unfold word_index.
  pose proof sizeof_Word_ge. nia.
Qed.

(** C2: with the instance arity A read from word 0 of the first-level
    table, MR_typeclass_info_superclass_info(tci, K) and
    MR_typeclass_info_type_info(tci, K) are the same word, the one at
    offset A + K of tci; MR_typeclass_info_class_method(tci, N) is word N
    of the first-level table, whatever the arity stored in that table
    is. *)
Theorem typeclass_info_offset_law (m : memory) (tci A K : Z) :
  MR_typeclass_info_instance_arity m tci = Some A ->
  MR_typeclass_info_superclass_info m tci K = MR_typeclass_info_type_info m tci K /\
  MR_typeclass_info_superclass_info m tci K = word_at m tci (Integer_add A K) /\
  (MR_INTEGER_MIN <= A + K <= MR_INTEGER_MAX ->
     MR_typeclass_info_superclass_info m tci K = word_at m tci (A + K) /\
     MR_typeclass_info_type_info m tci K = word_at m tci (A + K)) /\
  (exists tbl w, m !! tci = Some tbl /\
     word_at m tbl 0 = Some w /\ A = cast_Integer w /\
     (forall N, MR_typeclass_info_class_method m tci N = word_at m tbl N) /\
     (forall N A', N <> 0 -> word_index tbl 0 <> tci ->
        MR_typeclass_info_class_method (<[word_index tbl 0 := A']> m) tci N =
        MR_typeclass_info_class_method m tci N)).
Proof using word_bits_ge.
  intros HA.
  assert (Hsup : MR_typeclass_info_superclass_info m tci K
                 = word_at m tci (Integer_add A K)).
  { unfold MR_typeclass_info_superclass_info. rewrite HA. reflexivity. }
  split; [reflexivity|]. split; [exact Hsup|]. split.
  - intros Hr. change (MR_typeclass_info_type_info m tci K)
      with (MR_typeclass_info_superclass_info m tci K).
    rewrite Hsup. unfold Integer_add.
    rewrite (cast_Integer_small _ Hr). split; reflexivity.
  - apply instance_arity_inv in HA. destruct HA as (tbl & w & Ht & Hw0 & ->).
    exists tbl, w. split; [exact Ht|]. split; [exact Hw0|].
    split; [reflexivity|]. split.
    + intros N. unfold MR_typeclass_info_class_method. rewrite Ht. reflexivity.
    + intros N A' HN Hne. apply class_method_frame; assumption.
Qed.

(** *** Enum vectors *)

Hypothesis sizeof_int_pos : 0 < sizeof_int.
Hypothesis sizeof_int_le : sizeof_int <= sizeof_Word.

Lemma align_up_multiple k a : 0 < a -> align_up (k * a) a = k * a.
Proof.
  intros Ha. unfold align_up.
  replace (k * a + a - 1) with (k * a + (a - 1)) by lia.
  rewrite Z.div_add_l by lia. rewrite (Z.div_small (a - 1) a) by lia. lia.
Qed.

Lemma align_up_within off a : 0 < off <= a -> align_up off a = a.
Proof.
  intros H. unfold align_up.
  replace (off + a - 1) with (1 * a + (off - 1)) by lia.
  rewrite Z.div_add_l by lia. rewrite (Z.div_small (off - 1) a) by lia. lia.
Qed.

Lemma field_offsets_length off fs : length (field_offsets off fs) = length fs.
Proof.
  revert off. induction fs as [|f fs IH]; intros off; simpl; [reflexivity|].
  rewrite IH. reflexivity.
Qed.

Lemma field_offsets_words k n (i : nat) :
  (i < n)%nat ->
  field_offsets (k * sizeof_Word) (replicate n c_ConstString) !! i
  = Some ((k + Z.of_nat i) * sizeof_Word).
Proof using word_bits_ge.
  pose proof sizeof_Word_ge as HW.
  revert k i. induction n as [|n IH]; intros k i Hi; [lia|].
  simpl. unfold sizeof_ConstString.
  rewrite align_up_multiple by lia.
  destruct i as [|i]; simpl.
  - f_equal. lia.
  - replace (k * sizeof_Word + sizeof_Word) with ((k + 1) * sizeof_Word) by lia.
    rewrite IH by lia. f_equal. lia.
Qed.

Lemma enum_vector_offsets n (i : nat) :
  (i < 2 + n)%nat ->
  field_offsets 0 (MR_TypeLayout_EnumVector n) !! i = Some (Z.of_nat i * sizeof_Word).
Proof using word_bits_ge sizeof_int_pos sizeof_int_le.
  pose proof sizeof_Word_ge as HW. intros Hi.
  unfold MR_TypeLayout_EnumVector. simpl.
  replace (align_up 0 sizeof_int) with 0
    by (symmetry; apply (align_up_multiple 0 sizeof_int); lia).
  rewrite (align_up_within (0 + sizeof_int) sizeof_Word) by lia.
  destruct i as [|[|i]]; simpl.
  - reflexivity.
  - f_equal. lia.
  - replace (sizeof_Word + sizeof_Word) with (2 * sizeof_Word) by lia.
    rewrite field_offsets_words by lia. f_equal. lia.
Qed.

Lemma offsetof_functor1_words :
  offsetof_functor1 = TYPELAYOUT_ENUM_FUNCTOR_OFFSET * sizeof_Word.
Proof using word_bits_ge sizeof_int_pos sizeof_int_le.
  unfold offsetof_functor1. rewrite (enum_vector_offsets 1 2) by lia. reflexivity.
Qed.

Lemma offsetof_num_sharers_words : offsetof_num_sharers = sizeof_Word.
Proof using word_bits_ge sizeof_int_pos sizeof_int_le.
  unfold offsetof_num_sharers. rewrite (enum_vector_offsets 1 1) by lia.
  simpl. lia.
Qed.

Lemma enum_vector_offsets_NoDup n :
  NoDup (field_offsets 0 (MR_TypeLayout_EnumVector n)).
Proof using word_bits_ge sizeof_int_pos sizeof_int_le.
  pose proof sizeof_Word_ge as HW.
  apply NoDup_alt. intros i j x Hi Hj.
  assert (Hli : (i < 2 + n)%nat).
  { apply lookup_lt_Some in Hi. rewrite field_offsets_length in Hi.
    unfold MR_TypeLayout_EnumVector in Hi. simpl in Hi.
    rewrite length_replicate in Hi. lia. }
  assert (Hlj : (j < 2 + n)%nat).
  { apply lookup_lt_Some in Hj. rewrite field_offsets_length in Hj.
    unfold MR_TypeLayout_EnumVector in Hj. simpl in Hj.
    rewrite length_replicate in Hj. lia. }
  rewrite enum_vector_offsets in Hi by exact Hli.
  rewrite enum_vector_offsets in Hj by exact Hlj.
  injection Hi as <-. injection Hj as Hj. nia.
Qed.

Lemma struct_image_lookup base fs vals (i : nat) off v :
  NoDup (field_offsets 0 fs) -> length fs = length vals ->
  field_offsets 0 fs !! i = Some off -> vals !! i = Some v ->
  struct_image base fs vals !! (base + off) = Some v.
Proof.
  intros Hnd Hlen Hoff Hv. unfold struct_image.
  apply elem_of_list_to_map_1.
  - rewrite fst_zip by (rewrite length_fmap, field_offsets_length; lia).
    apply NoDup_fmap_2; [|exact Hnd]. intros a b Hab. lia.
  - apply (list_elem_of_lookup_2 _ i).
    rewrite lookup_zip_with, list_lookup_fmap, Hoff. simpl. rewrite Hv.
    reflexivity.
Qed.

Lemma enum_vector_image_lookup Vector is_enum functors (i : nat) v :
  (is_enum :: Z.of_nat (length functors) :: functors) !! i = Some v ->
  enum_vector_image Vector is_enum functors !! word_index Vector (Z.of_nat i) = Some v.
Proof using word_bits_ge sizeof_int_pos sizeof_int_le.
  intros Hv. unfold enum_vector_image, word_index.
  apply (struct_image_lookup _ _ _ i).
  - apply enum_vector_offsets_NoDup.
  - unfold MR_TypeLayout_EnumVector. simpl. rewrite length_replicate. reflexivity.
  - apply enum_vector_offsets. apply lookup_lt_Some in Hv. simpl in Hv. lia.
  - exact Hv.
Qed.

Lemma FUNCTOR_NAME_word_at m Vector v :
  MR_TYPELAYOUT_ENUM_VECTOR_FUNCTOR_NAME m Vector v
  = word_at m Vector (TYPELAYOUT_ENUM_FUNCTOR_OFFSET + v).
Proof using word_bits_ge sizeof_int_pos sizeof_int_le.
  unfold MR_TYPELAYOUT_ENUM_VECTOR_FUNCTOR_NAME, word_at, word_index.
  rewrite offsetof_functor1_words. unfold sizeof_ConstString. f_equal. lia.
Qed.

Lemma FUNCTOR_NAME_decodes m Vector is_enum functors (v : nat) :
  enum_vector_image Vector is_enum functors ⊆ m ->
  (v < length functors)%nat ->
  MR_TYPELAYOUT_ENUM_VECTOR_FUNCTOR_NAME m Vector (Z.of_nat v) = functors !! v.
Proof using word_bits_ge sizeof_int_pos sizeof_int_le.
  intros Hsub Hv. rewrite FUNCTOR_NAME_word_at.
  destruct (lookup_lt_is_Some_2 functors v Hv) as [name Hname].
  rewrite Hname. unfold word_at.
  eapply lookup_weaken; [|exact Hsub].
  replace (TYPELAYOUT_ENUM_FUNCTOR_OFFSET + Z.of_nat v) with (Z.of_nat (2 + v))
    by (unfold TYPELAYOUT_ENUM_FUNCTOR_OFFSET; lia).
  apply enum_vector_image_lookup. exact Hname.
Qed.

Lemma index_of_lookup_NoDup (l : list Z) (i : nat) x :
  NoDup l -> l !! i = Some x -> index_of x l = Some i.
Proof.
  intros Hnd. revert i. induction Hnd as [|y l Hnotin Hnd IH]; intros i Hi.
  - discriminate.
  - simpl. destruct i as [|i]; simpl in Hi.
    + injection Hi as ->. destruct (Z.eq_dec x x); [reflexivity|contradiction].
    + destruct (Z.eq_dec x y) as [->|Hne].
      * exfalso. apply Hnotin. eapply list_elem_of_lookup_2. exact Hi.
      * rewrite (IH i Hi). reflexivity.
Qed.

(** C6: decoding the enumeration value v reads the functor name at index
    v of the enum vector's functor list, which lies
    TYPELAYOUT_ENUM_FUNCTOR_OFFSET = 2 words plus v into the vector
    (right after enum_or_comp_const and num_sharers); so the values
    0, 1, ... decode to the constructors in declaration order, and the
    order of the values is the comparison order of the decoded
    constructors. *)
Theorem enum_vector_decode_order (m : memory) (Vector is_enum : Z) (functors : list Z) :
  enum_vector_image Vector is_enum functors ⊆ m ->
  TYPELAYOUT_ENUM_FUNCTOR_OFFSET = 2 /\
  offsetof_num_sharers = 1 * sizeof_Word /\
  offsetof_functor1 = TYPELAYOUT_ENUM_FUNCTOR_OFFSET * sizeof_Word /\
  (forall v, MR_TYPELAYOUT_ENUM_VECTOR_FUNCTOR_NAME m Vector v
             = word_at m Vector (TYPELAYOUT_ENUM_FUNCTOR_OFFSET + v)) /\
  MR_TYPELAYOUT_ENUM_VECTOR_NUM_FUNCTORS m Vector = Some (Z.of_nat (length functors)) /\
  (forall v, 0 <= v < Z.of_nat (length functors) ->
     MR_TYPELAYOUT_ENUM_VECTOR_FUNCTOR_NAME m Vector v = functors !! Z.to_nat v) /\
  enum_decode_all m Vector (length functors) = Some <$> functors /\
  (NoDup functors ->
   forall v1 v2, 0 <= v1 < Z.of_nat (length functors) ->
                 0 <= v2 < Z.of_nat (length functors) ->
     exists a b,
       MR_TYPELAYOUT_ENUM_VECTOR_FUNCTOR_NAME m Vector v1 = Some a /\
       MR_TYPELAYOUT_ENUM_VECTOR_FUNCTOR_NAME m Vector v2 = Some b /\
       enum_compare functors a b = Some (comparison_result (v1 ?= v2))).
Proof using word_bits_ge sizeof_int_pos sizeof_int_le.
  intros Hsub.
  assert (Hdec : forall v, 0 <= v < Z.of_nat (length functors) ->
            MR_TYPELAYOUT_ENUM_VECTOR_FUNCTOR_NAME m Vector v = functors !! Z.to_nat v).
  { intros v Hv. rewrite <- (Z2Nat.id v) at 1 by lia.
    apply (FUNCTOR_NAME_decodes m Vector is_enum functors); [exact Hsub|lia]. }
  split; [reflexivity|].
  split; [rewrite offsetof_num_sharers_words; lia|].
  split; [apply offsetof_functor1_words|].
  split; [apply FUNCTOR_NAME_word_at|].
  split; [|split; [exact Hdec|split]].
  - unfold MR_TYPELAYOUT_ENUM_VECTOR_NUM_FUNCTORS.
    rewrite offsetof_num_sharers_words.
    eapply lookup_weaken; [|exact Hsub].
    replace (Vector + sizeof_Word) with (word_index Vector (Z.of_nat 1))
      by (unfold word_index; lia).
    apply enum_vector_image_lookup. reflexivity.
  - unfold enum_decode_all. apply list_eq. intros i.
    rewrite !list_lookup_fmap.
    destruct (decide (i < length functors)%nat) as [Hi|Hi].
    + rewrite lookup_seq_lt by exact Hi. simpl.
      rewrite (FUNCTOR_NAME_decodes m Vector is_enum functors i Hsub Hi).
      destruct (lookup_lt_is_Some_2 functors i Hi) as [name ->]. reflexivity.
    + rewrite lookup_seq_ge by lia. rewrite lookup_ge_None_2 by lia. reflexivity.
  - intros Hnd v1 v2 Hv1 Hv2.
    destruct (lookup_lt_is_Some_2 functors (Z.to_nat v1) ltac:(lia)) as [a Ha].
    destruct (lookup_lt_is_Some_2 functors (Z.to_nat v2) ltac:(lia)) as [b Hb].
    exists a, b. rewrite (Hdec v1 Hv1), (Hdec v2 Hv2).
    split; [exact Ha|]. split; [exact Hb|].
    unfold enum_compare.
    rewrite (index_of_lookup_NoDup _ _ _ Hnd Ha), (index_of_lookup_NoDup _ _ _ Hnd Hb).
    simpl. rewrite Z2Nat.inj_compare by lia. reflexivity.
Qed.

(** *** Arrays of words *)

Lemma word_index_inj p i j : word_index p i = word_index p j -> i = j.
Proof using word_bits_ge.
  clear sizeof_int_pos sizeof_int_le.
  unfold word_index. pose proof sizeof_Word_ge. nia.
Qed.

Lemma words_image_lookup p ws (i : nat) w :
  ws !! i = Some w -> words_image p ws !! word_index p (Z.of_nat i) = Some w.
Proof using word_bits_ge.
  intros Hw. unfold words_image.
  pose proof (lookup_lt_Some _ _ _ Hw) as Hi.
  apply elem_of_list_to_map_1.
  - rewrite fst_zip by (rewrite length_fmap, length_seqZ; lia).
    apply NoDup_fmap_2; [|apply NoDup_seqZ].
    intros a b. apply word_index_inj.
  - apply (list_elem_of_lookup_2 _ i).
    rewrite lookup_zip_with, list_lookup_fmap, lookup_seqZ_lt by lia.
    simpl. rewrite Hw. reflexivity.
Qed.

Lemma words_image_word_at m p ws (i : nat) w :
  words_image p ws ⊆ m -> ws !! i = Some w -> word_at m p (Z.of_nat i) = Some w.
Proof using word_bits_ge.
  intros Hsub Hw. unfold word_at.
  eapply lookup_weaken; [|exact Hsub]. apply words_image_lookup, Hw.
Qed.

Lemma word_index_add p i j : word_index (word_index p i) j = word_index p (i + j).
Proof. unfold word_index. lia. Qed.

(** *** Simple vectors *)

Lemma simple_vector_arity m V args name tag :
  simple_vector_image V args name tag ⊆ m ->
  MR_TYPELAYOUT_SIMPLE_VECTOR_ARITY m V = Some (Z.of_nat (length args)).
Proof using word_bits_ge.
  intros Hsub.
  apply (words_image_word_at m V _ 0 _ Hsub). reflexivity.
Qed.

Lemma simple_vector_after_args m V args name tag (k : nat) w :
  simple_vector_image V args name tag ⊆ m ->
  [name; tag] !! k = Some w ->
  word_at m V (Z.of_nat (length args) + 1 + Z.of_nat k) = Some w.
Proof using word_bits_ge.
  intros Hsub Hw.
  replace (Z.of_nat (length args) + 1 + Z.of_nat k)
    with (Z.of_nat (S (length args + k))) by lia.
  apply (words_image_word_at m V _ _ _ Hsub).
  simpl. rewrite lookup_app_r by lia.
  replace (length args + k - length args)%nat with k by lia. exact Hw.
Qed.

Lemma simple_vector_functor_name m V args name tag :
  simple_vector_image V args name tag ⊆ m ->
  Z.of_nat (length args) + 2 < 2 ^ word_bits ->
  MR_TYPELAYOUT_SIMPLE_VECTOR_FUNCTOR_NAME m V = Some name.
Proof using word_bits_ge.
  intros Hsub Hfit. unfold MR_TYPELAYOUT_SIMPLE_VECTOR_FUNCTOR_NAME.
  rewrite (simple_vector_arity _ _ _ _ _ Hsub). simpl.
  unfold MR_TYPELAYOUT_SIMPLE_VECTOR_OFFSET_FOR_FUNCTOR_NAME.
  rewrite cast_Word_small by lia.
  replace (Z.of_nat (length args) + 1)
    with (Z.of_nat (length args) + 1 + Z.of_nat 0) by lia.
  apply (simple_vector_after_args m V args name tag 0 name Hsub). reflexivity.
Qed.

(** X1: the macros for simple vectors read back what a simple vector is
    made of: the arity is word 0, argument [i] is word [i] from
    [MR_TYPELAYOUT_SIMPLE_VECTOR_ARGS], and the functor name and the tag
    are the two words after the arguments, the name being at
    [arity + TYPELAYOUT_SIMPLE_FUNCTOR_OFFSET]. *)
Theorem simple_vector_decode (m : memory) (V : Z) (args : list Z) (name tag : Z) :
  simple_vector_image V args name tag ⊆ m ->
  Z.of_nat (length args) + 2 < 2 ^ word_bits ->
  MR_TYPELAYOUT_SIMPLE_VECTOR_ARITY m V = Some (Z.of_nat (length args)) /\
  (forall i : nat, (i < length args)%nat ->
     word_at m (MR_TYPELAYOUT_SIMPLE_VECTOR_ARGS V) (Z.of_nat i) = args !! i) /\
  MR_TYPELAYOUT_SIMPLE_VECTOR_FUNCTOR_NAME m V = Some name /\
  MR_TYPELAYOUT_SIMPLE_VECTOR_TAG m V = Some tag /\
  word_at m V (Z.of_nat (length args) + TYPELAYOUT_SIMPLE_FUNCTOR_OFFSET) = Some name.
Proof using word_bits_ge.
  intros Hsub Hfit.
  pose proof (simple_vector_arity _ _ _ _ _ Hsub) as Harity.
  split; [exact Harity|]. split; [|split; [|split]].
  - intros i Hi. unfold MR_TYPELAYOUT_SIMPLE_VECTOR_ARGS, word_at.
    rewrite word_index_add.
    destruct (lookup_lt_is_Some_2 args i Hi) as [a Ha]. rewrite Ha.
    replace (MR_TYPELAYOUT_SIMPLE_VECTOR_OFFSET_FOR_ARGS + Z.of_nat i)
      with (Z.of_nat (S i))
      by (unfold MR_TYPELAYOUT_SIMPLE_VECTOR_OFFSET_FOR_ARGS; lia).
    apply (words_image_word_at m V _ _ _ Hsub).
    simpl. rewrite lookup_app_l by lia. exact Ha.
  - apply (simple_vector_functor_name m V args name tag Hsub Hfit).
  - unfold MR_TYPELAYOUT_SIMPLE_VECTOR_TAG. rewrite Harity. simpl.
    unfold MR_TYPELAYOUT_SIMPLE_VECTOR_OFFSET_FOR_FUNCTOR_TAG.
    rewrite cast_Word_small by lia.
    replace (Z.of_nat (length args) + 2)
      with (Z.of_nat (length args) + 1 + Z.of_nat 1) by lia.
    apply (simple_vector_after_args m V args name tag 1 tag Hsub). reflexivity.
  - unfold TYPELAYOUT_SIMPLE_FUNCTOR_OFFSET.
    replace (Z.of_nat (length args) + 1)
      with (Z.of_nat (length args) + 1 + Z.of_nat 0) by lia.
    apply (simple_vector_after_args m V args name tag 0 name Hsub). reflexivity.
Qed.

(** *** Complicated vectors *)

Lemma complicated_vector_offsets n (i : nat) :
  (i < 1 + n)%nat ->
  field_offsets 0 (MR_TypeLayout_ComplicatedVector n) !! i
  = Some (Z.of_nat i * sizeof_Word).
Proof using word_bits_ge.
  clear sizeof_int_pos sizeof_int_le.
  pose proof sizeof_Word_ge as HW. intros Hi.
  unfold MR_TypeLayout_ComplicatedVector. simpl.
  replace (align_up 0 sizeof_Word) with 0
    by (symmetry; apply (align_up_multiple 0 sizeof_Word); lia).
  destruct i as [|i]; simpl; [reflexivity|].
  replace (0 + sizeof_Word) with (1 * sizeof_Word) by lia.
  change (replicate n c_Word) with (replicate n c_ConstString).
  rewrite field_offsets_words by lia. f_equal. lia.
Qed.

Lemma complicated_vector_image_lookup Vector simple_vectors (i : nat) v :
  (Z.of_nat (length simple_vectors) :: simple_vectors) !! i = Some v ->
  complicated_vector_image Vector simple_vectors !! word_index Vector (Z.of_nat i)
  = Some v.
Proof using word_bits_ge.
  clear sizeof_int_pos sizeof_int_le.
  pose proof sizeof_Word_ge as HW.
  intros Hv. unfold complicated_vector_image, word_index.
  pose proof (lookup_lt_Some _ _ _ Hv) as Hi. simpl in Hi.
  apply (struct_image_lookup _ _ _ i).
  - apply NoDup_alt. intros a b x Ha Hb.
    assert (Hla : (a < 1 + length simple_vectors)%nat).
    { apply lookup_lt_Some in Ha. rewrite field_offsets_length in Ha.
      unfold MR_TypeLayout_ComplicatedVector in Ha. simpl in Ha.
      rewrite length_replicate in Ha. lia. }
    assert (Hlb : (b < 1 + length simple_vectors)%nat).
    { apply lookup_lt_Some in Hb. rewrite field_offsets_length in Hb.
      unfold MR_TypeLayout_ComplicatedVector in Hb. simpl in Hb.
      rewrite length_replicate in Hb. lia. }
    rewrite complicated_vector_offsets in Ha by exact Hla.
    rewrite complicated_vector_offsets in Hb by exact Hlb.
    injection Ha as <-. injection Hb as Hb. nia.
  - unfold MR_TypeLayout_ComplicatedVector. simpl. rewrite length_replicate.
    reflexivity.
  - apply complicated_vector_offsets. lia.
  - exact Hv.
Qed.

(** X2: a complicated vector gives back its number of sharers and, for
    every [N] below it, its [N]th simple vector, counted from 0; and the
    functor name read from that simple vector is the name of the [N]th
    of the functors that share the tag. *)
Theorem complicated_vector_decode (m : memory) (Vector : Z)
    (sharers : list (Z * (list Z * Z * Z))) :
  complicated_vector_image Vector sharers.*1 ⊆ m ->
  Forall (fun '(V, (args, name, tag)) =>
            simple_vector_image V args name tag ⊆ m /\
            Z.of_nat (length args) + 2 < 2 ^ word_bits) sharers ->
  MR_TYPELAYOUT_COMPLICATED_VECTOR_NUM_SHARERS m Vector
  = Some (Z.of_nat (length sharers)) /\
  forall (N : nat) V args name tag,
    sharers !! N = Some (V, (args, name, tag)) ->
    MR_TYPELAYOUT_COMPLICATED_VECTOR_GET_SIMPLE_VECTOR m Vector (Z.of_nat N) = Some V /\
    (V' ← MR_TYPELAYOUT_COMPLICATED_VECTOR_GET_SIMPLE_VECTOR m Vector (Z.of_nat N);
     MR_TYPELAYOUT_SIMPLE_VECTOR_FUNCTOR_NAME m V') = Some name /\
    (V' ← MR_TYPELAYOUT_COMPLICATED_VECTOR_GET_SIMPLE_VECTOR m Vector (Z.of_nat N);
     MR_TYPELAYOUT_SIMPLE_VECTOR_ARITY m V') = Some (Z.of_nat (length args)).
Proof using word_bits_ge.
  clear sizeof_int_pos sizeof_int_le.
  intros Hsub Hsimple. split.
  - unfold MR_TYPELAYOUT_COMPLICATED_VECTOR_NUM_SHARERS,
      offsetof_complicated_num_sharers.
    rewrite (complicated_vector_offsets 1 0) by lia. simpl.
    match goal with
    | |- m !! ?a = _ =>
        replace a with (word_index Vector (Z.of_nat 0)) by (unfold word_index; lia)
    end.
    eapply lookup_weaken; [|exact Hsub].
    apply complicated_vector_image_lookup. simpl. rewrite length_fmap. reflexivity.
  - intros N V args name tag HN.
    assert (Hget : MR_TYPELAYOUT_COMPLICATED_VECTOR_GET_SIMPLE_VECTOR m Vector (Z.of_nat N)
                   = Some V).
    { unfold MR_TYPELAYOUT_COMPLICATED_VECTOR_GET_SIMPLE_VECTOR, offsetof_simple_vector1.
      rewrite (complicated_vector_offsets 1 1) by lia. simpl.
      match goal with
      | |- m !! ?a = _ =>
          replace a with (word_index Vector (Z.of_nat (S N)))
            by (unfold word_index; lia)
      end.
      eapply lookup_weaken; [|exact Hsub].
      apply complicated_vector_image_lookup. simpl.
      rewrite list_lookup_fmap, HN. reflexivity. }
    rewrite Hget. simpl. split; [reflexivity|].
    rewrite Forall_lookup in Hsimple. specialize (Hsimple N _ HN).
    simpl in Hsimple. destruct Hsimple as [Himage Hfit].
    split.
    + apply (simple_vector_functor_name m V args name tag Himage Hfit).
    + apply (simple_vector_arity m V args name tag Himage).
Qed.

(** *** No_tag vectors and equivalent vectors *)

Lemma no_tag_vector_offsets (i : nat) :
  (i < 3)%nat ->
  offsetof_field MR_TypeLayout_NoTagVector i = Z.of_nat i * sizeof_Word.
Proof using word_bits_ge sizeof_int_pos sizeof_int_le.
  intros Hi. unfold offsetof_field.
  change MR_TypeLayout_NoTagVector with (MR_TypeLayout_EnumVector 1).
  rewrite enum_vector_offsets by lia. reflexivity.
Qed.

Lemma equiv_vector_offsets (i : nat) :
  (i < 2)%nat ->
  offsetof_field MR_TypeLayout_EquivVector i = Z.of_nat i * sizeof_Word.
Proof using word_bits_ge sizeof_int_pos sizeof_int_le.
  intros Hi. unfold offsetof_field.
  change MR_TypeLayout_EquivVector with (MR_TypeLayout_EnumVector 0).
  rewrite enum_vector_offsets by lia. reflexivity.
Qed.

Lemma no_tag_vector_image_lookup Vector is_no_tag arg name (i : nat) v :
  [is_no_tag; arg; name] !! i = Some v ->
  no_tag_vector_image Vector is_no_tag arg name
    !! (Vector + offsetof_field MR_TypeLayout_NoTagVector i) = Some v.
Proof using word_bits_ge sizeof_int_pos sizeof_int_le.
  intros Hv. pose proof (lookup_lt_Some _ _ _ Hv) as Hi. simpl in Hi.
  unfold no_tag_vector_image.
  apply (struct_image_lookup _ _ _ i); [|reflexivity| |exact Hv].
  - change MR_TypeLayout_NoTagVector with (MR_TypeLayout_EnumVector 1).
    apply enum_vector_offsets_NoDup.
  - unfold offsetof_field.
    change MR_TypeLayout_NoTagVector with (MR_TypeLayout_EnumVector 1).
    rewrite enum_vector_offsets by lia. reflexivity.
Qed.

Lemma equiv_vector_image_lookup Vector is_no_tag equiv_type (i : nat) v :
  [is_no_tag; equiv_type] !! i = Some v ->
  equiv_vector_image Vector is_no_tag equiv_type
    !! (Vector + offsetof_field MR_TypeLayout_EquivVector i) = Some v.
Proof using word_bits_ge sizeof_int_pos sizeof_int_le.
  intros Hv. pose proof (lookup_lt_Some _ _ _ Hv) as Hi. simpl in Hi.
  unfold equiv_vector_image.
  apply (struct_image_lookup _ _ _ i); [|reflexivity| |exact Hv].
  - change MR_TypeLayout_EquivVector with (MR_TypeLayout_EnumVector 0).
    apply enum_vector_offsets_NoDup.
  - unfold offsetof_field.
    change MR_TypeLayout_EquivVector with (MR_TypeLayout_EnumVector 0).
    rewrite enum_vector_offsets by lia. reflexivity.
Qed.

(** X3: the no_tag vector and the equivalent vector, which share the
    layout tag 3, are told apart by their common first field:
    [MR_TYPELAYOUT_EQUIV_IS_EQUIV] is the negation of
    [MR_TYPELAYOUT_NO_TAG_VECTOR_IS_NO_TAG] on every vector; the
    equivalent type and the argument of the no_tag functor are the same
    word, word [MR_TYPELAYOUT_EQUIV_OFFSET_FOR_TYPE] of the vector, and
    the name of the no_tag functor is the word after it. Each macro gives
    back the field the vector was made with. *)
Theorem no_tag_equiv_overlay (m : memory) (Vector : Z) :
  MR_TYPELAYOUT_EQUIV_IS_EQUIV m Vector
  = (fun is_no_tag => negb (c_true is_no_tag))
      <$> MR_TYPELAYOUT_NO_TAG_VECTOR_IS_NO_TAG m Vector /\
  MR_TYPELAYOUT_EQUIV_TYPE m Vector = m !! MR_TYPELAYOUT_NO_TAG_VECTOR_ARGS Vector /\
  MR_TYPELAYOUT_EQUIV_TYPE m Vector
  = word_at m Vector MR_TYPELAYOUT_EQUIV_OFFSET_FOR_TYPE /\
  MR_TYPELAYOUT_NO_TAG_VECTOR_FUNCTOR_NAME m Vector = word_at m Vector 2 /\
  (forall is_no_tag arg name,
     no_tag_vector_image Vector is_no_tag arg name ⊆ m -> is_no_tag <> 0 ->
     MR_TYPELAYOUT_NO_TAG_VECTOR_IS_NO_TAG m Vector = Some is_no_tag /\
     MR_TYPELAYOUT_EQUIV_IS_EQUIV m Vector = Some false /\
     m !! MR_TYPELAYOUT_NO_TAG_VECTOR_ARGS Vector = Some arg /\
     MR_TYPELAYOUT_NO_TAG_VECTOR_FUNCTOR_NAME m Vector = Some name) /\
  (forall equiv_type,
     equiv_vector_image Vector 0 equiv_type ⊆ m ->
     MR_TYPELAYOUT_EQUIV_IS_EQUIV m Vector = Some true /\
     MR_TYPELAYOUT_NO_TAG_VECTOR_IS_NO_TAG m Vector = Some 0 /\
     MR_TYPELAYOUT_EQUIV_TYPE m Vector = Some equiv_type).
Proof using word_bits_ge sizeof_int_pos sizeof_int_le.
  assert (Hfirst : offsetof_field MR_TypeLayout_EquivVector 0
                   = offsetof_field MR_TypeLayout_NoTagVector 0)
    by (rewrite equiv_vector_offsets, no_tag_vector_offsets by lia; reflexivity).
  assert (Hsecond : offsetof_field MR_TypeLayout_EquivVector 1
                    = offsetof_field MR_TypeLayout_NoTagVector 1)
    by (rewrite equiv_vector_offsets, no_tag_vector_offsets by lia; reflexivity).
  assert (Hequiv : MR_TYPELAYOUT_EQUIV_IS_EQUIV m Vector
                   = (fun is_no_tag => negb (c_true is_no_tag))
                       <$> MR_TYPELAYOUT_NO_TAG_VECTOR_IS_NO_TAG m Vector).
  { unfold MR_TYPELAYOUT_EQUIV_IS_EQUIV, MR_TYPELAYOUT_NO_TAG_VECTOR_IS_NO_TAG.
    rewrite Hfirst. reflexivity. }
  assert (Htype : MR_TYPELAYOUT_EQUIV_TYPE m Vector
                  = m !! MR_TYPELAYOUT_NO_TAG_VECTOR_ARGS Vector).
  { unfold MR_TYPELAYOUT_EQUIV_TYPE, MR_TYPELAYOUT_NO_TAG_VECTOR_ARGS.
    rewrite Hsecond. reflexivity. }
  split; [exact Hequiv|]. split; [exact Htype|]. split; [|split; [|split]].
  - unfold MR_TYPELAYOUT_EQUIV_TYPE, word_at, word_index,
      MR_TYPELAYOUT_EQUIV_OFFSET_FOR_TYPE.
    rewrite equiv_vector_offsets by lia. reflexivity.
  - unfold MR_TYPELAYOUT_NO_TAG_VECTOR_FUNCTOR_NAME, word_at, word_index.
    rewrite no_tag_vector_offsets by lia. reflexivity.
  - intros is_no_tag arg name Hsub Hne.
    assert (Hflag : MR_TYPELAYOUT_NO_TAG_VECTOR_IS_NO_TAG m Vector = Some is_no_tag).
    { eapply lookup_weaken; [|exact Hsub].
      apply (no_tag_vector_image_lookup _ _ _ _ 0). reflexivity. }
    split; [exact Hflag|]. split.
    + rewrite Hequiv, Hflag. simpl. unfold c_true.
      destruct (Z.eqb_spec is_no_tag 0); [contradiction|reflexivity].
    + split.
      * eapply lookup_weaken; [|exact Hsub].
        apply (no_tag_vector_image_lookup _ _ _ _ 1). reflexivity.
      * eapply lookup_weaken; [|exact Hsub].
        apply (no_tag_vector_image_lookup _ _ _ _ 2). reflexivity.
  - intros equiv_type Hsub.
    assert (Hflag : MR_TYPELAYOUT_NO_TAG_VECTOR_IS_NO_TAG m Vector = Some 0).
    { unfold MR_TYPELAYOUT_NO_TAG_VECTOR_IS_NO_TAG. rewrite <- Hfirst.
      eapply lookup_weaken; [|exact Hsub].
      apply (equiv_vector_image_lookup _ _ _ 0). reflexivity. }
    split; [rewrite Hequiv, Hflag; reflexivity|]. split; [exact Hflag|].
    eapply lookup_weaken; [|exact Hsub].
    apply (equiv_vector_image_lookup _ _ _ 1). reflexivity.
Qed.

(** *** base_type_functors of an enumeration *)

Lemma NUM_FUNCTORS_decodes m Vector is_enum functors :
  enum_vector_image Vector is_enum functors ⊆ m ->
  MR_TYPELAYOUT_ENUM_VECTOR_NUM_FUNCTORS m Vector = Some (Z.of_nat (length functors)).
Proof using word_bits_ge sizeof_int_pos sizeof_int_le.
  intros Hsub. unfold MR_TYPELAYOUT_ENUM_VECTOR_NUM_FUNCTORS.
  rewrite offsetof_num_sharers_words.
  eapply lookup_weaken; [|exact Hsub].
  replace (Vector + sizeof_Word) with (word_index Vector (Z.of_nat 1))
    by (unfold word_index; lia).
  apply enum_vector_image_lookup. reflexivity.
Qed.

(** X4: from the base_type_functors of an enumeration, whose indicator
    is [MR_TYPEFUNCTORS_ENUM] and whose next word points to the enum
    vector, [MR_TYPEFUNCTORS_ENUM_NUM_FUNCTORS] gives the number of
    constructors and the enum vector reached through
    [MR_TYPEFUNCTORS_ENUM_FUNCTORS] names constructor [v] at index
    [v]. *)
Theorem enum_functors_decode (m : memory) (Functors Vector : Z) (functors : list Z) :
  words_image Functors [MR_TYPEFUNCTORS_ENUM; Vector] ⊆ m ->
  enum_vector_image Vector 1 functors ⊆ m ->
  MR_TYPEFUNCTORS_INDICATOR m Functors = Some MR_TYPEFUNCTORS_ENUM /\
  MR_TYPEFUNCTORS_ENUM_FUNCTORS m Functors = Some Vector /\
  MR_TYPEFUNCTORS_ENUM_NUM_FUNCTORS m Functors = Some (Z.of_nat (length functors)) /\
  forall v : nat, (v < length functors)%nat ->
    (V ← MR_TYPEFUNCTORS_ENUM_FUNCTORS m Functors;
     MR_TYPELAYOUT_ENUM_VECTOR_FUNCTOR_NAME m V (Z.of_nat v)) = functors !! v.
Proof using word_bits_ge sizeof_int_pos sizeof_int_le.
  intros Htable Hvector.
  assert (Hvec : MR_TYPEFUNCTORS_ENUM_FUNCTORS m Functors = Some Vector).
  { apply (words_image_word_at m Functors _ 1 _ Htable). reflexivity. }
  split.
  { apply (words_image_word_at m Functors _ 0 _ Htable). reflexivity. }
  split; [exact Hvec|]. split.
  - unfold MR_TYPEFUNCTORS_ENUM_NUM_FUNCTORS. rewrite Hvec. simpl.
    apply (NUM_FUNCTORS_decodes m Vector 1 functors Hvector).
  - intros v Hv. rewrite Hvec. simpl.
    apply (FUNCTOR_NAME_decodes m Vector 1 functors v Hvector Hv).
Qed.

(** *** The fields of a type_info, through its base_type_info *)

Lemma type_info_at_arg m ti base args (i : nat) :
  type_info_at m ti base args -> (i < length args)%nat ->
  word_at m ti (OFFSET_FOR_ARG_TYPE_INFOS + Z.of_nat i) = args !! i.
Proof using word_bits_ge.
  clear sizeof_int_pos sizeof_int_le.
  intros (_ & _ & Hsub) Hi.
  destruct (lookup_lt_is_Some_2 args i Hi) as [a Ha]. rewrite Ha.
  destruct args as [|a0 args]; [simpl in Hi; lia|].
  unfold type_info_image in Hsub. unfold word_at.
  eapply lookup_weaken; [|exact Hsub].
  pose proof sizeof_Word_ge as HW.
  apply elem_of_list_to_map_1'.
  - intros y Hy. apply elem_of_cons in Hy. destruct Hy as [Hy|Hy].
    + injection Hy as Hkey _. unfold word_index, OFFSET_FOR_ARG_TYPE_INFOS in Hkey. nia.
    + apply list_elem_of_lookup in Hy. destruct Hy as [j Hj].
      rewrite list_lookup_imap in Hj.
      destruct ((a0 :: args) !! j) as [aj|] eqn:Haj; [|discriminate].
      simpl in Hj. injection Hj as Hkey <-.
      apply word_index_inj in Hkey.
      assert (j = i) by lia. subst j. congruence.
  - apply list_elem_of_further. apply (list_elem_of_lookup_2 _ i).
    rewrite list_lookup_imap, Ha. reflexivity.
Qed.

Lemma base_type_info_word m base b (i : nat) w :
  base_type_info_image base b ⊆ m ->
  [bti_arity b; bti_unify_pred b; bti_index_pred b; bti_compare_pred b;
   bti_layout b; bti_functors b; bti_module_name b; bti_name b] !! i = Some w ->
  word_at m base (Z.of_nat i) = Some w.
Proof using word_bits_ge.
  intros Hsub Hw. apply (words_image_word_at m base _ i w Hsub Hw).
Qed.

(** X5: through [MR_TYPEINFO_GET_BASE_TYPEINFO], a type_info gives the
    fields of the base_type_info of its type constructor, whether it has
    arguments or, having none, is that base_type_info itself; the arity
    read there is the number of the argument type_infos, which are the
    words of the type_info from [OFFSET_FOR_ARG_TYPE_INFOS] on. *)
Theorem type_info_fields_through_base (m : memory) (ti base : Z)
    (b : base_type_info) (args : list Z) :
  type_info_at m ti base args ->
  base_type_info_image base b ⊆ m ->
  bti_arity b = Z.of_nat (length args) ->
  (Base ← MR_TYPEINFO_GET_BASE_TYPEINFO m ti;
   MR_BASE_TYPEINFO_GET_TYPE_ARITY m Base) = Some (Z.of_nat (length args)) /\
  (Base ← MR_TYPEINFO_GET_BASE_TYPEINFO m ti;
   MR_BASE_TYPEINFO_GET_TYPELAYOUT m Base) = Some (bti_layout b) /\
  (Base ← MR_TYPEINFO_GET_BASE_TYPEINFO m ti;
   MR_BASE_TYPEINFO_GET_TYPEFUNCTORS m Base) = Some (bti_functors b) /\
  (Base ← MR_TYPEINFO_GET_BASE_TYPEINFO m ti;
   MR_BASE_TYPEINFO_GET_TYPE_MODULE_NAME m Base) = Some (bti_module_name b) /\
  (Base ← MR_TYPEINFO_GET_BASE_TYPEINFO m ti;
   MR_BASE_TYPEINFO_GET_TYPE_NAME m Base) = Some (bti_name b) /\
  (forall Tag, (Base ← MR_TYPEINFO_GET_BASE_TYPEINFO m ti;
                MR_BASE_TYPEINFO_GET_TYPELAYOUT_ENTRY m Base Tag)
               = word_at m (bti_layout b) Tag) /\
  (forall i : nat, (i < length args)%nat ->
     word_at m ti (OFFSET_FOR_ARG_TYPE_INFOS + Z.of_nat i) = args !! i) /\
  (args = [] -> m !! ti = Some (bti_arity b)).
Proof using word_bits_ge.
  clear sizeof_int_pos sizeof_int_le.
  intros Hat Himage Harity.
  assert (Hbase : MR_TYPEINFO_GET_BASE_TYPEINFO m ti = Some base).
  { pose proof (type_info_at_first_word _ _ _ _ Hat) as Hfirst.
    destruct Hat as (Hnz & Hself & _).
    unfold MR_TYPEINFO_GET_BASE_TYPEINFO. rewrite Hfirst. simpl.
    destruct args as [|a args]; simpl.
    - rewrite (Hself eq_refl). reflexivity.
    - unfold c_true. destruct (Z.eqb_spec base 0); [contradiction|reflexivity]. }
  rewrite Hbase. simpl.
  assert (Hword : forall (i : nat) w,
             [bti_arity b; bti_unify_pred b; bti_index_pred b; bti_compare_pred b;
              bti_layout b; bti_functors b; bti_module_name b; bti_name b] !! i = Some w ->
             m !! (base + Z.of_nat i * sizeof_Word) = Some w).
  { intros i w Hw. apply (base_type_info_word m base b i w Himage Hw). }
  split.
  { unfold MR_BASE_TYPEINFO_GET_TYPE_ARITY. rewrite <- Harity.
    apply (base_type_info_word m base b 0 _ Himage). reflexivity. }
  split; [apply (base_type_info_word m base b 4 _ Himage); reflexivity|].
  split; [apply (base_type_info_word m base b 5 _ Himage); reflexivity|].
  split; [apply (Hword 6%nat); reflexivity|].
  split; [apply (Hword 7%nat); reflexivity|].
  split.
  { intros Tag. unfold MR_BASE_TYPEINFO_GET_TYPELAYOUT_ENTRY.
    assert (Hlayout : MR_BASE_TYPEINFO_GET_TYPELAYOUT m base = Some (bti_layout b))
      by (apply (base_type_info_word m base b 4 _ Himage); reflexivity).
    rewrite Hlayout. reflexivity. }
  split; [intros i Hi; apply (type_info_at_arg m ti base args i Hat Hi)|].
  intros ->. destruct Hat as (_ & Hself & Hsub). rewrite (Hself eq_refl).
  replace base with (word_index base (Z.of_nat 0)) at 1 by (unfold word_index; lia).
  apply (base_type_info_word m base b 0 _ Himage). reflexivity.
Qed.

(** *** Higher-order types *)

Lemma GET_HOT_BASE_TYPE_INFO_cases T :
  0 <= base_type_info_pred_0 < 2 ^ word_bits ->
  0 <= base_type_info_func_0 < 2 ^ word_bits ->
  MR_TYPECTOR_GET_HOT_BASE_TYPE_INFO T
  = if String.eqb (MR_TYPECTOR_GET_HOT_NAME T) "pred"
    then MR_BASE_TYPEINFO_HO_PRED else MR_BASE_TYPEINFO_HO_FUNC.
Proof using Type.
  intros Hpred Hfunc.
  unfold MR_TYPECTOR_GET_HOT_BASE_TYPE_INFO, MR_TYPECTOR_GET_HOT_NAME.
  destruct (c_true (Z.rem (cast_Integer T) 2)); simpl;
    apply Z.mod_small; assumption.
Qed.

(** X6: the base_type_info that [MR_TYPECTOR_GET_HOT_BASE_TYPE_INFO]
    gives for a packed higher-order arity passes [MR_BASE_TYPEINFO_IS_HO],
    whatever the packed value; it is that of [pred] exactly when
    [MR_TYPECTOR_GET_HOT_NAME] is "pred". So the packed arity of a
    predicate gives a base_type_info for which
    [MR_BASE_TYPEINFO_IS_HO_PRED] holds and [MR_BASE_TYPEINFO_IS_HO_FUNC]
    does not, and that of a function the other way round. *)
Theorem higher_order_base_type_info :
  0 <= base_type_info_pred_0 < 2 ^ word_bits ->
  0 <= base_type_info_func_0 < 2 ^ word_bits ->
  base_type_info_pred_0 <> base_type_info_func_0 ->
  (forall T,
     MR_BASE_TYPEINFO_IS_HO (MR_TYPECTOR_GET_HOT_BASE_TYPE_INFO T) = true /\
     (MR_BASE_TYPEINFO_IS_HO_PRED (MR_TYPECTOR_GET_HOT_BASE_TYPE_INFO T) = true
      <-> MR_TYPECTOR_GET_HOT_NAME T = "pred"%string) /\
     (MR_BASE_TYPEINFO_IS_HO_FUNC (MR_TYPECTOR_GET_HOT_BASE_TYPE_INFO T) = true
      <-> MR_TYPECTOR_GET_HOT_NAME T = "func"%string)) /\
  (forall N, packable_arity N ->
     MR_TYPECTOR_GET_HOT_BASE_TYPE_INFO (MR_TYPECTOR_MAKE_PRED N)
     = MR_BASE_TYPEINFO_HO_PRED /\
     MR_TYPECTOR_GET_HOT_BASE_TYPE_INFO (MR_TYPECTOR_MAKE_FUNC N)
     = MR_BASE_TYPEINFO_HO_FUNC /\
     MR_BASE_TYPEINFO_IS_HO_FUNC
       (MR_TYPECTOR_GET_HOT_BASE_TYPE_INFO (MR_TYPECTOR_MAKE_PRED N)) = false /\
     MR_BASE_TYPEINFO_IS_HO_PRED
       (MR_TYPECTOR_GET_HOT_BASE_TYPE_INFO (MR_TYPECTOR_MAKE_FUNC N)) = false).
Proof using word_bits_ge.
  clear sizeof_int_pos sizeof_int_le.
  intros Hpred Hfunc Hne.
  assert (Hname : forall T, MR_TYPECTOR_GET_HOT_NAME T = "pred"%string
                            \/ MR_TYPECTOR_GET_HOT_NAME T = "func"%string).
  { intros T. unfold MR_TYPECTOR_GET_HOT_NAME.
    destruct (c_true (Z.rem (cast_Integer T) 2)); auto. }
  split.
  - intros T. rewrite (GET_HOT_BASE_TYPE_INFO_cases T Hpred Hfunc).
    unfold MR_BASE_TYPEINFO_IS_HO, MR_BASE_TYPEINFO_IS_HO_PRED,
      MR_BASE_TYPEINFO_IS_HO_FUNC, MR_BASE_TYPEINFO_HO_PRED, MR_BASE_TYPEINFO_HO_FUNC.
    destruct (Hname T) as [-> | ->]; simpl; rewrite Z.eqb_refl.
    + split; [apply orb_true_r|]. split; [tauto|].
      split; [|discriminate]. intros Heq. apply Z.eqb_eq in Heq. contradiction.
    + split; [reflexivity|]. split; [|tauto].
      split; [|discriminate]. intros Heq. apply Z.eqb_eq in Heq.
      symmetry in Heq. contradiction.
  - intros N HN.
    rewrite !(GET_HOT_BASE_TYPE_INFO_cases _ Hpred Hfunc).
    rewrite (MAKE_PRED_packable N HN), (MAKE_FUNC_packable N HN).
    rewrite (GET_HOT_NAME_even N HN), (GET_HOT_NAME_odd N HN). simpl.
    unfold MR_BASE_TYPEINFO_IS_HO_PRED, MR_BASE_TYPEINFO_IS_HO_FUNC,
      MR_BASE_TYPEINFO_HO_PRED, MR_BASE_TYPEINFO_HO_FUNC.
    repeat split; try reflexivity; apply Z.eqb_neq; congruence.
Qed.

(** X7: in the type_info of a higher-order type, whose first word
    points to the base_type_info shared by all of them, the arity is the
    word at [TYPEINFO_OFFSET_FOR_PRED_ARITY] and argument [i] the word at
    [TYPEINFO_OFFSET_FOR_PRED_ARGS + i]: the arity takes the place that
    the first argument has in the type_info of a first-order type, so
    that argument [i] read at [OFFSET_FOR_ARG_TYPE_INFOS + i + 1] is the
    same word. *)
Theorem higher_order_type_info_layout (m : memory) (ti base arity : Z)
    (args : list Z) :
  higher_order_type_info_image ti base arity args ⊆ m ->
  base <> 0 ->
  MR_INTEGER_MIN <= arity <= MR_INTEGER_MAX ->
  MR_TYPEINFO_GET_BASE_TYPEINFO m ti = Some base /\
  MR_TYPEINFO_GET_HIGHER_ARITY m ti = Some arity /\
  word_at m ti OFFSET_FOR_ARG_TYPE_INFOS = Some arity /\
  forall i : nat, (i < length args)%nat ->
    word_at m ti (TYPEINFO_OFFSET_FOR_PRED_ARGS + Z.of_nat i) = args !! i /\
    word_at m ti (OFFSET_FOR_ARG_TYPE_INFOS + Z.of_nat i + 1) = args !! i.
Proof using word_bits_ge.
  clear sizeof_int_pos sizeof_int_le.
  intros Hsub Hbase Harity. unfold higher_order_type_info_image in Hsub.
  assert (Hword : forall (i : nat) w, (base :: arity :: args) !! i = Some w ->
                                      word_at m ti (Z.of_nat i) = Some w)
    by (intros i w Hw; apply (words_image_word_at m ti _ i w Hsub Hw)).
  assert (Hfirst : m !! ti = Some base).
  { replace ti with (word_index ti (Z.of_nat 0)) by (unfold word_index; lia).
    apply (Hword 0%nat). reflexivity. }
  assert (Hsecond : word_at m ti 1 = Some arity) by (apply (Hword 1%nat); reflexivity).
  split.
  { unfold MR_TYPEINFO_GET_BASE_TYPEINFO. rewrite Hfirst. simpl. unfold c_true.
    destruct (Z.eqb_spec base 0); [contradiction|reflexivity]. }
  split.
  { unfold MR_TYPEINFO_GET_HIGHER_ARITY, TYPEINFO_OFFSET_FOR_PRED_ARITY.
    rewrite Hsecond. simpl. rewrite cast_Integer_small by exact Harity. reflexivity. }
  split; [exact Hsecond|].
  intros i Hi. destruct (lookup_lt_is_Some_2 args i Hi) as [a Ha]. rewrite Ha.
  unfold TYPEINFO_OFFSET_FOR_PRED_ARGS, OFFSET_FOR_ARG_TYPE_INFOS.
  replace (1 + Z.of_nat i + 1) with (2 + Z.of_nat i) by lia.
  replace (2 + Z.of_nat i) with (Z.of_nat (S (S i))) by lia.
  split; apply Hword; exact Ha.
Qed.

(** *** [MR_bytes_to_words] *)

(** X8: [MR_bytes_to_words(x)] is the least number of words that hold
    [x] bytes, as long as [x + sizeof(MR_Word) - 1] is a [size_t]; for
    the larger [x] the sum wraps around and the result is 0. *)
Theorem bytes_to_words_ceiling (x : Z) :
  sizeof_Word < 2 ^ size_t_bits ->
  0 <= x < 2 ^ size_t_bits ->
  (x + sizeof_Word - 1 < 2 ^ size_t_bits ->
     x <= MR_bytes_to_words x * sizeof_Word < x + sizeof_Word /\
     (forall n, x <= n * sizeof_Word -> MR_bytes_to_words x <= n) /\
     (MR_bytes_to_words x = 0 <-> x = 0)) /\
  (2 ^ size_t_bits <= x + sizeof_Word - 1 -> MR_bytes_to_words x = 0).
Proof using word_bits_ge.
  clear sizeof_int_pos sizeof_int_le.
  pose proof sizeof_Word_ge as HW. intros Hsize Hx.
  unfold MR_bytes_to_words, cast_size_t.
  rewrite (Z.mod_small x) by lia.
  split.
  - intros Hfit.
    assert (Hsum : ((x + sizeof_Word) mod 2 ^ size_t_bits - 1) mod 2 ^ size_t_bits
                   = x + sizeof_Word - 1).
    { destruct (Z.eq_dec (x + sizeof_Word) (2 ^ size_t_bits)) as [Heq|Hneq].
      - rewrite Heq, Z.mod_same by lia.
        replace (0 - 1) with (-1 + 1 * 2 ^ size_t_bits - 2 ^ size_t_bits + 0) by lia.
        replace (-1 + 1 * 2 ^ size_t_bits - 2 ^ size_t_bits + 0)
          with (2 ^ size_t_bits - 1 + (-1) * 2 ^ size_t_bits) by lia.
        rewrite Z.mod_add by lia. rewrite Z.mod_small by lia. lia.
      - rewrite (Z.mod_small (x + sizeof_Word)) by lia.
        rewrite Z.mod_small by lia. reflexivity. }
    rewrite Hsum.
    set (r := (x + sizeof_Word - 1) / sizeof_Word).
    assert (Hdiv : x + sizeof_Word - 1
                   = sizeof_Word * r + (x + sizeof_Word - 1) mod sizeof_Word)
      by (apply Z.div_mod; lia).
    pose proof (Z.mod_pos_bound (x + sizeof_Word - 1) sizeof_Word ltac:(lia)) as Hrem.
    split; [fold r; nia|]. split.
    + intros n Hn. fold r.
      assert (Hlt : sizeof_Word * r < sizeof_Word * (n + 1)) by nia.
      apply Z.mul_lt_mono_pos_l in Hlt; lia.
    + fold r. split; [intros Hr; nia|].
      intros ->. unfold r. apply Z.div_small. lia.
  - intros Hwrap.
    assert (Hsum : (x + sizeof_Word) mod 2 ^ size_t_bits
                   = x + sizeof_Word - 2 ^ size_t_bits).
    { replace (x + sizeof_Word)
        with (x + sizeof_Word - 2 ^ size_t_bits + 1 * 2 ^ size_t_bits) at 1 by lia.
      rewrite Z.mod_add by lia. apply Z.mod_small. lia. }
    rewrite Hsum. rewrite Z.mod_small by lia. apply Z.div_small. lia.
Qed.

End WithWordSize.

(** *** The theorems on a 64-bit machine *)

(** The round trip of the arity 1024, with words of 64 bits. *)
Lemma hot_arity_roundtrip_witness :
  16 <= 64 /\ packable_arity 64 1024 /\ hot_roundtrip_at 64 1024.
Proof.
  assert (Hbits : 16 <= 64) by lia.
  assert (Hpack : packable_arity 64 1024) by (split; vm_compute; discriminate).
  split; [exact Hbits|]. split; [exact Hpack|].
  exact (proj1 (hot_arity_roundtrip 64 Hbits) 1024 Hpack).
Defined.

(** A predicate of arity 513 is not classified as higher-order, and its
    arity is still recovered. *)
Lemma higher_order_test_is_variable_test_witness :
  16 <= 64 /\ packable_arity 64 513 /\
  MR_TYPECTOR_IS_HIGHER_ORDER 64 (MR_TYPECTOR_MAKE_PRED 64 513) = false /\
  MR_TYPECTOR_GET_HOT_ARITY 64 (MR_TYPECTOR_MAKE_PRED 64 513) = 513.
Proof.
  assert (Hbits : 16 <= 64) by lia.
  assert (Hpack : packable_arity 64 513) by (split; vm_compute; discriminate).
  split; [exact Hbits|]. split; [exact Hpack|].
  destruct (higher_order_test_is_variable_test 64 Hbits) as (_ & _ & _ & Hpacked).
  destruct (Hpacked 513 Hpack) as (Hpred & _ & Harity & _).
  split; [apply Hpred; lia|exact Harity].
Defined.

(** A type_info at 1000 with two arguments, for the type constructor
    whose base_type_info, of arity 2, is at 2000. *)
Lemma get_base_typeinfo_resolution_witness :
  let m : memory := list_to_map [(1000, 2000); (1008, 3000); (1016, 4000); (2000, 2)] in
  m !! 1000 = Some 2000 /\
  MR_TYPEINFO_GET_BASE_TYPEINFO m 1000 = Some 2000 /\
  MR_TYPEINFO_GET_BASE_TYPEINFO m 2000 = Some 2.
Proof.
  intros m.
  assert (Hfirst : m !! 1000 = Some 2000) by (vm_compute; reflexivity).
  split; [exact Hfirst|].
  destruct (get_base_typeinfo_resolution 64 m 1000 2000 Hfirst) as (_ & Hbase & _).
  split; [apply Hbase; discriminate|vm_compute; reflexivity].
Defined.

(** A typeclass_info at 1000 whose first-level table, at 2000, holds the
    instance arity 2 and a method. *)
Lemma typeclass_info_offset_law_witness :
  let m : memory := list_to_map [(1000, 2000); (1024, 555); (2000, 2); (2008, 77)] in
  MR_typeclass_info_instance_arity 64 m 1000 = Some 2 /\
  MR_typeclass_info_superclass_info 64 m 1000 1 = Some 555 /\
  MR_typeclass_info_type_info 64 m 1000 1 = Some 555 /\
  MR_typeclass_info_class_method 64 m 1000 1 = Some 77.
Proof.
  intros m.
  assert (Hbits : 16 <= 64) by lia.
  assert (Harity : MR_typeclass_info_instance_arity 64 m 1000 = Some 2)
    by (vm_compute; reflexivity).
  split; [exact Harity|].
  destruct (typeclass_info_offset_law 64 Hbits m 1000 2 1 Harity)
    as (Hsame & _ & Hoffset & tbl & w & Htbl & _ & _ & Hmethod & _).
  destruct Hoffset as [Hsuper Htype]; [split; vm_compute; discriminate|].
  split; [rewrite Hsuper; vm_compute; reflexivity|].
  split; [rewrite Htype; vm_compute; reflexivity|].
  rewrite Hmethod. assert (Htbl' : m !! 1000 = Some 2000) by (vm_compute; reflexivity).
  rewrite Htbl' in Htbl. injection Htbl as <-. vm_compute. reflexivity.
Defined.

(** The enum vector of an enumeration of three constructors, with words
    of 64 bits and an [int] of 4 bytes. *)
Lemma enum_vector_decode_order_witness :
  let m := enum_vector_image 64 4 4096 1 [11; 22; 33] in
  MR_TYPELAYOUT_ENUM_VECTOR_FUNCTOR_NAME 64 4 m 4096 1 = Some 22 /\
  enum_decode_all 64 4 m 4096 3 = [Some 11; Some 22; Some 33].
Proof.
  intros m.
  assert (Hbits : 16 <= 64) by lia.
  assert (Hint : 0 < 4) by lia.
  assert (Hle : 4 <= sizeof_Word 64) by (vm_compute; discriminate).
  assert (Hm : enum_vector_image 64 4 4096 1 [11; 22; 33] ⊆ m) by reflexivity.
  destruct (enum_vector_decode_order 64 4 Hbits Hint Hle m 4096 1 [11; 22; 33] Hm)
    as (_ & _ & _ & _ & _ & Hname & Hall & _).
  split; [|exact Hall].
  rewrite Hname by (simpl; lia). reflexivity.
Defined.

(** *** The layouts on a 64-bit machine *)

(** Inclusion of one memory in another, by looking up every cell. *)
Lemma memory_included (m1 m2 : memory) :
  bool_decide (map_Forall (fun i x => m2 !! i = Some x) m1) = true -> m1 ⊆ m2.
Proof.
  intros H. apply bool_decide_eq_true in H. apply map_subseteq_spec. exact H.
Qed.

(** The simple vector of a functor with two arguments. *)
Lemma simple_vector_decode_witness :
  let m := simple_vector_image 64 4096 [10; 20] 77 3 in
  MR_TYPELAYOUT_SIMPLE_VECTOR_ARITY 64 m 4096 = Some 2 /\
  MR_TYPELAYOUT_SIMPLE_VECTOR_FUNCTOR_NAME 64 m 4096 = Some 77 /\
  MR_TYPELAYOUT_SIMPLE_VECTOR_TAG 64 m 4096 = Some 3.
Proof.
  intros m.
  assert (Hbits : 16 <= 64) by lia.
  assert (Hm : simple_vector_image 64 4096 [10; 20] 77 3 ⊆ m) by reflexivity.
  assert (Hfit : Z.of_nat (length [10; 20]) + 2 < 2 ^ 64) by (vm_compute; reflexivity).
  destruct (simple_vector_decode 64 Hbits m 4096 [10; 20] 77 3 Hm Hfit)
    as (Harity & _ & Hname & Htag & _).
  split; [exact Harity|]. split; [exact Hname|exact Htag].
Defined.

(** A complicated vector shared by two functors, the second without
    arguments. *)
Lemma complicated_vector_decode_witness :
  let m := complicated_vector_image 64 2048 [4096; 8192]
             ∪ simple_vector_image 64 4096 [10; 20] 77 3
             ∪ simple_vector_image 64 8192 [] 88 3 in
  MR_TYPELAYOUT_COMPLICATED_VECTOR_NUM_SHARERS 64 m 2048 = Some 2 /\
  (V ← MR_TYPELAYOUT_COMPLICATED_VECTOR_GET_SIMPLE_VECTOR 64 m 2048 1;
   MR_TYPELAYOUT_SIMPLE_VECTOR_FUNCTOR_NAME 64 m V) = Some 88.
Proof.
  intros m.
  assert (Hbits : 16 <= 64) by lia.
  assert (Hvector : complicated_vector_image 64 2048
                      [(4096, ([10; 20], 77, 3)); (8192, ([], 88, 3))].*1 ⊆ m)
    by (apply memory_included; vm_compute; reflexivity).
  assert (Hsimple :
            Forall (fun '(V, (args, name, tag)) =>
                      simple_vector_image 64 V args name tag ⊆ m /\
                      Z.of_nat (length args) + 2 < 2 ^ 64)
              [(4096, ([10; 20], 77, 3)); (8192, ([], 88, 3))]).
  { repeat (apply Forall_cons_2;
              [split; [apply memory_included; vm_compute; reflexivity
                      |vm_compute; reflexivity]|]).
    apply Forall_nil_2. }
  destruct (complicated_vector_decode 64 Hbits m 2048 _ Hvector Hsimple)
    as [Hnum Hget].
  split; [exact Hnum|].
  destruct (Hget 1%nat 8192 [] 88 3 eq_refl) as (_ & Hname & _). exact Hname.
Defined.

(** A no_tag vector, with words of 64 bits and an [int] of 4 bytes. *)
Lemma no_tag_equiv_overlay_witness :
  let m := no_tag_vector_image 64 4 4096 1 555 77 in
  MR_TYPELAYOUT_EQUIV_IS_EQUIV 64 4 m 4096 = Some false /\
  MR_TYPELAYOUT_EQUIV_TYPE 64 4 m 4096 = Some 555 /\
  MR_TYPELAYOUT_NO_TAG_VECTOR_FUNCTOR_NAME 64 4 m 4096 = Some 77.
Proof.
  intros m.
  assert (Hbits : 16 <= 64) by lia.
  assert (Hint : 0 < 4) by lia.
  assert (Hle : 4 <= sizeof_Word 64) by (vm_compute; discriminate).
  destruct (no_tag_equiv_overlay 64 4 Hbits Hint Hle m 4096)
    as (_ & Htype & _ & _ & Hno_tag & _).
  destruct (Hno_tag 1 555 77) as (_ & Hequiv & Harg & Hname);
    [reflexivity|discriminate|].
  split; [exact Hequiv|]. split; [rewrite Htype; exact Harg|exact Hname].
Defined.

(** The base_type_functors of an enumeration of three constructors. *)
Lemma enum_functors_decode_witness :
  let m := words_image 64 1024 [1; 4096] ∪ enum_vector_image 64 4 4096 1 [11; 22; 33] in
  MR_TYPEFUNCTORS_ENUM_NUM_FUNCTORS 64 4 m 1024 = Some 3 /\
  (V ← MR_TYPEFUNCTORS_ENUM_FUNCTORS 64 m 1024;
   MR_TYPELAYOUT_ENUM_VECTOR_FUNCTOR_NAME 64 4 m V 2) = Some 33.
Proof.
  intros m.
  assert (Hbits : 16 <= 64) by lia.
  assert (Hint : 0 < 4) by lia.
  assert (Hle : 4 <= sizeof_Word 64) by (vm_compute; discriminate).
  assert (Htable : words_image 64 1024 [MR_TYPEFUNCTORS_ENUM; 4096] ⊆ m)
    by (apply memory_included; vm_compute; reflexivity).
  assert (Hvector : enum_vector_image 64 4 4096 1 [11; 22; 33] ⊆ m)
    by (apply memory_included; vm_compute; reflexivity).
  destruct (enum_functors_decode 64 4 Hbits Hint Hle m 1024 4096 [11; 22; 33]
              Htable Hvector) as (_ & _ & Hnum & Hname).
  split; [exact Hnum|]. apply (Hname 2%nat). simpl. lia.
Defined.

(** The type_info at 1000 of a type with two arguments, whose
    base_type_info is at 2000. *)
Lemma type_info_fields_through_base_witness :
  let b := {| bti_arity := 2; bti_unify_pred := 11; bti_index_pred := 12;
              bti_compare_pred := 13; bti_layout := 3000; bti_functors := 5000;
              bti_module_name := 71; bti_name := 72 |} in
  let m := type_info_image 64 1000 2000 [6000; 7000] ∪ base_type_info_image 64 2000 b in
  (Base ← MR_TYPEINFO_GET_BASE_TYPEINFO m 1000;
   MR_BASE_TYPEINFO_GET_TYPE_ARITY 64 m Base) = Some 2 /\
  (Base ← MR_TYPEINFO_GET_BASE_TYPEINFO m 1000;
   MR_BASE_TYPEINFO_GET_TYPE_NAME 64 m Base) = Some 72 /\
  word_at 64 m 1000 2 = Some 7000.
Proof.
  intros b m.
  assert (Hbits : 16 <= 64) by lia.
  assert (Hat : type_info_at 64 m 1000 2000 [6000; 7000]).
  { split; [discriminate|]. split; [discriminate|].
    apply memory_included. vm_compute. reflexivity. }
  assert (Hbase : base_type_info_image 64 2000 b ⊆ m)
    by (apply memory_included; vm_compute; reflexivity).
  destruct (type_info_fields_through_base 64 Hbits m 1000 2000 b [6000; 7000]
              Hat Hbase eq_refl) as (Harity & _ & _ & _ & Hname & _ & Hargs & _).
  split; [exact Harity|]. split; [exact Hname|].
  apply (Hargs 1%nat). simpl. lia.
Defined.

(** The base_type_infos of [pred] and [func] at 4096 and 8192. *)
Lemma higher_order_base_type_info_witness :
  MR_TYPECTOR_GET_HOT_BASE_TYPE_INFO 64 4096 8192 (MR_TYPECTOR_MAKE_FUNC 64 3) = 8192 /\
  MR_BASE_TYPEINFO_IS_HO_PRED 4096
    (MR_TYPECTOR_GET_HOT_BASE_TYPE_INFO 64 4096 8192 (MR_TYPECTOR_MAKE_FUNC 64 3)) = false.
Proof.
  assert (Hbits : 16 <= 64) by lia.
  assert (Hpred : 0 <= 4096 < 2 ^ 64) by (split; vm_compute; [discriminate|reflexivity]).
  assert (Hfunc : 0 <= 8192 < 2 ^ 64) by (split; vm_compute; [discriminate|reflexivity]).
  assert (Hne : 4096 <> 8192) by discriminate.
  assert (Hpack : packable_arity 64 3) by (split; vm_compute; discriminate).
  destruct (higher_order_base_type_info 64 4096 8192 Hbits Hpred Hfunc Hne)
    as [_ Hpacked].
  destruct (Hpacked 3 Hpack) as (_ & Hbase & _ & Hnot_pred).
  split; [exact Hbase|exact Hnot_pred].
Defined.

(** The type_info at 1000 of a higher-order type of arity 2. *)
Lemma higher_order_type_info_layout_witness :
  let m := higher_order_type_info_image 64 1000 4096 2 [6000; 7000] in
  MR_TYPEINFO_GET_HIGHER_ARITY 64 m 1000 = Some 2 /\
  word_at 64 m 1000 (TYPEINFO_OFFSET_FOR_PRED_ARGS + 1) = Some 7000.
Proof.
  intros m.
  assert (Hbits : 16 <= 64) by lia.
  assert (Hm : higher_order_type_info_image 64 1000 4096 2 [6000; 7000] ⊆ m)
    by reflexivity.
  assert (Hbase : 4096 <> 0) by discriminate.
  assert (Harity : MR_INTEGER_MIN 64 <= 2 <= MR_INTEGER_MAX 64)
    by (split; vm_compute; discriminate).
  destruct (higher_order_type_info_layout 64 Hbits m 1000 4096 2 [6000; 7000]
              Hm Hbase Harity) as (_ & Hhigher & _ & Hargs).
  split; [exact Hhigher|].
  destruct (Hargs 1%nat) as [Harg _]; [simpl; lia|]. exact Harg.
Defined.

(** Ten bytes take two words of 8 bytes each. *)
Lemma bytes_to_words_ceiling_witness :
  MR_bytes_to_words 64 64 10 = 2 /\
  10 <= MR_bytes_to_words 64 64 10 * sizeof_Word 64 < 10 + sizeof_Word 64.
Proof.
  assert (Hbits : 16 <= 64) by lia.
  assert (Hsize : sizeof_Word 64 < 2 ^ 64) by (vm_compute; reflexivity).
  assert (Hx : 0 <= 10 < 2 ^ 64) by (split; vm_compute; [discriminate|reflexivity]).
  destruct (bytes_to_words_ceiling 64 64 Hbits 10 Hsize Hx) as [Hceiling _].
  destruct Hceiling as (Hbounds & _ & _); [vm_compute; reflexivity|].
  split; [vm_compute; reflexivity|exact Hbounds].
Defined.

End TypeInfo.


(** * The interface of the trace utilities: [mercury_trace_util.h] *)

Module TraceUtil.

Local Open Scope string_scope.
Local Open Scope list_scope.

(** The types the declarations of the header are written with. *)
Inductive c_type : Type :=
  | T_void
  | T_int
  | T_bool
  | T_char
  | T_Word
  | T_MR_Live_Lval
  | T_MR_Stack_Layout_Var
  | T_MR_Stack_Layout_Vars
  | T_MR_Stack_Layout_Label
  | T_const (t : c_type)
  | T_ptr (t : c_type).

(** [extern p_result p_name(p_params);] *)
Record prototype : Type :=
  { p_name : string;
    p_result : c_type;
    p_params : list (string * c_type) }.

Definition MR_copy_regs_to_saved_regs : prototype :=
  {| p_name := "MR_copy_regs_to_saved_regs"; p_result := T_void;
     p_params := [("max_mr_num", T_int)] |}.

Definition MR_copy_saved_regs_to_regs : prototype :=
  {| p_name := "MR_copy_saved_regs_to_regs"; p_result := T_void;
     p_params := [("max_mr_num", T_int)] |}.

Definition MR_trace_materialize_typeinfos : prototype :=
  {| p_name := "MR_trace_materialize_typeinfos"; p_result := T_ptr T_Word;
     p_params := [("vars", T_ptr (T_const T_MR_Stack_Layout_Vars))] |}.

Definition MR_trace_materialize_typeinfos_base : prototype :=
  {| p_name := "MR_trace_materialize_typeinfos_base"; p_result := T_ptr T_Word;
     p_params :=
       [("vars", T_ptr (T_const T_MR_Stack_Layout_Vars));
        ("saved_regs_valid", T_bool);
        ("base_sp", T_ptr T_Word); ("base_curfr", T_ptr T_Word)] |}.

Definition MR_trace_make_var_list : prototype :=
  {| p_name := "MR_trace_make_var_list"; p_result := T_Word;
     p_params := [("layout", T_ptr (T_const T_MR_Stack_Layout_Label))] |}.

Definition MR_trace_lookup_live_lval : prototype :=
  {| p_name := "MR_trace_lookup_live_lval"; p_result := T_Word;
     p_params := [("locn", T_MR_Live_Lval); ("succeeded", T_ptr T_bool)] |}.

Definition MR_trace_lookup_live_lval_base : prototype :=
  {| p_name := "MR_trace_lookup_live_lval_base"; p_result := T_Word;
     p_params :=
       [("locn", T_MR_Live_Lval); ("saved_regs_valid", T_bool);
        ("base_sp", T_ptr T_Word); ("base_curfr", T_ptr T_Word);
        ("succeeded", T_ptr T_bool)] |}.

Definition MR_trace_get_type_and_value : prototype :=
  {| p_name := "MR_trace_get_type_and_value"; p_result := T_bool;
     p_params :=
       [("var", T_ptr (T_const T_MR_Stack_Layout_Var));
        ("type_params", T_ptr T_Word); ("type_info", T_ptr T_Word);
        ("value", T_ptr T_Word)] |}.

Definition MR_trace_get_type_and_value_base : prototype :=
  {| p_name := "MR_trace_get_type_and_value_base"; p_result := T_bool;
     p_params :=
       [("var", T_ptr (T_const T_MR_Stack_Layout_Var));
        ("saved_regs_valid", T_bool);
        ("base_sp", T_ptr T_Word); ("base_curfr", T_ptr T_Word);
        ("type_params", T_ptr T_Word); ("type_info", T_ptr T_Word);
        ("value", T_ptr T_Word)] |}.

Definition MR_trace_get_type : prototype :=
  {| p_name := "MR_trace_get_type"; p_result := T_bool;
     p_params :=
       [("var", T_ptr (T_const T_MR_Stack_Layout_Var));
        ("type_params", T_ptr T_Word); ("type_info", T_ptr T_Word)] |}.

Definition MR_trace_get_type_base : prototype :=
  {| p_name := "MR_trace_get_type_base"; p_result := T_bool;
     p_params :=
       [("var", T_ptr (T_const T_MR_Stack_Layout_Var));
        ("saved_regs_valid", T_bool);
        ("base_sp", T_ptr T_Word); ("base_curfr", T_ptr T_Word);
        ("type_params", T_ptr T_Word); ("type_info", T_ptr T_Word)] |}.

Definition MR_trace_get_type_and_value_filtered : prototype :=
  {| p_name := "MR_trace_get_type_and_value_filtered"; p_result := T_bool;
     p_params :=
       [("var", T_ptr (T_const T_MR_Stack_Layout_Var));
        ("name", T_ptr (T_const T_char));
        ("type_info", T_ptr T_Word); ("value", T_ptr T_Word)] |}.

Definition MR_trace_get_type_filtered : prototype :=
  {| p_name := "MR_trace_get_type_filtered"; p_result := T_bool;
     p_params :=
       [("var", T_ptr (T_const T_MR_Stack_Layout_Var));
        ("name", T_ptr (T_const T_char)); ("type_info", T_ptr T_Word)] |}.

Definition MR_trace_write_variable : prototype :=
  {| p_name := "MR_trace_write_variable"; p_result := T_void;
     p_params := [("type_info", T_Word); ("value", T_Word)] |}.

(** The functions the header declares, in its order. *)
Definition mercury_trace_util_h : list prototype :=
  [MR_copy_regs_to_saved_regs; MR_copy_saved_regs_to_regs;
   MR_trace_materialize_typeinfos; MR_trace_materialize_typeinfos_base;
   MR_trace_make_var_list;
   MR_trace_lookup_live_lval; MR_trace_lookup_live_lval_base;
   MR_trace_get_type_and_value; MR_trace_get_type_and_value_base;
   MR_trace_get_type; MR_trace_get_type_base;
   MR_trace_get_type_and_value_filtered; MR_trace_get_type_filtered;
   MR_trace_write_variable].





(** The four kinds of introspection lookup, and the declarations of each
    kind. *)
Inductive lookup_kind : Type :=
  | Live_lvalue_lookup
  | Type_materialization
  | Type_and_value_retrieval
  | Name_filtered_retrieval.

Definition introspection_lookups : list (lookup_kind * prototype) :=
  [(Type_materialization, MR_trace_materialize_typeinfos);
   (Type_materialization, MR_trace_materialize_typeinfos_base);
   (Live_lvalue_lookup, MR_trace_lookup_live_lval);
   (Live_lvalue_lookup, MR_trace_lookup_live_lval_base);
   (Type_and_value_retrieval, MR_trace_get_type_and_value);
   (Type_and_value_retrieval, MR_trace_get_type_and_value_base);
   (Type_and_value_retrieval, MR_trace_get_type);
   (Type_and_value_retrieval, MR_trace_get_type_base);
   (Name_filtered_retrieval, MR_trace_get_type_and_value_filtered);
   (Name_filtered_retrieval, MR_trace_get_type_filtered)].

(** The lookups are among the declarations of the header. *)
Lemma introspection_lookups_declared kp :
  In kp introspection_lookups -> In kp.2 mercury_trace_util_h.
Proof.
  intros Hin. simpl in Hin.
  repeat (destruct Hin as [<- | Hin]; [simpl; tauto|]). contradiction.
Qed.



End TraceUtil.

(** ** [util/mkinit.c] *)

Module Mkinit.

Local Open Scope string_scope.
Local Open Scope list_scope.
Local Open Scope Z_scope.

(** *** Characters and C strings *)

Definition NUL : ascii := ascii_of_nat 0.
Definition newline : ascii := ascii_of_nat 10.

Definition nl : string := String newline EmptyString.
Definition tab : string := String (ascii_of_nat 9) EmptyString.
Definition dquote : string := String (ascii_of_nat 34) EmptyString.

(** --- adjustable limits --- *)
Definition MAXCALLS : Z := 40.   (* maximum number of calls per function *)
Definition MAXLINE : Z := 256.   (* maximum number of characters per line *)

(** A character array: [line[i] = c] is defined only inside the array. *)
Definition store (line : list ascii) (i : Z) (c : ascii) : option (list ascii) :=
  if (0 <=? i)%Z && (i <? Z.of_nat (length line))%Z
  then Some (<[Z.to_nat i := c]> line)
  else None.

(** The loop of [get_line]:
    [while ((c = getc(file)) != EOF && c != '\n')
       { if (num_chars < limit) { line[num_chars++] = c; } }].
    [file] is what is left to read of the stream; the result holds the last
    [c] read ([None] for [EOF]), the rest of the stream, the array and
    [num_chars]; it is [None] when a store falls outside the array. *)
Fixpoint get_line_loop (file line : list ascii) (num_chars limit : Z)
  : option (option ascii * list ascii * list ascii * Z) :=
  match file with
  | [] => Some (None, [], line, num_chars)
  | c :: file' =>
      if Ascii.eqb c newline then Some (Some c, file', line, num_chars)
      else if (num_chars <? limit)%Z then
        line' ← store line num_chars c;
        get_line_loop file' line' (num_chars + 1) limit
      else get_line_loop file' line num_chars limit
  end.

(** [static int get_line(FILE *file, char *line, int line_max)]: the
    value returned, the array and the rest of the stream. *)
Definition get_line (file line : list ascii) (line_max : Z)
  : option (Z * list ascii * list ascii) :=
  let limit := (line_max - 2)%Z in
  '(c, file', line, num_chars) ← get_line_loop file line 0 limit;
  '(line, num_chars) ←
    (if bool_decide (c = Some newline) || (0 <? num_chars)%Z
     then line' ← store line num_chars newline; Some (line', (num_chars + 1)%Z)
     else Some (line, num_chars));
  line ← store line num_chars NUL;
  Some (num_chars, line, file').

(** The input line at the head of a stream: the characters before its
    first newline. *)
Fixpoint input_line (file : list ascii) : list ascii :=
  match file with
  | [] => []
  | c :: file' => if Ascii.eqb c newline then [] else c :: input_line file'
  end.

(** The stream after its first line and the newline that ends it. *)
Fixpoint after_input_line (file : list ascii) : list ascii :=
  match file with
  | [] => []
  | c :: file' => if Ascii.eqb c newline then file' else after_input_line file'
  end.

(** Whether the first line of the stream is ended by a newline. *)
Fixpoint line_terminated (file : list ascii) : bool :=
  match file with
  | [] => false
  | c :: file' => if Ascii.eqb c newline then true else line_terminated file'
  end.


(** *** [get_line]: what it stores and what it leaves of the stream *)

Lemma store_Some line i c :
  0 <= i < Z.of_nat (length line) ->
  store line i c = Some (<[Z.to_nat i := c]> line).
Proof.
  intros H. unfold store.
  destruct (Z.leb_spec 0 i); [|lia]. destruct (Z.ltb_spec i (Z.of_nat (length line))); [|lia].
  reflexivity.
Qed.

Lemma store_inv line i c line' :
  store line i c = Some line' ->
  0 <= i < Z.of_nat (length line) /\ line' = <[Z.to_nat i := c]> line.
Proof.
  unfold store.
  destruct (Z.leb_spec 0 i); destruct (Z.ltb_spec i (Z.of_nat (length line)));
    simpl; intros Hs; try discriminate.
  injection Hs as <-. split; [lia|reflexivity].
Qed.

Lemma after_input_line_length file :
  (length (after_input_line file) <= length file)%nat.
Proof.
  induction file as [|c file IH]; simpl; [lia|].
  destruct (Ascii.eqb c newline); lia.
Qed.

Lemma after_input_line_shorter file :
  file <> [] -> (length (after_input_line file) < length file)%nat.
Proof.
  destruct file as [|c file]; [congruence|]. intros _. simpl.
  pose proof (after_input_line_length file).
  destruct (Ascii.eqb c newline); lia.
Qed.

Lemma input_line_length file : (length (input_line file) <= length file)%nat.
Proof.
  induction file as [|c file IH]; simpl; [lia|].
  destruct (Ascii.eqb c newline); simpl; lia.
Qed.

(** The loop stores the input line, cut at [limit] characters, from index
    [num_chars] on, and leaves the rest of the array as it was. *)
Lemma get_line_loop_spec file : forall line num_chars limit,
  0 <= num_chars -> limit <= Z.of_nat (length line) ->
  get_line_loop file line num_chars limit =
    Some (if line_terminated file then Some newline else None,
          after_input_line file,
          take (Z.to_nat num_chars) line
            ++ take (Z.to_nat (limit - num_chars)) (input_line file)
            ++ drop (Z.to_nat num_chars
                     + length (take (Z.to_nat (limit - num_chars)) (input_line file)))
                 line,
          num_chars
            + Z.of_nat (length (take (Z.to_nat (limit - num_chars)) (input_line file)))).
Proof.
  induction file as [|c file IH]; intros line n limit Hn Hlimit; simpl.
  - rewrite take_nil. simpl. rewrite Nat.add_0_r, take_drop, Z.add_0_r. reflexivity.
  - destruct (Ascii.eqb_spec c newline) as [->|Hc].
    + rewrite take_nil. simpl. rewrite Nat.add_0_r, take_drop, Z.add_0_r. reflexivity.
    + destruct (Z.ltb_spec n limit) as [Hlt|Hge].
      * rewrite store_Some by lia. simpl.
        rewrite IH by (rewrite ?length_insert; lia).
        replace (Z.to_nat (limit - n)) with (S (Z.to_nat (limit - (n + 1)))) by lia.
        simpl. f_equal. f_equal; [f_equal|lia].
        replace (Z.to_nat (n + 1)) with (S (Z.to_nat n)) by lia.
        assert (Hlook : <[Z.to_nat n := c]> line !! Z.to_nat n = Some c)
          by (apply list_lookup_insert_eq; lia).
        rewrite (take_S_r _ _ _ Hlook).
        rewrite take_insert_ge by lia.
        rewrite <- app_assoc. simpl. f_equal. f_equal. f_equal.
        rewrite drop_insert_lt by lia. f_equal. lia.
      * rewrite IH by lia.
        replace (Z.to_nat (limit - n)) with 0%nat by lia.
        rewrite !take_0. reflexivity.
Qed.

(** What [get_line] stores of the input line: at most [line_max - 2] of
    its characters. *)
Definition stored_line (file : list ascii) (line_max : Z) : list ascii :=
  take (Z.to_nat (line_max - 2)) (input_line file).

(** Whether [get_line] ends what it stored with a newline:
    [c == '\n' || num_chars > 0]. *)
Definition newline_added (file : list ascii) (line_max : Z) : bool :=
  line_terminated file || (0 <? Z.of_nat (length (stored_line file line_max))).

Lemma stored_line_length file line_max :
  Z.of_nat (length (stored_line file line_max)) <= Z.max 0 (line_max - 2).
Proof. unfold stored_line. rewrite length_take. lia. Qed.

Lemma insert_after_prefix (pre l : list ascii) (k : nat) (x : ascii) :
  length pre = k -> (k < length l)%nat ->
  <[k := x]> (pre ++ drop k l) = pre ++ x :: drop (S k) l.
Proof.
  intros Hpre Hk.
  rewrite insert_take_drop by (rewrite length_app, length_drop; lia).
  rewrite <- Hpre at 1. rewrite take_app_length. f_equal. f_equal.
  rewrite drop_app_ge by lia. rewrite drop_drop. f_equal. lia.
Qed.

Lemma get_line_spec file line line_max :
  2 <= line_max <= Z.of_nat (length line) ->
  get_line file line line_max =
    Some (Z.of_nat (length (stored_line file line_max))
            + (if newline_added file line_max then 1 else 0),
          stored_line file line_max
            ++ (if newline_added file line_max then [newline] else [])
            ++ NUL :: drop (S (length (stored_line file line_max)
                               + (if newline_added file line_max then 1 else 0)))
                        line,
          after_input_line file).
Proof.
  intros Hmax. unfold get_line.
  rewrite get_line_loop_spec by lia. simpl.
  rewrite Z.sub_0_r. fold (stored_line file line_max).
  rewrite !Z.add_0_l.
  pose proof (stored_line_length file line_max) as Hk.
  set (stored := stored_line file line_max) in *.
  assert (Hb : bool_decide ((if line_terminated file then Some newline else None)
                            = Some newline)
               || (0 <? Z.of_nat (length stored))
               = newline_added file line_max).
  { unfold newline_added. fold stored. f_equal.
    destruct (line_terminated file); reflexivity. }
  rewrite Hb. destruct (newline_added file line_max).
  - rewrite store_Some by (rewrite length_app, length_drop; lia). simpl.
    rewrite Nat2Z.id.
    rewrite insert_after_prefix by lia.
    rewrite store_Some by (rewrite length_app; simpl; rewrite length_drop; lia).
    simpl. f_equal. f_equal. f_equal.
    replace (Z.to_nat (Z.of_nat (length stored) + 1)) with (S (length stored)) by lia.
    replace (stored ++ newline :: drop (S (length stored)) line)
      with ((stored ++ [newline]) ++ drop (S (length stored)) line)
      by (rewrite <- app_assoc; reflexivity).
    rewrite insert_after_prefix
      by (rewrite ?length_app; simpl; lia).
    rewrite <- app_assoc. simpl. repeat f_equal. lia.
  - simpl. rewrite store_Some by (rewrite length_app, length_drop; lia).
    simpl. rewrite Nat2Z.id. rewrite insert_after_prefix by lia.
    f_equal. f_equal. f_equal. rewrite Z.add_0_r. reflexivity.
    rewrite Nat.add_0_r. reflexivity.
Qed.

Lemma get_line_loop_rest file : forall line num_chars limit c file' line' n',
  get_line_loop file line num_chars limit = Some (c, file', line', n') ->
  file' = after_input_line file /\ (file = [] -> n' = num_chars /\ c = None).
Proof.
  induction file as [|a file IH]; intros line n limit c file' line' n' H; simpl in H.
  - injection H as <- <- <- <-. split; [reflexivity|]. intros _. split; reflexivity.
  - simpl. destruct (Ascii.eqb a newline).
    + injection H as <- <- <- <-. split; [reflexivity|]. intros Hnil. discriminate.
    + split; [|intros Hnil; discriminate].
      destruct (n <? limit).
      * destruct (store line n a) as [line1|]; simpl in H; [|discriminate].
        apply IH in H. apply H.
      * apply IH in H. apply H.
Qed.

Lemma get_line_consumes file line line_max n line' file' :
  get_line file line line_max = Some (n, line', file') ->
  0 < n -> (length file' < length file)%nat.
Proof.
  unfold get_line. intros Hget Hn.
  destruct (get_line_loop file line 0 (line_max - 2)) as [[[[c f1] l1] n1]|] eqn:Hloop;
    simpl in Hget; [|discriminate].
  apply get_line_loop_rest in Hloop. destruct Hloop as [-> Hnil].
  destruct (decide (file = [])) as [->|Hne].
  - exfalso. destruct (Hnil eq_refl) as [-> ->]. simpl in Hget.
    destruct (store l1 0 NUL); simpl in Hget; [|discriminate].
    injection Hget as <- _ _. lia.
  - assert (Hf : file' = after_input_line file).
    { destruct (bool_decide (c = Some newline) || (0 <? n1)).
      - destruct (store l1 n1 newline) as [l2|]; simpl in Hget; [|discriminate].
        destruct (store l2 (n1 + 1) NUL); simpl in Hget; [|discriminate].
        injection Hget as _ _ <-. reflexivity.
      - simpl in Hget. destruct (store l1 n1 NUL); simpl in Hget; [|discriminate].
        injection Hget as _ _ <-. reflexivity. }
    subst file'. apply after_input_line_shorter, Hne.
Qed.

Lemma get_line_length file line line_max n line' file' :
  2 <= line_max <= Z.of_nat (length line) ->
  get_line file line line_max = Some (n, line', file') ->
  length line' = length line.
Proof.
  intros Hmax Hget. rewrite get_line_spec in Hget by exact Hmax.
  injection Hget as _ <- _.
  pose proof (stored_line_length file line_max) as Hk.
  rewrite !length_app. simpl. rewrite length_drop.
  destruct (newline_added file line_max); simpl; lia.
Qed.

(** [get_line] returns, and ends what it stores with a NUL. *)
Lemma get_line_terminated file line line_max :
  2 <= line_max -> Z.of_nat (length line) = line_max ->
  exists n line',
    get_line file line line_max = Some (n, line', after_input_line file) /\
    length line' = length line /\
    0 <= n <= line_max - 1 /\
    line' !! Z.to_nat n = Some NUL.
Proof.
  intros Hmax Hlen.
  pose proof (get_line_spec file line line_max ltac:(lia)) as Hspec.
  pose proof (stored_line_length file line_max) as Hk.
  eexists _, _. split; [exact Hspec|].
  destruct (newline_added file line_max); simpl.
  - split; [rewrite length_app; simpl; rewrite length_drop; lia|].
    split; [lia|].
    rewrite lookup_app_r by lia.
    replace (Z.to_nat (Z.of_nat (length (stored_line file line_max)) + 1)
             - length (stored_line file line_max))%nat with 1%nat by lia.
    reflexivity.
  - split; [rewrite length_app; simpl; rewrite length_drop; lia|].
    split; [lia|].
    rewrite lookup_app_r by lia.
    replace (Z.to_nat (Z.of_nat (length (stored_line file line_max)) + 0)
             - length (stored_line file line_max))%nat with 0%nat by lia.
    reflexivity.
Qed.

(** C's [isalnum] in the "C" locale ([mkinit] never calls [setlocale]);
    [mercury_std.h] defines [MR_isalnum(c)] as [isalnum((unsigned char) (c))]
    and [MR_isalnumunder(c)] as [(isalnum((unsigned char) (c)) || c == '_')]. *)
Definition MR_isalnum (c : ascii) : bool :=
  let n := nat_of_ascii c in
  ((48 <=? n) && (n <=? 57) || (65 <=? n) && (n <=? 90) || (97 <=? n) && (n <=? 122))%nat.

Definition MR_isalnumunder (c : ascii) : bool :=
  MR_isalnum c || Ascii.eqb c "_"%char.

(** The C string an array holds: its characters before the first NUL. *)
Fixpoint c_str (buf : list ascii) : string :=
  match buf with
  | [] => EmptyString
  | c :: buf' => if Ascii.eqb c NUL then EmptyString else String c (c_str buf')
  end.

(** [s + n] for a C string [s] and [0 <= n <= strlen(s)]. *)
Fixpoint string_drop (n : nat) (s : string) : string :=
  match n, s with
  | O, _ => s
  | S n', String _ s' => string_drop n' s'
  | S _, EmptyString => EmptyString
  end.

Fixpoint string_take (n : nat) (s : string) : string :=
  match n, s with
  | S n', String c s' => String c (string_take n' s')
  | _, _ => EmptyString
  end.

(** [strcmp(a, b) == 0] *)
Definition strcmp_eq (a b : string) : bool := String.eqb a b.

(** [strncmp(a, b, n) == 0] *)
Definition strncmp_eq (a b : string) (n : Z) : bool :=
  String.eqb (string_take (Z.to_nat n) a) (string_take (Z.to_nat n) b).

(** [strrchr(s, c)], as the string after the last [c]: [position + 1]. *)
Fixpoint strrchr_tail (s : string) (c : ascii) : option string :=
  match s with
  | EmptyString => None
  | String a s' =>
      match strrchr_tail s' c with
      | Some t => Some t
      | None => if Ascii.eqb a c then Some s' else None
      end
  end.

(** [strchr(s, c)], as the strings before and after the first [c]. *)
Fixpoint strchr_split (s : string) (c : ascii) : option (string * string) :=
  match s with
  | EmptyString => None
  | String a s' =>
      if Ascii.eqb a c then Some (EmptyString, s')
      else '(b, t) ← strchr_split s' c; Some (String a b, t)
  end.

(** The number of characters from the head of [buf] for which
    [MR_isalnum(c) || c == '_']. *)
Fixpoint span_alnumunder (buf : list ascii) : Z :=
  match buf with
  | [] => 0
  | c :: buf' =>
      if MR_isalnum c || Ascii.eqb c "_"%char then 1 + span_alnumunder buf' else 0
  end.

(** The first character of a file name that is neither ['.'] nor
    alphanumeric or an underscore. *)
Fixpoint first_special (filename : string) : option ascii :=
  match filename with
  | EmptyString => None
  | String c rest =>
      if negb (Ascii.eqb c "."%char) && negb (MR_isalnumunder c) then Some c
      else first_special rest
  end.

(** *** Purposes and the tables indexed by them *)

Inductive Purpose : Type :=
| PURPOSE_INIT
| PURPOSE_TYPE_TABLE
| PURPOSE_DEBUGGER
| PURPOSE_PROC_STATIC.

Global Instance Purpose_eq_dec : EqDecision Purpose.
Proof. solve_decision. Defined.

Definition if_need_to_init : string :=
  "#if defined(MR_MAY_NEED_INITIALIZATION)" +:+ nl.

Definition if_need_deep_prof : string :=
  "#if defined(MR_DEEP_PROFILING)" +:+ nl.

Definition main_func_name (p : Purpose) : string :=
  match p with
  | PURPOSE_INIT => "init_modules"
  | PURPOSE_TYPE_TABLE => "init_modules_type_tables"
  | PURPOSE_DEBUGGER => "init_modules_debugger"
  | PURPOSE_PROC_STATIC => "write_out_proc_statics"
  end.

Definition module_suffix (p : Purpose) : string :=
  match p with
  | PURPOSE_INIT => "init"
  | PURPOSE_TYPE_TABLE => "init_type_tables"
  | PURPOSE_DEBUGGER => "init_debugger"
  | PURPOSE_PROC_STATIC => "write_out_proc_statics"
  end.

Definition init_suffix (p : Purpose) : string :=
  match p with
  | PURPOSE_INIT => ""
  | PURPOSE_TYPE_TABLE => "_type_tables"
  | PURPOSE_DEBUGGER => "_debugger"
  | PURPOSE_PROC_STATIC => "write_out_proc_statics"
  end.

Definition bunch_function_guard (p : Purpose) : option string :=
  match p with
  | PURPOSE_INIT => Some if_need_to_init
  | PURPOSE_TYPE_TABLE => None
  | PURPOSE_DEBUGGER => Some if_need_to_init
  | PURPOSE_PROC_STATIC => Some if_need_deep_prof
  end.

Definition main_func_guard (p : Purpose) : option string :=
  match p with
  | PURPOSE_INIT => None
  | PURPOSE_TYPE_TABLE => None
  | PURPOSE_DEBUGGER => None
  | PURPOSE_PROC_STATIC => Some if_need_deep_prof
  end.

Definition main_func_body_guard (p : Purpose) : option string :=
  match p with
  | PURPOSE_INIT => Some if_need_to_init
  | PURPOSE_TYPE_TABLE => None
  | PURPOSE_DEBUGGER => Some if_need_to_init
  | PURPOSE_PROC_STATIC => None
  end.

Definition main_func_arg_defn (p : Purpose) : string :=
  match p with
  | PURPOSE_PROC_STATIC => "FILE *fp"
  | _ => "void"
  end.

Definition main_func_arg_decl (p : Purpose) : string :=
  match p with
  | PURPOSE_PROC_STATIC => "FILE *"
  | _ => "void"
  end.

Definition main_func_arg (p : Purpose) : string :=
  match p with
  | PURPOSE_PROC_STATIC => "fp"
  | _ => ""
  end.

Definition SYS_PREFIX_1 : string := "sys_init".
Definition SYS_PREFIX_2 : string := "mercury_sys_init".
Definition aditi_rl_data_str : string := "mercury__aditi_rl_data__".

Definition EXIT_SUCCESS : Z := 0.
Definition EXIT_FAILURE : Z := 1.

(** *** Output

    What the program writes is kept as the list of its calls of [printf],
    [fputs] and [putc], each with its format and arguments. The long
    constant texts are named by the C array that holds them. *)

Inductive fragment : Type :=
| header1 | header2 | aditi_header
| mercury_funcs1 | mercury_funcs2 | mercury_funcs3 | main_func
| aditi_load_body.   (* the last, long literal of output_aditi_load_function *)

Inductive text : Type :=
| Lit (s : string)
| Static (f : fragment).

Inductive arg : Type :=
| A_str (s : string)
| A_int (i : Z)
| A_char (c : ascii)
| A_strerror.           (* strerror(errno) *)

Inductive out_item : Type :=
| Printf (fmt : text) (args : list arg)
| Fputs (s : text)
| Putc (c : ascii).

(** The formats of [output_sub_init_functions], [output_init_function] and
    [output_main_init_function]. *)
Definition fmt_bunch_0 : string := "static void %s_0(%s)" +:+ nl.
Definition fmt_bunch : string := "static void %s_%d(%s)" +:+ nl.
Definition fmt_extern : string := tab +:+ "{ extern void %s%s%s(%s);" +:+ nl.
Definition fmt_call : string := tab +:+ "  %s%s%s(%s); }" +:+ nl.
Definition fmt_main_func : string := nl +:+ "static void %s(%s)" +:+ nl.
Definition fmt_bunch_call : string := tab +:+ "%s_%d(%s);" +:+ nl.

(** The three lines [main] ends a failed run with. *)
Definition error_trailer : list out_item :=
  [ Fputs (Lit ("/* Force syntax error, since there were */" +:+ nl));
    Fputs (Lit ("/* errors in the generation of this file */" +:+ nl));
    Fputs (Lit ("#error " +:+ dquote +:+ "You need to remake this file"
                 +:+ dquote +:+ nl)) ].

(** *** Options, files and the state of a run *)

(** What [parse_options] leaves in the global variables it sets. *)
Record options : Type := {
  MR_progname : string;
  output_file_name : option string;
  entry_point : string;
  hl_entry_point : string;
  grade : string;
  maxcalls : Z;
  output_main_func : bool;
  c_files_contain_extra_inits : bool;
  aditi : bool;
  need_initialization_code : bool;
  need_tracing : bool;
  runtime_flags : list string;
  init_file_dirs : list string;
  arg_files : list string          (* argv + optind, num_files of them *)
}.

(** A file is either stored with its contents, or the one [stdout] has been
    reassigned to: what it holds is what has been written to [stdout]. *)
Inductive file : Type :=
| Stored (content : list ascii)
| Stdout_target.

(** [mkinit] calls [malloc] through [checked_malloc] only, which calls
    [exit] the first time [malloc] returns [NULL]: of what [malloc] does,
    a run sees only how many calls give memory before one gives none.
    [malloc_left] is that number, and [None] when no call fails. *)
Record state : Type := {
  stdout : list out_item;
  stderr : list out_item;
  num_errors : Z;
  rl_data : list string;           (* head of the linked list first *)
  files : list string;
  file_system : gmap string file;
  malloc_left : option nat
}.

(** How a function call ends: it returns, or [exit] is called in it, or
    its behaviour is undefined (a store outside an array). *)
Inductive outcome (A : Type) : Type :=
| Returns (a : A) (s : state)
| Exits (status : Z) (s : state)
| Undefined.
Arguments Returns {A} a s.
Arguments Exits {A} status s.
Arguments Undefined {A}.

Definition M (A : Type) : Type := state -> outcome A.

Global Instance M_ret : MRet M := fun A a s => Returns a s.
Global Instance M_bind : MBind M := fun A B f m s =>
  match m s with
  | Returns a s' => f a s'
  | Exits status s' => Exits status s'
  | Undefined => Undefined
  end.

Definition exit {A : Type} (status : Z) : M A := fun s => Exits status s.
Definition undefined {A : Type} : M A := fun _ => Undefined.
Definition get_state : M state := fun s => Returns s s.

Definition write_stdout (item : out_item) : M unit := fun s =>
  Returns tt {| stdout := stdout s ++ [item]; stderr := stderr s;
                num_errors := num_errors s; rl_data := rl_data s;
                files := files s; file_system := file_system s;
                malloc_left := malloc_left s |}.

Definition write_stderr (item : out_item) : M unit := fun s =>
  Returns tt {| stdout := stdout s; stderr := stderr s ++ [item];
                num_errors := num_errors s; rl_data := rl_data s;
                files := files s; file_system := file_system s;
                malloc_left := malloc_left s |}.

Definition printf (fmt : string) (args : list arg) : M unit :=
  write_stdout (Printf (Lit fmt) args).
Definition printf_static (f : fragment) (args : list arg) : M unit :=
  write_stdout (Printf (Static f) args).
Definition fputs (s : string) : M unit := write_stdout (Fputs (Lit s)).
Definition fputs_static (f : fragment) : M unit := write_stdout (Fputs (Static f)).
Definition putc (c : ascii) : M unit := write_stdout (Putc c).
Definition fprintf_stderr (fmt : string) (args : list arg) : M unit :=
  write_stderr (Printf (Lit fmt) args).

(** [num_errors++] *)
Definition incr_num_errors : M unit := fun s =>
  Returns tt {| stdout := stdout s; stderr := stderr s;
                num_errors := num_errors s + 1; rl_data := rl_data s;
                files := files s; file_system := file_system s;
                malloc_left := malloc_left s |}.

Definition set_files (fs : list string) : M unit := fun s =>
  Returns tt {| stdout := stdout s; stderr := stderr s;
                num_errors := num_errors s; rl_data := rl_data s;
                files := fs; file_system := file_system s;
                malloc_left := malloc_left s |}.

Definition set_file_system (fsys : gmap string file) : M unit := fun s =>
  Returns tt {| stdout := stdout s; stderr := stderr s;
                num_errors := num_errors s; rl_data := rl_data s;
                files := files s; file_system := fsys;
                malloc_left := malloc_left s |}.

(** [static void *checked_malloc(size_t size)]: it returns when [malloc]
    gives memory, and else writes a message and calls [exit]. Whether
    [malloc] gives memory is decided by [malloc_left], whatever the size
    asked for. *)
Definition checked_malloc : M unit := fun s =>
  match malloc_left s with
  | Some O =>
      (_ ← fprintf_stderr ("Out of memory" +:+ nl) []; exit EXIT_FAILURE) s
  | _ =>
      Returns tt {| stdout := stdout s; stderr := stderr s;
                    num_errors := num_errors s; rl_data := rl_data s;
                    files := files s; file_system := file_system s;
                    malloc_left := Nat.pred <$> malloc_left s |}
  end.

Definition set_rl_data (l : list string) : M unit := fun s =>
  Returns tt {| stdout := stdout s; stderr := stderr s;
                num_errors := num_errors s; rl_data := l;
                files := files s; file_system := file_system s;
                malloc_left := malloc_left s |}.

(** [add_rl_data]: a new node, from [checked_malloc(sizeof(String_List))],
    in front of the list. *)
Definition add_rl_data (data : string) : M unit :=
  _ ← checked_malloc;
  s ← get_state;
  set_rl_data (data :: rl_data s).

(** [fopen(filename, "r")]: the contents to read, if the file can be
    opened. Of the file [stdout] is being written to, nothing has reached
    the disk yet. *)
Definition fopen_r (fsys : gmap string file) (filename : string) : option (list ascii) :=
  match fsys !! filename with
  | Some (Stored content) => Some content
  | Some Stdout_target => Some []
  | None => None
  end.

(** [for (...) body]: the body run for each element in turn. *)
Fixpoint for_each {A : Type} (l : list A) (body : A -> M unit) : M unit :=
  match l with
  | [] => mret tt
  | x :: l' => _ ← body x; for_each l' body
  end.

(** *** [output_init_function]

    The calls are divided into bunches of at most [maxcalls] calls, each
    bunch in a function of its own. [nc] ([*num_calls_in_cur_bunch_ptr])
    says how many calls the current bunch already has, [nb]
    ([*num_bunches_ptr]) is the number of the current bunch; the new values
    of both are returned. *)
Definition output_init_function (o : options) (func_name : string) (nb nc : Z)
    (purpose : Purpose) (special_module : bool) : M (Z * Z) :=
  if bool_decide (purpose = PURPOSE_DEBUGGER) && special_module then
    (* This is a handwritten "module" which doesn't have a module layout
       to register. *)
    mret (nb, nc)
  else
    '(nb, nc) ←
      (if maxcalls o <=? nc then
         _ ← printf ("}" +:+ nl +:+ nl) [];
         _ ← printf fmt_bunch
               [A_str (main_func_name purpose); A_int (nb + 1);
                A_str (main_func_arg_defn purpose)];
         _ ← printf ("{" +:+ nl) [];
         mret (nb + 1, 0)
       else mret (nb, nc));
    _ ← printf fmt_extern
          [A_str func_name; A_str (if special_module then "_" else "");
           A_str (module_suffix purpose); A_str (main_func_arg_decl purpose)];
    _ ← printf fmt_call
          [A_str func_name; A_str (if special_module then "_" else "");
           A_str (module_suffix purpose); A_str (main_func_arg purpose)];
    mret (nb, nc + 1).

(** *** [process_c_file] *)

Definition inspect {A : Type} (x : A) : { y : A | x = y } := exist _ x eq_refl.

Lemma strchr_split_shorter s c b t :
  strchr_split s c = Some (b, t) -> (String.length t < String.length s)%nat.
Proof.
  revert b t. induction s as [|a r IH]; intros b t H; simpl in H; [discriminate|].
  destruct (Ascii.eqb a c).
  - injection H as <- <-. simpl. lia.
  - destruct (strchr_split r c) as [[b' t']|] eqn:E; simpl in H; [|discriminate].
    injection H as <- <-. specialize (IH _ _ eq_refl). simpl. lia.
Qed.

(** [while ((position = strchr(filename, '.')) != NULL) {
       strcat(func_name, "__");
       if (strncmp(filename, "f_", 2) == 0)
         { strcat(func_name, "f__"); filename += 2; }
       strncat(func_name, filename, position - filename);
       filename = position + 1; }]: the [func_name] it leaves. *)
Equations mangle_loop (func_name filename : string) : string
  by wf (String.length filename) lt :=
  mangle_loop func_name filename with inspect (strchr_split filename ".") := {
    | exist _ None _ => func_name
    | exist _ (Some (before, after)) H =>
        if strncmp_eq filename "f_" 2
        then mangle_loop (func_name +:+ "__" +:+ "f__" +:+ string_drop 2 before) after
        else mangle_loop (func_name +:+ "__" +:+ before) after }.
Next Obligation. eapply strchr_split_shorter. eauto. Qed.
Next Obligation. eapply strchr_split_shorter. eauto. Qed.

Definition strlen (s : string) : Z := Z.of_nat (String.length s).

(** The name built in [char func_name[1000]] for a file name without
    directory. *)
Definition c_file_func_name (filename : string) : string :=
  mangle_loop "mercury" filename +:+ "__".

Definition process_c_file (o : options) (filename : string) (nb nc : Z)
    (purpose : Purpose) : M (Z * Z) :=
  (* remove the directory name, if any *)
  let filename := default filename (strrchr_tail filename "/") in
  let filename := default filename (strrchr_tail filename "\") in
  (* check for special characters *)
  match first_special filename with
  | Some c =>
      _ ← fprintf_stderr
            ("mkinit: sorry, file names containing special characters are not supported."
               +:+ nl) [];
      _ ← fprintf_stderr
            ("File name `%s' contains special character `%c'." +:+ nl)
            [A_str filename; A_char c];
      exit EXIT_FAILURE
  | None =>
      let func_name := c_file_func_name filename in
      if 1000 <=? strlen func_name then undefined
      else
        '(nb, nc) ← output_init_function o func_name nb nc purpose false;
        _ ← (if aditi o then
               let mercury_len := strlen "mercury__" in
               let module_name_size := strlen func_name - mercury_len - strlen "__" in
               let size := module_name_size + strlen aditi_rl_data_str + 1 in
               (* rl_data_name = checked_malloc(size); *)
               _ ← checked_malloc;
               (* strcpy(rl_data_name, aditi_rl_data_str); *)
               if size <? strlen aditi_rl_data_str + 1 then undefined
               else
                 (* strncat(rl_data_name, func_name + mercury_len,
                            module_name_size); *)
                 add_rl_data
                   (aditi_rl_data_str
                      +:+ string_take (Z.to_nat module_name_size)
                            (string_drop (Z.to_nat mercury_len) func_name))
             else mret tt);
        mret (nb, nc)
  end.

(** *** [process_init_file] *)

Definition init_str : string := "INIT ".
Definition endinit_str : string := "ENDINIT ".
Definition aditi_init_str : string := "ADITI_DATA ".

Inductive loop_control : Type := Continue | Break.

(** The body of the loop over the lines of an init file, for the line the
    array [line] holds. *)
Definition process_init_line (o : options) (purpose : Purpose)
    (line : list ascii) (nb nc : Z) : M (loop_control * list ascii * Z * Z) :=
  let init_strlen := strlen init_str in
  let endinit_strlen := strlen endinit_str in
  let aditi_init_strlen := strlen aditi_init_str in
  if strncmp_eq (c_str line) init_str init_strlen then
    let j := init_strlen + span_alnumunder (drop (Z.to_nat init_strlen) line) in
    match store line j NUL with
    | None => undefined
    | Some line =>
        let func_name := c_str (drop (Z.to_nat init_strlen) line) in
        let func_name_len := strlen func_name in
        if strncmp_eq
             (c_str (drop (Z.to_nat (init_strlen + (func_name_len - 4))) line))
             "init" 4
        then
          match store line (init_strlen + (func_name_len - 4)) NUL with
          | None => undefined
          | Some line =>
              let func_name := c_str (drop (Z.to_nat init_strlen) line) in
              '(nb, nc) ← output_init_function o func_name nb nc purpose false;
              mret (Continue, line, nb, nc)
          end
        else
          '(nb, nc) ← output_init_function o func_name nb nc purpose true;
          mret (Continue, line, nb, nc)
    end
  else if aditi o && strncmp_eq (c_str line) aditi_init_str aditi_init_strlen then
    let j := aditi_init_strlen
             + span_alnumunder (drop (Z.to_nat aditi_init_strlen) line) in
    match store line j NUL with
    | None => undefined
    | Some line =>
        (* rl_data_name = checked_malloc(strlen(line + aditi_init_strlen) + 1);
           strcpy(rl_data_name, line + aditi_init_strlen); *)
        _ ← checked_malloc;
        _ ← add_rl_data (c_str (drop (Z.to_nat aditi_init_strlen) line));
        mret (Continue, line, nb, nc)
    end
  else if strncmp_eq (c_str line) endinit_str endinit_strlen then
    mret (Break, line, nb, nc)
  else mret (Continue, line, nb, nc).

(** [while (get_line(cfile, line, MAXLINE) > 0) { ... }]: [cfile] is what
    is left to read of the stream. *)
Equations process_init_lines (o : options) (purpose : Purpose)
    (cfile line : list ascii) (nb nc : Z) (s : state) : outcome (Z * Z)
  by wf (length cfile) lt :=
  process_init_lines o purpose cfile line nb nc s
    with inspect (get_line cfile line MAXLINE) := {
    | exist _ None _ => Undefined
    | exist _ (Some (n, line', cfile')) Hget with inspect (0 <? n) := {
      | exist _ false _ => Returns (nb, nc) s
      | exist _ true Hn with process_init_line o purpose line' nb nc s := {
        | Returns (Continue, line'', nb', nc') s' =>
            process_init_lines o purpose cfile' line'' nb' nc' s'
        | Returns (Break, _, nb', nc') s' => Returns (nb', nc') s'
        | Exits status s' => Exits status s'
        | Undefined => Undefined } } }.
Next Obligation.
  eapply (get_line_consumes cfile line MAXLINE); [eauto|lia].
Qed.

Definition process_init_file (o : options) (filename : string) (nb nc : Z)
    (purpose : Purpose) : M (Z * Z) := fun s =>
  match fopen_r (file_system s) filename with
  | None =>
      (_ ← fprintf_stderr ("%s: error opening file `%s': %s" +:+ nl)
             [A_str (MR_progname o); A_str filename; A_strerror];
       _ ← incr_num_errors;
       mret (nb, nc)) s
  | Some cfile =>
      (* char line[MAXLINE]: not initialized, and written by get_line
         before it is read *)
      process_init_lines o purpose cfile (replicate (Z.to_nat MAXLINE) NUL) nb nc s
  end.

(** *** [process_file] *)

Definition process_file (o : options) (filename : string) (nb nc : Z)
    (purpose : Purpose) : M (Z * Z) :=
  let len := strlen filename in
  if (2 <=? len) && strcmp_eq (string_drop (Z.to_nat (len - 2)) filename) ".c" then
    if c_files_contain_extra_inits o
    then process_init_file o filename nb nc purpose
    else process_c_file o filename nb nc purpose
  else if (5 <=? len) && strcmp_eq (string_drop (Z.to_nat (len - 5)) filename) ".init" then
    process_init_file o filename nb nc purpose
  else
    _ ← fprintf_stderr ("%s: filename `%s' must end in `.c' or `.init'" +:+ nl)
          [A_str (MR_progname o); A_str filename];
    _ ← incr_num_errors;
    mret (nb, nc).

(** [for (filenum = 0; filenum < num_files; filenum++)
       process_file(files[filenum], &num_bunches, &num_calls_in_cur_bunch, purpose);] *)
Fixpoint process_files (o : options) (fs : list string) (nb nc : Z)
    (purpose : Purpose) : M (Z * Z) :=
  match fs with
  | [] => mret (nb, nc)
  | filename :: fs' =>
      '(nb, nc) ← process_file o filename nb nc purpose;
      process_files o fs' nb nc purpose
  end.

(** *** [output_sub_init_functions] and [output_main_init_function] *)

Definition output_sub_init_functions (o : options) (purpose : Purpose) : M Z :=
  _ ← fputs nl;
  _ ← match bunch_function_guard purpose with
      | Some guard => _ ← fputs guard; fputs nl
      | None => mret tt
      end;
  _ ← printf fmt_bunch_0
        [A_str (main_func_name purpose); A_str (main_func_arg_defn purpose)];
  _ ← fputs ("{" +:+ nl);
  s ← get_state;
  '(num_bunches, _) ← process_files o (files s) 0 0 purpose;
  _ ← fputs ("}" +:+ nl);
  _ ← match bunch_function_guard purpose with
      | Some _ => fputs (nl +:+ "#endif" +:+ nl)
      | None => mret tt
      end;
  mret num_bunches.

Definition output_main_init_function (purpose : Purpose) (num_bunches : Z) : M unit :=
  _ ← fputs nl;
  _ ← match main_func_guard purpose with
      | Some guard => _ ← fputs guard; fputs nl
      | None => mret tt
      end;
  _ ← printf fmt_main_func
        [A_str (main_func_name purpose); A_str (main_func_arg_defn purpose)];
  _ ← fputs ("{" +:+ nl);
  _ ← match main_func_body_guard purpose with
      | Some guard => fputs guard
      | None => mret tt
      end;
  (* for (i = 0; i <= num_bunches; i++) *)
  _ ← for_each (seqZ 0 (num_bunches + 1)) (fun i =>
        printf fmt_bunch_call
          [A_str (main_func_name purpose); A_int i; A_str (main_func_arg purpose)]);
  _ ← match main_func_body_guard purpose with
      | Some _ => fputs ("#endif" +:+ nl)
      | None => mret tt
      end;
  _ ← fputs ("}" +:+ nl);
  match main_func_guard purpose with
  | Some _ => fputs (nl +:+ "#endif" +:+ nl)
  | None => mret tt
  end.

(** *** The rest of the output *)

Definition output_headers (o : options) : M unit :=
  _ ← printf_static header1 [A_str (grade o)];
  s ← get_state;
  _ ← for_each (files s) (fun filename =>
        _ ← fputs "** "; _ ← fputs filename; putc newline);
  _ ← printf_static header2 [A_int (if need_tracing o then 1 else 0)];
  if aditi o then fputs_static aditi_header else mret tt.

(** [putchar] of one character of a runtime flag, escaped for a C string
    literal. *)
Definition put_escaped (c : ascii) : M unit :=
  if Ascii.eqb c newline then _ ← putc "\"%char; putc "n"%char
  else if Ascii.eqb c (ascii_of_nat 9) then _ ← putc "\"%char; putc "t"%char
  else if Ascii.eqb c (ascii_of_nat 34) || Ascii.eqb c "\"%char then
    _ ← putc "\"%char; putc c
  else putc c.

Definition output_main (o : options) : M unit :=
  let aditi_load_func :=
    if aditi o then "MR_do_load_aditi_rl_code" else "NULL" in
  _ ← printf_static mercury_funcs1 [A_str (hl_entry_point o); A_str (entry_point o)];
  _ ← printf_static mercury_funcs2
        [A_str aditi_load_func; A_str (hl_entry_point o); A_str (entry_point o)];
  _ ← printf (tab +:+ "MR_runtime_flags = " +:+ dquote) [];
  _ ← for_each (runtime_flags o) (fun flag =>
        _ ← for_each (list_ascii_of_string flag) put_escaped;
        putc " "%char);
  _ ← printf (dquote +:+ ";" +:+ nl) [];
  _ ← fputs_static mercury_funcs3;
  if output_main_func o then fputs_static main_func else mret tt.

Definition include_line (header : string) : string :=
  "#include " +:+ dquote +:+ header +:+ dquote +:+ nl.

Definition output_aditi_load_function : M unit :=
  _ ← printf (nl +:+ "/*" +:+ nl +:+ "** Load the Aditi-RL code for the program into the" +:+ nl) [];
  _ ← printf ("** currently connected database." +:+ nl +:+ "*/" +:+ nl) [];
  _ ← printf (include_line "mercury_heap.h") [];
  _ ← printf (include_line "v2_api_without_engine.h") [];
  _ ← printf (include_line "v2_api_misc.h") [];
  _ ← printf (include_line "AditiStatus.h") [];
  s ← get_state;
  _ ← for_each (rl_data s) (fun data =>
        _ ← printf ("extern const char %s[];" +:+ nl) [A_str data];
        printf ("extern const int %s__length;" +:+ nl) [A_str data]);
  _ ← printf nl [];
  _ ← printf ("extern MR_Box" +:+ nl) [];
  _ ← printf ("MR_do_load_aditi_rl_code(MR_Box boxed_connection, "
               +:+ "MR_Box boxed_transaction)" +:+ nl +:+ "{" +:+ nl) [];
  _ ← printf (tab +:+ "static const char *rl_data[] = {" +:+ nl +:+ tab +:+ tab) [];
  _ ← for_each (rl_data s) (fun data =>
        printf ("%s," +:+ nl +:+ tab +:+ tab) [A_str data]);
  _ ← printf ("NULL};" +:+ nl) [];
  _ ← printf (tab +:+ "static const int * const rl_data_lengths[] = {"
               +:+ nl +:+ tab +:+ tab) [];
  _ ← for_each (rl_data s) (fun data =>
        printf ("&%s__length," +:+ nl +:+ tab +:+ tab) [A_str data]);
  _ ← printf ("0};" +:+ nl) [];
  _ ← printf (tab +:+ "const int num_rl_modules = %d;" +:+ nl)
        [A_int (Z.of_nat (length (rl_data s)))];
  printf_static aditi_load_body [].

(** *** Options, the output file and the search path *)

Definition usage {A : Type} : M A :=
  _ ← fprintf_stderr
        ("Usage: mkinit [options] files..." +:+ nl
           +:+ "Options: [-a] [-c maxcalls] [-o filename] [-w entry] [-i] [-l] [-t] [-x]"
           +:+ nl) [];
  exit EXIT_FAILURE.

(** The end of [parse_options], after [getopt] has set the options:
    [num_files = argc - optind; if (num_files <= 0) usage();
     files = argv + optind;] *)
Definition parse_options (o : options) : M unit :=
  if (Z.of_nat (length (arg_files o)) <=? 0) then usage
  else set_files (arg_files o).

(** [freopen(output_file_name, "w", stdout)] succeeds on the files that
    are [writable]. *)
Definition set_output_file (o : options) (writable : string -> bool) : M unit :=
  match output_file_name o with
  | Some name =>
      if writable name then
        s ← get_state;
        set_file_system (<[name := Stdout_target]> (file_system s))
      else
        _ ← fprintf_stderr ("%s: error opening output file `%s': %s" +:+ nl)
              [A_str (MR_progname o); A_str name; A_strerror];
        exit EXIT_FAILURE
  | None => mret tt
  end.

Definition file_exists (fsys : gmap string file) (filename : string) : bool :=
  bool_decide (is_Some (fsys !! filename)).

(** The loop of [find_init_file] over the search directories: for each,
    the full name is built in a buffer from [checked_malloc], which is
    freed when the file is not there. *)
Fixpoint search_init_file_dirs (dirs : list string) (base_name : string)
  : M (option string) :=
  match dirs with
  | [] => mret None     (* Did not find file *)
  | dirname :: dirs' =>
      (* filename = (char * ) checked_malloc(len + 1); *)
      _ ← checked_malloc;
      let filename := dirname +:+ "/" +:+ base_name in
      s ← get_state;
      if file_exists (file_system s) filename then mret (Some filename)
      else search_init_file_dirs dirs' base_name
  end.

Definition find_init_file (o : options) (base_name : string) : M (option string) :=
  s ← get_state;
  if file_exists (file_system s) base_name then
    (* File is in current directory, so no search required *)
    mret None
  else search_init_file_dirs (init_file_dirs o) base_name.

(** [for (filenum = ...; filenum < num_files; filenum++)
       { init_file = find_init_file(files[filenum]);
         if (init_file != NULL) files[filenum] = init_file; }],
    [todo] being the files from [filenum] on. *)
Fixpoint do_path_search_from (o : options) (filenum : nat) (todo : list string)
  : M unit :=
  match todo with
  | [] => mret tt
  | filename :: todo' =>
      init_file ← find_init_file o filename;
      _ ← match init_file with
          | Some name => s ← get_state; set_files (<[filenum := name]> (files s))
          | None => mret tt
          end;
      do_path_search_from o (S filenum) todo'
  end.

Definition do_path_search (o : options) : M unit :=
  s ← get_state;
  do_path_search_from o 0 (files s).

(** *** [main] *)

Definition initial_state (fsys : gmap string file) (memory : option nat) : state :=
  {| stdout := []; stderr := []; num_errors := 0; rl_data := [];
     files := []; file_system := fsys; malloc_left := memory |}.

Definition main_body (o : options) (writable : string -> bool) : M Z :=
  _ ← parse_options o;
  _ ← set_output_file o writable;
  _ ← do_path_search o;
  _ ← output_headers o;
  _ ← (if need_initialization_code o
       then printf ("#define MR_MAY_NEED_INITIALIZATION" +:+ nl +:+ nl) []
       else mret tt);
  num_bunches ← output_sub_init_functions o PURPOSE_INIT;
  _ ← output_main_init_function PURPOSE_INIT num_bunches;
  num_bunches ← output_sub_init_functions o PURPOSE_TYPE_TABLE;
  _ ← output_main_init_function PURPOSE_TYPE_TABLE num_bunches;
  num_bunches ← output_sub_init_functions o PURPOSE_DEBUGGER;
  _ ← output_main_init_function PURPOSE_DEBUGGER num_bunches;
  num_bunches ← output_sub_init_functions o PURPOSE_PROC_STATIC;
  _ ← output_main_init_function PURPOSE_PROC_STATIC num_bunches;
  _ ← (if aditi o then output_aditi_load_function else mret tt);
  _ ← output_main o;
  s ← get_state;
  if 0 <? num_errors s then
    _ ← for_each error_trailer write_stdout;
    _ ← match output_file_name o with
        | Some name =>
            (* (void) fclose(stdout); (void) remove(output_file_name); *)
            s ← get_state;
            set_file_system (delete name (file_system s))
        | None => mret tt
        end;
    mret EXIT_FAILURE
  else mret EXIT_SUCCESS.

(** A run of the program on the options [o] and the files [fsys], with
    [memory] for what [malloc] has left after the options are read. *)
Definition main (o : options) (writable : string -> bool)
    (fsys : gmap string file) (memory : option nat) : outcome Z :=
  main_body o writable (initial_state fsys memory).

(** *** What a run does, read off its inputs *)

(** What one line of an init file asks for. *)
Inductive line_action : Type :=
| Init_call (func_name : string) (special_module : bool)
| Aditi_data (rl_data_name : string)
| End_init
| No_action
| Undefined_behaviour      (* a store outside [line] or [func_name] *)
| Aditi_overrun.           (* memory for the name of the Aditi-RL data of a C
                              file, and a [strcpy] past its end *)

(** The line left in the array and the action of the line it held: the
    string operations of the loop body of [process_init_file]. *)
Definition parse_init_line (with_aditi : bool) (line : list ascii)
  : list ascii * line_action :=
  let init_strlen := strlen init_str in
  let endinit_strlen := strlen endinit_str in
  let aditi_init_strlen := strlen aditi_init_str in
  if strncmp_eq (c_str line) init_str init_strlen then
    let j := init_strlen + span_alnumunder (drop (Z.to_nat init_strlen) line) in
    match store line j NUL with
    | None => (line, Undefined_behaviour)
    | Some line =>
        let func_name := c_str (drop (Z.to_nat init_strlen) line) in
        let func_name_len := strlen func_name in
        if strncmp_eq
             (c_str (drop (Z.to_nat (init_strlen + (func_name_len - 4))) line))
             "init" 4
        then
          match store line (init_strlen + (func_name_len - 4)) NUL with
          | None => (line, Undefined_behaviour)
          | Some line =>
              (line, Init_call (c_str (drop (Z.to_nat init_strlen) line)) false)
          end
        else (line, Init_call func_name true)
    end
  else if with_aditi && strncmp_eq (c_str line) aditi_init_str aditi_init_strlen then
    let j := aditi_init_strlen
             + span_alnumunder (drop (Z.to_nat aditi_init_strlen) line) in
    match store line j NUL with
    | None => (line, Undefined_behaviour)
    | Some line =>
        (line, Aditi_data (c_str (drop (Z.to_nat aditi_init_strlen) line)))
    end
  else if strncmp_eq (c_str line) endinit_str endinit_strlen then (line, End_init)
  else (line, No_action).

(** The actions of the lines of an init file, up to its [ENDINIT] line. *)
Equations init_file_actions (with_aditi : bool) (cfile line : list ascii)
  : list line_action by wf (length cfile) lt :=
  init_file_actions with_aditi cfile line
    with inspect (get_line cfile line MAXLINE) := {
    | exist _ None _ => [Undefined_behaviour]
    | exist _ (Some (n, line', cfile')) Hget with inspect (0 <? n) := {
      | exist _ false _ => []
      | exist _ true Hn with parse_init_line with_aditi line' := {
        | (_, End_init) => []
        | (_, Undefined_behaviour) => [Undefined_behaviour]
        | (_, Aditi_overrun) => [Aditi_overrun]
        | (line'', action) => action :: init_file_actions with_aditi cfile' line'' } } }.
Next Obligation.
  eapply (get_line_consumes cfile line MAXLINE); [eauto|lia].
Qed.
Next Obligation.
  eapply (get_line_consumes cfile line MAXLINE); [eauto|lia].
Qed.
Next Obligation.
  eapply (get_line_consumes cfile line MAXLINE); [eauto|lia].
Qed.

(** What [process_file] does with one file. *)
Inductive file_plan : Type :=
| Plan_actions (actions : list line_action)
| Plan_error (message : out_item)                 (* and num_errors++ *)
| Plan_exit (messages : list out_item) (status : Z).

Definition basename (filename : string) : string :=
  let filename := default filename (strrchr_tail filename "/") in
  default filename (strrchr_tail filename "\").

Definition c_file_plan (o : options) (filename : string) : file_plan :=
  let filename := basename filename in
  match first_special filename with
  | Some c =>
      Plan_exit
        [Printf (Lit ("mkinit: sorry, file names containing special characters are not supported."
                        +:+ nl)) [];
         Printf (Lit ("File name `%s' contains special character `%c'." +:+ nl))
           [A_str filename; A_char c]]
        EXIT_FAILURE
  | None =>
      let func_name := c_file_func_name filename in
      if 1000 <=? strlen func_name then Plan_actions [Undefined_behaviour]
      else
        Plan_actions
          (Init_call func_name false
             :: (if aditi o then
                   if strlen func_name - 9 - 2 + strlen aditi_rl_data_str + 1
                      <? strlen aditi_rl_data_str + 1
                   then [Aditi_overrun]
                   else
                     [Aditi_data
                        (aditi_rl_data_str
                           +:+ string_take (Z.to_nat (strlen func_name - 9 - 2))
                                 (string_drop 9 func_name))]
                 else []))
  end.

Definition init_file_plan (o : options) (fsys : gmap string file)
    (filename : string) : file_plan :=
  match fopen_r fsys filename with
  | None =>
      Plan_error
        (Printf (Lit ("%s: error opening file `%s': %s" +:+ nl))
           [A_str (MR_progname o); A_str filename; A_strerror])
  | Some cfile =>
      Plan_actions (init_file_actions (aditi o) cfile (replicate (Z.to_nat MAXLINE) NUL))
  end.

Definition ends_in (suffix filename : string) : bool :=
  (strlen suffix <=? strlen filename)
  && strcmp_eq (string_drop (Z.to_nat (strlen filename - strlen suffix)) filename) suffix.

Definition file_plan_of (o : options) (fsys : gmap string file)
    (filename : string) : file_plan :=
  if ends_in ".c" filename then
    if c_files_contain_extra_inits o then init_file_plan o fsys filename
    else c_file_plan o filename
  else if ends_in ".init" filename then init_file_plan o fsys filename
  else
    Plan_error
      (Printf (Lit ("%s: filename `%s' must end in `.c' or `.init'" +:+ nl))
         [A_str (MR_progname o); A_str filename]).

(** The module entry points a file names: the function name and whether
    the module is a special (handwritten) one, as [output_init_function]
    is given them. *)
Definition action_entry (a : line_action) : option (string * bool) :=
  match a with
  | Init_call func_name special_module => Some (func_name, special_module)
  | _ => None
  end.

Definition file_entry_points (o : options) (fsys : gmap string file)
    (filename : string) : list (string * bool) :=
  match file_plan_of o fsys filename with
  | Plan_actions actions => omap action_entry actions
  | _ => []
  end.

(** The module entry points of the files of the command line, in the
    order of the command line. *)
Definition entry_points (o : options) (fsys : gmap string file)
    (filenames : list string) : list (string * bool) :=
  filenames ≫= file_entry_points o fsys.

(** The function an entry point is called by, for a purpose. *)
Definition call_name (purpose : Purpose) (e : string * bool) : string :=
  e.1 +:+ (if e.2 then "_" else "") +:+ module_suffix purpose.

(** The entry points [output_init_function] emits a call for. *)
Definition called_for (purpose : Purpose) (e : string * bool) : bool :=
  negb (bool_decide (purpose = PURPOSE_DEBUGGER) && e.2).

(** Whether a file is processed without error. *)
Definition file_processed (o : options) (fsys : gmap string file)
    (filename : string) : bool :=
  match file_plan_of o fsys filename with
  | Plan_actions _ => true
  | _ => false
  end.

Definition defined_action (a : line_action) : bool :=
  match a with
  | Undefined_behaviour | Aditi_overrun => false
  | _ => true
  end.

(** Whether a file plan returns, when [malloc] never fails. *)
Definition plan_returns (plan : file_plan) : bool :=
  match plan with
  | Plan_actions actions => forallb defined_action actions
  | Plan_error _ => true
  | Plan_exit _ _ => false
  end.

(** Whether processing the file ends in a return: no [exit], and every
    store inside its array. *)
Definition file_returns (o : options) (fsys : gmap string file)
    (filename : string) : bool :=
  match file_plan_of o fsys filename with
  | Plan_actions actions =>
      forallb defined_action actions
  | Plan_error _ => true
  | Plan_exit _ _ => false
  end.

(** Carrying out the actions of the lines of a file, and the plan of a
    file. *)
Fixpoint run_actions (o : options) (purpose : Purpose)
    (actions : list line_action) (nb nc : Z) : M (Z * Z) :=
  match actions with
  | [] => mret (nb, nc)
  | Init_call func_name special_module :: actions' =>
      '(nb, nc) ← output_init_function o func_name nb nc purpose special_module;
      run_actions o purpose actions' nb nc
  | Aditi_data rl_data_name :: actions' =>
      _ ← checked_malloc;
      _ ← add_rl_data rl_data_name;
      run_actions o purpose actions' nb nc
  | Undefined_behaviour :: _ => undefined
  | Aditi_overrun :: _ => _ ← checked_malloc; undefined
  | _ :: actions' => run_actions o purpose actions' nb nc
  end.

Definition run_plan (o : options) (purpose : Purpose) (plan : file_plan)
    (nb nc : Z) : M (Z * Z) :=
  match plan with
  | Plan_actions actions => run_actions o purpose actions nb nc
  | Plan_error message =>
      _ ← write_stderr message; _ ← incr_num_errors; mret (nb, nc)
  | Plan_exit messages status =>
      _ ← for_each messages write_stderr; exit status
  end.

(** *** What a run writes *)

(** What [malloc] has left after [k] calls that gave memory. *)
Fixpoint consume (k : nat) (avail : option nat) : option nat :=
  match k with
  | O => avail
  | S k' => consume k' (Nat.pred <$> avail)
  end.

(** Whether the next [k] calls of [malloc] give memory. *)
Definition mallocs_succeed (k : nat) (avail : option nat) : bool :=
  match avail with
  | None => true
  | Some n => (k <=? n)%nat
  end.

(** A later state of a run: more output, more error messages, each with
    one more error counted, and more Aditi-RL names, each with its two
    calls of [malloc], for the name and for the node of the list. *)
Definition advance (out err : list out_item) (rl : list string) (s : state) : state :=
  {| stdout := stdout s ++ out;
     stderr := stderr s ++ err;
     num_errors := num_errors s + Z.of_nat (length err);
     rl_data := rl ++ rl_data s;
     files := files s;
     file_system := file_system s;
     malloc_left := consume (2 * length rl) (malloc_left s) |}.

(** What is left when [exit] is called: the state with the messages
    written to [stderr] before. *)
Definition exit_state (messages : list out_item) (s : state) : state :=
  {| stdout := stdout s; stderr := stderr s ++ messages;
     num_errors := num_errors s; rl_data := rl_data s;
     files := files s; file_system := file_system s;
     malloc_left := malloc_left s |}.

(** What [checked_malloc] writes when [malloc] gives no memory. *)
Definition out_of_memory : out_item := Printf (Lit ("Out of memory" +:+ nl)) [].

(** The output of one call of [output_init_function], and the new
    [num_bunches] and [num_calls_in_cur_bunch]. *)
Definition call_items (o : options) (purpose : Purpose) (nb nc : Z)
    (func_name : string) (special_module : bool) : list out_item * (Z * Z) :=
  if bool_decide (purpose = PURPOSE_DEBUGGER) && special_module then ([], (nb, nc))
  else
    let call :=
      [Printf (Lit fmt_extern)
         [A_str func_name; A_str (if special_module then "_" else "");
          A_str (module_suffix purpose); A_str (main_func_arg_decl purpose)];
       Printf (Lit fmt_call)
         [A_str func_name; A_str (if special_module then "_" else "");
          A_str (module_suffix purpose); A_str (main_func_arg purpose)]] in
    if maxcalls o <=? nc then
      ([Printf (Lit ("}" +:+ nl +:+ nl)) [];
        Printf (Lit fmt_bunch)
          [A_str (main_func_name purpose); A_int (nb + 1);
           A_str (main_func_arg_defn purpose)];
        Printf (Lit ("{" +:+ nl)) []] ++ call,
       (nb + 1, 1))
    else (call, (nb, nc + 1)).

Fixpoint actions_items (o : options) (purpose : Purpose)
    (actions : list line_action) (nb nc : Z) : list out_item * (Z * Z) :=
  match actions with
  | [] => ([], (nb, nc))
  | Init_call func_name special_module :: actions' =>
      let '(items, (nb', nc')) := call_items o purpose nb nc func_name special_module in
      let '(items', counters) := actions_items o purpose actions' nb' nc' in
      (items ++ items', counters)
  | _ :: actions' => actions_items o purpose actions' nb nc
  end.

(** The Aditi-RL names of some actions, the last one first. *)
Fixpoint actions_rl_data (actions : list line_action) : list string :=
  match actions with
  | [] => []
  | Aditi_data rl_data_name :: actions' => actions_rl_data actions' ++ [rl_data_name]
  | _ :: actions' => actions_rl_data actions'
  end.

Definition plan_actions (plan : file_plan) : list line_action :=
  match plan with
  | Plan_actions actions => actions
  | _ => []
  end.

Definition plan_errors (plan : file_plan) : list out_item :=
  match plan with
  | Plan_error message => [message]
  | _ => []
  end.

(** The actions of all the lines of some files, and the error messages
    of the files that are not processed. *)
Definition files_actions (o : options) (fsys : gmap string file)
    (filenames : list string) : list line_action :=
  filenames ≫= (fun filename => plan_actions (file_plan_of o fsys filename)).

Definition files_errors (o : options) (fsys : gmap string file)
    (filenames : list string) : list out_item :=
  filenames ≫= (fun filename => plan_errors (file_plan_of o fsys filename)).

(** What [output_sub_init_functions] writes before and after the calls. *)
Definition sub_init_prelude (purpose : Purpose) : list out_item :=
  [Fputs (Lit nl)]
    ++ match bunch_function_guard purpose with
       | Some guard => [Fputs (Lit guard); Fputs (Lit nl)]
       | None => []
       end
    ++ [Printf (Lit fmt_bunch_0)
          [A_str (main_func_name purpose); A_str (main_func_arg_defn purpose)];
        Fputs (Lit ("{" +:+ nl))].

Definition sub_init_postlude (purpose : Purpose) : list out_item :=
  [Fputs (Lit ("}" +:+ nl))]
    ++ match bunch_function_guard purpose with
       | Some _ => [Fputs (Lit (nl +:+ "#endif" +:+ nl))]
       | None => []
       end.

(** *** Reading the generated file *)

(** The function called by an output line, if the line is a call of an
    initialization function. *)
Definition called_function (item : out_item) : option string :=
  match item with
  | Printf (Lit fmt) [A_str func_name; A_str underscore; A_str suffix; A_str _] =>
      if String.eqb fmt fmt_call then Some (func_name +:+ underscore +:+ suffix)
      else None
  | _ => None
  end.

(** The number of the bunch function an output line opens, if it is the
    head of one. *)
Definition bunch_opened (item : out_item) : option Z :=
  match item with
  | Printf (Lit fmt) [A_str _; A_str _] =>
      if String.eqb fmt fmt_bunch_0 then Some 0 else None
  | Printf (Lit fmt) [A_str _; A_int n; A_str _] =>
      if String.eqb fmt fmt_bunch then Some n else None
  | _ => None
  end.

(** The number of the bunch function an output line calls, if it is such
    a call in a main init function. *)
Definition bunch_called (item : out_item) : option Z :=
  match item with
  | Printf (Lit fmt) [A_str _; A_int i; A_str _] =>
      if String.eqb fmt fmt_bunch_call then Some i else None
  | _ => None
  end.

(** The initialization functions called in some output, in order. *)
Definition called_functions (out : list out_item) : list string :=
  omap called_function out.

(** The bunch functions called in some output, in order. *)
Definition bunches_called (out : list out_item) : list Z :=
  omap bunch_called out.

(** Reading the output from its end: the calls met since the last head of
    a bunch function, and the bunch functions read so far. *)
Definition bunch_step (item : out_item)
    (acc : list string * list (Z * list string)) : list string * list (Z * list string) :=
  match bunch_opened item with
  | Some n => ([], (n, acc.1) :: acc.2)
  | None =>
      match called_function item with
      | Some c => (c :: acc.1, acc.2)
      | None => acc
      end
  end.

(** The bunch functions some output defines: the number of each and the
    functions it calls. *)
Definition bunches (out : list out_item) : list (Z * list string) :=
  (foldr bunch_step ([], []) out).2.

(** Calls dealt to bunches of at most [max] calls, [nc] of which the
    current bunch already has: the calls that still go to the current
    bunch, and the bunches opened after it. *)
Fixpoint batch (max : Z) (calls : list string) (nc : Z)
  : list string * list (list string) :=
  match calls with
  | [] => ([], [])
  | c :: calls' =>
      if max <=? nc then
        let '(cur, later) := batch max calls' 1 in ([], (c :: cur) :: later)
      else
        let '(cur, later) := batch max calls' (nc + 1) in (c :: cur, later)
  end.

Definition numbered (k : Z) (l : list (list string)) : list (Z * list string) :=
  zip (seqZ k (Z.of_nat (length l))) l.

(** The calls [output_init_function] emits for some actions. *)
Definition actions_calls (purpose : Purpose) (actions : list line_action) : list string :=
  call_name purpose <$> filter (fun e => called_for purpose e = true) (omap action_entry actions).

(** What [output_main_init_function] writes. *)
Definition main_init_items (purpose : Purpose) (num_bunches : Z) : list out_item :=
  [Fputs (Lit nl)]
    ++ match main_func_guard purpose with
       | Some guard => [Fputs (Lit guard); Fputs (Lit nl)]
       | None => []
       end
    ++ [Printf (Lit fmt_main_func)
          [A_str (main_func_name purpose); A_str (main_func_arg_defn purpose)];
        Fputs (Lit ("{" +:+ nl))]
    ++ match main_func_body_guard purpose with
       | Some guard => [Fputs (Lit guard)]
       | None => []
       end
    ++ ((fun i => Printf (Lit fmt_bunch_call)
                    [A_str (main_func_name purpose); A_int i;
                     A_str (main_func_arg purpose)])
          <$> seqZ 0 (num_bunches + 1))
    ++ match main_func_body_guard purpose with
       | Some _ => [Fputs (Lit ("#endif" +:+ nl))]
       | None => []
       end
    ++ [Fputs (Lit ("}" +:+ nl))]
    ++ match main_func_guard purpose with
       | Some _ => [Fputs (Lit (nl +:+ "#endif" +:+ nl))]
       | None => []
       end.

(** *** The inputs of a run *)

(** The file system after [set_output_file]. *)
Definition run_file_system (o : options) (fsys : gmap string file) : gmap string file :=
  match output_file_name o with
  | Some name => <[name := Stdout_target]> fsys
  | None => fsys
  end.

(** What the loop of [find_init_file] returns, when it returns: the name
    of the file in the first of the directories that has it. *)
Fixpoint init_file_in_dirs (fsys : gmap string file) (dirs : list string)
    (base_name : string) : option string :=
  match dirs with
  | [] => None
  | dirname :: dirs' =>
      let filename := dirname +:+ "/" +:+ base_name in
      if file_exists fsys filename then Some filename
      else init_file_in_dirs fsys dirs' base_name
  end.

(** What [find_init_file] returns, when it returns. *)
Definition init_file_found (o : options) (fsys : gmap string file)
    (base_name : string) : option string :=
  if file_exists fsys base_name then None
  else init_file_in_dirs fsys (init_file_dirs o) base_name.

(** The calls of [malloc] of the loop of [find_init_file]: one for each
    directory tried. *)
Fixpoint dirs_tried (fsys : gmap string file) (dirs : list string)
    (base_name : string) : nat :=
  match dirs with
  | [] => O
  | dirname :: dirs' =>
      if file_exists fsys (dirname +:+ "/" +:+ base_name) then 1%nat
      else S (dirs_tried fsys dirs' base_name)
  end.

Definition find_init_file_mallocs (o : options) (fsys : gmap string file)
    (base_name : string) : nat :=
  if file_exists fsys base_name then O
  else dirs_tried fsys (init_file_dirs o) base_name.

(** The name [do_path_search] leaves for a file. *)
Definition searched (o : options) (fsys : gmap string file) (filename : string)
  : string :=
  default filename (init_file_found o fsys filename).

(** The calls of [malloc] of [do_path_search] on some files. *)
Definition path_search_mallocs (o : options) (fsys : gmap string file)
    (filenames : list string) : nat :=
  sum_list (find_init_file_mallocs o fsys <$> filenames).

(** The files after [do_path_search]. *)
Definition run_files (o : options) (fsys : gmap string file) : list string :=
  searched o (run_file_system o fsys) <$> arg_files o.

(** The calls of [malloc] of a pass over the files: two for each
    Aditi-RL name. *)
Definition pass_mallocs (o : options) (fsys : gmap string file)
    (filenames : list string) : nat :=
  2 * length (actions_rl_data (files_actions o fsys filenames)).

(** The calls of [malloc] of a run that returns: those of
    [do_path_search], and those of the four passes over the files. *)
Definition main_mallocs (o : options) (fsys : gmap string file) : nat :=
  path_search_mallocs o (run_file_system o fsys) (arg_files o)
    + 4 * pass_mallocs o (run_file_system o fsys) (run_files o fsys).

(** The state after [k] calls of [malloc]. *)
Definition spend (k : nat) (s : state) : state :=
  {| stdout := stdout s; stderr := stderr s; num_errors := num_errors s;
     rl_data := rl_data s; files := files s; file_system := file_system s;
     malloc_left := consume k (malloc_left s) |}.

(** The state with other files to process. *)
Definition with_files (l : list string) (s : state) : state :=
  {| stdout := stdout s; stderr := stderr s; num_errors := num_errors s;
     rl_data := rl_data s; files := l; file_system := file_system s;
     malloc_left := malloc_left s |}.

(** The state of a run after [do_path_search], when [main] gets there
    with [memory] for what [malloc] has left at its start. *)
Definition searched_state (o : options) (fsys : gmap string file)
    (memory : option nat) : state :=
  {| stdout := []; stderr := []; num_errors := 0; rl_data := [];
     files := run_files o fsys; file_system := run_file_system o fsys;
     malloc_left
       := consume (path_search_mallocs o (run_file_system o fsys) (arg_files o)) memory |}.

(** The end of [main]: what it returns, and what it leaves, from the
    state [s] after [output_main]. *)
Definition main_end (o : options) : M Z :=
  s ← get_state;
  if 0 <? num_errors s then
    _ ← for_each error_trailer write_stdout;
    _ ← match output_file_name o with
        | Some name =>
            s ← get_state;
            set_file_system (delete name (file_system s))
        | None => mret tt
        end;
    mret EXIT_FAILURE
  else mret EXIT_SUCCESS.

(** A computation that returns and only writes to [stdout]. *)
Definition writes_only {A : Type} (m : M A) : Prop :=
  forall s, exists a items, m s = Returns a (advance items [] [] s).

(** The state of a run between [do_path_search] and the end of [main]. *)
Definition in_run (o : options) (fsys : gmap string file) (s : state) : Prop :=
  files s = run_files o fsys /\ file_system s = run_file_system o fsys.

(** [m] returns from every state of [P], into a state of [Q]. *)
Definition takes {A : Type} (P Q : state -> Prop) (m : M A) : Prop :=
  forall s, P s -> exists a s', m s = Returns a s' /\ Q s'.

(** The state of a run between [do_path_search] and the end of [main],
    with memory for [k] more calls of [malloc]. *)
Definition in_run_with (o : options) (fsys : gmap string file) (k : nat)
    (s : state) : Prop :=
  in_run o fsys s /\ mallocs_succeed k (malloc_left s) = true.

(** [m] leaves the files as they are, and when it exits, it is with
    EXIT_FAILURE. *)
Definition leaves_files {A : Type} (m : M A) : Prop :=
  forall s,
    match m s with
    | Returns _ s' => file_system s' = file_system s
    | Exits status s' => status = EXIT_FAILURE /\ file_system s' = file_system s
    | Undefined => True
    end.

(** When [m] exits, it is with EXIT_FAILURE and the files as they
    were. *)
Definition exits_safely {A : Type} (m : M A) : Prop :=
  forall s status s',
    m s = Exits status s' ->
    status = EXIT_FAILURE /\ file_system s' = file_system s.

(** [r] is the exit of [checked_malloc] when [malloc] gives nothing,
    in a run that went on from [s] with no other message: the message
    [Out of memory] and EXIT_FAILURE. *)
Definition out_of_memory_exit {A : Type} (s : state) (r : outcome A) : Prop :=
  exists s',
    r = Exits EXIT_FAILURE s' /\
    stderr s' = stderr s ++ [out_of_memory] /\
    num_errors s' = num_errors s /\
    file_system s' = file_system s /\
    malloc_left s' = Some O.

(** [m] returns from every state of [P]. *)
Definition returns_from {A : Type} (P : state -> Prop) (m : M A) : Prop :=
  forall s, P s -> exists a s', m s = Returns a s'.

(** *** A small run *)

(** [mkinit -c 2 -o out_init.c dir/a.b.c lib.init x.c], with an init
    file of five lines, the last one after [ENDINIT]. *)
Definition example_options : options :=
  {| MR_progname := "mkinit"; output_file_name := Some "out_init.c";
     entry_point := "mercury__main_2_0"; hl_entry_point := "main_2_p_0";
     grade := ""; maxcalls := 2; output_main_func := true;
     c_files_contain_extra_inits := false; aditi := false;
     need_initialization_code := false; need_tracing := false;
     runtime_flags := []; init_file_dirs := [];
     arg_files := ["dir/a.b.c"; "lib.init"; "x.c"] |}.

Definition example_init_file : string :=
  "INIT mercury__foo__init" +:+ nl +:+ "junk" +:+ nl
    +:+ "INIT mercury_sys_init_x" +:+ nl +:+ "ENDINIT " +:+ nl
    +:+ "INIT after" +:+ nl.

Definition example_file_system : gmap string file :=
  {[ "lib.init" := Stored (list_ascii_of_string example_init_file) ]}.

Definition example_state : state :=
  {| stdout := []; stderr := []; num_errors := 0; rl_data := [];
     files := arg_files example_options; file_system := example_file_system;
     malloc_left := None |}.

(** The same run with [-c 0], and with one more argument, which is
    neither a C file nor an init file. *)
Definition with_maxcalls (o : options) (n : Z) : options :=
  {| MR_progname := MR_progname o; output_file_name := output_file_name o;
     entry_point := entry_point o; hl_entry_point := hl_entry_point o;
     grade := grade o; maxcalls := n; output_main_func := output_main_func o;
     c_files_contain_extra_inits := c_files_contain_extra_inits o;
     aditi := aditi o; need_initialization_code := need_initialization_code o;
     need_tracing := need_tracing o; runtime_flags := runtime_flags o;
     init_file_dirs := init_file_dirs o; arg_files := arg_files o |}.

Definition with_arg_files (o : options) (filenames : list string) : options :=
  {| MR_progname := MR_progname o; output_file_name := output_file_name o;
     entry_point := entry_point o; hl_entry_point := hl_entry_point o;
     grade := grade o; maxcalls := maxcalls o; output_main_func := output_main_func o;
     c_files_contain_extra_inits := c_files_contain_extra_inits o;
     aditi := aditi o; need_initialization_code := need_initialization_code o;
     need_tracing := need_tracing o; runtime_flags := runtime_flags o;
     init_file_dirs := init_file_dirs o; arg_files := filenames |}.

Definition example_options_bad : options :=
  with_arg_files example_options (arg_files example_options ++ ["bad.txt"]).

(** [mkinit -c 2 -o out_init.c bad.txt x-y.c]: a file that is neither a
    C file nor an init file, then a C file with a special character in
    its name. *)
Definition example_options_exit : options :=
  with_arg_files example_options ["bad.txt"; "x-y.c"].
(** *** What the properties below are stated with *)

(** A stream made of whole lines: it is empty or ends with a newline. *)
Definition whole_lines (l : list ascii) : Prop :=
  l = [] \/ exists l', l = l' ++ [newline].

(** The name a component of a module name contributes: a leading [f_]
    is written [f__]. *)
Definition mangle_component (c : string) : string :=
  if strncmp_eq c "f_" 2 then "f__" +:+ string_drop 2 c else c.

(** The file name of the module whose name has the components [cs],
    with the extension [ext]. *)
Fixpoint dotted (cs : list string) (ext : string) : string :=
  match cs with
  | [] => ext
  | c :: cs' => c +:+ "." +:+ dotted cs' ext
  end.

(** What [process_c_file] makes of the components: [__] before each,
    and each one mangled. *)
Fixpoint mangled (cs : list string) : string :=
  match cs with
  | [] => ""
  | c :: cs' => "__" +:+ mangle_component c +:+ mangled cs'
  end.

(** [strchr(s, '.') == NULL] *)
Definition no_dot (s : string) : Prop := strchr_split s "." = None.

(** Whether every character of [s] may stand in a C identifier. *)
Definition identifier_chars (s : string) : bool :=
  forallb MR_isalnumunder (list_ascii_of_string s).


(** The characters [put_escaped] writes for [c]. *)
Definition escaped (c : ascii) : list ascii :=
  if Ascii.eqb c newline then ["\"; "n"]%char
  else if Ascii.eqb c (ascii_of_nat 9) then ["\"; "t"]%char
  else if Ascii.eqb c (ascii_of_nat 34) || Ascii.eqb c "\"%char then ["\"%char; c]
  else [c].

(** The reading of the characters between the quotes of a string
    literal: a backslash with [n] is a newline, with [t] a tab, with
    another character that character; a quote without a backslash ends
    the literal, and a lone backslash is no character.  [mkinit] has no
    such function: it is what the output of [put_escaped] is read
    with. *)
Fixpoint unescape (l : list ascii) : option (list ascii) :=
  match l with
  | [] => Some []
  | c :: l' =>
      if Ascii.eqb c "\"%char then
        match l' with
        | [] => None
        | d :: l'' =>
            r ← unescape l'';
            Some ((if Ascii.eqb d "n"%char then newline
                   else if Ascii.eqb d "t"%char then ascii_of_nat 9
                   else d) :: r)
        end
      else if Ascii.eqb c (ascii_of_nat 34) then None
      else r ← unescape l'; Some (c :: r)
  end.

(** The replacement of the trigraph [??/] by a backslash, which a C
    compiler that knows trigraphs makes before it reads a string
    literal; no other trigraph stands for a quote or a backslash. *)
Fixpoint trigraphs (l : list ascii) : list ascii :=
  match l with
  | [] => []
  | c :: l' =>
      match l' with
      | c1 :: c2 :: l'' =>
          if Ascii.eqb c "?" && Ascii.eqb c1 "?" && Ascii.eqb c2 "/"
          then "\"%char :: trigraphs l''
          else c :: trigraphs l'
      | _ => c :: trigraphs l'
      end
  end.

(** The Aditi-RL names [process_init_file] takes from the [ADITI_DATA]
    lines of an init file, the last one first; there is none without
    [-a]. *)
Definition init_file_names (o : options) (fsys : gmap string file)
    (filename : string) : list string :=
  actions_rl_data (plan_actions (init_file_plan o fsys filename)).


(** *** The loop of [parse_options]

    [getopt] and [sscanf] are the C library's.  The loop is modelled on
    the values [getopt] returns, each with what it leaves in [optarg],
    in the order of the command line; [sscanf_int optarg] is the value
    [sscanf(optarg, "%d", &maxcalls)] converts when it returns 1. *)

(** The assignments to the variables of the options. *)
Definition set_output_file_name (x : option string) (o : options) : options :=
  {| MR_progname := MR_progname o; output_file_name := x;
     entry_point := entry_point o; hl_entry_point := hl_entry_point o;
     grade := grade o; maxcalls := maxcalls o;
     output_main_func := output_main_func o;
     c_files_contain_extra_inits := c_files_contain_extra_inits o;
     aditi := aditi o; need_initialization_code := need_initialization_code o;
     need_tracing := need_tracing o; runtime_flags := runtime_flags o;
     init_file_dirs := init_file_dirs o; arg_files := arg_files o |}.

Definition set_grade (x : string) (o : options) : options :=
  {| MR_progname := MR_progname o; output_file_name := output_file_name o;
     entry_point := entry_point o; hl_entry_point := hl_entry_point o; grade := x;
     maxcalls := maxcalls o; output_main_func := output_main_func o;
     c_files_contain_extra_inits := c_files_contain_extra_inits o;
     aditi := aditi o; need_initialization_code := need_initialization_code o;
     need_tracing := need_tracing o; runtime_flags := runtime_flags o;
     init_file_dirs := init_file_dirs o; arg_files := arg_files o |}.

Definition set_output_main_func (x : bool) (o : options) : options :=
  {| MR_progname := MR_progname o; output_file_name := output_file_name o;
     entry_point := entry_point o; hl_entry_point := hl_entry_point o;
     grade := grade o; maxcalls := maxcalls o; output_main_func := x;
     c_files_contain_extra_inits := c_files_contain_extra_inits o;
     aditi := aditi o; need_initialization_code := need_initialization_code o;
     need_tracing := need_tracing o; runtime_flags := runtime_flags o;
     init_file_dirs := init_file_dirs o; arg_files := arg_files o |}.

Definition set_c_files_contain_extra_inits (x : bool) (o : options) : options :=
  {| MR_progname := MR_progname o; output_file_name := output_file_name o;
     entry_point := entry_point o; hl_entry_point := hl_entry_point o;
     grade := grade o; maxcalls := maxcalls o;
     output_main_func := output_main_func o; c_files_contain_extra_inits := x;
     aditi := aditi o; need_initialization_code := need_initialization_code o;
     need_tracing := need_tracing o; runtime_flags := runtime_flags o;
     init_file_dirs := init_file_dirs o; arg_files := arg_files o |}.

Definition set_aditi (x : bool) (o : options) : options :=
  {| MR_progname := MR_progname o; output_file_name := output_file_name o;
     entry_point := entry_point o; hl_entry_point := hl_entry_point o;
     grade := grade o; maxcalls := maxcalls o;
     output_main_func := output_main_func o;
     c_files_contain_extra_inits := c_files_contain_extra_inits o; aditi := x;
     need_initialization_code := need_initialization_code o;
     need_tracing := need_tracing o; runtime_flags := runtime_flags o;
     init_file_dirs := init_file_dirs o; arg_files := arg_files o |}.

Definition set_need_initialization_code (x : bool) (o : options) : options :=
  {| MR_progname := MR_progname o; output_file_name := output_file_name o;
     entry_point := entry_point o; hl_entry_point := hl_entry_point o;
     grade := grade o; maxcalls := maxcalls o;
     output_main_func := output_main_func o;
     c_files_contain_extra_inits := c_files_contain_extra_inits o;
     aditi := aditi o; need_initialization_code := x;
     need_tracing := need_tracing o; runtime_flags := runtime_flags o;
     init_file_dirs := init_file_dirs o; arg_files := arg_files o |}.

Definition set_need_tracing (x : bool) (o : options) : options :=
  {| MR_progname := MR_progname o; output_file_name := output_file_name o;
     entry_point := entry_point o; hl_entry_point := hl_entry_point o;
     grade := grade o; maxcalls := maxcalls o;
     output_main_func := output_main_func o;
     c_files_contain_extra_inits := c_files_contain_extra_inits o;
     aditi := aditi o; need_initialization_code := need_initialization_code o;
     need_tracing := x; runtime_flags := runtime_flags o;
     init_file_dirs := init_file_dirs o; arg_files := arg_files o |}.

Definition set_runtime_flags (x : list string) (o : options) : options :=
  {| MR_progname := MR_progname o; output_file_name := output_file_name o;
     entry_point := entry_point o; hl_entry_point := hl_entry_point o;
     grade := grade o; maxcalls := maxcalls o;
     output_main_func := output_main_func o;
     c_files_contain_extra_inits := c_files_contain_extra_inits o;
     aditi := aditi o; need_initialization_code := need_initialization_code o;
     need_tracing := need_tracing o; runtime_flags := x;
     init_file_dirs := init_file_dirs o; arg_files := arg_files o |}.

Definition set_init_file_dirs (x : list string) (o : options) : options :=
  {| MR_progname := MR_progname o; output_file_name := output_file_name o;
     entry_point := entry_point o; hl_entry_point := hl_entry_point o;
     grade := grade o; maxcalls := maxcalls o;
     output_main_func := output_main_func o;
     c_files_contain_extra_inits := c_files_contain_extra_inits o;
     aditi := aditi o; need_initialization_code := need_initialization_code o;
     need_tracing := need_tracing o; runtime_flags := runtime_flags o;
     init_file_dirs := x; arg_files := arg_files o |}.

(** [hl_entry_point = entry_point = optarg;] *)
Definition set_entry_points (x : string) (o : options) : options :=
  {| MR_progname := MR_progname o; output_file_name := output_file_name o;
     entry_point := x; hl_entry_point := x; grade := grade o;
     maxcalls := maxcalls o; output_main_func := output_main_func o;
     c_files_contain_extra_inits := c_files_contain_extra_inits o;
     aditi := aditi o; need_initialization_code := need_initialization_code o;
     need_tracing := need_tracing o; runtime_flags := runtime_flags o;
     init_file_dirs := init_file_dirs o; arg_files := arg_files o |}.

Section ParseOptions.

Variable sscanf_int : string -> option Z.

(** The [switch (c)] of [parse_options]. *)
Definition parse_option (c : ascii) (optarg : string) (o : options) : M options :=
  if Ascii.eqb c "a" then mret (set_aditi true o)
  else if Ascii.eqb c "c" then
    match sscanf_int optarg with
    | Some n => mret (with_maxcalls o n)
    | None => usage
    end
  else if Ascii.eqb c "g" then mret (set_grade optarg o)
  else if Ascii.eqb c "i" then mret (set_need_initialization_code true o)
  else if Ascii.eqb c "I" then
    (* Add the directory name to the end of the search path for `.init' files. *)
    _ ← checked_malloc;
    _ ← checked_malloc;
    mret (set_init_file_dirs (init_file_dirs o ++ [optarg]) o)
  else if Ascii.eqb c "l" then mret (set_output_main_func false o)
  else if Ascii.eqb c "o" then
    if strcmp_eq optarg "-" then mret (set_output_file_name None o) (* output to stdout *)
    else mret (set_output_file_name (Some optarg) o)
  else if Ascii.eqb c "r" then
    if negb (String.eqb optarg "") then
      _ ← checked_malloc;
      _ ← checked_malloc;
      mret (set_runtime_flags (runtime_flags o ++ [optarg]) o)
    else mret o
  else if Ascii.eqb c "t" then
    mret (set_need_initialization_code true (set_need_tracing true o))
  else if Ascii.eqb c "w" then mret (set_entry_points optarg o)
  else if Ascii.eqb c "x" then mret (set_c_files_contain_extra_inits true o)
  else usage.

(** [while ((c = getopt(argc, argv, "ac:g:iI:lo:r:tw:x")) != EOF)
      { switch (c) ... }] *)
Fixpoint parse_options_loop (results : list (ascii * string)) (o : options)
  : M options :=
  match results with
  | [] => mret o
  | (c, optarg) :: results' =>
      o' ← parse_option c optarg o;
      parse_options_loop results' o'
  end.

(** The options the [switch (c)] leaves when it goes on to the next
    option, and [None] when it calls [usage()]. *)
Definition option_set (c : ascii) (optarg : string) (o : options) : option options :=
  if Ascii.eqb c "a" then Some (set_aditi true o)
  else if Ascii.eqb c "c" then
    match sscanf_int optarg with
    | Some n => Some (with_maxcalls o n)
    | None => None
    end
  else if Ascii.eqb c "g" then Some (set_grade optarg o)
  else if Ascii.eqb c "i" then Some (set_need_initialization_code true o)
  else if Ascii.eqb c "I" then
    Some (set_init_file_dirs (init_file_dirs o ++ [optarg]) o)
  else if Ascii.eqb c "l" then Some (set_output_main_func false o)
  else if Ascii.eqb c "o" then
    if strcmp_eq optarg "-" then Some (set_output_file_name None o)
    else Some (set_output_file_name (Some optarg) o)
  else if Ascii.eqb c "r" then
    if negb (String.eqb optarg "") then
      Some (set_runtime_flags (runtime_flags o ++ [optarg]) o)
    else Some o
  else if Ascii.eqb c "t" then
    Some (set_need_initialization_code true (set_need_tracing true o))
  else if Ascii.eqb c "w" then Some (set_entry_points optarg o)
  else if Ascii.eqb c "x" then Some (set_c_files_contain_extra_inits true o)
  else None.

(** The calls of [checked_malloc] the loop makes for a result of
    [getopt]: two for [-I], and two for [-r] with an argument that is
    not empty. *)
Definition option_mallocs (r : ascii * string) : nat :=
  if Ascii.eqb r.1 "I" then 2
  else if Ascii.eqb r.1 "r" then (if String.eqb r.2 "" then 0 else 2)
  else 0.

Definition options_mallocs (results : list (ascii * string)) : nat :=
  sum_list (option_mallocs <$> results).

(** The results of [getopt] for which the loop calls [usage()]: a
    character that is no option, and [c] with an argument that is no
    number. *)
Definition rejected (r : ascii * string) : Prop :=
  r.1 ∉ list_ascii_of_string "acgiIlortwx"
  \/ (r.1 = "c"%char /\ sscanf_int r.2 = None).

(** The arguments of the option [c] among the results. *)
Definition optargs (c : ascii) (results : list (ascii * string)) : list string :=
  (filter (fun r => r.1 = c) results).*2.

End ParseOptions.

Lemma input_line_nil_inv file :
  input_line file = [] -> line_terminated file = false -> file = [].
Proof.
  destruct file as [|c file]; [reflexivity|]. simpl.
  destruct (Ascii.eqb c newline); discriminate.
Qed.

Lemma newline_added_pos file line_max :
  (0 <? Z.of_nat (length (stored_line file line_max))
        + (if newline_added file line_max then 1 else 0))
  = newline_added file line_max.
Proof.
  unfold newline_added.
  destruct (line_terminated file); simpl.
  - apply Z.ltb_lt. lia.
  - destruct (Z.ltb_spec 0 (Z.of_nat (length (stored_line file line_max)))) as [H|H].
    + apply Z.ltb_lt. lia.
    + apply Z.ltb_ge. lia.
Qed.

(** C10: on every stream and every array of [line_max >= 2] characters
    [get_line] returns; with [n] the value returned, it leaves the array
    as it was beyond index [n <= line_max - 1]; it stores the first
    [line_max - 2] characters of the input line and no more, consuming
    the rest of the line and its newline; what it stores is ended by a
    NUL at index [n], the number of characters before it; [n] is 0 only
    at the end of the stream with nothing stored, which for
    [line_max >= 3] is with nothing read; and a line with [n > 0] ends in
    a newline, whether the input line had one or not. *)
Theorem get_line_bounded_write (file line : list ascii) (line_max : Z) :
  2 <= line_max -> Z.of_nat (length line) = line_max ->
  exists n line',
    get_line file line line_max = Some (n, line', after_input_line file) /\
    length line' = length line /\
    0 <= n <= line_max - 1 /\
    (forall i : nat, (Z.to_nat n < i)%nat -> line' !! i = line !! i) /\
    stored_line file line_max = take (Z.to_nat (line_max - 2)) (input_line file) /\
    Z.of_nat (length (stored_line file line_max)) <= line_max - 2 /\
    take (Z.to_nat n) line'
      = stored_line file line_max ++ (if 0 <? n then [newline] else []) /\
    n = Z.of_nat (length (stored_line file line_max)) + (if 0 <? n then 1 else 0) /\
    line' !! Z.to_nat n = Some NUL /\
    (n = 0 <-> line_terminated file = false /\ stored_line file line_max = []) /\
    (3 <= line_max -> (n = 0 <-> file = [])) /\
    (0 < n -> line' !! Z.to_nat (n - 1) = Some newline).
Proof.
  intros Hmax Hlen.
  pose proof (get_line_spec file line line_max ltac:(lia)) as Hspec.
  pose proof (stored_line_length file line_max) as Hk.
  pose proof (newline_added_pos file line_max) as Hpos.
  set (stored := stored_line file line_max) in *.
  set (b := newline_added file line_max) in *.
  set (n := Z.of_nat (length stored) + (if b then 1 else 0)) in *.
  set (line' := stored ++ (if b then [newline] else [])
                  ++ NUL :: drop (S (length stored + (if b then 1 else 0)%nat)) line) in *.
  assert (Hnb : 0 <= n <= line_max - 1) by (unfold n; destruct b; lia).
  assert (Hn : Z.to_nat n = (length stored + (if b then 1 else 0))%nat)
    by (unfold n; destruct b; lia).
  assert (Hpre : length (stored ++ (if b then [newline] else [])) = Z.to_nat n)
    by (rewrite length_app, Hn; destruct b; reflexivity).
  assert (Hline' : line' = (stored ++ (if b then [newline] else []))
                             ++ NUL :: drop (S (Z.to_nat n)) line)
    by (unfold line'; rewrite <- app_assoc, Hn; reflexivity).
  exists n, line'. split; [exact Hspec|].
  split.
  { rewrite Hline', length_app, Hpre. simpl. rewrite length_drop. lia. }
  split; [exact Hnb|].
  split.
  { intros i Hi. rewrite Hline'. rewrite lookup_app_r by lia.
    rewrite Hpre. destruct (i - Z.to_nat n)%nat as [|d] eqn:Hd; [lia|].
    simpl. rewrite lookup_drop. f_equal. lia. }
  split; [reflexivity|]. split; [lia|].
  split.
  { rewrite Hline'. rewrite <- Hpre. rewrite take_app_length. rewrite Hpos. reflexivity. }
  split; [rewrite Hpos; reflexivity|].
  split.
  { rewrite Hline'. rewrite lookup_app_r by lia. rewrite Hpre, Nat.sub_diag. reflexivity. }
  assert (Hzero : n = 0 <-> line_terminated file = false /\ stored = []).
  { unfold n, b, newline_added. fold stored.
    destruct (line_terminated file); simpl.
    - split; [lia|]. intros [Hf _]. discriminate.
    - destruct stored as [|c st]; simpl.
      + split; [intros _; split; reflexivity|reflexivity].
      + split; [lia|]. intros [_ Hf]. discriminate. }
  split; [exact Hzero|]. split.
  { intros H3. rewrite Hzero. split.
    - intros [Hterm Hst]. apply input_line_nil_inv; [|exact Hterm].
      unfold stored, stored_line in Hst.
      destruct (input_line file) as [|c l]; [reflexivity|].
      replace (Z.to_nat (line_max - 2)) with (S (Z.to_nat (line_max - 3))) in Hst by lia.
      discriminate.
    - intros ->. split; [reflexivity|]. unfold stored, stored_line. simpl.
      apply take_nil. }
  intros Hnpos.
  assert (Hb : b = true) by (rewrite <- Hpos; apply Z.ltb_lt; exact Hnpos).
  rewrite Hline'. rewrite lookup_app_l by lia.
  rewrite Hb. rewrite lookup_app_r by (rewrite Hb in Hn; lia).
  replace (Z.to_nat (n - 1) - length stored)%nat with 0%nat
    by (rewrite Hb in Hn; lia).
  reflexivity.
Qed.

(** A last line without newline, read into an array of 16 characters:
    its first 14 characters are stored, and a newline after them. *)
Lemma get_line_bounded_write_witness :
  exists n line',
    get_line (list_ascii_of_string "INIT mercury__foo__init") (replicate 16 NUL) 16
      = Some (n, line', []) /\ n = 15 /\ line' !! 14%nat = Some newline.
Proof.
  destruct (get_line_bounded_write (list_ascii_of_string "INIT mercury__foo__init")
              (replicate 16 NUL) 16 ltac:(lia) ltac:(reflexivity))
    as (n & line' & Hget & _ & _ & _ & _ & _ & _ & _ & _ & _ & _ & Hnl).
  exists n, line'. vm_compute in Hget |- *. rewrite Hget.
  injection Hget as <- <-. split; [reflexivity|]. split; reflexivity.
Defined.

(** With an array of two characters nothing of a line is stored: a last
    line without newline is read and dropped, and 0 returned. *)
Lemma get_line_zero_after_reading :
  ~ (forall (file line : list ascii) (line_max n : Z) (line' file' : list ascii),
       2 <= line_max -> Z.of_nat (length line) = line_max ->
       get_line file line line_max = Some (n, line', file') ->
       n = 0 -> file = []).
Proof.
  intros H.
  specialize (H ["a"%char] [NUL; NUL] 2 0 [NUL; NUL] [] ltac:(lia) eq_refl eq_refl eq_refl).
  discriminate H.
Qed.

Lemma process_init_lines_undefined o purpose cfile line nb nc s :
  get_line cfile line MAXLINE = None ->
  process_init_lines o purpose cfile line nb nc s = Undefined.
Proof.
  intros Hy.
  rewrite process_init_lines_equation_1.
  generalize (inspect (get_line cfile line MAXLINE)). intros [y0 Hy0].
  destruct y0 as [[[n0 l0] c0]|]; [congruence|]. reflexivity.
Qed.

Lemma process_init_lines_eof o purpose cfile line nb nc s n line' cfile' :
  get_line cfile line MAXLINE = Some (n, line', cfile') -> (0 <? n) = false ->
  process_init_lines o purpose cfile line nb nc s = Returns (nb, nc) s.
Proof.
  intros Hy Hn.
  rewrite process_init_lines_equation_1.
  generalize (inspect (get_line cfile line MAXLINE)). intros [y0 Hy0].
  destruct y0 as [[[n0 l0] c0]|]; [|congruence].
  assert (E : Some (n0, l0, c0) = Some (n, line', cfile')) by congruence.
  injection E as -> -> ->.
  cbn -[inspect].
  generalize (inspect (0 <? n)). intros [b Hb].
  destruct b; [congruence|]. reflexivity.
Qed.

Lemma process_init_lines_step o purpose cfile line nb nc s n line' cfile' :
  get_line cfile line MAXLINE = Some (n, line', cfile') -> (0 <? n) = true ->
  process_init_lines o purpose cfile line nb nc s =
    match process_init_line o purpose line' nb nc s with
    | Returns (Continue, line'', nb', nc') s' =>
        process_init_lines o purpose cfile' line'' nb' nc' s'
    | Returns (Break, _, nb', nc') s' => Returns (nb', nc') s'
    | Exits status s' => Exits status s'
    | Undefined => Undefined
    end.
Proof.
  intros Hy Hn.
  rewrite process_init_lines_equation_1.
  generalize (inspect (get_line cfile line MAXLINE)). intros [y0 Hy0].
  destruct y0 as [[[n0 l0] c0]|]; [|congruence].
  assert (E : Some (n0, l0, c0) = Some (n, line', cfile')) by congruence.
  injection E as -> -> ->.
  cbn -[inspect].
  generalize (inspect (0 <? n)). intros [b Hb].
  destruct b; [|congruence]. cbn.
  destruct (process_init_line o purpose line' nb nc s) as [[[[[] l] b] c] s'| |]; reflexivity.
Qed.

Lemma init_file_actions_undefined with_aditi cfile line :
  get_line cfile line MAXLINE = None ->
  init_file_actions with_aditi cfile line = [Undefined_behaviour].
Proof.
  intros Hy.
  rewrite init_file_actions_equation_1.
  generalize (inspect (get_line cfile line MAXLINE)). intros [y0 Hy0].
  destruct y0 as [[[n0 l0] c0]|]; [congruence|]. reflexivity.
Qed.

Lemma init_file_actions_eof with_aditi cfile line n line' cfile' :
  get_line cfile line MAXLINE = Some (n, line', cfile') -> (0 <? n) = false ->
  init_file_actions with_aditi cfile line = [].
Proof.
  intros Hy Hn.
  rewrite init_file_actions_equation_1.
  generalize (inspect (get_line cfile line MAXLINE)). intros [y0 Hy0].
  destruct y0 as [[[n0 l0] c0]|]; [|congruence].
  assert (E : Some (n0, l0, c0) = Some (n, line', cfile')) by congruence.
  injection E as -> -> ->.
  cbn -[inspect].
  generalize (inspect (0 <? n)). intros [b Hb].
  destruct b; [congruence|]. reflexivity.
Qed.

Lemma init_file_actions_step with_aditi cfile line n line' cfile' :
  get_line cfile line MAXLINE = Some (n, line', cfile') -> (0 <? n) = true ->
  init_file_actions with_aditi cfile line =
    match parse_init_line with_aditi line' with
    | (_, End_init) => []
    | (_, Undefined_behaviour) => [Undefined_behaviour]
    | (_, Aditi_overrun) => [Aditi_overrun]
    | (line'', action) => action :: init_file_actions with_aditi cfile' line''
    end.
Proof.
  intros Hy Hn.
  rewrite init_file_actions_equation_1.
  generalize (inspect (get_line cfile line MAXLINE)). intros [y0 Hy0].
  destruct y0 as [[[n0 l0] c0]|]; [|congruence].
  assert (E : Some (n0, l0, c0) = Some (n, line', cfile')) by congruence.
  injection E as -> -> ->.
  cbn -[inspect].
  generalize (inspect (0 <? n)). intros [b Hb].
  destruct b; [|congruence]. cbn.
  destruct (parse_init_line with_aditi line') as [l []]; reflexivity.
Qed.

Lemma process_init_line_parse o purpose line nb nc s :
  process_init_line o purpose line nb nc s =
    match parse_init_line (aditi o) line with
    | (line', Init_call func_name special_module) =>
        ('(nb, nc) ← output_init_function o func_name nb nc purpose special_module;
         mret (Continue, line', nb, nc)) s
    | (line', Aditi_data rl_data_name) =>
        (_ ← checked_malloc; _ ← add_rl_data rl_data_name;
         mret (Continue, line', nb, nc)) s
    | (line', End_init) => Returns (Break, line', nb, nc) s
    | (line', No_action) => Returns (Continue, line', nb, nc) s
    | (_, Undefined_behaviour) => Undefined
    | (_, Aditi_overrun) => (_ ← checked_malloc; undefined) s
    end.
Proof.
  unfold process_init_line, parse_init_line.
  destruct (strncmp_eq (c_str line) init_str (strlen init_str)).
  - destruct (store line _ NUL) as [line1|]; [|reflexivity].
    destruct (strncmp_eq _ "init" 4).
    + destruct (store line1 _ NUL) as [line2|]; reflexivity.
    + reflexivity.
  - destruct (aditi o && strncmp_eq (c_str line) aditi_init_str (strlen aditi_init_str)).
    + destruct (store line _ NUL) as [line1|]; reflexivity.
    + destruct (strncmp_eq (c_str line) endinit_str (strlen endinit_str)); reflexivity.
Qed.

Lemma process_init_lines_actions o purpose :
  forall (k : nat) cfile, length cfile = k ->
  forall line nb nc s,
    process_init_lines o purpose cfile line nb nc s =
    run_actions o purpose (init_file_actions (aditi o) cfile line) nb nc s.
Proof.
  induction k as [k IH] using lt_wf_ind. intros cfile Hk line nb nc s.
  destruct (get_line cfile line MAXLINE) as [[[n line'] cfile']|] eqn:Hget.
  - destruct (0 <? n) eqn:Hn.
    + rewrite (process_init_lines_step _ _ _ _ _ _ _ _ _ _ Hget Hn).
      rewrite (init_file_actions_step _ _ _ _ _ _ Hget Hn).
      assert (Hshort : (length cfile' < k)%nat).
      { subst k. eapply get_line_consumes; [exact Hget|lia]. }
      rewrite process_init_line_parse.
      destruct (parse_init_line (aditi o) line') as [line'' a].
      destruct a as [func_name special| name | | | |]; simpl.
      * unfold mbind, M_bind.
        destruct (output_init_function o func_name nb nc purpose special s)
          as [[nb' nc'] s'| |]; simpl; [|reflexivity|reflexivity].
        apply (IH _ Hshort). reflexivity.
      * unfold mbind, M_bind.
        destruct (checked_malloc s) as [[] s1| |]; [|reflexivity|reflexivity].
        destruct (add_rl_data name s1) as [[] s2| |]; simpl; [|reflexivity|reflexivity].
        apply (IH _ Hshort). reflexivity.
      * reflexivity.
      * apply (IH _ Hshort). reflexivity.
      * reflexivity.
      * unfold mbind, M_bind.
        destruct (checked_malloc s) as [[] s1| |]; reflexivity.
    + rewrite (process_init_lines_eof _ _ _ _ _ _ _ _ _ _ Hget Hn).
      rewrite (init_file_actions_eof _ _ _ _ _ _ Hget Hn). reflexivity.
  - rewrite (process_init_lines_undefined _ _ _ _ _ _ _ Hget).
    rewrite (init_file_actions_undefined _ _ _ Hget). reflexivity.
Qed.

Lemma process_init_file_plan o filename nb nc purpose s :
  process_init_file o filename nb nc purpose s =
  run_plan o purpose (init_file_plan o (file_system s) filename) nb nc s.
Proof.
  unfold process_init_file, init_file_plan.
  destruct (fopen_r (file_system s) filename) as [cfile|]; simpl.
  - apply (process_init_lines_actions o purpose _ cfile eq_refl).
  - reflexivity.
Qed.

Lemma process_c_file_plan o filename nb nc purpose s :
  process_c_file o filename nb nc purpose s =
  run_plan o purpose (c_file_plan o filename) nb nc s.
Proof.
  unfold process_c_file, c_file_plan, basename.
  destruct (first_special _) as [c|]; simpl.
  - reflexivity.
  - destruct (1000 <=? strlen _); simpl; [reflexivity|].
    unfold mbind, M_bind.
    destruct (output_init_function o _ nb nc purpose false s)
      as [[nb' nc'] s'| |]; simpl; [|reflexivity|reflexivity].
    destruct (aditi o); [|reflexivity].
    change (strlen "mercury__") with 9. change (strlen "__") with 2.
    destruct (_ <? strlen aditi_rl_data_str + 1); simpl; unfold mbind, M_bind.
    + destruct (checked_malloc s') as [[] s1| |]; reflexivity.
    + destruct (checked_malloc s') as [[] s1| |]; [|reflexivity|reflexivity].
      destruct (add_rl_data _ s1) as [[] s2| |]; reflexivity.
Qed.

Lemma process_file_plan o filename nb nc purpose s :
  process_file o filename nb nc purpose s =
  run_plan o purpose (file_plan_of o (file_system s) filename) nb nc s.
Proof.
  unfold process_file, file_plan_of, ends_in.
  change (strlen ".c") with 2. change (strlen ".init") with 5.
  destruct ((2 <=? strlen filename) && _).
  - destruct (c_files_contain_extra_inits o).
    + apply process_init_file_plan.
    + apply process_c_file_plan.
  - destruct ((5 <=? strlen filename) && _).
    + apply process_init_file_plan.
    + reflexivity.
Qed.

(** *** The calls of [malloc] *)

Lemma consume_None k : consume k None = None.
Proof. induction k as [|k IH]; simpl; [reflexivity|exact IH]. Qed.

Lemma consume_Some k : forall n, consume k (Some n) = Some (n - k)%nat.
Proof.
  induction k as [|k IH]; intros n; simpl.
  - f_equal. lia.
  - rewrite IH. f_equal. lia.
Qed.

Lemma consume_add a b avail : consume (a + b) avail = consume b (consume a avail).
Proof.
  revert avail. induction a as [|a IH]; intros avail; simpl; [reflexivity|apply IH].
Qed.

Lemma mallocs_succeed_add a b avail :
  mallocs_succeed (a + b) avail
  = mallocs_succeed a avail && mallocs_succeed b (consume a avail).
Proof.
  destruct avail as [n|]; [|rewrite consume_None; reflexivity].
  rewrite consume_Some. simpl.
  destruct (Nat.leb_spec (a + b) n), (Nat.leb_spec a n), (Nat.leb_spec b (n - a));
    simpl; try reflexivity; lia.
Qed.

Lemma mallocs_succeed_split a b avail :
  mallocs_succeed (a + b) avail = true ->
  mallocs_succeed a avail = true /\ mallocs_succeed b (consume a avail) = true.
Proof. rewrite mallocs_succeed_add. apply andb_true_iff. Qed.

Lemma mallocs_succeed_le a b avail :
  (a <= b)%nat -> mallocs_succeed b avail = true -> mallocs_succeed a avail = true.
Proof.
  intros Hle. replace b with (a + (b - a))%nat by lia.
  intros H. apply mallocs_succeed_split in H. tauto.
Qed.

(** Once [malloc] has failed, nothing is left. *)
Lemma consume_failed a b avail :
  mallocs_succeed a avail = false -> consume (a + b) avail = consume a avail.
Proof.
  destruct avail as [n|]; [|discriminate]. simpl. intros H.
  apply Nat.leb_gt in H. rewrite !consume_Some. f_equal. lia.
Qed.

Lemma mallocs_succeed_rl (rl1 rl2 : list string) avail :
  mallocs_succeed (2 * length (rl2 ++ rl1)) avail = true ->
  mallocs_succeed (2 * length rl1) avail = true
  /\ mallocs_succeed (2 * length rl2) (consume (2 * length rl1) avail) = true.
Proof.
  rewrite length_app.
  replace (2 * (length rl2 + length rl1))%nat
    with (2 * length rl1 + 2 * length rl2)%nat by lia.
  apply mallocs_succeed_split.
Qed.

Lemma advance_file_system out err rl s :
  file_system (advance out err rl s) = file_system s.
Proof. reflexivity. Qed.

Lemma advance_files out err rl s : files (advance out err rl s) = files s.
Proof. reflexivity. Qed.

Lemma advance_malloc_left out err rl s :
  malloc_left (advance out err rl s) = consume (2 * length rl) (malloc_left s).
Proof. reflexivity. Qed.

Lemma advance_written out err s :
  malloc_left (advance out err [] s) = malloc_left s.
Proof. reflexivity. Qed.

Lemma advance_nil s : advance [] [] [] s = s.
Proof.
  destruct s. unfold advance. simpl. rewrite !app_nil_r, Z.add_0_r. reflexivity.
Qed.

Lemma advance_advance out1 err1 rl1 out2 err2 rl2 s :
  advance out2 err2 rl2 (advance out1 err1 rl1 s)
  = advance (out1 ++ out2) (err1 ++ err2) (rl2 ++ rl1) s.
Proof.
  unfold advance. cbn [stdout stderr num_errors rl_data files file_system malloc_left].
  rewrite !app_assoc, !length_app.
  replace (2 * (length rl2 + length rl1))%nat
    with (2 * length rl1 + 2 * length rl2)%nat by lia.
  rewrite consume_add. f_equal. lia.
Qed.

Lemma advance_eq out err rl out' err' rl' s :
  out = out' -> err = err' -> rl = rl' ->
  advance out err rl s = advance out' err' rl' s.
Proof. intros -> -> ->. reflexivity. Qed.

Lemma spend_0 s : spend 0 s = s.
Proof. destruct s. reflexivity. Qed.

Lemma spend_spend a b s : spend b (spend a s) = spend (a + b) s.
Proof. unfold spend. simpl. rewrite consume_add. reflexivity. Qed.

(** Once [malloc] has failed, the state the program exits in is the same
    whatever the number of calls that were still to come. *)
Lemma exit_state_failed a b messages s :
  mallocs_succeed a (malloc_left s) = false ->
  exit_state messages (spend (a + b) s) = exit_state messages (spend a s).
Proof.
  intros H. unfold exit_state, spend. simpl. rewrite (consume_failed a b _ H).
  reflexivity.
Qed.

Global Arguments advance : simpl never.
Global Arguments spend : simpl never.
Global Arguments exit_state : simpl never.
Global Arguments write_stdout : simpl never.
Global Arguments write_stderr : simpl never.
Global Arguments incr_num_errors : simpl never.
Global Arguments add_rl_data : simpl never.
Global Arguments checked_malloc : simpl never.
Global Arguments set_files : simpl never.
Global Arguments set_file_system : simpl never.

(** [checked_malloc], and what follows it. *)
Lemma checked_malloc_bind {B : Type} (k : M B) s :
  (_ ← checked_malloc; k) s
  = if mallocs_succeed 1 (malloc_left s) then k (spend 1 s)
    else Exits EXIT_FAILURE (exit_state [out_of_memory] (spend 1 s)).
Proof.
  unfold mbind, M_bind, checked_malloc, spend, exit_state.
  destruct s as [out err n rl fs fsys [[|avail]|]]; reflexivity.
Qed.

Lemma checked_malloc_returns s :
  mallocs_succeed 1 (malloc_left s) = true ->
  checked_malloc s = Returns tt (spend 1 s).
Proof.
  unfold checked_malloc, spend.
  destruct s as [out err n rl fs fsys [[|avail]|]]; simpl; intros H;
    first [discriminate H | reflexivity].
Qed.

Lemma checked_malloc_exits s :
  mallocs_succeed 1 (malloc_left s) = false ->
  checked_malloc s = Exits EXIT_FAILURE (exit_state [out_of_memory] s).
Proof.
  unfold checked_malloc, exit_state.
  destruct s as [out err n rl fs fsys [[|avail]|]]; simpl; intros H;
    first [discriminate H | reflexivity].
Qed.

(** The two calls of [checked_malloc] for an Aditi-RL name, one for the
    name and one in [add_rl_data], and what follows them. *)
Lemma aditi_data_bind {B : Type} data (k : M B) s :
  (_ ← checked_malloc; _ ← add_rl_data data; k) s
  = if mallocs_succeed 2 (malloc_left s) then k (advance [] [] [data] s)
    else Exits EXIT_FAILURE (exit_state [out_of_memory] (spend 2 s)).
Proof.
  unfold mbind, M_bind, add_rl_data, checked_malloc, set_rl_data, get_state,
    spend, exit_state, advance, mbind, M_bind.
  destruct s as [out err n rl fs fsys [[|[|avail]]|]]; simpl;
    rewrite ?app_nil_r, ?Z.add_0_r; reflexivity.
Qed.

Lemma write_stdout_advance item s :
  write_stdout item s = Returns tt (advance [item] [] [] s).
Proof.
  unfold write_stdout, advance. simpl. rewrite app_nil_r, Z.add_0_r. reflexivity.
Qed.

Lemma write_stderr_incr message s :
  (_ ← write_stderr message; incr_num_errors) s
  = Returns tt (advance [] [message] [] s).
Proof.
  unfold mbind, M_bind, write_stderr, incr_num_errors, advance. simpl.
  rewrite app_nil_r. reflexivity.
Qed.

Lemma output_init_function_items o func_name nb nc purpose special_module s :
  output_init_function o func_name nb nc purpose special_module s
  = Returns (call_items o purpose nb nc func_name special_module).2
      (advance (call_items o purpose nb nc func_name special_module).1 [] [] s).
Proof.
  unfold output_init_function, call_items.
  destruct (bool_decide (purpose = PURPOSE_DEBUGGER) && special_module).
  - simpl. rewrite advance_nil. reflexivity.
  - destruct (maxcalls o <=? nc); simpl.
    + unfold mbind, M_bind, mret, M_ret, printf.
      rewrite !write_stdout_advance, !advance_advance. reflexivity.
    + unfold mbind, M_bind, mret, M_ret, printf.
      rewrite !write_stdout_advance, !advance_advance. reflexivity.
Qed.

Lemma run_actions_items o purpose actions : forall nb nc s,
  forallb defined_action actions = true ->
  mallocs_succeed (2 * length (actions_rl_data actions)) (malloc_left s) = true ->
  run_actions o purpose actions nb nc s
  = Returns (actions_items o purpose actions nb nc).2
      (advance (actions_items o purpose actions nb nc).1 [] (actions_rl_data actions) s).
Proof.
  induction actions as [|a actions IH]; intros nb nc s Hdef Hmem; simpl.
  - rewrite advance_nil. reflexivity.
  - simpl in Hdef. apply andb_true_iff in Hdef. destruct Hdef as [Ha Hdef].
    destruct a as [func_name special| name | | | |]; simpl; try discriminate.
    + unfold mbind, M_bind. rewrite output_init_function_items.
      destruct (call_items o purpose nb nc func_name special) as [items [nb' nc']].
      simpl. rewrite (IH _ _ _ Hdef) by exact Hmem.
      destruct (actions_items o purpose actions nb' nc') as [items' counters].
      simpl. rewrite advance_advance. rewrite !app_nil_r. reflexivity.
    + simpl in Hmem. apply mallocs_succeed_rl in Hmem. destruct Hmem as [Hname Hmem].
      rewrite aditi_data_bind. change (2 * length [name])%nat with 2%nat in *.
      rewrite Hname. rewrite (IH _ _ _ Hdef) by exact Hmem.
      rewrite advance_advance. reflexivity.
    + apply IH; assumption.
    + apply IH; assumption.
Qed.

Lemma actions_items_app o purpose actions1 actions2 : forall nb nc,
  actions_items o purpose (actions1 ++ actions2) nb nc
  = ((actions_items o purpose actions1 nb nc).1
       ++ (actions_items o purpose actions2
             (actions_items o purpose actions1 nb nc).2.1
             (actions_items o purpose actions1 nb nc).2.2).1,
     (actions_items o purpose actions2
        (actions_items o purpose actions1 nb nc).2.1
        (actions_items o purpose actions1 nb nc).2.2).2).
Proof.
  induction actions1 as [|a actions1 IH]; intros nb nc; simpl.
  - destruct (actions_items o purpose actions2 nb nc). reflexivity.
  - destruct a as [func_name special| | | | |]; simpl; try apply IH.
    destruct (call_items o purpose nb nc func_name special) as [items [nb' nc']].
    rewrite IH.
    destruct (actions_items o purpose actions1 nb' nc') as [items1 [nb1 nc1]]. simpl.
    destruct (actions_items o purpose actions2 nb1 nc1) as [items2 c2]. simpl.
    rewrite app_assoc. reflexivity.
Qed.

Lemma actions_rl_data_app actions1 actions2 :
  actions_rl_data (actions1 ++ actions2)
  = actions_rl_data actions2 ++ actions_rl_data actions1.
Proof.
  induction actions1 as [|a actions1 IH]; simpl.
  - rewrite app_nil_r. reflexivity.
  - destruct a; simpl; try exact IH. rewrite IH, app_assoc. reflexivity.
Qed.

Lemma run_plan_advance o purpose plan nb nc s :
  plan_returns plan = true ->
  mallocs_succeed (2 * length (actions_rl_data (plan_actions plan))) (malloc_left s)
  = true ->
  run_plan o purpose plan nb nc s
  = Returns (actions_items o purpose (plan_actions plan) nb nc).2
      (advance (actions_items o purpose (plan_actions plan) nb nc).1
         (plan_errors plan) (actions_rl_data (plan_actions plan)) s).
Proof.
  destruct plan as [actions|message|messages status]; simpl; intros H Hmem.
  - apply run_actions_items; assumption.
  - unfold mbind, M_bind.
    pose proof (write_stderr_incr message s) as Hw. unfold mbind, M_bind in Hw.
    destruct (write_stderr message s) as [[] s1| |]; try discriminate.
    rewrite Hw. reflexivity.
  - discriminate.
Qed.

Lemma pass_mallocs_cons o fsys filename filenames :
  pass_mallocs o fsys (filename :: filenames)
  = (2 * length (actions_rl_data (plan_actions (file_plan_of o fsys filename)))
     + pass_mallocs o fsys filenames)%nat.
Proof.
  unfold pass_mallocs, files_actions. rewrite bind_cons, actions_rl_data_app, length_app.
  lia.
Qed.

Lemma process_files_advance o purpose filenames : forall nb nc s,
  forallb (file_returns o (file_system s)) filenames = true ->
  mallocs_succeed (pass_mallocs o (file_system s) filenames) (malloc_left s) = true ->
  process_files o filenames nb nc purpose s
  = Returns (actions_items o purpose (files_actions o (file_system s) filenames) nb nc).2
      (advance
         (actions_items o purpose (files_actions o (file_system s) filenames) nb nc).1
         (files_errors o (file_system s) filenames)
         (actions_rl_data (files_actions o (file_system s) filenames)) s).
Proof.
  induction filenames as [|filename filenames IH]; intros nb nc s Hret Hmem; simpl.
  - rewrite advance_nil. reflexivity.
  - simpl in Hret. apply andb_true_iff in Hret. destruct Hret as [Hfile Hret].
    rewrite pass_mallocs_cons in Hmem. apply mallocs_succeed_split in Hmem.
    destruct Hmem as [Hmem1 Hmem].
    unfold mbind at 1, M_bind at 1.
    rewrite process_file_plan.
    rewrite run_plan_advance by assumption.
    set (plan := file_plan_of o (file_system s) filename) in *.
    destruct (actions_items o purpose (plan_actions plan) nb nc) as [items [nb1 nc1]] eqn:E1.
    simpl.
    rewrite IH by (rewrite ?advance_file_system, ?advance_malloc_left; assumption).
    rewrite advance_file_system.
    unfold files_actions, files_errors. simpl. fold plan.
    rewrite actions_items_app, actions_rl_data_app, E1. simpl.
    rewrite advance_advance. reflexivity.
Qed.

Lemma output_sub_init_functions_advance o purpose s :
  forallb (file_returns o (file_system s)) (files s) = true ->
  mallocs_succeed (pass_mallocs o (file_system s) (files s)) (malloc_left s) = true ->
  output_sub_init_functions o purpose s
  = Returns
      (actions_items o purpose (files_actions o (file_system s) (files s)) 0 0).2.1
      (advance
         (sub_init_prelude purpose
            ++ (actions_items o purpose (files_actions o (file_system s) (files s)) 0 0).1
            ++ sub_init_postlude purpose)
         (files_errors o (file_system s) (files s))
         (actions_rl_data (files_actions o (file_system s) (files s))) s).
Proof.
  intros Hret Hmem. unfold output_sub_init_functions, sub_init_prelude, sub_init_postlude.
  unfold mbind, M_bind, mret, M_ret, fputs, printf, get_state.
  rewrite write_stdout_advance.
  destruct (bunch_function_guard purpose) as [guard|].
  - rewrite !write_stdout_advance, !advance_advance.
    rewrite process_files_advance
      by (rewrite advance_file_system, ?advance_files, ?advance_written; assumption).
    rewrite advance_file_system, advance_files.
    destruct (actions_items o purpose _ 0 0) as [items [nb nc]].
    cbn [fst snd]. rewrite !write_stdout_advance, !advance_advance.
    f_equal. apply advance_eq; simpl; rewrite ?app_nil_r, <- ?app_assoc; reflexivity.
  - rewrite !write_stdout_advance, !advance_advance.
    rewrite process_files_advance
      by (rewrite advance_file_system, ?advance_files, ?advance_written; assumption).
    rewrite advance_file_system, advance_files.
    destruct (actions_items o purpose _ 0 0) as [items [nb nc]].
    cbn [fst snd]. rewrite !write_stdout_advance, !advance_advance.
    f_equal. apply advance_eq; simpl; rewrite ?app_nil_r, <- ?app_assoc; reflexivity.
Qed.

(** *** The loop of [process_init_file] stays inside [line] *)

Lemma c_str_length buf (k : nat) :
  buf !! k = Some NUL -> (String.length (c_str buf) <= k)%nat.
Proof.
  revert k. induction buf as [|c buf IH]; intros k Hk; [discriminate|].
  simpl. destruct (Ascii.eqb_spec c NUL) as [->|Hc]; simpl; [lia|].
  destruct k as [|k]; simpl in Hk; [congruence|].
  specialize (IH k Hk). lia.
Qed.

Lemma span_alnumunder_bound buf (k : nat) :
  buf !! k = Some NUL -> 0 <= span_alnumunder buf <= Z.of_nat k.
Proof.
  revert k. induction buf as [|c buf IH]; intros k Hk; [discriminate|].
  simpl. destruct k as [|k]; simpl in Hk.
  - injection Hk as ->. simpl. lia.
  - specialize (IH k Hk).
    destruct (MR_isalnum c || Ascii.eqb c "_"); lia.
Qed.

Lemma string_take_length n s :
  String.length (string_take n s) = Nat.min n (String.length s).
Proof.
  revert s. induction n as [|n IH]; intros [|c s]; simpl; try reflexivity.
  rewrite IH. reflexivity.
Qed.

Lemma strncmp_eq_length a b n :
  strncmp_eq a b n = true -> Z.to_nat n = String.length b ->
  (Z.to_nat n <= String.length a)%nat.
Proof.
  unfold strncmp_eq. intros Heq Hn. apply String.eqb_eq in Heq.
  apply (f_equal String.length) in Heq. rewrite !string_take_length in Heq. lia.
Qed.

(** Storing the NUL that ends the name after a prefix of the line. *)
Lemma store_name_end line (n : nat) prefix :
  line !! n = Some NUL -> (n < length line)%nat ->
  strncmp_eq (c_str line) prefix (strlen prefix) = true ->
  strlen prefix
  <= strlen prefix + span_alnumunder (drop (Z.to_nat (strlen prefix)) line)
  <= Z.of_nat n /\
  store line (strlen prefix + span_alnumunder (drop (Z.to_nat (strlen prefix)) line)) NUL
  = Some (<[Z.to_nat (strlen prefix
                      + span_alnumunder (drop (Z.to_nat (strlen prefix)) line)) := NUL]>
            line).
Proof.
  intros Hnul Hn Hprefix.
  pose proof (c_str_length line n Hnul) as Hlen.
  pose proof (strncmp_eq_length _ _ _ Hprefix) as Hpre.
  unfold strlen in *. rewrite Nat2Z.id in *. specialize (Hpre eq_refl).
  assert (Hspan : 0 <= span_alnumunder (drop (String.length prefix) line)
                  <= Z.of_nat (n - String.length prefix)).
  { apply span_alnumunder_bound. rewrite lookup_drop.
    replace (String.length prefix + (n - String.length prefix))%nat with n by lia.
    exact Hnul. }
  split; [lia|]. apply store_Some. lia.
Qed.

Lemma parse_init_line_defined with_aditi line (n : nat) :
  line !! n = Some NUL -> (n < length line)%nat ->
  defined_action (parse_init_line with_aditi line).2 = true /\
  length (parse_init_line with_aditi line).1 = length line.
Proof.
  intros Hnul Hn. unfold parse_init_line.
  destruct (strncmp_eq (c_str line) init_str (strlen init_str)) eqn:Hinit.
  - destruct (store_name_end line n init_str Hnul Hn Hinit) as [Hj ->].
    change (strlen init_str) with 5 in *.
    set (j := 5 + span_alnumunder (drop (Z.to_nat 5) line)) in *.
    set (line1 := <[Z.to_nat j := NUL]> line).
    assert (Hlen1 : length line1 = length line) by apply length_insert.
    set (func_name := c_str (drop (Z.to_nat 5) line1)).
    assert (Hname : 0 <= strlen func_name <= j - 5).
    { unfold strlen.
      pose proof (c_str_length (drop (Z.to_nat 5) line1) (Z.to_nat (j - 5))) as Hc.
      fold func_name in Hc.
      rewrite lookup_drop in Hc.
      replace (Z.to_nat 5 + Z.to_nat (j - 5))%nat with (Z.to_nat j) in Hc by lia.
      unfold line1 in Hc. rewrite list_lookup_insert_eq in Hc by lia.
      specialize (Hc eq_refl). lia. }
    destruct (strncmp_eq _ "init" 4).
    + rewrite store_Some by lia. simpl. split; [reflexivity|].
      rewrite length_insert. exact Hlen1.
    + simpl. split; [reflexivity|exact Hlen1].
  - destruct (with_aditi
              && strncmp_eq (c_str line) aditi_init_str (strlen aditi_init_str))
      eqn:Haditi.
    + apply andb_true_iff in Haditi. destruct Haditi as [_ Haditi].
      destruct (store_name_end line n aditi_init_str Hnul Hn Haditi) as [Hj ->].
      simpl. split; [reflexivity|apply length_insert].
    + destruct (strncmp_eq (c_str line) endinit_str (strlen endinit_str));
        simpl; split; reflexivity.
Qed.

Lemma init_file_actions_defined with_aditi cfile line :
  Z.of_nat (length line) = MAXLINE ->
  forallb defined_action (init_file_actions with_aditi cfile line) = true.
Proof.
  remember (length cfile) as k eqn:Hk. revert cfile line Hk.
  induction k as [k IH] using lt_wf_ind. intros cfile line -> Hline.
  destruct (get_line_terminated cfile line MAXLINE) as (n & line' & Hget & Hlen & Hn & Hnul);
    [unfold MAXLINE; lia|exact Hline|].
  destruct (0 <? n) eqn:Hpos.
  - rewrite (init_file_actions_step _ _ _ _ _ _ Hget Hpos).
    destruct (parse_init_line_defined with_aditi line' (Z.to_nat n) Hnul) as [Hdef Hlen'];
      [lia|].
    destruct (parse_init_line with_aditi line') as [line'' action]. simpl in Hdef, Hlen'.
    assert (Hrec : forallb defined_action
                     (init_file_actions with_aditi (after_input_line cfile) line'') = true).
    { eapply IH; [|reflexivity|lia].
      apply (get_line_consumes cfile line MAXLINE n line'); [exact Hget|lia]. }
    destruct action; simpl; try reflexivity; try exact Hrec; discriminate Hdef.
  - rewrite (init_file_actions_eof _ _ _ _ _ _ Hget Hpos). reflexivity.
Qed.

(** An init file never makes [process_init_file] exit or overrun
    [line]. *)
Lemma init_file_plan_returns o fsys filename :
  match init_file_plan o fsys filename with
  | Plan_actions actions => forallb defined_action actions
  | Plan_error _ => true
  | Plan_exit _ _ => false
  end = true.
Proof.
  unfold init_file_plan. destruct (fopen_r fsys filename) as [cfile|]; [|reflexivity].
  apply init_file_actions_defined. rewrite length_replicate. reflexivity.
Qed.

Lemma mangle_loop_done func_name filename :
  strchr_split filename "." = None -> mangle_loop func_name filename = func_name.
Proof.
  intros H. rewrite mangle_loop_equation_1.
  generalize (inspect (strchr_split filename ".")). intros [y Hy].
  destruct y as [[b a]|]; [congruence|]. reflexivity.
Qed.

Lemma mangle_loop_step func_name filename before after :
  strchr_split filename "." = Some (before, after) ->
  mangle_loop func_name filename
  = if strncmp_eq filename "f_" 2
    then mangle_loop (func_name +:+ "__" +:+ "f__" +:+ string_drop 2 before) after
    else mangle_loop (func_name +:+ "__" +:+ before) after.
Proof.
  intros H. rewrite mangle_loop_equation_1.
  generalize (inspect (strchr_split filename ".")). intros [y Hy].
  destruct y as [[b a]|]; [|congruence].
  assert (E : Some (b, a) = Some (before, after)) by congruence.
  injection E as -> ->. reflexivity.
Qed.

Lemma strlen_append a b : strlen (a +:+ b) = strlen a + strlen b.
Proof.
  unfold strlen. induction a as [|x a IH]; [change ("" +:+ b) with b; simpl; lia|].
  change (String x a +:+ b) with (String x (a +:+ b)).
  change (String.length (String x (a +:+ b))) with (S (String.length (a +:+ b))).
  change (String.length (String x a)) with (S (String.length a)). lia.
Qed.

(** A name that ends in [init] is what is before, and [init]. *)
Lemma ends_in_take suffix s :
  ends_in suffix s = true ->
  s = string_take (String.length s - String.length suffix) s +:+ suffix.
Proof.
  unfold ends_in, strcmp_eq, strlen. intros H. apply andb_true_iff in H.
  destruct H as [Hlen H]. apply Z.leb_le in Hlen. apply String.eqb_eq in H.
  remember (String.length s - String.length suffix)%nat as n eqn:Hn.
  replace (Z.to_nat (Z.of_nat (String.length s) - Z.of_nat (String.length suffix)))
    with n in H by lia.
  rewrite <- H. clear. revert s. induction n as [|n IH]; intros [|x s]; simpl; try reflexivity.
  change (String x (string_take n s) +:+ string_drop n s)
    with (String x (string_take n s +:+ string_drop n s)).
  rewrite <- IH. reflexivity.
Qed.

(** The function name only grows in the loop of [process_c_file]. *)
Lemma mangle_loop_grows filename : forall func_name,
  strlen func_name <= strlen (mangle_loop func_name filename).
Proof.
  remember (String.length filename) as k eqn:Hk. revert filename Hk.
  induction k as [k IH] using lt_wf_ind. intros filename Hk func_name.
  destruct (strchr_split filename ".") as [[before after]|] eqn:E.
  - rewrite (mangle_loop_step _ _ _ _ E).
    pose proof (strchr_split_shorter _ _ _ _ E) as Hshort.
    destruct (strncmp_eq filename "f_" 2).
    + etransitivity; [|eapply (IH (String.length after)); [lia|reflexivity]].
      rewrite !strlen_append. unfold strlen. lia.
    + etransitivity; [|eapply (IH (String.length after)); [lia|reflexivity]].
      rewrite !strlen_append. unfold strlen. lia.
  - rewrite (mangle_loop_done _ _ E). lia.
Qed.

(** With a dot in the file name, the loop adds [__] at least. *)
Lemma mangle_loop_dot filename func_name before after :
  strchr_split filename "." = Some (before, after) ->
  strlen func_name + 2 <= strlen (mangle_loop func_name filename).
Proof.
  intros E. rewrite (mangle_loop_step _ _ _ _ E).
  destruct (strncmp_eq filename "f_" 2).
  - etransitivity; [|apply mangle_loop_grows].
    rewrite !strlen_append. change (strlen "__") with 2. unfold strlen. lia.
  - etransitivity; [|apply mangle_loop_grows].
    rewrite !strlen_append. change (strlen "__") with 2. unfold strlen. lia.
Qed.

(** What is after the last slash, or backslash, of a name that ends in
    [.c] ends in [.c]. *)
Lemma strrchr_tail_c_file pre sep :
  Ascii.eqb "." sep = false -> Ascii.eqb "c" sep = false ->
  exists pre', default (pre +:+ ".c") (strrchr_tail (pre +:+ ".c") sep) = pre' +:+ ".c".
Proof.
  intros Hdot Hc. induction pre as [|a pre IH].
  - exists "". change ("" +:+ ".c") with ".c". cbn [strrchr_tail]. rewrite Hc, Hdot. reflexivity.
  - change (String a pre +:+ ".c") with (String a (pre +:+ ".c")). simpl.
    destruct IH as [pre' IH].
    destruct (strrchr_tail (pre +:+ ".c") sep) as [t|]; cbn [default from_option id] in *.
    + exists pre'. exact IH.
    + destruct (Ascii.eqb a sep); cbn [default from_option id].
      * exists pre. reflexivity.
      * exists (String a pre). reflexivity.
Qed.

Lemma strchr_split_c_file pre :
  exists before after, strchr_split (pre +:+ ".c") "." = Some (before, after).
Proof.
  induction pre as [|a pre IH].
  - exists "", "c". reflexivity.
  - change (String a pre +:+ ".c") with (String a (pre +:+ ".c")). simpl.
    destruct (Ascii.eqb a "."); [eauto|].
    destruct IH as (before & after & ->). simpl. eauto.
Qed.

(** The function name of a file whose name ends in [.c] holds
    [mercury__], a module name, that may be empty, and [__]. *)
Lemma c_file_func_name_length filename :
  ends_in ".c" filename = true ->
  11 <= strlen (c_file_func_name (basename filename)).
Proof.
  intros Hc. apply ends_in_take in Hc.
  set (pre := string_take (String.length filename - String.length ".c") filename) in Hc.
  destruct (strrchr_tail_c_file pre "/" eq_refl eq_refl) as [pre1 H1].
  destruct (strrchr_tail_c_file pre1 "\" eq_refl eq_refl) as [pre2 H2].
  unfold basename. rewrite Hc, H1, H2.
  destruct (strchr_split_c_file pre2) as (before & after & Hsplit).
  unfold c_file_func_name. rewrite strlen_append.
  pose proof (mangle_loop_dot _ "mercury" _ _ Hsplit) as Hlen.
  change (strlen "mercury") with 7 in Hlen. change (strlen "__") with 2. lia.
Qed.

(** The files on which a pass returns: all but the C files, read as such,
    whose name has a special character or makes a function name that
    does not fit into [func_name]. *)
Lemma file_returns_spec o fsys filename :
  file_returns o fsys filename
  = if ends_in ".c" filename && negb (c_files_contain_extra_inits o) then
      match first_special (basename filename) with
      | Some _ => false
      | None => strlen (c_file_func_name (basename filename)) <? 1000
      end
    else true.
Proof.
  unfold file_returns, file_plan_of.
  destruct (ends_in ".c" filename) eqn:Hc; simpl.
  - destruct (c_files_contain_extra_inits o); simpl.
    + apply init_file_plan_returns.
    + unfold c_file_plan. destruct (first_special (basename filename)); [reflexivity|].
      pose proof (c_file_func_name_length filename Hc) as Hname.
      destruct (Z.leb_spec 1000 (strlen (c_file_func_name (basename filename))));
        simpl; symmetry; [apply Z.ltb_ge|]; try lia.
      destruct (aditi o); simpl; [|apply Z.ltb_lt; lia].
      change (strlen aditi_rl_data_str) with 24.
      destruct (Z.ltb_spec (strlen (c_file_func_name (basename filename)) - 9 - 2 + 24 + 1)
                  (24 + 1)); [lia|].
      simpl. apply Z.ltb_lt; lia.
  - destruct (ends_in ".init" filename); [apply init_file_plan_returns|reflexivity].
Qed.

(** *** The bunches of the generated file *)

Lemma called_function_call a b c d :
  called_function (Printf (Lit fmt_call) [A_str a; A_str b; A_str c; A_str d])
  = Some (a +:+ b +:+ c).
Proof. reflexivity. Qed.

Lemma called_function_extern a b c d :
  called_function (Printf (Lit fmt_extern) [A_str a; A_str b; A_str c; A_str d]) = None.
Proof. reflexivity. Qed.

Lemma bunch_opened_bunch a n c :
  bunch_opened (Printf (Lit fmt_bunch) [A_str a; A_int n; A_str c]) = Some n.
Proof. reflexivity. Qed.

Lemma bunch_opened_bunch_0 a c :
  bunch_opened (Printf (Lit fmt_bunch_0) [A_str a; A_str c]) = Some 0.
Proof. reflexivity. Qed.

Lemma bunch_step_call acc a b c d :
  bunch_step (Printf (Lit fmt_call) [A_str a; A_str b; A_str c; A_str d]) acc
  = ((a +:+ b +:+ c) :: acc.1, acc.2).
Proof. reflexivity. Qed.

Lemma bunch_step_extern acc a b c d :
  bunch_step (Printf (Lit fmt_extern) [A_str a; A_str b; A_str c; A_str d]) acc = acc.
Proof. reflexivity. Qed.

Lemma bunch_step_bunch acc a n c :
  bunch_step (Printf (Lit fmt_bunch) [A_str a; A_int n; A_str c]) acc
  = ([], (n, acc.1) :: acc.2).
Proof. reflexivity. Qed.

Lemma bunch_step_bunch_0 acc a c :
  bunch_step (Printf (Lit fmt_bunch_0) [A_str a; A_str c]) acc
  = ([], (0, acc.1) :: acc.2).
Proof. reflexivity. Qed.

Lemma bunch_step_no_args fmt acc : bunch_step (Printf (Lit fmt) []) acc = acc.
Proof. reflexivity. Qed.

Lemma bunch_step_fputs s acc : bunch_step (Fputs s) acc = acc.
Proof. reflexivity. Qed.

Lemma numbered_cons k b l : numbered k (b :: l) = (k, b) :: numbered (k + 1) l.
Proof.
  unfold numbered. simpl length.
  rewrite seqZ_cons by lia. simpl. do 2 f_equal; f_equal; lia.
Qed.

Lemma numbered_fst k l : (numbered k l).*1 = seqZ k (Z.of_nat (length l)).
Proof. unfold numbered. apply fst_zip. rewrite length_seqZ. lia. Qed.

Lemma numbered_snd k l : (numbered k l).*2 = l.
Proof. unfold numbered. apply snd_zip. rewrite length_seqZ. lia. Qed.

Lemma actions_calls_cons_call purpose func_name special actions :
  actions_calls purpose (Init_call func_name special :: actions)
  = (if called_for purpose (func_name, special)
     then [call_name purpose (func_name, special)] else [])
      ++ actions_calls purpose actions.
Proof.
  unfold actions_calls. simpl omap. rewrite filter_cons.
  destruct (called_for purpose (func_name, special)) eqn:E.
  - rewrite decide_True by reflexivity. reflexivity.
  - rewrite decide_False by discriminate. reflexivity.
Qed.

Lemma actions_calls_cons_other purpose a actions :
  action_entry a = None ->
  actions_calls purpose (a :: actions) = actions_calls purpose actions.
Proof. intros H. unfold actions_calls. simpl. rewrite H. reflexivity. Qed.

(** Reading the output of some actions gives the bunches the calls are
    dealt to, numbered from the bunch after the current one. *)
Lemma actions_items_bunches o purpose actions : forall nb nc done,
  foldr bunch_step ([], done) (actions_items o purpose actions nb nc).1
  = ((batch (maxcalls o) (actions_calls purpose actions) nc).1,
     numbered (nb + 1) (batch (maxcalls o) (actions_calls purpose actions) nc).2 ++ done)
  /\ (actions_items o purpose actions nb nc).2.1
     = nb + Z.of_nat (length (batch (maxcalls o) (actions_calls purpose actions) nc).2).
Proof.
  induction actions as [|a actions IH]; intros nb nc done.
  - simpl. split; [reflexivity|lia].
  - destruct a as [func_name special| name | | | |];
      try (rewrite actions_calls_cons_other by reflexivity; simpl; apply IH).
    rewrite actions_calls_cons_call. simpl actions_items.
    unfold call_items, called_for. simpl fst. simpl snd.
    destruct (bool_decide (purpose = PURPOSE_DEBUGGER) && special).
    + simpl negb. cbv iota. simpl app.
      destruct (actions_items o purpose actions nb nc) as [items' counters] eqn:E.
      specialize (IH nb nc done). rewrite E in IH. exact IH.
    + simpl negb. cbv iota. simpl app. simpl batch.
      destruct (maxcalls o <=? nc).
      * destruct (actions_items o purpose actions (nb + 1) 1) as [items' counters] eqn:E.
        specialize (IH (nb + 1) 1 done). rewrite E in IH. destruct IH as [IH1 IH2].
        destruct (batch (maxcalls o) (actions_calls purpose actions) 1) as [cur later].
        simpl in IH1, IH2. cbn [fst snd]. split.
        -- rewrite foldr_app. cbn [foldr]. rewrite IH1.
           rewrite bunch_step_call, bunch_step_extern, bunch_step_no_args,
             bunch_step_bunch, bunch_step_no_args.
           cbn [fst snd]. rewrite numbered_cons. reflexivity.
        -- rewrite IH2. simpl length. lia.
      * destruct (actions_items o purpose actions nb (nc + 1)) as [items' counters] eqn:E.
        specialize (IH nb (nc + 1) done). rewrite E in IH. destruct IH as [IH1 IH2].
        destruct (batch (maxcalls o) (actions_calls purpose actions) (nc + 1)) as [cur later].
        simpl in IH1, IH2. cbn [fst snd]. split.
        -- rewrite foldr_app. cbn [foldr]. rewrite IH1.
           rewrite bunch_step_call, bunch_step_extern. reflexivity.
        -- exact IH2.
Qed.

Lemma actions_items_called o purpose actions : forall nb nc,
  called_functions (actions_items o purpose actions nb nc).1
  = actions_calls purpose actions.
Proof.
  induction actions as [|a actions IH]; intros nb nc.
  - reflexivity.
  - destruct a as [func_name special| name | | | |];
      try (rewrite actions_calls_cons_other by reflexivity; simpl; apply IH).
    rewrite actions_calls_cons_call. simpl actions_items.
    unfold call_items, called_for. simpl fst. simpl snd.
    destruct (bool_decide (purpose = PURPOSE_DEBUGGER) && special).
    + simpl negb. cbv iota. simpl app.
      destruct (actions_items o purpose actions nb nc) as [items' counters] eqn:E.
      specialize (IH nb nc). rewrite E in IH. exact IH.
    + simpl negb. cbv iota.
      destruct (maxcalls o <=? nc).
      * destruct (actions_items o purpose actions (nb + 1) 1) as [items' counters] eqn:E.
        specialize (IH (nb + 1) 1). rewrite E in IH. cbn [fst snd] in *.
        unfold called_functions in *. rewrite omap_app, IH. reflexivity.
      * destruct (actions_items o purpose actions nb (nc + 1)) as [items' counters] eqn:E.
        specialize (IH nb (nc + 1)). rewrite E in IH. cbn [fst snd] in *.
        unfold called_functions in *. rewrite omap_app, IH. reflexivity.
Qed.

(** The calls dealt to bunches are the calls, in order. *)
Lemma batch_concat max calls : forall nc,
  (batch max calls nc).1 ++ concat (batch max calls nc).2 = calls.
Proof.
  induction calls as [|c calls IH]; intros nc; simpl; [reflexivity|].
  destruct (max <=? nc).
  - specialize (IH 1). destruct (batch max calls 1) as [cur later].
    simpl in *. rewrite IH. reflexivity.
  - specialize (IH (nc + 1)). destruct (batch max calls (nc + 1)) as [cur later].
    simpl in *. rewrite IH. reflexivity.
Qed.

(** No bunch gets more than [max] calls, and every bunch but the last is
    full. *)
Lemma batch_sizes max calls : forall nc,
  1 <= max -> 0 <= nc <= max ->
  nc + Z.of_nat (length (batch max calls nc).1) <= max /\
  Forall (fun b => 1 <= Z.of_nat (length b) <= max) (batch max calls nc).2 /\
  ((batch max calls nc).2 <> [] ->
     nc + Z.of_nat (length (batch max calls nc).1) = max) /\
  (forall (i : nat) b, (batch max calls nc).2 !! i = Some b ->
     (S i < length (batch max calls nc).2)%nat -> Z.of_nat (length b) = max).
Proof.
  induction calls as [|c calls IH]; intros nc Hmax Hnc; simpl.
  - split; [lia|]. split; [apply Forall_nil_2|]. split; [congruence|].
    intros i b H. discriminate.
  - destruct (Z.leb_spec max nc) as [Hfull|Hroom].
    + specialize (IH 1 Hmax ltac:(lia)).
      destruct (batch max calls 1) as [cur later]. simpl in *.
      destruct IH as (IH1 & IH2 & IH3 & IH4).
      split; [lia|]. split; [|split].
      * constructor; [simpl; lia|exact IH2].
      * intros _. lia.
      * intros [|i] b Hb Hlast; simpl in *.
        -- injection Hb as <-. simpl.
           assert (later <> []) by (destruct later; simpl in *; [lia|congruence]).
           specialize (IH3 H). lia.
        -- apply (IH4 i b Hb). lia.
    + specialize (IH (nc + 1) Hmax ltac:(lia)).
      destruct (batch max calls (nc + 1)) as [cur later]. simpl in *.
      destruct IH as (IH1 & IH2 & IH3 & IH4).
      split; [lia|]. split; [exact IH2|]. split.
      * intros Hne. specialize (IH3 Hne). lia.
      * exact IH4.
Qed.

Lemma for_each_write_stdout {A : Type} (f : A -> out_item) (l : list A) : forall s,
  for_each l (fun x => write_stdout (f x)) s = Returns tt (advance (f <$> l) [] [] s).
Proof.
  induction l as [|x l IH]; intros s; simpl.
  - rewrite advance_nil. reflexivity.
  - unfold mbind, M_bind. rewrite write_stdout_advance, IH, advance_advance.
    reflexivity.
Qed.

Lemma output_main_init_function_advance purpose num_bunches s :
  output_main_init_function purpose num_bunches s
  = Returns tt (advance (main_init_items purpose num_bunches) [] [] s).
Proof.
  unfold output_main_init_function, main_init_items.
  unfold mbind, M_bind, mret, M_ret, fputs, printf.
  rewrite write_stdout_advance.
  destruct (main_func_guard purpose) as [guard|];
    destruct (main_func_body_guard purpose) as [body_guard|];
    rewrite ?write_stdout_advance, ?advance_advance, ?advance_nil;
    rewrite for_each_write_stdout;
    rewrite ?write_stdout_advance, ?advance_advance, ?advance_nil;
    f_equal; apply advance_eq; simpl; rewrite ?app_nil_r, <- ?app_assoc; reflexivity.
Qed.

Lemma bunches_called_calls a c (l : list Z) :
  bunches_called
    ((fun i => Printf (Lit fmt_bunch_call) [A_str a; A_int i; A_str c]) <$> l) = l.
Proof.
  unfold bunches_called. induction l as [|i l IH]; [reflexivity|].
  rewrite fmap_cons. change (omap ?f (?x :: ?l)) with
    (match f x with Some y => y :: omap f l | None => omap f l end).
  change (bunch_called (Printf (Lit fmt_bunch_call) [A_str a; A_int i; A_str c]))
    with (Some i).
  cbv iota. rewrite IH. reflexivity.
Qed.

Lemma bunches_called_main_init purpose num_bunches :
  bunches_called (main_init_items purpose num_bunches) = seqZ 0 (num_bunches + 1).
Proof.
  unfold main_init_items, bunches_called.
  rewrite !omap_app. fold (bunches_called
    ((fun i => Printf (Lit fmt_bunch_call)
                 [A_str (main_func_name purpose); A_int i; A_str (main_func_arg purpose)])
       <$> seqZ 0 (num_bunches + 1))).
  rewrite bunches_called_calls.
  destruct (main_func_guard purpose), (main_func_body_guard purpose);
    simpl; rewrite ?app_nil_r; reflexivity.
Qed.

Lemma called_functions_sub_init o purpose actions :
  called_functions
    (sub_init_prelude purpose ++ (actions_items o purpose actions 0 0).1
       ++ sub_init_postlude purpose)
  = actions_calls purpose actions.
Proof.
  unfold called_functions. rewrite !omap_app.
  fold (called_functions (actions_items o purpose actions 0 0).1).
  rewrite actions_items_called.
  unfold sub_init_prelude, sub_init_postlude.
  destruct (bunch_function_guard purpose); simpl; rewrite ?app_nil_r; reflexivity.
Qed.

Lemma bunches_sub_init o purpose actions :
  bunches
    (sub_init_prelude purpose ++ (actions_items o purpose actions 0 0).1
       ++ sub_init_postlude purpose)
  = numbered 0 ((batch (maxcalls o) (actions_calls purpose actions) 0).1
                  :: (batch (maxcalls o) (actions_calls purpose actions) 0).2).
Proof.
  unfold bunches. rewrite !foldr_app.
  assert (Hpost : foldr bunch_step ([], []) (sub_init_postlude purpose) = ([], [])).
  { unfold sub_init_postlude. destruct (bunch_function_guard purpose); reflexivity. }
  rewrite Hpost.
  destruct (actions_items_bunches o purpose actions 0 0 []) as [Hitems _].
  rewrite Hitems. rewrite app_nil_r.
  rewrite numbered_cons.
  unfold sub_init_prelude.
  destruct (bunch_function_guard purpose); reflexivity.
Qed.

Lemma omap_bind {A B C : Type} (f : B -> option C) (g : A -> list B) (l : list A) :
  omap f (l ≫= g) = l ≫= (fun x => omap f (g x)).
Proof.
  induction l as [|x l IH]; [reflexivity|].
  rewrite !bind_cons, omap_app, IH. reflexivity.
Qed.

Lemma entry_points_actions o fsys filenames :
  entry_points o fsys filenames = omap action_entry (files_actions o fsys filenames).
Proof.
  unfold entry_points, files_actions. rewrite omap_bind.
  induction filenames as [|filename filenames IH]; [reflexivity|].
  rewrite !bind_cons, IH. f_equal.
  unfold file_entry_points, plan_actions.
  destruct (file_plan_of o fsys filename); reflexivity.
Qed.

Lemma called_for_not_debugger purpose e :
  purpose <> PURPOSE_DEBUGGER -> called_for purpose e = true.
Proof.
  intros H. unfold called_for. rewrite bool_decide_eq_false_2 by exact H. reflexivity.
Qed.

Lemma filter_all {A : Type} (P : A -> Prop) `{forall x, Decision (P x)} (l : list A) :
  (forall x, P x) -> filter P l = l.
Proof.
  intros HP. induction l as [|x l IH]; [reflexivity|].
  rewrite filter_cons, decide_True by apply HP. rewrite IH. reflexivity.
Qed.

(** *** Functions that only write to [stdout] *)

Lemma writes_only_ret {A : Type} (a : A) : writes_only (mret a).
Proof. intros s. exists a, []. rewrite advance_nil. reflexivity. Qed.

Lemma writes_only_bind {A B : Type} (m : M A) (f : A -> M B) :
  writes_only m -> (forall a, writes_only (f a)) -> writes_only (m ≫= f).
Proof.
  intros Hm Hf s. destruct (Hm s) as (a & items & Hs).
  destruct (Hf a (advance items [] [] s)) as (b & items' & Hs').
  exists b, (items ++ items'). unfold mbind, M_bind. rewrite Hs, Hs'.
  rewrite advance_advance. reflexivity.
Qed.

Lemma writes_only_write_stdout item : writes_only (write_stdout item).
Proof. intros s. exists tt, [item]. apply write_stdout_advance. Qed.

Lemma writes_only_get_state : writes_only get_state.
Proof. intros s. exists s, []. rewrite advance_nil. reflexivity. Qed.

Lemma writes_only_for_each {A : Type} (l : list A) (body : A -> M unit) :
  (forall x, writes_only (body x)) -> writes_only (for_each l body).
Proof.
  intros Hbody. induction l as [|x l IH]; simpl.
  - apply writes_only_ret.
  - apply writes_only_bind; [apply Hbody|]. intros _. exact IH.
Qed.

Lemma writes_only_if {A : Type} (b : bool) (m1 m2 : M A) :
  writes_only m1 -> writes_only m2 -> writes_only (if b then m1 else m2).
Proof. destruct b; auto. Qed.

Create HintDb writes discriminated.
#[export] Hint Resolve writes_only_ret writes_only_write_stdout writes_only_get_state
  writes_only_for_each writes_only_if : writes.
#[export] Hint Extern 1 (writes_only (mbind _ _)) =>
  apply writes_only_bind; [|intros ?] : writes.
#[export] Hint Extern 1 (writes_only (printf _ _)) => apply writes_only_write_stdout : writes.
#[export] Hint Extern 1 (writes_only (printf_static _ _)) => apply writes_only_write_stdout : writes.
#[export] Hint Extern 1 (writes_only (fputs _)) => apply writes_only_write_stdout : writes.
#[export] Hint Extern 1 (writes_only (fputs_static _)) => apply writes_only_write_stdout : writes.
#[export] Hint Extern 1 (writes_only (putc _)) => apply writes_only_write_stdout : writes.

Lemma writes_only_put_escaped c : writes_only (put_escaped c).
Proof. unfold put_escaped. auto 10 with writes. Qed.

Lemma writes_only_output_headers o : writes_only (output_headers o).
Proof. unfold output_headers. auto 20 with writes. Qed.

Lemma writes_only_output_main o : writes_only (output_main o).
Proof.
  unfold output_main. pose proof writes_only_put_escaped. auto 30 with writes.
Qed.

Lemma writes_only_output_aditi_load_function : writes_only output_aditi_load_function.
Proof. unfold output_aditi_load_function. auto 50 with writes. Qed.

Lemma writes_only_frame {A : Type} (m : M A) s a s' :
  writes_only m -> m s = Returns a s' ->
  num_errors s' = num_errors s /\ files s' = files s
  /\ file_system s' = file_system s /\ exists out, stdout s' = stdout s ++ out.
Proof.
  intros Hm Hs. destruct (Hm s) as (a' & items & Hs').
  rewrite Hs in Hs'. injection Hs' as -> ->.
  unfold advance. simpl. repeat split; [lia|]. eauto.
Qed.

Lemma writes_only_malloc_left {A : Type} (m : M A) s a s' :
  writes_only m -> m s = Returns a s' -> malloc_left s' = malloc_left s.
Proof.
  intros Hm Hs. destruct (Hm s) as (a' & items & Hs').
  rewrite Hs in Hs'. injection Hs' as -> ->. reflexivity.
Qed.

(** *** Which runs return *)

Lemma mallocs_succeed_0 avail : mallocs_succeed 0 avail = true.
Proof. destruct avail; reflexivity. Qed.

Lemma run_actions_returns o purpose actions : forall nb nc s r s',
  run_actions o purpose actions nb nc s = Returns r s' ->
  forallb defined_action actions = true /\
  mallocs_succeed (2 * length (actions_rl_data actions)) (malloc_left s) = true.
Proof.
  induction actions as [|a actions IH]; intros nb nc s r s' H.
  { split; [reflexivity|apply mallocs_succeed_0]. }
  destruct a as [func_name special| name | | | |]; simpl in H;
    cbn [forallb defined_action actions_rl_data andb].
  - unfold mbind, M_bind in H. rewrite output_init_function_items in H.
    destruct (call_items o purpose nb nc func_name special) as [items [nb' nc']].
    simpl in H. apply IH in H. exact H.
  - rewrite aditi_data_bind in H.
    destruct (mallocs_succeed 2 (malloc_left s)) eqn:E; [|discriminate H].
    apply IH in H. destruct H as [Hdef Hmem]. split; [exact Hdef|].
    rewrite advance_malloc_left in Hmem. rewrite length_app.
    replace (2 * (length (actions_rl_data actions) + length [name]))%nat
      with (2 + 2 * length (actions_rl_data actions))%nat by (simpl; lia).
    rewrite mallocs_succeed_add, E. exact Hmem.
  - eapply IH, H.
  - eapply IH, H.
  - discriminate H.
  - rewrite checked_malloc_bind in H.
    destruct (mallocs_succeed 1 (malloc_left s)); discriminate H.
Qed.

Lemma for_each_write_stderr_returns messages : forall s,
  exists s', for_each messages write_stderr s = Returns tt s'.
Proof.
  induction messages as [|m messages IH]; intros s; simpl.
  - eexists. reflexivity.
  - unfold mbind, M_bind. unfold write_stderr at 1. apply IH.
Qed.

Lemma run_plan_returns o purpose plan nb nc s r s' :
  run_plan o purpose plan nb nc s = Returns r s' ->
  plan_returns plan = true /\
  mallocs_succeed (2 * length (actions_rl_data (plan_actions plan))) (malloc_left s)
  = true.
Proof.
  destruct plan as [actions|message|messages status]; simpl; intros H.
  - eapply run_actions_returns, H.
  - split; [reflexivity|apply mallocs_succeed_0].
  - unfold mbind, M_bind in H.
    destruct (for_each_write_stderr_returns messages s) as [s1 Hs1].
    rewrite Hs1 in H. discriminate H.
Qed.

Lemma process_files_returns o purpose filenames : forall nb nc s r s',
  process_files o filenames nb nc purpose s = Returns r s' ->
  forallb (file_returns o (file_system s)) filenames = true /\
  mallocs_succeed (pass_mallocs o (file_system s) filenames) (malloc_left s) = true.
Proof.
  induction filenames as [|filename filenames IH]; intros nb nc s r s' H.
  { split; [reflexivity|apply mallocs_succeed_0]. }
  simpl in *. unfold mbind at 1, M_bind at 1 in H.
  rewrite process_file_plan in H.
  destruct (run_plan o purpose (file_plan_of o (file_system s) filename) nb nc s)
    as [[nb1 nc1] s1| |] eqn:Hplan; try discriminate H.
  destruct (run_plan_returns _ _ _ _ _ _ _ _ Hplan) as [Hret Hmem].
  rewrite (run_plan_advance _ _ _ _ _ _ Hret Hmem) in Hplan.
  injection Hplan as _ <-.
  apply IH in H. rewrite advance_file_system, advance_malloc_left in H.
  destruct H as [Hrets Hmems].
  split; [apply andb_true_iff; split; [exact Hret|exact Hrets]|].
  rewrite pass_mallocs_cons, mallocs_succeed_add, Hmem. exact Hmems.
Qed.

Lemma output_sub_init_functions_returns o purpose s num_bunches s' :
  output_sub_init_functions o purpose s = Returns num_bunches s' ->
  forallb (file_returns o (file_system s)) (files s) = true /\
  mallocs_succeed (pass_mallocs o (file_system s) (files s)) (malloc_left s) = true.
Proof.
  unfold output_sub_init_functions.
  unfold mbind, M_bind, mret, M_ret, fputs, printf, get_state.
  rewrite write_stdout_advance.
  destruct (bunch_function_guard purpose) as [guard|];
    rewrite !write_stdout_advance, ?advance_advance;
    (destruct (process_files o _ 0 0 purpose _) as [[nb nc] s1| |] eqn:Hfiles;
       [|discriminate|discriminate]);
    intros _; apply process_files_returns in Hfiles;
    rewrite advance_file_system, advance_files, advance_written in Hfiles; exact Hfiles.
Qed.

(** What a pass over the files leaves, when it returns. *)
Lemma output_sub_init_functions_frame o purpose s num_bunches s' :
  output_sub_init_functions o purpose s = Returns num_bunches s' ->
  num_errors s'
  = num_errors s + Z.of_nat (length (files_errors o (file_system s) (files s)))
  /\ files s' = files s /\ file_system s' = file_system s.
Proof.
  intros H. destruct (output_sub_init_functions_returns _ _ _ _ _ H) as [Hret Hmem].
  rewrite (output_sub_init_functions_advance _ _ _ Hret Hmem) in H.
  injection H as _ <-. repeat split.
Qed.

Lemma output_main_init_function_frame purpose num_bunches s a s' :
  output_main_init_function purpose num_bunches s = Returns a s' ->
  num_errors s' = num_errors s /\ files s' = files s
  /\ file_system s' = file_system s.
Proof.
  rewrite output_main_init_function_advance. intros H. injection H as _ <-.
  unfold advance. simpl. repeat split. lia.
Qed.

(** The files that are not processed are those with an error message. *)
Lemma files_errors_none o fsys filenames :
  forallb (file_returns o fsys) filenames = true ->
  (length (files_errors o fsys filenames) = 0%nat
   <-> forallb (file_processed o fsys) filenames = true).
Proof.
  induction filenames as [|filename filenames IH]; intros Hret; [tauto|].
  simpl in Hret. apply andb_true_iff in Hret. destruct Hret as [Hfile Hret].
  specialize (IH Hret). unfold files_errors in *. rewrite bind_cons, length_app.
  simpl forallb. unfold file_returns, file_processed in *.
  destruct (file_plan_of o fsys filename) as [actions|message|messages status];
    simpl in *; try discriminate; [exact IH|].
  split; [lia|discriminate].
Qed.

(** *** What is left of the files when a run exits *)

Lemma leaves_files_ret {A : Type} (a : A) : leaves_files (mret a).
Proof. intros s. reflexivity. Qed.

Lemma leaves_files_bind {A B : Type} (m : M A) (f : A -> M B) :
  leaves_files m -> (forall a, leaves_files (f a)) -> leaves_files (m ≫= f).
Proof.
  intros Hm Hf s. unfold mbind, M_bind. specialize (Hm s).
  destruct (m s) as [a s1|status s1|]; [|exact Hm|exact I].
  specialize (Hf a s1). destruct (f a s1) as [b s2|status s2|]; [| |exact I].
  - congruence.
  - destruct Hf as [-> Hf]. split; [reflexivity|congruence].
Qed.

Lemma leaves_files_writes_only {A : Type} (m : M A) : writes_only m -> leaves_files m.
Proof. intros Hm s. destruct (Hm s) as (a & items & ->). reflexivity. Qed.

Lemma leaves_files_get_state : leaves_files get_state.
Proof. intros s. reflexivity. Qed.

Lemma leaves_files_write_stderr message : leaves_files (write_stderr message).
Proof. intros s. reflexivity. Qed.

Lemma leaves_files_incr_num_errors : leaves_files incr_num_errors.
Proof. intros s. reflexivity. Qed.

Lemma leaves_files_set_files l : leaves_files (set_files l).
Proof. intros s. reflexivity. Qed.

Lemma leaves_files_set_rl_data l : leaves_files (set_rl_data l).
Proof. intros s. reflexivity. Qed.

Lemma leaves_files_exit {A : Type} : leaves_files (exit (A := A) EXIT_FAILURE).
Proof. intros s. split; reflexivity. Qed.

Lemma leaves_files_undefined {A : Type} : leaves_files (undefined (A := A)).
Proof. intros s. exact I. Qed.

Lemma leaves_files_checked_malloc : leaves_files checked_malloc.
Proof.
  intros s. unfold checked_malloc.
  destruct (malloc_left s) as [[|avail]|]; simpl; [split; reflexivity|reflexivity..].
Qed.

Lemma leaves_files_for_each {A : Type} (l : list A) (body : A -> M unit) :
  (forall x, leaves_files (body x)) -> leaves_files (for_each l body).
Proof.
  intros Hbody. induction l as [|x l IH]; simpl.
  - apply leaves_files_ret.
  - apply leaves_files_bind; [apply Hbody|]. intros _. exact IH.
Qed.

Lemma leaves_files_if {A : Type} (b : bool) (m1 m2 : M A) :
  leaves_files m1 -> leaves_files m2 -> leaves_files (if b then m1 else m2).
Proof. destruct b; auto. Qed.

Create HintDb leaves discriminated.
#[export] Hint Resolve leaves_files_ret leaves_files_get_state leaves_files_write_stderr
  leaves_files_incr_num_errors leaves_files_set_files leaves_files_set_rl_data
  leaves_files_exit leaves_files_undefined leaves_files_checked_malloc
  leaves_files_for_each leaves_files_if : leaves.
#[export] Hint Extern 1 (leaves_files (mbind _ _)) =>
  apply leaves_files_bind; [|intros ?] : leaves.
#[export] Hint Extern 1 (leaves_files (fprintf_stderr _ _)) =>
  apply leaves_files_write_stderr : leaves.

Lemma leaves_files_add_rl_data data : leaves_files (add_rl_data data).
Proof. unfold add_rl_data. auto with leaves. Qed.

Lemma leaves_files_output_init_function o func_name nb nc purpose special_module :
  leaves_files (output_init_function o func_name nb nc purpose special_module).
Proof. intros s. rewrite output_init_function_items. reflexivity. Qed.

Lemma leaves_files_run_actions o purpose actions : forall nb nc,
  leaves_files (run_actions o purpose actions nb nc).
Proof.
  pose proof leaves_files_add_rl_data. pose proof leaves_files_output_init_function.
  induction actions as [|a actions IH]; intros nb nc; simpl.
  - apply leaves_files_ret.
  - destruct a as [func_name special| name | | | |]; auto with leaves.
    apply leaves_files_bind; [auto|]. intros [nb' nc']. apply IH.
Qed.

Lemma leaves_files_run_plan o purpose plan nb nc :
  (forall messages status, plan = Plan_exit messages status -> status = EXIT_FAILURE) ->
  leaves_files (run_plan o purpose plan nb nc).
Proof.
  destruct plan as [actions|message|messages status]; simpl; intros Hstatus.
  - apply leaves_files_run_actions.
  - auto with leaves.
  - rewrite (Hstatus messages status eq_refl). auto with leaves.
Qed.

(** The only exit of a file plan is the one of [process_c_file], with
    EXIT_FAILURE. *)
Lemma file_plan_of_exit o fsys filename messages status :
  file_plan_of o fsys filename = Plan_exit messages status -> status = EXIT_FAILURE.
Proof.
  assert (Hinit : forall name, init_file_plan o fsys name <> Plan_exit messages status).
  { intros name. unfold init_file_plan. destruct (fopen_r fsys name); discriminate. }
  unfold file_plan_of.
  destruct (ends_in ".c" filename).
  - destruct (c_files_contain_extra_inits o); [intros H; destruct (Hinit _ H)|].
    unfold c_file_plan. destruct (first_special (basename filename)).
    + intros H. injection H as _ <-. reflexivity.
    + destruct (1000 <=? strlen (c_file_func_name (basename filename))); discriminate.
  - destruct (ends_in ".init" filename); [intros H; destruct (Hinit _ H)|discriminate].
Qed.

Lemma leaves_files_process_file o filename nb nc purpose :
  leaves_files (process_file o filename nb nc purpose).
Proof.
  intros s. rewrite process_file_plan. apply leaves_files_run_plan.
  intros messages status. apply file_plan_of_exit.
Qed.

Lemma leaves_files_process_files o purpose filenames : forall nb nc,
  leaves_files (process_files o filenames nb nc purpose).
Proof.
  induction filenames as [|filename filenames IH]; intros nb nc; simpl.
  - apply leaves_files_ret.
  - apply leaves_files_bind; [apply leaves_files_process_file|].
    intros [nb' nc']. apply IH.
Qed.

Lemma leaves_files_output_sub_init_functions o purpose :
  leaves_files (output_sub_init_functions o purpose).
Proof.
  pose proof (leaves_files_process_files o purpose) as Hfiles.
  unfold output_sub_init_functions.
  assert (Hw : forall item, leaves_files (write_stdout item))
    by (intros item; apply leaves_files_writes_only, writes_only_write_stdout).
  unfold fputs, printf.
  apply leaves_files_bind; [apply Hw|intros _].
  apply leaves_files_bind;
    [destruct (bunch_function_guard purpose); auto with leaves|intros _].
  apply leaves_files_bind; [apply Hw|intros _].
  apply leaves_files_bind; [apply Hw|intros _].
  apply leaves_files_bind; [apply leaves_files_get_state|intros s].
  apply leaves_files_bind; [apply Hfiles|intros [nb nc]].
  apply leaves_files_bind; [apply Hw|intros _].
  apply leaves_files_bind;
    [destruct (bunch_function_guard purpose); auto with leaves|intros _].
  apply leaves_files_ret.
Qed.

Lemma leaves_files_search_init_file_dirs dirs base_name :
  leaves_files (search_init_file_dirs dirs base_name).
Proof.
  induction dirs as [|dirname dirs IH]; simpl; [apply leaves_files_ret|].
  apply leaves_files_bind; [apply leaves_files_checked_malloc|]. intros _.
  apply leaves_files_bind; [apply leaves_files_get_state|]. intros s.
  apply leaves_files_if; [apply leaves_files_ret|exact IH].
Qed.

Lemma leaves_files_find_init_file o base_name : leaves_files (find_init_file o base_name).
Proof.
  unfold find_init_file.
  apply leaves_files_bind; [apply leaves_files_get_state|]. intros s.
  apply leaves_files_if; [apply leaves_files_ret|apply leaves_files_search_init_file_dirs].
Qed.

Lemma leaves_files_do_path_search_from o todo : forall filenum,
  leaves_files (do_path_search_from o filenum todo).
Proof.
  induction todo as [|filename todo IH]; intros filenum; simpl.
  - apply leaves_files_ret.
  - apply leaves_files_bind; [apply leaves_files_find_init_file|]. intros [name|].
    + apply leaves_files_bind; [auto with leaves|]. intros _. apply IH.
    + apply leaves_files_bind; [auto with leaves|]. intros _. apply IH.
Qed.

Lemma leaves_files_do_path_search o : leaves_files (do_path_search o).
Proof.
  unfold do_path_search.
  apply leaves_files_bind; [apply leaves_files_get_state|]. intros s.
  apply leaves_files_do_path_search_from.
Qed.

Lemma exits_safely_bind {A B : Type} (m : M A) (f : A -> M B) :
  leaves_files m -> (forall a, exits_safely (f a)) -> exits_safely (m ≫= f).
Proof.
  intros Hm Hf s status s'. unfold mbind, M_bind. specialize (Hm s).
  destruct (m s) as [a s1|status1 s1|]; [| |discriminate].
  - intros H. destruct (Hf a s1 status s' H) as [-> Hs]. split; [reflexivity|congruence].
  - intros H. injection H as <- <-. exact Hm.
Qed.

(** *** The path search *)

Lemma search_init_file_dirs_spec dirs base_name : forall s,
  search_init_file_dirs dirs base_name s
  = if mallocs_succeed (dirs_tried (file_system s) dirs base_name) (malloc_left s)
    then Returns (init_file_in_dirs (file_system s) dirs base_name)
           (spend (dirs_tried (file_system s) dirs base_name) s)
    else Exits EXIT_FAILURE
           (exit_state [out_of_memory]
              (spend (dirs_tried (file_system s) dirs base_name) s)).
Proof.
  induction dirs as [|dirname dirs IH]; intros s; simpl.
  - rewrite mallocs_succeed_0, spend_0. reflexivity.
  - rewrite checked_malloc_bind. unfold mbind, M_bind, get_state.
    change (file_system (spend 1 s)) with (file_system s).
    destruct (file_exists (file_system s) (dirname +:+ "/" +:+ base_name)).
    + destruct (mallocs_succeed 1 (malloc_left s)); reflexivity.
    + change (S (dirs_tried (file_system s) dirs base_name))
        with (1 + dirs_tried (file_system s) dirs base_name)%nat.
      rewrite mallocs_succeed_add.
      destruct (mallocs_succeed 1 (malloc_left s)) eqn:E; simpl.
      * rewrite IH. change (file_system (spend 1 s)) with (file_system s).
        change (malloc_left (spend 1 s)) with (consume 1 (malloc_left s)).
        rewrite spend_spend. reflexivity.
      * rewrite (exit_state_failed 1 (dirs_tried (file_system s) dirs base_name) _ _ E).
        reflexivity.
Qed.

Lemma find_init_file_spec o base_name s :
  find_init_file o base_name s
  = if mallocs_succeed (find_init_file_mallocs o (file_system s) base_name) (malloc_left s)
    then Returns (init_file_found o (file_system s) base_name)
           (spend (find_init_file_mallocs o (file_system s) base_name) s)
    else Exits EXIT_FAILURE
           (exit_state [out_of_memory]
              (spend (find_init_file_mallocs o (file_system s) base_name) s)).
Proof.
  unfold find_init_file, find_init_file_mallocs, init_file_found, mbind, M_bind, get_state.
  destruct (file_exists (file_system s) base_name).
  - rewrite mallocs_succeed_0, spend_0. reflexivity.
  - apply search_init_file_dirs_spec.
Qed.

Lemma path_search_mallocs_cons o fsys filename filenames :
  path_search_mallocs o fsys (filename :: filenames)
  = (find_init_file_mallocs o fsys filename + path_search_mallocs o fsys filenames)%nat.
Proof. reflexivity. Qed.

(** [do_path_search] from the file after those of [done]: with memory
    enough, it returns with each file left replaced by the one found for
    it; else it exits for want of memory. *)
Lemma do_path_search_from_spec o todo : forall done s,
  files s = done ++ todo ->
  if mallocs_succeed (path_search_mallocs o (file_system s) todo) (malloc_left s)
  then do_path_search_from o (length done) todo s
       = Returns tt
           (spend (path_search_mallocs o (file_system s) todo)
              (with_files (done ++ (searched o (file_system s) <$> todo)) s))
  else out_of_memory_exit s (do_path_search_from o (length done) todo s).
Proof.
  induction todo as [|filename todo IH]; intros done s Hfiles.
  - simpl. rewrite mallocs_succeed_0, spend_0. unfold with_files.
    rewrite <- Hfiles. destruct s; reflexivity.
  - rewrite path_search_mallocs_cons, mallocs_succeed_add.
    set (k := find_init_file_mallocs o (file_system s) filename).
    set (s1 := with_files (done ++ searched o (file_system s) filename :: todo)
                 (spend k s)).
    assert (Hrun : do_path_search_from o (length done) (filename :: todo) s
                   = if mallocs_succeed k (malloc_left s)
                     then do_path_search_from o (S (length done)) todo s1
                     else Exits EXIT_FAILURE (exit_state [out_of_memory] (spend k s))).
    { simpl do_path_search_from. unfold mbind at 1, M_bind at 1.
      rewrite find_init_file_spec. fold k.
      destruct (mallocs_succeed k (malloc_left s)); [|reflexivity].
      unfold mbind, M_bind, get_state, set_files, mret, M_ret, s1, searched.
      destruct (init_file_found o (file_system s) filename) as [name|];
        cbn [default from_option id].
      - change (files (spend k s)) with (files s).
        rewrite Hfiles, insert_app_r_alt by lia. rewrite Nat.sub_diag. reflexivity.
      - rewrite <- Hfiles. destruct s; reflexivity. }
    rewrite Hrun. clear Hrun.
    destruct (mallocs_succeed k (malloc_left s)) eqn:E; simpl andb; cbv iota.
    + specialize (IH (done ++ [searched o (file_system s) filename]) s1).
      replace (length (done ++ [searched o (file_system s) filename]))
        with (S (length done)) in IH by (rewrite length_app; simpl; lia).
      change (file_system s1) with (file_system s) in IH.
      change (malloc_left s1) with (consume k (malloc_left s)) in IH.
      specialize (IH ltac:(unfold s1; simpl; rewrite <- app_assoc; reflexivity)).
      destruct (mallocs_succeed (path_search_mallocs o (file_system s) todo)
                  (consume k (malloc_left s))).
      * rewrite IH. f_equal. unfold s1, with_files, spend. simpl.
        rewrite consume_add, <- app_assoc. reflexivity.
      * destruct IH as (s' & -> & Herr & Hnum & Hfs & Hleft).
        exists s'. split; [reflexivity|]. repeat split; assumption.
    + eexists. split; [reflexivity|].
      unfold exit_state, spend; simpl. repeat split.
      destruct (malloc_left s) as [n|]; [|discriminate E].
      simpl in E. apply Nat.leb_gt in E. rewrite consume_Some. f_equal. lia.
Qed.

Lemma do_path_search_spec o s :
  if mallocs_succeed (path_search_mallocs o (file_system s) (files s)) (malloc_left s)
  then do_path_search o s
       = Returns tt
           (spend (path_search_mallocs o (file_system s) (files s))
              (with_files (searched o (file_system s) <$> files s) s))
  else out_of_memory_exit s (do_path_search o s).
Proof.
  unfold do_path_search, mbind, M_bind, get_state.
  exact (do_path_search_from_spec o (files s) [] s eq_refl).
Qed.

(** *** [main] *)

Lemma parse_options_frame o s a s' :
  parse_options o s = Returns a s' ->
  files s' = arg_files o /\ file_system s' = file_system s
  /\ num_errors s' = num_errors s.
Proof.
  unfold parse_options. destruct (Z.of_nat (length (arg_files o)) <=? 0).
  - unfold usage, mbind, M_bind, fprintf_stderr, write_stderr, exit. discriminate.
  - unfold set_files. intros H. injection H as _ <-. repeat split.
Qed.

Lemma set_output_file_frame o writable s a s' :
  set_output_file o writable s = Returns a s' ->
  files s' = files s /\ file_system s' = run_file_system o (file_system s)
  /\ num_errors s' = num_errors s.
Proof.
  unfold set_output_file, run_file_system.
  destruct (output_file_name o) as [name|].
  - destruct (writable name).
    + unfold mbind, M_bind, get_state, set_file_system. intros H.
      injection H as _ <-. repeat split.
    + unfold mbind, M_bind, fprintf_stderr, write_stderr, exit. discriminate.
  - intros H. injection H as _ <-. repeat split.
Qed.

Lemma do_path_search_frame o s a s' :
  do_path_search o s = Returns a s' ->
  files s' = searched o (file_system s) <$> files s
  /\ file_system s' = file_system s /\ num_errors s' = num_errors s.
Proof.
  pose proof (do_path_search_spec o s) as Hspec.
  destruct (mallocs_succeed _ _).
  - rewrite Hspec. intros H. injection H as _ <-. repeat split.
  - destruct Hspec as (s1 & -> & _). discriminate.
Qed.

Lemma main_end_spec o s status s' :
  main_end o s = Returns status s' ->
  num_errors s' = num_errors s /\
  (num_errors s <= 0 ->
     status = EXIT_SUCCESS /\ s' = s) /\
  (0 < num_errors s ->
     status = EXIT_FAILURE /\ stdout s' = stdout s ++ error_trailer /\
     forall name, output_file_name o = Some name ->
       file_system s' = delete name (file_system s)).
Proof.
  unfold main_end. unfold mbind at 1, M_bind at 1, get_state at 1.
  destruct (Z.ltb_spec 0 (num_errors s)) as [Herr|Hok].
  - unfold mbind at 1, M_bind at 1. rewrite for_each_write_stdout.
    rewrite list_fmap_id.
    destruct (output_file_name o) as [name|].
    + unfold mbind, M_bind, get_state, set_file_system, mret, M_ret. intros H.
      injection H as <- <-. simpl. split; [lia|]. split; [lia|]. intros _.
      split; [reflexivity|]. split; [reflexivity|].
      intros name' Hname. injection Hname as <-. reflexivity.
    + unfold mbind, M_bind, mret, M_ret. intros H.
      injection H as <- <-. simpl. split; [lia|]. split; [lia|]. intros _.
      split; [reflexivity|]. split; [reflexivity|]. discriminate.
  - unfold mret, M_ret. intros H. injection H as <- <-.
    split; [reflexivity|]. split; [intros _; split; reflexivity|lia].
Qed.

Lemma returns_from_takes {A B : Type} P Q (m : M A) (f : A -> M B) :
  takes P Q m -> (forall a, returns_from Q (f a)) -> returns_from P (m ≫= f).
Proof.
  intros Hm Hf s Hs. destruct (Hm s Hs) as (a & s1 & E & Hs1).
  destruct (Hf a s1 Hs1) as (b & s2 & E2).
  exists b, s2. unfold mbind, M_bind. rewrite E. exact E2.
Qed.

Lemma takes_writes_only {A : Type} o fsys k (m : M A) :
  writes_only m -> takes (in_run_with o fsys k) (in_run_with o fsys k) m.
Proof.
  intros Hm s [[Hf Hs] Hmem]. destruct (Hm s) as (a & items & E).
  exists a, (advance items [] [] s). split; [exact E|].
  split; [split|]; [rewrite advance_files|rewrite advance_file_system
                   |rewrite advance_written]; assumption.
Qed.

Lemma takes_output_sub_init_functions o fsys purpose k :
  forallb (file_returns o (run_file_system o fsys)) (run_files o fsys) = true ->
  takes
    (in_run_with o fsys
       (pass_mallocs o (run_file_system o fsys) (run_files o fsys) + k))
    (in_run_with o fsys k) (output_sub_init_functions o purpose).
Proof.
  intros Hret s [[Hf Hs] Hmem].
  apply mallocs_succeed_split in Hmem. destruct Hmem as [Hmem1 Hmem2].
  rewrite output_sub_init_functions_advance by (rewrite Hf, Hs; assumption).
  eexists _, _. split; [reflexivity|].
  split; [split|]; [rewrite advance_files|rewrite advance_file_system|]; try assumption.
  rewrite advance_malloc_left, Hf, Hs. exact Hmem2.
Qed.

Lemma writes_only_output_main_init_function purpose num_bunches :
  writes_only (output_main_init_function purpose num_bunches).
Proof.
  intros s. exists tt, (main_init_items purpose num_bunches).
  apply output_main_init_function_advance.
Qed.

Lemma main_end_returns o s : exists status s', main_end o s = Returns status s'.
Proof.
  unfold main_end. unfold mbind at 1, M_bind at 1, get_state at 1.
  destruct (0 <? num_errors s).
  - unfold mbind at 1, M_bind at 1. rewrite for_each_write_stdout.
    destruct (output_file_name o) as [name|];
      unfold mbind, M_bind, get_state, set_file_system, mret, M_ret; eauto.
  - unfold mret, M_ret. eauto.
Qed.

Lemma exits_safely_main_end o : exits_safely (main_end o).
Proof.
  intros s status s' H. destruct (main_end_returns o s) as (status' & s'' & E).
  rewrite E in H. discriminate H.
Qed.

(** The body of [main] is its fifteen steps, then its end. *)
Lemma main_body_end o writable :
  main_body o writable
  = (_ ← parse_options o;
     _ ← set_output_file o writable;
     _ ← do_path_search o;
     _ ← output_headers o;
     _ ← (if need_initialization_code o
          then printf ("#define MR_MAY_NEED_INITIALIZATION" +:+ nl +:+ nl) []
          else mret tt);
     num_bunches ← output_sub_init_functions o PURPOSE_INIT;
     _ ← output_main_init_function PURPOSE_INIT num_bunches;
     num_bunches ← output_sub_init_functions o PURPOSE_TYPE_TABLE;
     _ ← output_main_init_function PURPOSE_TYPE_TABLE num_bunches;
     num_bunches ← output_sub_init_functions o PURPOSE_DEBUGGER;
     _ ← output_main_init_function PURPOSE_DEBUGGER num_bunches;
     num_bunches ← output_sub_init_functions o PURPOSE_PROC_STATIC;
     _ ← output_main_init_function PURPOSE_PROC_STATIC num_bunches;
     _ ← (if aditi o then output_aditi_load_function else mret tt);
     _ ← output_main o;
     main_end o).
Proof. reflexivity. Qed.

(** The start of [main], up to [set_output_file]: with a file among the
    arguments and an output file that can be opened, it goes on with the
    files of the command line and the output file opened. *)
Lemma main_opened {B : Type} o writable fsys memory (rest : M B) :
  arg_files o <> [] ->
  (forall name, output_file_name o = Some name -> writable name = true) ->
  (_ ← parse_options o; _ ← set_output_file o writable; rest)
    (initial_state fsys memory)
  = rest {| stdout := []; stderr := []; num_errors := 0; rl_data := [];
            files := arg_files o; file_system := run_file_system o fsys;
            malloc_left := memory |}.
Proof.
  intros Hargs Hwritable.
  unfold mbind at 1, M_bind at 1. unfold parse_options.
  destruct (Z.leb_spec (Z.of_nat (length (arg_files o))) 0) as [Hlen|_].
  { destruct (arg_files o); [congruence|simpl in Hlen; lia]. }
  unfold set_files at 1. unfold mbind at 1, M_bind at 1.
  unfold set_output_file, run_file_system.
  destruct (output_file_name o) as [name|] eqn:Hname.
  - rewrite (Hwritable name eq_refl). reflexivity.
  - reflexivity.
Qed.

(** The start of [main], up to [do_path_search], with memory for the
    search. *)
Lemma main_searched {B : Type} o writable fsys memory (rest : M B) :
  arg_files o <> [] ->
  (forall name, output_file_name o = Some name -> writable name = true) ->
  mallocs_succeed (path_search_mallocs o (run_file_system o fsys) (arg_files o)) memory
  = true ->
  (_ ← parse_options o; _ ← set_output_file o writable; _ ← do_path_search o; rest)
    (initial_state fsys memory)
  = rest (searched_state o fsys memory).
Proof.
  intros Hargs Hwritable Hmem. rewrite main_opened by assumption.
  unfold mbind at 1, M_bind at 1.
  match goal with
  | |- match do_path_search o ?s with _ => _ end = _ =>
      pose proof (do_path_search_spec o s) as Hsearch
  end.
  cbn [files file_system malloc_left] in Hsearch. rewrite Hmem in Hsearch.
  rewrite Hsearch. reflexivity.
Qed.

Lemma in_run_searched_state o fsys memory k :
  mallocs_succeed
    (path_search_mallocs o (run_file_system o fsys) (arg_files o) + k) memory = true ->
  in_run_with o fsys k (searched_state o fsys memory).
Proof.
  intros Hmem. apply mallocs_succeed_split in Hmem.
  split; [split; reflexivity|]. exact (proj2 Hmem).
Qed.

Lemma main_returns o writable fsys memory :
  arg_files o <> [] ->
  (forall name, output_file_name o = Some name -> writable name = true) ->
  forallb (file_returns o (run_file_system o fsys)) (run_files o fsys) = true ->
  mallocs_succeed (main_mallocs o fsys) memory = true ->
  exists status s, main o writable fsys memory = Returns status s.
Proof.
  intros Hargs Hwritable Hret Hmem. unfold main. rewrite main_body_end.
  unfold main_mallocs in Hmem.
  rewrite main_searched
    by (try assumption; apply mallocs_succeed_split in Hmem; tauto).
  apply in_run_searched_state in Hmem.
  set (pass := pass_mallocs o (run_file_system o fsys) (run_files o fsys)) in *.
  change (4 * pass)%nat with (pass + (pass + (pass + (pass + 0))))%nat in Hmem.
  revert Hmem. generalize (searched_state o fsys memory).
  match goal with
  | |- forall s, ?P s -> exists status s', ?m s = _ => change (returns_from P m)
  end.
  do 12 (eapply returns_from_takes;
           [first [ apply takes_output_sub_init_functions; exact Hret
                  | apply takes_writes_only;
                    first [ apply writes_only_output_headers
                          | apply writes_only_output_main_init_function
                          | apply writes_only_output_main
                          | apply writes_only_if;
                            [apply writes_only_output_aditi_load_function
                            |apply writes_only_ret]
                          | solve [auto with writes] ] ]
           |intros ?]).
  intros s _. apply main_end_returns.
Qed.

(** When [main] exits, it is with EXIT_FAILURE, and with the files as
    they were at its start or, from [set_output_file] on, with the output
    file opened. *)
Lemma main_exits o writable fsys memory status s :
  main o writable fsys memory = Exits status s ->
  status = EXIT_FAILURE /\
  (arg_files o <> [] ->
   (forall name, output_file_name o = Some name -> writable name = true) ->
   file_system s = run_file_system o fsys).
Proof.
  unfold main. rewrite main_body_end.
  assert (Hrest : forall (s1 : state),
            file_system s1 = run_file_system o fsys ->
            forall B (rest : M B), exits_safely rest ->
              (_ ← do_path_search o; rest) s1 = Exits status s ->
              status = EXIT_FAILURE /\ file_system s = run_file_system o fsys).
  { intros s1 Hs1 B rest Hrest H.
    apply (exits_safely_bind _ _ (leaves_files_do_path_search o) (fun _ => Hrest)) in H.
    destruct H as [-> H]. split; [reflexivity|congruence]. }
  unfold mbind at 1, M_bind at 1. unfold parse_options.
  destruct (Z.leb_spec (Z.of_nat (length (arg_files o))) 0) as [Hlen|_].
  { unfold usage, mbind, M_bind, fprintf_stderr, write_stderr, exit.
    intros H. injection H as <- <-. split; [reflexivity|]. intros Hargs.
    destruct (arg_files o); [congruence|simpl in Hlen; lia]. }
  unfold set_files at 1. unfold mbind at 1, M_bind at 1.
  assert (Htail :
            exits_safely
              (_ ← output_headers o;
               _ ← (if need_initialization_code o
                    then printf ("#define MR_MAY_NEED_INITIALIZATION" +:+ nl +:+ nl) []
                    else mret tt);
               num_bunches ← output_sub_init_functions o PURPOSE_INIT;
               _ ← output_main_init_function PURPOSE_INIT num_bunches;
               num_bunches ← output_sub_init_functions o PURPOSE_TYPE_TABLE;
               _ ← output_main_init_function PURPOSE_TYPE_TABLE num_bunches;
               num_bunches ← output_sub_init_functions o PURPOSE_DEBUGGER;
               _ ← output_main_init_function PURPOSE_DEBUGGER num_bunches;
               num_bunches ← output_sub_init_functions o PURPOSE_PROC_STATIC;
               _ ← output_main_init_function PURPOSE_PROC_STATIC num_bunches;
               _ ← (if aditi o then output_aditi_load_function else mret tt);
               _ ← output_main o;
               main_end o)).
  { do 12 (apply exits_safely_bind;
             [first [ apply leaves_files_output_sub_init_functions
                    | apply leaves_files_writes_only;
                      first [ apply writes_only_output_headers
                            | apply writes_only_output_main_init_function
                            | apply writes_only_output_main
                            | apply writes_only_if;
                              [apply writes_only_output_aditi_load_function
                              |apply writes_only_ret]
                            | solve [auto with writes] ] ]
             |intros ?]).
    apply exits_safely_main_end. }
  unfold set_output_file, run_file_system in *.
  destruct (output_file_name o) as [name|] eqn:Hname.
  - destruct (writable name) eqn:Hw.
    + unfold mbind at 1, M_bind at 1, get_state at 1, set_file_system at 1.
      intros H. eapply Hrest in H; [tauto|reflexivity|exact Htail].
    + unfold mbind, M_bind, fprintf_stderr, write_stderr, exit.
      intros H. injection H as <- <-. split; [reflexivity|].
      intros _ Hwritable. rewrite (Hwritable name eq_refl) in Hw. discriminate Hw.
  - unfold mret at 1, M_ret at 1.
    intros H. eapply Hrest in H; [tauto|reflexivity|exact Htail].
Qed.

(** C9: [main] returns on the runs with at least one file argument, a
    writable output file (when [-o] names one), no file whose processing
    exits or overruns an array, and memory for every call of [malloc];
    and when it returns, it returns EXIT_SUCCESS if and only if
    [num_errors] is 0, which is when every input file was processed
    without error: each file that cannot be opened as an init file, or
    whose name ends in neither [.c] nor [.init], is counted once in each
    of the four passes. With an error, a [main] that returns returns
    EXIT_FAILURE, the generated output ends in the three lines with the
    [#error] directive, and the file named by [-o] has been removed;
    without one, that file holds the output. A run can also end in
    [exit], called by [process_c_file], by [checked_malloc], by
    [set_output_file] or by [usage]: the status is EXIT_FAILURE then
    too, but [main] does not get to its end, and the file named by
    [-o], once opened, is left with what was written. *)
Theorem main_error_atomicity (o : options) (writable : string -> bool)
    (fsys : gmap string file) (memory : option nat) :
  (arg_files o <> [] ->
   (forall name, output_file_name o = Some name -> writable name = true) ->
   forallb (file_returns o (run_file_system o fsys)) (run_files o fsys) = true ->
   mallocs_succeed (main_mallocs o fsys) memory = true ->
   exists status s, main o writable fsys memory = Returns status s) /\
  (forall status s,
   main o writable fsys memory = Returns status s ->
   (status = EXIT_SUCCESS <-> num_errors s = 0) /\
   (status = EXIT_SUCCESS \/ status = EXIT_FAILURE) /\
   (num_errors s = 0 <->
      forallb (file_processed o (run_file_system o fsys)) (run_files o fsys) = true) /\
   (num_errors s
    = 4 * Z.of_nat (length (files_errors o (run_file_system o fsys) (run_files o fsys)))) /\
   (status = EXIT_FAILURE ->
      (exists out,
         stdout s
         = out ++ [Fputs (Lit ("/* Force syntax error, since there were */" +:+ nl));
                   Fputs (Lit ("/* errors in the generation of this file */" +:+ nl));
                   Fputs (Lit ("#error " +:+ dquote +:+ "You need to remake this file"
                                 +:+ dquote +:+ nl))]) /\
      forall name, output_file_name o = Some name -> file_system s !! name = None) /\
   (status = EXIT_SUCCESS ->
      forall name, output_file_name o = Some name ->
        file_system s !! name = Some Stdout_target)) /\
  (forall status s,
   main o writable fsys memory = Exits status s ->
   status = EXIT_FAILURE /\
   forall name, output_file_name o = Some name ->
     arg_files o <> [] -> writable name = true ->
     file_system s !! name = Some Stdout_target).
Proof.
  split; [apply main_returns|]. split.
  2:{ intros status s Hexit. pose proof (main_exits _ _ _ _ _ _ Hexit) as [Hstatus Hfs].
      split; [exact Hstatus|]. intros name Hname Hargs Hw.
      rewrite Hfs; [|exact Hargs|intros name' Hname'; congruence].
      unfold run_file_system. rewrite Hname. apply lookup_insert_eq. }
  intros status s.
  unfold main. rewrite main_body_end. intros Hmain.
  unfold mbind, M_bind in Hmain.
  repeat match type of Hmain with
         | match ?m with _ => _ end = _ =>
             let E := fresh "E" in
             destruct m as [? ?| |] eqn:E; [|discriminate Hmain|discriminate Hmain]
         end.
  apply parse_options_frame in E. destruct E as (Hf0 & Hs0 & Hn0).
  apply set_output_file_frame in E0. destruct E0 as (Hf1 & Hs1 & Hn1).
  apply do_path_search_frame in E1. destruct E1 as (Hf2 & Hs2 & Hn2).
  apply (writes_only_frame _ _ _ _ (writes_only_output_headers o)) in E2.
  destruct E2 as (Hn3 & Hf3 & Hs3 & _).
  apply writes_only_frame in E3; [|auto with writes].
  destruct E3 as (Hn4 & Hf4 & Hs4 & _).
  apply output_sub_init_functions_frame in E4. destruct E4 as (Hn5 & Hf5 & Hs5).
  apply output_main_init_function_frame in E5. destruct E5 as (Hn6 & Hf6 & Hs6).
  apply output_sub_init_functions_frame in E6. destruct E6 as (Hn7 & Hf7 & Hs7).
  apply output_main_init_function_frame in E7. destruct E7 as (Hn8 & Hf8 & Hs8).
  pose proof (proj1 (output_sub_init_functions_returns _ _ _ _ _ E8)) as Hret.
  apply output_sub_init_functions_frame in E8. destruct E8 as (Hn9 & Hf9 & Hs9).
  apply output_main_init_function_frame in E9. destruct E9 as (Hn10 & Hf10 & Hs10).
  apply output_sub_init_functions_frame in E10. destruct E10 as (Hn11 & Hf11 & Hs11).
  apply output_main_init_function_frame in E11. destruct E11 as (Hn12 & Hf12 & Hs12).
  apply writes_only_frame in E12;
    [|apply writes_only_if;
      [apply writes_only_output_aditi_load_function|apply writes_only_ret]].
  destruct E12 as (Hn13 & Hf13 & Hs13 & _).
  apply (writes_only_frame _ _ _ _ (writes_only_output_main o)) in E13.
  destruct E13 as (Hn14 & Hf14 & Hs14 & _).
  assert (Hfsys : forall t, file_system t = file_system s2 ->
                            file_system t = run_file_system o fsys).
  { intros t ->. rewrite Hs2, Hs1, Hs0. reflexivity. }
  assert (Hfiles : forall t, files t = files s2 -> file_system t = file_system s2 ->
                             files t = run_files o fsys).
  { intros t -> _. rewrite Hf2, Hf1, Hf0, Hs1, Hs0. reflexivity. }
  assert (Hs4' : file_system s4 = run_file_system o fsys) by (apply Hfsys; congruence).
  assert (Hs6' : file_system s6 = run_file_system o fsys) by (apply Hfsys; congruence).
  assert (Hs8' : file_system s8 = run_file_system o fsys) by (apply Hfsys; congruence).
  assert (Hs10' : file_system s10 = run_file_system o fsys) by (apply Hfsys; congruence).
  assert (Hs14' : file_system s14 = run_file_system o fsys) by (apply Hfsys; congruence).
  assert (Hf4' : files s4 = run_files o fsys) by (apply Hfiles; congruence).
  assert (Hf6' : files s6 = run_files o fsys) by (apply Hfiles; congruence).
  assert (Hf8' : files s8 = run_files o fsys) by (apply Hfiles; congruence).
  assert (Hf10' : files s10 = run_files o fsys) by (apply Hfiles; congruence).
  rewrite Hs4', Hf4' in Hn5. rewrite Hs6', Hf6' in Hn7.
  rewrite Hs8', Hf8' in Hn9, Hret. rewrite Hs10', Hf10' in Hn11.
  set (errors := files_errors o (run_file_system o fsys) (run_files o fsys)) in *.
  assert (Hcount : num_errors s14 = 4 * Z.of_nat (length errors)).
  { change (num_errors (initial_state fsys memory)) with 0 in Hn0. lia. }
  apply main_end_spec in Hmain. destruct Hmain as (Hnum & Hok & Herr).
  pose proof (files_errors_none _ _ _ Hret) as Hnone. fold errors in Hnone.
  assert (Hcases : num_errors s14 <= 0 \/ 0 < num_errors s14) by lia.
  rewrite Hnum. unfold EXIT_SUCCESS, EXIT_FAILURE in *.
  destruct Hcases as [Hle|Hlt].
  - destruct (Hok Hle) as [-> ->].
    split; [split; [lia|reflexivity]|]. split; [left; reflexivity|].
    split; [rewrite <- Hnone; lia|]. split; [exact Hcount|].
    split; [discriminate|]. intros _ name Hname.
    rewrite Hs14'. unfold run_file_system. rewrite Hname. apply lookup_insert_eq.
  - destruct (Herr Hlt) as (-> & Hout & Hdel).
    split; [split; [discriminate|lia]|]. split; [right; reflexivity|].
    split; [rewrite <- Hnone; lia|]. split; [exact Hcount|].
    split; [|discriminate]. intros _. split; [exists (stdout s14); exact Hout|].
    intros name Hname. rewrite (Hdel name Hname). apply lookup_delete_eq.
Qed.

(** The run of the example with one more argument, [bad.txt]: four
    errors, one in each pass, and no output file left. *)
Lemma main_error_atomicity_witness :
  exists status s,
    main example_options_bad (fun _ => true) example_file_system None
    = Returns status s /\
    status = EXIT_FAILURE /\ num_errors s = 4 /\
    file_system s !! "out_init.c" = None.
Proof.
  destruct (main_error_atomicity example_options_bad (fun _ => true) example_file_system
              None)
    as (Hreturns & Hstatus & _).
  destruct Hreturns as (status & s & Hmain).
  { discriminate. }
  { reflexivity. }
  { vm_compute. reflexivity. }
  { reflexivity. }
  destruct (Hstatus status s Hmain) as (Hzero & Hcases & _ & Hcount & Hfail & _).
  assert (Herrors : num_errors s = 4) by (rewrite Hcount; vm_compute; reflexivity).
  assert (Hfailure : status = EXIT_FAILURE).
  { destruct Hcases as [Hok|Hko]; [|exact Hko].
    apply Hzero in Hok. rewrite Herrors in Hok. discriminate Hok. }
  exists status, s. split; [exact Hmain|]. split; [exact Hfailure|].
  split; [exact Herrors|]. apply (Hfail Hfailure). reflexivity.
Defined.

(** A run with an error that does not get to the end of [main]:
    [mkinit -c 2 -o out_init.c bad.txt x-y.c]. In the first pass
    [bad.txt] is counted as an error, then [process_c_file] calls [exit]
    on [x-y.c]: the status is EXIT_FAILURE, but none of the three lines
    with the [#error] directive has been written, and [out_init.c] has
    not been removed. *)
Lemma main_exit_keeps_output :
  exists s,
    main example_options_exit (fun _ => true) example_file_system None
    = Exits EXIT_FAILURE s /\
    num_errors s = 1 /\
    Forall (fun item => ~ In item error_trailer) (stdout s) /\
    file_system s !! "out_init.c" = Some Stdout_target.
Proof.
  eexists. split; [vm_compute; reflexivity|].
  split; [reflexivity|]. split.
  - repeat (apply Forall_cons; split; [simpl; intuition discriminate|]).
    apply Forall_nil_2.
  - vm_compute. reflexivity.
Qed.

(** C7: on every purpose and every list of files whose processing
    returns, with memory for the calls of [malloc] of the pass,
    [output_sub_init_functions] returns, having emitted one call
    for each module entry point, in the order of the files on the command
    line and of the lines of each init file, but for PURPOSE_DEBUGGER
    none for the special modules; the calls are split, in that order,
    over the bunch functions 0 to [num_bunches]; when [maxcalls] is at
    least 1, no bunch holds more than [maxcalls] calls and each bunch
    before the last holds exactly [maxcalls], a call that finds the bunch
    full opening the next one; and the main function of the purpose calls
    the bunch functions 0 to [num_bunches], each once, so that each call
    emitted is run once. *)
Theorem init_call_batching (o : options) (purpose : Purpose) (s : state) :
  forallb (file_returns o (file_system s)) (files s) = true ->
  mallocs_succeed (pass_mallocs o (file_system s) (files s)) (malloc_left s) = true ->
  exists num_bunches out s',
    output_sub_init_functions o purpose s = Returns num_bunches s' /\
    stdout s' = stdout s ++ out /\
    called_functions out
      = call_name purpose
          <$> filter (fun e => called_for purpose e = true)
                (entry_points o (file_system s) (files s)) /\
    (purpose <> PURPOSE_DEBUGGER ->
       called_functions out
         = call_name purpose <$> entry_points o (file_system s) (files s)) /\
    (bunches out).*1 = seqZ 0 (num_bunches + 1) /\
    concat (bunches out).*2 = called_functions out /\
    (1 <= maxcalls o ->
       Forall (fun b => Z.of_nat (length b.2) <= maxcalls o) (bunches out) /\
       forall (i : nat) b, bunches out !! i = Some b ->
         (S i < length (bunches out))%nat -> Z.of_nat (length b.2) = maxcalls o) /\
    forall s1, exists out1 s2,
      output_main_init_function purpose num_bunches s1 = Returns tt s2 /\
      stdout s2 = stdout s1 ++ out1 /\
      bunches_called out1 = (bunches out).*1 /\
      NoDup (bunches_called out1).
Proof.
  intros Hret Hmem.
  rewrite (output_sub_init_functions_advance o purpose s Hret Hmem).
  set (actions := files_actions o (file_system s) (files s)).
  set (calls := actions_calls purpose actions).
  set (out := sub_init_prelude purpose ++ (actions_items o purpose actions 0 0).1
                ++ sub_init_postlude purpose).
  assert (Hcalled : called_functions out = calls)
    by apply called_functions_sub_init.
  assert (Hbunches : bunches out
            = numbered 0 ((batch (maxcalls o) calls 0).1 :: (batch (maxcalls o) calls 0).2))
    by apply bunches_sub_init.
  destruct (actions_items_bunches o purpose actions 0 0 []) as [_ Hnb].
  fold calls in Hnb.
  pose proof (batch_concat (maxcalls o) calls 0) as Hconcat.
  eexists _, out, _. split; [reflexivity|].
  split; [reflexivity|].
  assert (Hentries : calls = call_name purpose
            <$> filter (fun e => called_for purpose e = true)
                  (entry_points o (file_system s) (files s))).
  { unfold calls, actions_calls, actions. rewrite entry_points_actions. reflexivity. }
  split; [rewrite Hcalled; exact Hentries|].
  split.
  { intros Hpurpose. rewrite Hcalled, Hentries.
    rewrite filter_all; [reflexivity|].
    intros e. apply called_for_not_debugger, Hpurpose. }
  split.
  { rewrite Hbunches, numbered_fst, Hnb. simpl length. f_equal. lia. }
  split.
  { rewrite Hbunches, numbered_snd, Hcalled. simpl. exact Hconcat. }
  split.
  { intros Hmax.
    destruct (batch_sizes (maxcalls o) calls 0 Hmax ltac:(lia))
      as (Hcur & Hlater & Hfull & Hfull').
    assert (Hsnd : forall (i : nat) b, bunches out !! i = Some b ->
              ((batch (maxcalls o) calls 0).1 :: (batch (maxcalls o) calls 0).2) !! i
              = Some b.2).
    { intros i b Hb. rewrite <- (numbered_snd 0 (_ :: _)), <- Hbunches.
      rewrite list_lookup_fmap, Hb. reflexivity. }
    assert (Hlen : length (bunches out)
                   = S (length (batch (maxcalls o) calls 0).2)).
    { rewrite <- (length_fmap snd), Hbunches, numbered_snd. reflexivity. }
    split.
    - apply Forall_lookup. intros i b Hb. specialize (Hsnd i b Hb).
      destruct i as [|i]; simpl in Hsnd.
      + injection Hsnd as <-. lia.
      + rewrite Forall_lookup in Hlater. specialize (Hlater i _ Hsnd). simpl in Hlater. lia.
    - intros i b Hb Hlast. specialize (Hsnd i b Hb). rewrite Hlen in Hlast.
      destruct i as [|i]; simpl in Hsnd.
      + injection Hsnd as <-.
        assert ((batch (maxcalls o) calls 0).2 <> [])
          by (destruct (batch (maxcalls o) calls 0).2; simpl in *; [lia|congruence]).
        specialize (Hfull H). lia.
      + apply (Hfull' i _ Hsnd). lia. }
  intros s1. eexists (main_init_items purpose _), _.
  split; [apply output_main_init_function_advance|].
  split; [reflexivity|].
  rewrite bunches_called_main_init. split.
  - rewrite Hbunches, numbered_fst, Hnb. simpl length. f_equal. lia.
  - apply NoDup_seqZ.
Qed.

(** The first pass of the example: four calls in two bunches of two. *)
Lemma init_call_batching_witness :
  exists num_bunches out s',
    output_sub_init_functions example_options PURPOSE_INIT example_state
    = Returns num_bunches s' /\
    stdout s' = stdout example_state ++ out /\
    num_bunches = 1 /\
    bunches out
    = [(0, ["mercury__a__b__init"; "mercury__foo__init"]);
       (1, ["mercury_sys_init_x_init"; "mercury__x__init"])].
Proof.
  destruct (init_call_batching example_options PURPOSE_INIT example_state)
    as (num_bunches & out & s' & Hrun & Hout & _).
  { vm_compute. reflexivity. }
  { reflexivity. }
  exists num_bunches, out, s'. split; [exact Hrun|]. split; [exact Hout|].
  change (stdout example_state ++ out) with out in Hout. subst out.
  split.
  - change (match Returns num_bunches s' with
            | Returns a _ => a
            | _ => 0
            end = 1).
    rewrite <- Hrun. vm_compute. reflexivity.
  - change (bunches match Returns num_bunches s' with
                    | Returns _ s => stdout s
                    | _ => []
                    end = [(0, ["mercury__a__b__init"; "mercury__foo__init"]);
                           (1, ["mercury_sys_init_x_init"; "mercury__x__init"])]).
    rewrite <- Hrun. vm_compute. reflexivity.
Defined.

(** Two runs on which the calls are not one per entry point in bunches
    of at most [maxcalls]: for PURPOSE_DEBUGGER the special module of
    the init file, the third of the four entry points, gets no call; and
    with [-c 0] each bunch after the first holds one call. *)
Lemma init_call_batching_exceptions :
  (exists num_bunches s',
     output_sub_init_functions example_options PURPOSE_DEBUGGER example_state
     = Returns num_bunches s' /\
     entry_points example_options example_file_system (files example_state)
     = [("mercury__a__b__", false); ("mercury__foo__", false);
        ("mercury_sys_init_x", true); ("mercury__x__", false)] /\
     called_functions (stdout s')
     = ["mercury__a__b__init_debugger"; "mercury__foo__init_debugger";
        "mercury__x__init_debugger"] /\
     called_functions (stdout s')
     <> call_name PURPOSE_DEBUGGER
          <$> entry_points example_options example_file_system (files example_state)) /\
  (exists num_bunches s',
     output_sub_init_functions (with_maxcalls example_options 0) PURPOSE_INIT
       example_state
     = Returns num_bunches s' /\
     maxcalls (with_maxcalls example_options 0) = 0 /\
     bunches (stdout s')
     = [(0, []); (1, ["mercury__a__b__init"]); (2, ["mercury__foo__init"]);
        (3, ["mercury_sys_init_x_init"]); (4, ["mercury__x__init"])]).
Proof.
  split.
  - eexists _, _. split; [vm_compute; reflexivity|].
    split; [vm_compute; reflexivity|]. split; [vm_compute; reflexivity|].
    vm_compute. discriminate.
  - eexists _, _. split; [vm_compute; reflexivity|].
    split; vm_compute; reflexivity.
Qed.
(** *** Running out of memory *)

Lemma exit_state_out_of_memory {A : Type} k s :
  mallocs_succeed k (malloc_left s) = false ->
  out_of_memory_exit (A := A) s
    (Exits EXIT_FAILURE (exit_state [out_of_memory] (spend k s))).
Proof.
  intros H. eexists. split; [reflexivity|].
  unfold exit_state, spend. simpl. repeat split.
  destruct (malloc_left s) as [n|]; [|discriminate H].
  simpl in H. apply Nat.leb_gt in H. rewrite consume_Some. f_equal. lia.
Qed.

Lemma out_of_memory_exit_advance {A : Type} out rl s (r : outcome A) :
  out_of_memory_exit (advance out [] rl s) r -> out_of_memory_exit s r.
Proof.
  intros (s' & -> & Herr & Hnum & Hfs & Hleft). exists s'.
  unfold advance in *. simpl in *. rewrite app_nil_r in Herr.
  repeat split; try assumption. lia.
Qed.

(** Actions that stay inside the arrays end in a return or, when
    [malloc] fails for an Aditi-RL name, in the exit of
    [checked_malloc]. *)
Lemma run_actions_out_of_memory o purpose actions : forall nb nc s,
  forallb defined_action actions = true ->
  mallocs_succeed (2 * length (actions_rl_data actions)) (malloc_left s) = false ->
  out_of_memory_exit s (run_actions o purpose actions nb nc s).
Proof.
  induction actions as [|a actions IH]; intros nb nc s Hdef Hmem.
  { rewrite mallocs_succeed_0 in Hmem. discriminate Hmem. }
  simpl in Hdef. apply andb_true_iff in Hdef. destruct Hdef as [Ha Hdef].
  destruct a as [func_name special| name | | | |]; try discriminate Ha;
    cbn [actions_rl_data] in Hmem; simpl run_actions.
  - unfold mbind, M_bind. rewrite output_init_function_items.
    destruct (call_items o purpose nb nc func_name special) as [items [nb' nc']].
    simpl. eapply out_of_memory_exit_advance. apply IH; [exact Hdef|exact Hmem].
  - rewrite aditi_data_bind. rewrite length_app in Hmem.
    replace (2 * (length (actions_rl_data actions) + length [name]))%nat
      with (2 + 2 * length (actions_rl_data actions))%nat in Hmem by (simpl; lia).
    rewrite mallocs_succeed_add in Hmem.
    destruct (mallocs_succeed 2 (malloc_left s)) eqn:E.
    + eapply out_of_memory_exit_advance. apply IH; [exact Hdef|exact Hmem].
    + apply exit_state_out_of_memory, E.
  - apply IH; assumption.
  - apply IH; assumption.
Qed.

(** *** The loop of [process_init_file] *)

(** Without [-a], no line gives an Aditi-RL name. *)
Lemma parse_init_line_no_aditi line name :
  (parse_init_line false line).2 <> Aditi_data name.
Proof.
  unfold parse_init_line.
  destruct (strncmp_eq (c_str line) init_str (strlen init_str)).
  - destruct (store line _ NUL) as [line1|]; [|discriminate].
    destruct (strncmp_eq _ "init" 4); [|discriminate].
    destruct (store line1 _ NUL); discriminate.
  - simpl andb. cbv iota.
    destruct (strncmp_eq (c_str line) endinit_str (strlen endinit_str)); discriminate.
Qed.

Lemma init_file_actions_no_aditi cfile line :
  actions_rl_data (init_file_actions false cfile line) = [].
Proof.
  remember (length cfile) as k eqn:Hk. revert cfile line Hk.
  induction k as [k IH] using lt_wf_ind. intros cfile line ->.
  destruct (get_line cfile line MAXLINE) as [[[n line'] cfile']|] eqn:Hget.
  - destruct (0 <? n) eqn:Hpos.
    + rewrite (init_file_actions_step _ _ _ _ _ _ Hget Hpos).
      pose proof (parse_init_line_no_aditi line') as Hno.
      destruct (parse_init_line false line') as [line'' action]. simpl in Hno.
      assert (Hrec : actions_rl_data (init_file_actions false cfile' line'') = []).
      { eapply IH; [|reflexivity].
        apply (get_line_consumes cfile line MAXLINE n line'); [exact Hget|lia]. }
      destruct action as [func_name special| name | | | |]; simpl;
        try reflexivity; try exact Hrec.
      destruct (Hno name eq_refl).
    + rewrite (init_file_actions_eof _ _ _ _ _ _ Hget Hpos). reflexivity.
  - rewrite (init_file_actions_undefined _ _ _ Hget). reflexivity.
Qed.

(** X9: [process_init_file] never overruns [line]: every store it makes
    into it, through [get_line] or when it ends a name with a NUL, is
    inside the array, whatever the file holds. Its only call of [exit]
    is the one of [checked_malloc]: with memory for two calls of
    [malloc] for each Aditi-RL name of the file, it returns, and else it
    writes [Out of memory] and exits with EXIT_FAILURE. There is no such
    name without [-a] or in a file that cannot be opened. When it
    returns, it has left the files as they are and put the names before
    those of [rl_data]; a file that cannot be opened costs one message
    on [stderr] and one error, with nothing written to [stdout] and the
    bunch counters as they were. *)
Theorem process_init_file_returns (o : options) (filename : string) (nb nc : Z)
    (purpose : Purpose) (s : state) :
  (aditi o = false -> init_file_names o (file_system s) filename = []) /\
  (fopen_r (file_system s) filename = None ->
     init_file_names o (file_system s) filename = []) /\
  if mallocs_succeed (2 * length (init_file_names o (file_system s) filename))
       (malloc_left s)
  then
    exists counters s',
      process_init_file o filename nb nc purpose s = Returns counters s' /\
      files s' = files s /\ file_system s' = file_system s /\
      rl_data s' = init_file_names o (file_system s) filename ++ rl_data s /\
      (exists out, stdout s' = stdout s ++ out) /\
      (fopen_r (file_system s) filename <> None ->
         stderr s' = stderr s /\ num_errors s' = num_errors s) /\
      (fopen_r (file_system s) filename = None ->
         counters = (nb, nc) /\ stdout s' = stdout s /\ rl_data s' = rl_data s /\
         num_errors s' = num_errors s + 1 /\
         stderr s'
         = stderr s ++ [Printf (Lit ("%s: error opening file `%s': %s" +:+ nl))
                          [A_str (MR_progname o); A_str filename; A_strerror]])
  else out_of_memory_exit s (process_init_file o filename nb nc purpose s).
Proof.
  split; [|split].
  - intros Haditi. unfold init_file_names, init_file_plan.
    destruct (fopen_r (file_system s) filename) as [cfile|]; [|reflexivity].
    simpl. rewrite Haditi. apply init_file_actions_no_aditi.
  - intros Hopen. unfold init_file_names, init_file_plan. rewrite Hopen. reflexivity.
  - rewrite process_init_file_plan. unfold init_file_names.
    pose proof (init_file_plan_returns o (file_system s) filename) as Hplan.
    destruct (mallocs_succeed _ (malloc_left s)) eqn:Hmem.
    + rewrite run_plan_advance by assumption.
      eexists _, _. split; [reflexivity|].
      rewrite advance_files, advance_file_system.
      split; [reflexivity|]. split; [reflexivity|]. split; [reflexivity|].
      split; [unfold advance; simpl; eauto|].
      unfold init_file_plan.
      destruct (fopen_r (file_system s) filename) as [cfile|]; simpl.
      * split; [|intros H; discriminate H]. intros _.
        unfold advance. simpl. rewrite app_nil_r. split; [reflexivity|lia].
      * split; [intros H; contradiction H; reflexivity|]. intros _.
        unfold advance. simpl. rewrite app_nil_r.
        repeat split; reflexivity.
    + destruct (init_file_plan o (file_system s) filename)
        as [actions|message|messages status]; simpl in *.
      * apply run_actions_out_of_memory; assumption.
      * rewrite mallocs_succeed_0 in Hmem. discriminate Hmem.
      * discriminate Hplan.
Qed.

Lemma line_terminated_app before rest :
  line_terminated before = true ->
  line_terminated (before ++ rest) = true /\
  input_line (before ++ rest) = input_line before /\
  after_input_line (before ++ rest) = after_input_line before ++ rest.
Proof.
  induction before as [|c before IH]; simpl; [discriminate|].
  destruct (Ascii.eqb c newline); [intros _; repeat split|].
  intros H. destruct (IH H) as (H1 & H2 & H3). rewrite H2. repeat split; assumption.
Qed.

Lemma line_terminated_newline l rest :
  newline ∉ l ->
  line_terminated (l ++ newline :: rest) = true /\
  input_line (l ++ newline :: rest) = l /\
  after_input_line (l ++ newline :: rest) = rest.
Proof.
  induction l as [|c l IH]; simpl; intros Hnot.
  - rewrite ?Ascii.eqb_refl. repeat split.
  - destruct (Ascii.eqb_spec c newline) as [->|Hc].
    + exfalso. apply Hnot. left.
    + destruct IH as (H1 & H2 & H3); [intros Hin; apply Hnot; right; exact Hin|].
      rewrite H2. repeat split; assumption.
Qed.

Lemma whole_lines_terminated before :
  whole_lines before -> before <> [] ->
  line_terminated before = true /\ whole_lines (after_input_line before).
Proof.
  intros [->|[l' ->]] Hne; [contradiction|]. clear Hne.
  induction l' as [|c l' IH]; simpl.
  - rewrite ?Ascii.eqb_refl. split; [reflexivity|left; reflexivity].
  - destruct (Ascii.eqb c newline).
    + split; [reflexivity|]. right. exists l'. reflexivity.
    + exact IH.
Qed.

(** Reading a line that a newline ends does not depend on what follows
    the line. *)
Lemma get_line_terminated_app before line :
  line_terminated before = true -> Z.of_nat (length line) = MAXLINE ->
  exists n line',
    0 < n /\ length line' = length line /\
    line' !! Z.to_nat n = Some NUL /\ n <= MAXLINE - 1 /\
    take (Z.to_nat n) line'
    = take (Z.to_nat (MAXLINE - 2)) (input_line before) ++ [newline] /\
    forall rest,
      get_line (before ++ rest) line MAXLINE
      = Some (n, line', after_input_line before ++ rest).
Proof.
  intros Hterm Hline.
  destruct (get_line_terminated before line MAXLINE) as (n & line' & Hget & Hlen & Hn & Hnul);
    [unfold MAXLINE; lia|exact Hline|].
  pose proof (get_line_spec before line MAXLINE ltac:(unfold MAXLINE in *; lia)) as Hspec.
  rewrite Hspec in Hget. unfold newline_added in Hget. rewrite Hterm in Hget.
  simpl in Hget. injection Hget as Hn' Hline'.
  exists n, line'. split; [lia|]. split; [exact Hlen|]. split; [exact Hnul|].
  split; [lia|]. split.
  - rewrite <- Hline', <- Hn'. unfold stored_line.
    replace (Z.to_nat (Z.of_nat (length (take (Z.to_nat (MAXLINE - 2)) (input_line before))) + 1))
      with (length (take (Z.to_nat (MAXLINE - 2)) (input_line before) ++ [newline]))
      by (rewrite length_app; simpl; lia).
    rewrite (cons_middle newline _ (NUL :: _)), app_assoc. apply take_app_length.
  - intros rest.
    destruct (line_terminated_app before rest Hterm) as (Hterm' & Hinput & Hafter).
    rewrite (get_line_spec (before ++ rest) line MAXLINE) by (unfold MAXLINE in *; lia).
    unfold newline_added, stored_line. rewrite Hterm', Hinput, Hafter. simpl.
    unfold stored_line in Hn', Hline'. rewrite Hn', Hline'. reflexivity.
Qed.

Lemma parse_init_line_endinit with_aditi tl :
  parse_init_line with_aditi (list_ascii_of_string "ENDINIT " ++ tl)
  = (list_ascii_of_string "ENDINIT " ++ tl, End_init).
Proof.
  unfold parse_init_line. destruct with_aditi; reflexivity.
Qed.

Lemma process_init_line_length o purpose line (n : nat) nb nc s c line'' nb' nc' s' :
  line !! n = Some NUL -> (n < length line)%nat ->
  process_init_line o purpose line nb nc s = Returns (c, line'', nb', nc') s' ->
  length line'' = length line.
Proof.
  intros Hnul Hn. rewrite process_init_line_parse.
  destruct (parse_init_line_defined (aditi o) line n Hnul Hn) as [_ Hlen].
  destruct (parse_init_line (aditi o) line) as [l a]. simpl in Hlen.
  destruct a as [func_name special|name| | | |]; simpl.
  - unfold mbind, M_bind. rewrite output_init_function_items.
    destruct (call_items o purpose nb nc func_name special) as [items [nb1 nc1]].
    simpl. intros H. injection H as _ <- _ _ _. exact Hlen.
  - rewrite aditi_data_bind. destruct (mallocs_succeed 2 (malloc_left s)); [|discriminate].
    intros H. injection H as _ <- _ _ _. exact Hlen.
  - intros H. injection H as _ <- _ _ _. exact Hlen.
  - intros H. injection H as _ <- _ _ _. exact Hlen.
  - discriminate.
  - rewrite checked_malloc_bind. destruct (mallocs_succeed 1 (malloc_left s)); discriminate.
Qed.

(** The loop ends at an [ENDINIT] line. *)
Lemma endinit_line_breaks o purpose rest after line nb nc s :
  newline ∉ rest -> Z.of_nat (length line) = MAXLINE ->
  process_init_lines o purpose
    ((list_ascii_of_string "ENDINIT " ++ rest) ++ newline :: after) line nb nc s
  = Returns (nb, nc) s.
Proof.
  intros Hrest Hline.
  assert (Hnot : newline ∉ list_ascii_of_string "ENDINIT " ++ rest).
  { intros Hin. apply elem_of_app in Hin. destruct Hin as [Hin|Hin]; [|contradiction].
    vm_compute in Hin.
    repeat (apply elem_of_cons in Hin; destruct Hin as [Hin|Hin]; [discriminate Hin|]).
    apply elem_of_nil in Hin. exact Hin. }
  destruct (line_terminated_newline _ after Hnot) as (Hterm & Hinput & Hafter).
  pose proof (get_line_spec ((list_ascii_of_string "ENDINIT " ++ rest) ++ newline :: after)
                line MAXLINE ltac:(unfold MAXLINE in *; lia)) as Hget.
  unfold newline_added, stored_line in Hget. rewrite Hterm, Hinput, Hafter in Hget.
  simpl orb in Hget. cbv iota in Hget.
  change (Z.to_nat (MAXLINE - 2)) with (length (list_ascii_of_string "ENDINIT ") + 246)%nat
    in Hget.
  rewrite take_app_add in Hget. rewrite <- !app_assoc in Hget.
  rewrite (process_init_lines_step _ _ _ _ _ _ _ _ _ _ Hget) by (apply Z.ltb_lt; lia).
  rewrite process_init_line_parse, parse_init_line_endinit. reflexivity.
Qed.

(** X10: [process_init_file] reads an init file up to its first
    [ENDINIT] line: of two streams that agree up to the end of such a
    line, the line being preceded by whole lines only, the loop over the
    lines makes the same calls and leaves the same state, whatever
    follows the line in either. *)
Theorem lines_after_endinit_ignored (o : options) (purpose : Purpose)
    (before rest after1 after2 line : list ascii) (nb nc : Z) (s : state) :
  whole_lines before -> newline ∉ rest ->
  Z.of_nat (length line) = MAXLINE ->
  process_init_lines o purpose
    (before ++ list_ascii_of_string "ENDINIT " ++ rest ++ newline :: after1)
    line nb nc s
  = process_init_lines o purpose
      (before ++ list_ascii_of_string "ENDINIT " ++ rest ++ newline :: after2)
      line nb nc s.
Proof.
  intros Hwhole Hrest. revert line nb nc s.
  remember (length before) as k eqn:Hk. revert before Hk Hwhole.
  induction k as [k IH] using lt_wf_ind.
  intros before -> Hwhole line nb nc s Hline.
  destruct (decide (before = [])) as [->|Hne].
  - rewrite !app_nil_l, !app_assoc.
    rewrite !endinit_line_breaks by assumption. reflexivity.
  - destruct (whole_lines_terminated before Hwhole Hne) as [Hterm Hwhole'].
    destruct (get_line_terminated_app before line Hterm Hline)
      as (n & line' & Hn & Hlen & Hnul & Hmax & _ & Hget).
    rewrite (process_init_lines_step _ _ _ _ _ _ _ _ _ _ (Hget _))
      by (apply Z.ltb_lt; exact Hn).
    rewrite (process_init_lines_step _ _ _ _ _ _ _ _ _ _ (Hget _))
      by (apply Z.ltb_lt; exact Hn).
    destruct (process_init_line o purpose line' nb nc s)
      as [[[[c line''] nb'] nc'] s'| |] eqn:Hstep; [|reflexivity|reflexivity].
    destruct c; [|reflexivity].
    apply (IH (length (after_input_line before))); [|reflexivity|exact Hwhole'|].
    + apply after_input_line_shorter. exact Hne.
    + rewrite (process_init_line_length _ _ _ (Z.to_nat n) _ _ _ _ _ _ _ _ Hnul
                 ltac:(unfold MAXLINE in *; lia) Hstep).
      lia.
Qed.

(** *** The names of [process_c_file] *)

Lemma strchr_split_app c rest :
  no_dot c -> strchr_split (c +:+ "." +:+ rest) "." = Some (c, rest).
Proof.
  unfold no_dot. induction c as [|a c IH]; simpl; [reflexivity|].
  destruct (Ascii.eqb a "."); [discriminate|].
  destruct (strchr_split c ".") as [[b t]|] eqn:E; [discriminate|].
  intros _. rewrite (IH eq_refl). reflexivity.
Qed.

Lemma strncmp_f_component c rest :
  no_dot c -> strncmp_eq (c +:+ "." +:+ rest) "f_" 2 = strncmp_eq c "f_" 2.
Proof.
  unfold no_dot, strncmp_eq. intros Hc.
  destruct c as [|a [|b c]]; simpl.
  - reflexivity.
  - destruct (Ascii.eqb_spec a "f"); [|reflexivity]. reflexivity.
  - reflexivity.
Qed.

Lemma append_assoc (a b c : string) : (a +:+ b) +:+ c = a +:+ (b +:+ c).
Proof.
  induction a as [|x a IH]; [reflexivity|].
  change (String x ((a +:+ b) +:+ c) = String x (a +:+ (b +:+ c))).
  f_equal. exact IH.
Qed.

Lemma append_empty_r (a : string) : a +:+ "" = a.
Proof.
  induction a as [|x a IH]; [reflexivity|].
  change (String x (a +:+ "") = String x a). f_equal. exact IH.
Qed.

Lemma mangle_loop_dotted cs ext : forall func_name,
  Forall no_dot cs -> no_dot ext ->
  mangle_loop func_name (dotted cs ext) = func_name +:+ mangled cs.
Proof.
  induction cs as [|c cs IH]; intros func_name Hcs Hext; simpl.
  - rewrite mangle_loop_done by exact Hext.
    symmetry. apply append_empty_r.
  - apply Forall_cons in Hcs. destruct Hcs as [Hc Hcs].
    rewrite (mangle_loop_step _ _ c (dotted cs ext)) by (apply strchr_split_app; exact Hc).
    rewrite strncmp_f_component by exact Hc.
    unfold mangle_component.
    destruct (strncmp_eq c "f_" 2); rewrite IH by assumption;
      rewrite !append_assoc; reflexivity.
Qed.

(** X11: for the file of the module with the name components [cs], none
    of them with a dot, [process_c_file] builds the function name
    [mercury], then for each component [__] and the component, a leading
    [f_] of a component being written [f__], then [__]; what follows
    the last dot of the file name, [c] or not, is left out. *)
Theorem c_file_func_name_dotted (cs : list string) (ext : string) :
  Forall no_dot cs -> no_dot ext ->
  c_file_func_name (dotted cs ext) = "mercury" +:+ mangled cs +:+ "__".
Proof.
  intros Hcs Hext. unfold c_file_func_name.
  rewrite (mangle_loop_dotted cs ext "mercury" Hcs Hext).
  apply append_assoc.
Qed.

Lemma strchr_split_length s c b t :
  strchr_split s c = Some (b, t) -> strlen s = strlen b + 1 + strlen t.
Proof.
  unfold strlen. revert b. induction s as [|a r IH]; intros b H; simpl in H; [discriminate|].
  destruct (Ascii.eqb a c).
  - injection H as <- <-. simpl. lia.
  - destruct (strchr_split r c) as [[b' t']|] eqn:E; simpl in H; [|discriminate].
    injection H as <- <-. specialize (IH _ eq_refl). simpl. lia.
Qed.

Lemma string_drop_length n s :
  strlen (string_drop n s) = Z.max 0 (strlen s - Z.of_nat n).
Proof.
  unfold strlen. revert s. induction n as [|n IH]; intros [|c s]; simpl; try lia.
  rewrite IH. lia.
Qed.

(** A file name that starts with [f_] has these two characters before
    its first dot. *)
Lemma f_component_length filename before after :
  strchr_split filename "." = Some (before, after) ->
  strncmp_eq filename "f_" 2 = true -> 2 <= strlen before.
Proof.
  unfold strncmp_eq, strlen. intros Hs Hf.
  destruct filename as [|a [|b r]]; simpl in Hf; try discriminate.
  - destruct (Ascii.eqb a "f"); discriminate.
  - destruct (Ascii.eqb_spec a "f") as [->|]; [|discriminate].
    destruct (Ascii.eqb_spec b "_") as [->|]; [|discriminate].
    simpl in Hs. destruct (strchr_split r ".") as [[b' t']|]; simpl in Hs; [|discriminate].
    injection Hs as <- <-. simpl. lia.
Qed.

Lemma mangle_loop_length filename : forall func_name,
  strlen (mangle_loop func_name filename) <= strlen func_name + 2 * strlen filename.
Proof.
  remember (String.length filename) as k eqn:Hk. revert filename Hk.
  induction k as [k IH] using lt_wf_ind. intros filename Hk func_name.
  destruct (strchr_split filename ".") as [[before after]|] eqn:E.
  - rewrite (mangle_loop_step _ _ _ _ E).
    pose proof (strchr_split_length _ _ _ _ E) as Hlen.
    pose proof (strchr_split_shorter _ _ _ _ E) as Hshort.
    destruct (strncmp_eq filename "f_" 2) eqn:Hf.
    + pose proof (f_component_length _ _ _ E Hf) as H2.
      etransitivity; [eapply (IH (String.length after)); [lia|reflexivity]|].
      rewrite !strlen_append, string_drop_length.
      change (strlen "__") with 2. change (strlen "f__") with 3. unfold strlen in *. lia.
    + etransitivity; [eapply (IH (String.length after)); [lia|reflexivity]|].
      rewrite !strlen_append. change (strlen "__") with 2. unfold strlen in *. lia.
  - rewrite (mangle_loop_done _ _ E). unfold strlen. lia.
Qed.

(** Without a dot in the file name, the function name is
    [mercury__]. *)
Lemma c_file_func_name_no_dot filename :
  no_dot filename -> c_file_func_name filename = "mercury__".
Proof.
  intros Hdot. unfold c_file_func_name. rewrite mangle_loop_done by exact Hdot.
  reflexivity.
Qed.

(** X12: the function name [process_c_file] builds has at most nine
    characters more than twice those of the file name without its
    directory, so for such a file name of at most 495 characters and
    without special characters [process_c_file] stays within
    [func_name[1000]]. Without [-a] it returns. With [-a] and a dot in
    the file name it returns with the Aditi-RL name of the module put
    before those of [rl_data] when there is memory for two calls of
    [malloc], and else it writes [Out of memory] and exits. With [-a]
    and no dot in the file name, [module_name_size] is -2: the buffer
    [checked_malloc] gives, when it gives one, has a byte less than
    [aditi_rl_data_str], and [strcpy] writes beyond its end. *)
Theorem process_c_file_name_fits (o : options) (filename : string) (nb nc : Z)
    (purpose : Purpose) (s : state) :
  first_special (basename filename) = None ->
  strlen (basename filename) <= 495 ->
  strlen (c_file_func_name (basename filename)) <= 2 * strlen (basename filename) + 9 /\
  (aditi o = false ->
     exists counters s',
       process_c_file o filename nb nc purpose s = Returns counters s' /\
       rl_data s' = rl_data s) /\
  (aditi o = true -> ~ no_dot (basename filename) ->
     if mallocs_succeed 2 (malloc_left s)
     then
       exists counters s',
         process_c_file o filename nb nc purpose s = Returns counters s' /\
         rl_data s'
         = (aditi_rl_data_str
              +:+ string_take
                    (Z.to_nat (strlen (c_file_func_name (basename filename)) - 9 - 2))
                    (string_drop 9 (c_file_func_name (basename filename))))
             :: rl_data s
     else out_of_memory_exit s (process_c_file o filename nb nc purpose s)) /\
  (aditi o = true -> no_dot (basename filename) ->
     strlen (c_file_func_name (basename filename)) - strlen "mercury__" - strlen "__"
     = -2 /\
     if mallocs_succeed 1 (malloc_left s)
     then process_c_file o filename nb nc purpose s = Undefined
     else out_of_memory_exit s (process_c_file o filename nb nc purpose s)).
Proof.
  intros Hspecial Hlen.
  assert (Hbound : strlen (c_file_func_name (basename filename))
                   <= 2 * strlen (basename filename) + 9).
  { unfold c_file_func_name. rewrite strlen_append.
    pose proof (mangle_loop_length (basename filename) "mercury") as H.
    change (strlen "mercury") with 7 in H. change (strlen "__") with 2. lia. }
  split; [exact Hbound|].
  assert (Hplan : c_file_plan o filename
            = Plan_actions
                (Init_call (c_file_func_name (basename filename)) false
                   :: (if aditi o then
                         if strlen (c_file_func_name (basename filename)) - 9 - 2
                              + strlen aditi_rl_data_str + 1
                            <? strlen aditi_rl_data_str + 1
                         then [Aditi_overrun]
                         else
                           [Aditi_data
                              (aditi_rl_data_str
                                 +:+ string_take
                                       (Z.to_nat
                                          (strlen (c_file_func_name (basename filename))
                                           - 9 - 2))
                                       (string_drop 9
                                          (c_file_func_name (basename filename))))]
                       else []))).
  { unfold c_file_plan. rewrite Hspecial.
    destruct (Z.leb_spec 1000 (strlen (c_file_func_name (basename filename)))); [lia|].
    reflexivity. }
  rewrite process_c_file_plan, Hplan. clear Hplan.
  change (strlen aditi_rl_data_str) with 24.
  split; [|split].
  - intros ->. rewrite run_plan_advance; [|reflexivity|apply mallocs_succeed_0].
    eexists _, _. split; [reflexivity|]. reflexivity.
  - intros -> Hdot.
    destruct (strchr_split (basename filename) ".") as [[before after]|] eqn:Hsplit;
      [|contradiction Hdot; exact Hsplit].
    assert (Hname : 11 <= strlen (c_file_func_name (basename filename))).
    { unfold c_file_func_name. rewrite strlen_append.
      pose proof (mangle_loop_dot _ "mercury" _ _ Hsplit) as H.
      change (strlen "mercury") with 7 in H. change (strlen "__") with 2. lia. }
    destruct (Z.ltb_spec (strlen (c_file_func_name (basename filename)) - 9 - 2 + 24 + 1)
                (24 + 1)); [lia|].
    destruct (mallocs_succeed 2 (malloc_left s)) eqn:Hmem.
    + rewrite run_plan_advance; [|reflexivity|exact Hmem].
      eexists _, _. split; [reflexivity|]. reflexivity.
    + apply run_actions_out_of_memory; [reflexivity|exact Hmem].
  - intros -> Hdot. rewrite (c_file_func_name_no_dot _ Hdot).
    split; [reflexivity|].
    destruct (mallocs_succeed 1 (malloc_left s)) eqn:Hmem;
      simpl; unfold mbind at 1, M_bind at 1; rewrite output_init_function_items;
      destruct (call_items o purpose nb nc "mercury__" false) as [items [nb' nc']];
      cbn [fst snd]; rewrite checked_malloc_bind, advance_written, Hmem; [reflexivity|].
    eapply out_of_memory_exit_advance.
    apply (exit_state_out_of_memory 1). rewrite advance_written. exact Hmem.
Qed.

Lemma identifier_chars_append a b :
  identifier_chars (a +:+ b) = identifier_chars a && identifier_chars b.
Proof.
  unfold identifier_chars. induction a as [|x a IH]; [reflexivity|].
  change (String x a +:+ b) with (String x (a +:+ b)). simpl.
  rewrite IH, andb_assoc. reflexivity.
Qed.

Lemma identifier_chars_drop n s :
  identifier_chars s = true -> identifier_chars (string_drop n s) = true.
Proof.
  unfold identifier_chars. revert s. induction n as [|n IH]; intros [|c s] H; simpl; auto.
  simpl in H. apply andb_true_iff in H. apply IH, H.
Qed.

(** The check for special characters leaves the names whose components
    between dots are made of identifier characters. *)
Lemma first_special_split filename before after :
  first_special filename = None ->
  strchr_split filename "." = Some (before, after) ->
  identifier_chars before = true /\ first_special after = None.
Proof.
  unfold identifier_chars. revert before.
  induction filename as [|c r IH]; intros before Hs Hsplit; simpl in *; [discriminate|].
  destruct (Ascii.eqb c ".") eqn:Hdot; simpl in Hs.
  - injection Hsplit as <- <-. split; [reflexivity|exact Hs].
  - destruct (MR_isalnumunder c) eqn:Hc; simpl in Hs; [|discriminate].
    destruct (strchr_split r ".") as [[b t]|]; simpl in Hsplit; [|discriminate].
    injection Hsplit as <- <-. destruct (IH b Hs eq_refl) as [Hb Ht].
    split; [simpl; rewrite Hc; exact Hb|exact Ht].
Qed.

Lemma mangle_loop_identifier filename : forall func_name,
  first_special filename = None -> identifier_chars func_name = true ->
  identifier_chars (mangle_loop func_name filename) = true.
Proof.
  remember (String.length filename) as k eqn:Hk. revert filename Hk.
  induction k as [k IH] using lt_wf_ind. intros filename Hk func_name Hs Hf.
  destruct (strchr_split filename ".") as [[before after]|] eqn:E.
  - rewrite (mangle_loop_step _ _ _ _ E).
    pose proof (strchr_split_shorter _ _ _ _ E) as Hshort.
    destruct (first_special_split _ _ _ Hs E) as [Hb Ha].
    destruct (strncmp_eq filename "f_" 2).
    + eapply (IH (String.length after)); [lia|reflexivity|exact Ha|].
      rewrite !identifier_chars_append, Hf, (identifier_chars_drop 2 _ Hb). reflexivity.
    + eapply (IH (String.length after)); [lia|reflexivity|exact Ha|].
      rewrite !identifier_chars_append, Hf, Hb. reflexivity.
  - rewrite (mangle_loop_done _ _ E). exact Hf.
Qed.

Lemma mangle_loop_prefix filename : forall func_name,
  exists rest, mangle_loop func_name filename = func_name +:+ rest.
Proof.
  remember (String.length filename) as k eqn:Hk. revert filename Hk.
  induction k as [k IH] using lt_wf_ind. intros filename Hk func_name.
  destruct (strchr_split filename ".") as [[before after]|] eqn:E.
  - rewrite (mangle_loop_step _ _ _ _ E).
    pose proof (strchr_split_shorter _ _ _ _ E) as Hshort.
    destruct (strncmp_eq filename "f_" 2).
    + edestruct (IH (String.length after)) as [rest ->]; [lia|reflexivity|].
      rewrite append_assoc. eauto.
    + edestruct (IH (String.length after)) as [rest ->]; [lia|reflexivity|].
      rewrite append_assoc. eauto.
  - rewrite (mangle_loop_done _ _ E). exists "". symmetry. apply append_empty_r.
Qed.

(** X13: for a file name that passes the check for special characters,
    the function name [process_c_file] builds starts with [mercury] and
    has only letters, digits and underscores: with any of the suffixes
    of [module_suffix] it is a C identifier. *)
Theorem c_file_func_name_identifier (filename : string) :
  first_special (basename filename) = None ->
  identifier_chars (c_file_func_name (basename filename)) = true /\
  exists rest, c_file_func_name (basename filename) = "mercury" +:+ rest.
Proof.
  intros Hs. split.
  - unfold c_file_func_name. rewrite identifier_chars_append.
    rewrite mangle_loop_identifier by (exact Hs || reflexivity). reflexivity.
  - unfold c_file_func_name.
    destruct (mangle_loop_prefix (basename filename) "mercury") as [rest ->].
    exists (rest +:+ "__"). apply append_assoc.
Qed.

(** *** The names of an [INIT] line *)








Lemma ends_in_append p suffix : ends_in suffix (p +:+ suffix) = true.
Proof.
  unfold ends_in, strcmp_eq. rewrite strlen_append. apply andb_true_iff. split.
  - apply Z.leb_le. unfold strlen. lia.
  - replace (strlen p + strlen suffix - strlen suffix) with (strlen p) by lia.
    unfold strlen. rewrite Nat2Z.id. apply String.eqb_eq.
    induction p as [|x p IH]; [reflexivity|]. exact IH.
Qed.








(** *** The search path *)

Lemma init_file_in_dirs_found fsys dirs base_name filename :
  init_file_in_dirs fsys dirs base_name = Some filename ->
  file_exists fsys filename = true /\
  exists before dirname after,
    dirs = before ++ dirname :: after /\
    filename = dirname +:+ "/" +:+ base_name /\
    Forall (fun d => file_exists fsys (d +:+ "/" +:+ base_name) = false) before.
Proof.
  induction dirs as [|d dirs IH]; simpl; [discriminate|].
  destruct (file_exists fsys (d +:+ "/" +:+ base_name)) eqn:E.
  - intros H. injection H as <-. split; [exact E|].
    exists [], d, dirs. repeat split. constructor.
  - intros H. destruct (IH H) as (Hex & before & dirname & after & -> & -> & Hall).
    split; [exact Hex|]. exists (d :: before), dirname, after.
    repeat split. constructor; assumption.
Qed.

Lemma init_file_in_dirs_none fsys dirs base_name :
  init_file_in_dirs fsys dirs base_name = None ->
  Forall (fun d => file_exists fsys (d +:+ "/" +:+ base_name) = false) dirs.
Proof.
  induction dirs as [|d dirs IH]; simpl; [constructor|].
  destruct (file_exists fsys (d +:+ "/" +:+ base_name)) eqn:E; [discriminate|].
  intros H. constructor; [exact E|exact (IH H)].
Qed.

(** The name [do_path_search] leaves for a file is not replaced by a
    second search. *)
Lemma searched_searched o fsys f :
  searched o fsys (searched o fsys f) = searched o fsys f.
Proof.
  unfold searched at 2 3.
  destruct (init_file_found o fsys f) as [f'|] eqn:Ef; cbn [default from_option id].
  - unfold init_file_found in Ef. destruct (file_exists fsys f); [discriminate|].
    apply init_file_in_dirs_found in Ef. destruct Ef as [Hex _].
    unfold searched, init_file_found. rewrite Hex. reflexivity.
  - unfold searched. rewrite Ef. reflexivity.
Qed.

Lemma dirs_tried_bound fsys dirs base_name :
  (dirs_tried fsys dirs base_name <= length dirs)%nat.
Proof.
  induction dirs as [|d dirs IH]; simpl; [lia|].
  destruct (file_exists fsys (d +:+ "/" +:+ base_name)); lia.
Qed.

Lemma path_search_mallocs_bound o fsys filenames :
  (path_search_mallocs o fsys filenames
   <= length filenames * length (init_file_dirs o))%nat.
Proof.
  induction filenames as [|f filenames IH]; [apply le_n|].
  rewrite path_search_mallocs_cons. simpl length. rewrite Nat.mul_succ_l.
  assert (find_init_file_mallocs o fsys f <= length (init_file_dirs o))%nat.
  { unfold find_init_file_mallocs. destruct (file_exists fsys f); [lia|].
    apply dirs_tried_bound. }
  lia.
Qed.

(** X14: [do_path_search] calls [malloc] once for each directory it
    tries for a file, which is never more than the number of files times
    the number of search directories. With memory for these calls it
    returns and changes only [files], name by name: a file of the
    current directory keeps its name, another one gets the name it has
    in the first of the search directories that holds it, and keeps its
    name when none does; so every name it replaces is replaced by that
    of a file that exists, and a second search, when it returns, leaves
    the names as they are. Without memory for them it writes
    [Out of memory] and exits with EXIT_FAILURE. *)
Theorem do_path_search_resolves (o : options) (s : state) :
  (path_search_mallocs o (file_system s) (files s)
   <= length (files s) * length (init_file_dirs o))%nat /\
  if mallocs_succeed (path_search_mallocs o (file_system s) (files s)) (malloc_left s)
  then
    exists s',
      do_path_search o s = Returns tt s' /\
      s' = {| stdout := stdout s; stderr := stderr s; num_errors := num_errors s;
              rl_data := rl_data s; files := files s'; file_system := file_system s;
              malloc_left
                := consume (path_search_mallocs o (file_system s) (files s))
                     (malloc_left s) |} /\
      Forall2
        (fun old new =>
           (file_exists (file_system s) old = true /\ new = old) \/
           (file_exists (file_system s) old = false /\
            Forall (fun d => file_exists (file_system s) (d +:+ "/" +:+ old) = false)
              (init_file_dirs o) /\ new = old) \/
           (file_exists (file_system s) old = false /\
            file_exists (file_system s) new = true /\
            exists before dirname after,
              init_file_dirs o = before ++ dirname :: after /\
              new = dirname +:+ "/" +:+ old /\
              Forall (fun d => file_exists (file_system s) (d +:+ "/" +:+ old) = false)
                before))
        (files s) (files s') /\
      forall s'', do_path_search o s' = Returns tt s'' -> files s'' = files s'
  else out_of_memory_exit s (do_path_search o s).
Proof.
  split; [apply path_search_mallocs_bound|].
  pose proof (do_path_search_spec o s) as Hspec.
  destruct (mallocs_succeed _ (malloc_left s)); [|exact Hspec].
  eexists. split; [exact Hspec|]. split; [reflexivity|]. split.
  - unfold spend, with_files. cbn [files]. clear Hspec.
    generalize (files s). intros l.
    induction l as [|f fs IH]; simpl; constructor; [|exact IH].
    unfold searched, init_file_found. destruct (file_exists (file_system s) f) eqn:E.
    + left. split; reflexivity.
    + destruct (init_file_in_dirs (file_system s) (init_file_dirs o) f) eqn:Es;
        cbn [default from_option id].
      * right. right. split; [reflexivity|].
        apply init_file_in_dirs_found in Es. exact Es.
      * right. left. split; [reflexivity|]. split; [|reflexivity].
        apply init_file_in_dirs_none, Es.
  - intros s'' Hagain. apply do_path_search_frame in Hagain.
    destruct Hagain as (Hfiles & _). rewrite Hfiles.
    unfold spend, with_files. cbn [files file_system].
    rewrite <- list_fmap_compose.
    apply list_fmap_ext. intros i f _. apply searched_searched.
Qed.

(** *** The runtime flags of [output_main] *)

Lemma put_escaped_advance c s :
  put_escaped c s = Returns tt (advance (Putc <$> escaped c) [] [] s).
Proof.
  unfold put_escaped, escaped, putc, mbind, M_bind.
  destruct (Ascii.eqb c newline);
    [|destruct (Ascii.eqb c (ascii_of_nat 9));
      [|destruct (Ascii.eqb c (ascii_of_nat 34) || Ascii.eqb c "\"%char)]];
    rewrite ?write_stdout_advance, ?advance_advance; reflexivity.
Qed.

Lemma for_each_put_escaped l : forall s,
  for_each l put_escaped s = Returns tt (advance (Putc <$> (l ≫= escaped)) [] [] s).
Proof.
  induction l as [|c l IH]; intros s; simpl.
  - rewrite advance_nil. reflexivity.
  - unfold mbind at 1, M_bind at 1. rewrite put_escaped_advance, IH, advance_advance.
    rewrite fmap_app. reflexivity.
Qed.

Lemma unescape_escaped c l :
  unescape (escaped c ++ l) = r ← unescape l; Some (c :: r).
Proof.
  unfold escaped.
  destruct (Ascii.eqb_spec c newline) as [->|Hn]; [reflexivity|].
  destruct (Ascii.eqb_spec c (ascii_of_nat 9)) as [->|Ht]; [reflexivity|].
  destruct (Ascii.eqb_spec c (ascii_of_nat 34)) as [->|Hq]; [reflexivity|].
  destruct (Ascii.eqb_spec c "\"%char) as [->|Hb]; [reflexivity|].
  simpl. destruct (Ascii.eqb_spec c "\"%char); [contradiction|].
  destruct (Ascii.eqb_spec c (ascii_of_nat 34)); [contradiction|]. reflexivity.
Qed.

Lemma escaped_plain c x :
  x ∈ escaped c -> x <> newline /\ x <> ascii_of_nat 9.
Proof.
  unfold escaped.
  destruct (Ascii.eqb_spec c newline) as [->|Hn];
    [|destruct (Ascii.eqb_spec c (ascii_of_nat 9)) as [->|Ht];
      [|destruct (Ascii.eqb_spec c (ascii_of_nat 34)) as [->|Hq];
        [|destruct (Ascii.eqb_spec c "\"%char) as [->|Hb]]]];
    simpl; intros Hx; set_unfold; destruct Hx as [->|Hx]; try destruct Hx as [->|[]];
    try (split; discriminate); try contradiction; split; assumption.
Qed.

(** X15: the loop of [output_main] over a runtime flag writes, with
    [putchar] and nothing else, characters among which there is no
    newline and no tab, and from which undoing the four escapes of
    [put_escaped] gives the flag back: read so, no quote in the flag
    ends the literal of [MR_runtime_flags] and no character of the flag
    is lost. [put_escaped] leaves a question mark as it is: where the
    trigraph [??/] is read as a backslash, the characters written for
    the flag made of [??/] and a quote end the literal before the last
    of them. *)
Theorem put_escaped_round_trip (flag : string) (s : state) :
  (exists out,
     for_each (list_ascii_of_string flag) put_escaped s
     = Returns tt (advance (Putc <$> out) [] [] s) /\
     out = list_ascii_of_string flag ≫= escaped /\
     unescape out = Some (list_ascii_of_string flag) /\
     (newline ∉ out) /\ (ascii_of_nat 9 ∉ out)) /\
  (list_ascii_of_string ("??/" +:+ dquote) ≫= escaped
   = list_ascii_of_string ("??/\" +:+ dquote) /\
   trigraphs (list_ascii_of_string ("??/\" +:+ dquote))
   = list_ascii_of_string ("\\" +:+ dquote) /\
   unescape (trigraphs (list_ascii_of_string ("??/" +:+ dquote) ≫= escaped)) = None).
Proof.
  split; [|split; [reflexivity|split; reflexivity]].
  exists (list_ascii_of_string flag ≫= escaped).
  split; [apply for_each_put_escaped|]. split; [reflexivity|].
  generalize (list_ascii_of_string flag) as l. intros l. split.
  - induction l as [|c l IH]; [reflexivity|].
    rewrite bind_cons, unescape_escaped, IH. reflexivity.
  - split; intros Hin; apply list_elem_of_bind in Hin; destruct Hin as (c & Hx & _);
      apply escaped_plain in Hx; destruct Hx; congruence.
Qed.

(** *** The Aditi-RL data of a run *)

Lemma writes_only_rl_data {A : Type} (m : M A) s a s' :
  writes_only m -> m s = Returns a s' -> rl_data s' = rl_data s.
Proof.
  intros Hm Hs. destruct (Hm s) as (a' & items & Hs').
  rewrite Hs in Hs'. injection Hs' as -> ->. reflexivity.
Qed.

Lemma output_sub_init_functions_rl_data o purpose s num_bunches s' :
  output_sub_init_functions o purpose s = Returns num_bunches s' ->
  rl_data s'
  = actions_rl_data (files_actions o (file_system s) (files s)) ++ rl_data s.
Proof.
  intros H. destruct (output_sub_init_functions_returns _ _ _ _ _ H) as [Hret Hmem].
  rewrite (output_sub_init_functions_advance _ _ _ Hret Hmem) in H.
  injection H as _ <-. reflexivity.
Qed.

Lemma main_start_rl_data o writable fsys memory s0 s1 s2 a0 a1 a2 :
  parse_options o (initial_state fsys memory) = Returns a0 s0 ->
  set_output_file o writable s0 = Returns a1 s1 ->
  do_path_search o s1 = Returns a2 s2 ->
  rl_data s2 = [] /\ stdout s2 = [].
Proof.
  unfold parse_options. destruct (Z.of_nat (length (arg_files o)) <=? 0).
  { unfold usage, mbind, M_bind, fprintf_stderr, write_stderr, exit. discriminate. }
  unfold set_files. intros H0. injection H0 as _ <-.
  unfold set_output_file. intros H1 H2.
  assert (Hr1 : rl_data s1 = [] /\ stdout s1 = []).
  { destruct (output_file_name o) as [name|].
    - destruct (writable name).
      + unfold mbind, M_bind, get_state, set_file_system in H1.
        injection H1 as _ <-. split; reflexivity.
      + unfold mbind, M_bind, fprintf_stderr, write_stderr, exit in H1. discriminate.
    - injection H1 as _ <-. split; reflexivity. }
  pose proof (do_path_search_spec o s1) as Hspec.
  destruct (mallocs_succeed _ _).
  - rewrite Hspec in H2. injection H2 as _ <-. exact Hr1.
  - destruct Hspec as (s' & Hexit & _). rewrite Hexit in H2. discriminate H2.
Qed.

Lemma main_end_rl_data o s status s' :
  main_end o s = Returns status s' ->
  rl_data s' = rl_data s /\ exists out, stdout s' = stdout s ++ out.
Proof.
  unfold main_end. unfold mbind at 1, M_bind at 1, get_state at 1.
  destruct (0 <? num_errors s).
  - unfold mbind at 1, M_bind at 1. rewrite for_each_write_stdout.
    destruct (output_file_name o) as [name|];
      unfold mbind, M_bind, get_state, set_file_system, mret, M_ret;
      intros H; injection H as _ <-; (split; [reflexivity|]); simpl; eauto.
  - unfold mret, M_ret. intros H. injection H as _ <-.
    split; [reflexivity|]. exists []. rewrite app_nil_r. reflexivity.
Qed.

(** Without [-a], no file gives an Aditi-RL name. *)
Lemma files_actions_no_aditi o fsys filenames :
  aditi o = false -> actions_rl_data (files_actions o fsys filenames) = [].
Proof.
  intros Haditi.
  assert (Hinit : forall filename,
            actions_rl_data (plan_actions (init_file_plan o fsys filename)) = []).
  { intros filename. unfold init_file_plan.
    destruct (fopen_r fsys filename); [|reflexivity].
    simpl. rewrite Haditi. apply init_file_actions_no_aditi. }
  induction filenames as [|filename filenames IH]; [reflexivity|].
  unfold files_actions in *. rewrite bind_cons, actions_rl_data_app, IH.
  unfold file_plan_of.
  destruct (ends_in ".c" filename).
  - destruct (c_files_contain_extra_inits o); [apply Hinit|].
    unfold c_file_plan. rewrite Haditi.
    destruct (first_special (basename filename)); [reflexivity|].
    destruct (1000 <=? strlen (c_file_func_name (basename filename))); reflexivity.
  - destruct (ends_in ".init" filename); [apply Hinit|reflexivity].
Qed.

Lemma for_each_two_writes {A : Type} (f g : A -> out_item) (l : list A) : forall s,
  for_each l (fun x => _ ← write_stdout (f x); write_stdout (g x)) s
  = Returns tt (advance (l ≫= fun x => [f x; g x]) [] [] s).
Proof.
  induction l as [|x l IH]; intros s; simpl.
  - rewrite advance_nil. reflexivity.
  - unfold mbind at 1, M_bind at 1. unfold mbind at 1, M_bind at 1.
    rewrite !write_stdout_advance, IH, !advance_advance. reflexivity.
Qed.

Lemma bind_advance {A B : Type} (m : M A) (f : A -> M B) a items s :
  m s = Returns a (advance items [] [] s) ->
  (m ≫= f) s = f a (advance items [] [] s).
Proof. intros H. unfold mbind, M_bind. rewrite H. reflexivity. Qed.

Lemma rl_data_written out err s : rl_data (advance out err [] s) = rl_data s.
Proof. reflexivity. Qed.

(** What [output_aditi_load_function] writes: the declarations of the
    constants of [rl_data], the array of their addresses, the array of
    the addresses of their lengths, and their number. *)
Lemma output_aditi_load_function_items s :
  exists head between1 between2 tail,
    output_aditi_load_function s
    = Returns tt
        (advance
           (head
              ++ (rl_data s ≫= fun data =>
                    [Printf (Lit ("extern const char %s[];" +:+ nl)) [A_str data];
                     Printf (Lit ("extern const int %s__length;" +:+ nl)) [A_str data]])
              ++ between1
              ++ ((fun data => Printf (Lit ("%s," +:+ nl +:+ tab +:+ tab)) [A_str data])
                    <$> rl_data s)
              ++ between2
              ++ ((fun data =>
                     Printf (Lit ("&%s__length," +:+ nl +:+ tab +:+ tab)) [A_str data])
                    <$> rl_data s)
              ++ [Printf (Lit ("0};" +:+ nl)) [];
                  Printf (Lit (tab +:+ "const int num_rl_modules = %d;" +:+ nl))
                    [A_int (Z.of_nat (length (rl_data s)))]]
              ++ tail)
           [] [] s).
Proof.
  unfold output_aditi_load_function, printf, printf_static.
  do 6 (erewrite bind_advance by apply write_stdout_advance).
  unfold mbind at 1, M_bind at 1, get_state at 1.
  rewrite !rl_data_written.
  erewrite bind_advance by apply for_each_two_writes.
  do 4 (erewrite bind_advance by apply write_stdout_advance).
  erewrite bind_advance by apply for_each_write_stdout.
  do 2 (erewrite bind_advance by apply write_stdout_advance).
  erewrite bind_advance by apply for_each_write_stdout.
  do 2 (erewrite bind_advance by apply write_stdout_advance).
  rewrite write_stdout_advance, !advance_advance.
  rewrite <- !app_assoc.
  eexists [_; _; _; _; _; _], [_; _; _; _], [_; _], [_].
  reflexivity.
Qed.

(** X17: every one of the four passes of [main] over the files adds
    the Aditi-RL data constants of the files to [rl_data], whatever its
    purpose: when [main] returns, the list holds the constants of the
    run four times over, each time last added first. There is none
    without [-a]. With [-a], [output_aditi_load_function] has written,
    for this list of four times the constants, two declarations for each
    entry, the entries of the array [rl_data], those of the array
    [rl_data_lengths], and its length, four times the number of the
    constants, as [num_rl_modules]. *)
Theorem main_rl_data_four_times (o : options) (writable : string -> bool)
    (fsys : gmap string file) (memory : option nat) (status : Z) (s : state) :
  main o writable fsys memory = Returns status s ->
  let names :=
    actions_rl_data (files_actions o (run_file_system o fsys) (run_files o fsys)) in
  let all := names ++ names ++ names ++ names in
  rl_data s = all /\
  (aditi o = false -> names = []) /\
  (aditi o = true ->
     exists before between1 between2 after,
       stdout s
       = before
           ++ (all ≫= fun data =>
                 [Printf (Lit ("extern const char %s[];" +:+ nl)) [A_str data];
                  Printf (Lit ("extern const int %s__length;" +:+ nl)) [A_str data]])
           ++ between1
           ++ ((fun data => Printf (Lit ("%s," +:+ nl +:+ tab +:+ tab)) [A_str data])
                 <$> all)
           ++ between2
           ++ ((fun data =>
                  Printf (Lit ("&%s__length," +:+ nl +:+ tab +:+ tab)) [A_str data])
                 <$> all)
           ++ [Printf (Lit ("0};" +:+ nl)) [];
               Printf (Lit (tab +:+ "const int num_rl_modules = %d;" +:+ nl))
                 [A_int (4 * Z.of_nat (length names))]]
           ++ after).
Proof.
  unfold main. rewrite main_body_end. intros Hmain.
  unfold mbind, M_bind in Hmain.
  repeat match type of Hmain with
         | match ?m with _ => _ end = _ =>
             let E := fresh "E" in
             destruct m as [? ?| |] eqn:E; [|discriminate Hmain|discriminate Hmain]
         end.
  destruct (main_start_rl_data _ _ _ _ _ _ _ _ _ _ E E0 E1) as [Hr2 _].
  apply parse_options_frame in E. destruct E as (Hf0 & Hs0 & _).
  apply set_output_file_frame in E0. destruct E0 as (Hf1 & Hs1 & _).
  apply do_path_search_frame in E1. destruct E1 as (Hf2 & Hs2 & _).
  pose proof (writes_only_rl_data _ _ _ _ (writes_only_output_headers o) E2) as Hr3.
  apply (writes_only_frame _ _ _ _ (writes_only_output_headers o)) in E2.
  destruct E2 as (_ & Hf3 & Hs3 & _).
  assert (Hw4 : writes_only
                  (if need_initialization_code o
                   then printf ("#define MR_MAY_NEED_INITIALIZATION" +:+ nl +:+ nl) []
                   else mret tt)) by auto with writes.
  pose proof (writes_only_rl_data _ _ _ _ Hw4 E3) as Hr4.
  apply (writes_only_frame _ _ _ _ Hw4) in E3. destruct E3 as (_ & Hf4 & Hs4 & _).
  pose proof (output_sub_init_functions_rl_data _ _ _ _ _ E4) as Hr5.
  apply output_sub_init_functions_frame in E4. destruct E4 as (_ & Hf5 & Hs5).
  pose proof (writes_only_rl_data _ _ _ _
                (writes_only_output_main_init_function _ _) E5) as Hr6.
  apply output_main_init_function_frame in E5. destruct E5 as (_ & Hf6 & Hs6).
  pose proof (output_sub_init_functions_rl_data _ _ _ _ _ E6) as Hr7.
  apply output_sub_init_functions_frame in E6. destruct E6 as (_ & Hf7 & Hs7).
  pose proof (writes_only_rl_data _ _ _ _
                (writes_only_output_main_init_function _ _) E7) as Hr8.
  apply output_main_init_function_frame in E7. destruct E7 as (_ & Hf8 & Hs8).
  pose proof (output_sub_init_functions_rl_data _ _ _ _ _ E8) as Hr9.
  apply output_sub_init_functions_frame in E8. destruct E8 as (_ & Hf9 & Hs9).
  pose proof (writes_only_rl_data _ _ _ _
                (writes_only_output_main_init_function _ _) E9) as Hr10.
  apply output_main_init_function_frame in E9. destruct E9 as (_ & Hf10 & Hs10).
  pose proof (output_sub_init_functions_rl_data _ _ _ _ _ E10) as Hr11.
  apply output_sub_init_functions_frame in E10. destruct E10 as (_ & Hf11 & Hs11).
  pose proof (writes_only_rl_data _ _ _ _
                (writes_only_output_main_init_function _ _) E11) as Hr12.
  assert (Hw13 : writes_only
                   (if aditi o then output_aditi_load_function else mret tt))
    by (apply writes_only_if;
        [apply writes_only_output_aditi_load_function|apply writes_only_ret]).
  pose proof (writes_only_rl_data _ _ _ _ Hw13 E12) as Hr13.
  pose proof (writes_only_rl_data _ _ _ _ (writes_only_output_main o) E13) as Hr14.
  apply (writes_only_frame _ _ _ _ (writes_only_output_main o)) in E13.
  destruct E13 as (_ & _ & _ & out_main & Hout_main).
  apply main_end_rl_data in Hmain. destruct Hmain as (Hmain & out_end & Hout_end).
  assert (Hfsys : file_system s2 = run_file_system o fsys).
  { rewrite Hs2, Hs1, Hs0. reflexivity. }
  assert (Hfiles : files s2 = run_files o fsys).
  { rewrite Hf2, Hf1, Hf0, Hs1, Hs0. reflexivity. }
  assert (Hs4' : file_system s4 = run_file_system o fsys) by congruence.
  assert (Hs6' : file_system s6 = run_file_system o fsys) by congruence.
  assert (Hs8' : file_system s8 = run_file_system o fsys) by congruence.
  assert (Hs10' : file_system s10 = run_file_system o fsys) by congruence.
  assert (Hf4' : files s4 = run_files o fsys) by congruence.
  assert (Hf6' : files s6 = run_files o fsys) by congruence.
  assert (Hf8' : files s8 = run_files o fsys) by congruence.
  assert (Hf10' : files s10 = run_files o fsys) by congruence.
  rewrite Hs4', Hf4' in Hr5. rewrite Hs6', Hf6' in Hr7.
  rewrite Hs8', Hf8' in Hr9. rewrite Hs10', Hf10' in Hr11.
  set (names := actions_rl_data
                  (files_actions o (run_file_system o fsys) (run_files o fsys))) in *.
  assert (Hall : rl_data s12 = names ++ names ++ names ++ names).
  { rewrite Hr12, Hr11, Hr10, Hr9, Hr8, Hr7, Hr6, Hr5, Hr4, Hr3, Hr2.
    rewrite app_nil_r. reflexivity. }
  cbv zeta. split; [rewrite Hmain, Hr14, Hr13; exact Hall|].
  split; [intros Haditi; apply files_actions_no_aditi, Haditi|].
  intros Haditi. rewrite Haditi in E12.
  destruct (output_aditi_load_function_items s12)
    as (head & between1 & between2 & tail & Hload).
  rewrite Hload in E12. injection E12 as _ <-.
  rewrite Hall in Hout_main.
  exists (stdout s12 ++ head), between1, between2, (tail ++ out_main ++ out_end).
  rewrite Hout_end, Hout_main. unfold advance. cbn [stdout].
  rewrite !length_app. rewrite <- !app_assoc.
  replace (Z.of_nat (length names + (length names + (length names + length names))))
    with (4 * Z.of_nat (length names)) by lia.
  reflexivity.
Qed.

(** *** A file name with a special character *)

Lemma bind_exits {A B : Type} (m : M A) (f : A -> M B) s status s' :
  m s = Exits status s' -> (m ≫= f) s = Exits status s'.
Proof. intros H. unfold mbind, M_bind. rewrite H. reflexivity. Qed.

Lemma bind_returns {A B : Type} (m : M A) (f : A -> M B) s a s' :
  m s = Returns a s' -> (m ≫= f) s = f a s'.
Proof. intros H. unfold mbind, M_bind. rewrite H. reflexivity. Qed.

Lemma for_each_write_stderr messages : forall s,
  for_each messages write_stderr s = Returns tt (exit_state messages s).
Proof.
  induction messages as [|m messages IH]; intros s; simpl.
  - unfold mret, M_ret, exit_state. rewrite app_nil_r. destruct s; reflexivity.
  - unfold mbind, M_bind. unfold write_stderr at 1. rewrite IH.
    unfold exit_state. simpl. rewrite <- app_assoc. reflexivity.
Qed.

Lemma process_files_exits o purpose before filename after messages status :
  forall nb nc s,
  forallb (file_returns o (file_system s)) before = true ->
  mallocs_succeed (pass_mallocs o (file_system s) before) (malloc_left s) = true ->
  file_plan_of o (file_system s) filename = Plan_exit messages status ->
  process_files o (before ++ filename :: after) nb nc purpose s
  = Exits status
      (exit_state messages
         (advance (actions_items o purpose (files_actions o (file_system s) before) nb nc).1
            (files_errors o (file_system s) before)
            (actions_rl_data (files_actions o (file_system s) before)) s)).
Proof.
  intros nb nc s Hbefore Hmem Hplan.
  assert (Hsplit : forall fs1 fs2 nb nc s,
             process_files o (fs1 ++ fs2) nb nc purpose s
             = ('(nb, nc) ← process_files o fs1 nb nc purpose;
                process_files o fs2 nb nc purpose) s).
  { clear. induction fs1 as [|f fs1 IH]; intros fs2 nb nc s; simpl.
    - reflexivity.
    - unfold mbind, M_bind.
      destruct (process_file o f nb nc purpose s) as [[nb1 nc1] s1| |]; try reflexivity.
      rewrite IH. reflexivity. }
  rewrite Hsplit. unfold mbind at 1, M_bind at 1.
  rewrite (process_files_advance _ _ _ _ _ _ Hbefore Hmem).
  destruct (actions_items o purpose (files_actions o (file_system s) before) nb nc)
    as [items [nb1 nc1]]. cbn [fst snd].
  simpl process_files. apply bind_exits.
  rewrite process_file_plan, advance_file_system, Hplan. simpl.
  unfold mbind, M_bind. rewrite for_each_write_stderr. reflexivity.
Qed.

Lemma output_sub_init_functions_exits o purpose s before filename after messages status :
  files s = before ++ filename :: after ->
  forallb (file_returns o (file_system s)) before = true ->
  mallocs_succeed (pass_mallocs o (file_system s) before) (malloc_left s) = true ->
  file_plan_of o (file_system s) filename = Plan_exit messages status ->
  exists out,
    output_sub_init_functions o purpose s
    = Exits status
        (exit_state messages
           (advance out (files_errors o (file_system s) before)
              (actions_rl_data (files_actions o (file_system s) before)) s)).
Proof.
  intros Hfiles Hbefore Hmem Hplan. unfold output_sub_init_functions.
  unfold mbind, M_bind, mret, M_ret, fputs, printf, get_state.
  rewrite write_stdout_advance.
  destruct (bunch_function_guard purpose) as [guard|];
    rewrite !write_stdout_advance, !advance_advance;
    rewrite advance_files, Hfiles;
    rewrite process_files_exits with (messages := messages) (status := status)
      by (rewrite ?advance_file_system, ?advance_written; assumption);
    rewrite advance_file_system, advance_advance;
    eexists; f_equal; f_equal; apply advance_eq; simpl; rewrite ?app_nil_r; reflexivity.
Qed.

(** A file whose plan returns is processed, unless [malloc] fails and
    [checked_malloc] exits. *)
Lemma run_plan_returns_or_exits o purpose plan nb nc s :
  plan_returns plan = true ->
  (exists r s', run_plan o purpose plan nb nc s = Returns r s'
                /\ file_system s' = file_system s) \/
  (exists s', run_plan o purpose plan nb nc s = Exits EXIT_FAILURE s').
Proof.
  intros Hplan.
  destruct (mallocs_succeed (2 * length (actions_rl_data (plan_actions plan)))
              (malloc_left s)) eqn:Hmem.
  - left. rewrite run_plan_advance by assumption. eauto.
  - right. destruct plan as [actions|message|messages status]; simpl in *.
    + destruct (run_actions_out_of_memory o purpose actions nb nc s Hplan Hmem)
        as (s' & H & _). eauto.
    + rewrite mallocs_succeed_0 in Hmem. discriminate Hmem.
    + discriminate Hplan.
Qed.

(** The loop over the files does not get beyond a file on which
    [process_c_file] exits. *)
Lemma process_files_stops o purpose before filename after messages status :
  forall nb nc s,
  forallb (file_returns o (file_system s)) before = true ->
  file_plan_of o (file_system s) filename = Plan_exit messages status ->
  exists status' s',
    process_files o (before ++ filename :: after) nb nc purpose s = Exits status' s'.
Proof.
  induction before as [|f before IH]; intros nb nc s Hbefore Hplan; simpl.
  - eexists _, _. apply bind_exits. rewrite process_file_plan, Hplan. simpl.
    unfold mbind, M_bind. rewrite for_each_write_stderr. reflexivity.
  - simpl in Hbefore. apply andb_true_iff in Hbefore. destruct Hbefore as [Hf Hbefore].
    unfold mbind at 1, M_bind at 1. rewrite process_file_plan.
    destruct (run_plan_returns_or_exits o purpose (file_plan_of o (file_system s) f)
                nb nc s Hf) as [(r & s1 & -> & Hfs)|(s1 & ->)].
    + destruct r as [nb1 nc1]. apply IH; rewrite Hfs; assumption.
    + eauto.
Qed.

Lemma output_sub_init_functions_stops o purpose s before filename after messages status :
  files s = before ++ filename :: after ->
  forallb (file_returns o (file_system s)) before = true ->
  file_plan_of o (file_system s) filename = Plan_exit messages status ->
  exists status' s', output_sub_init_functions o purpose s = Exits status' s'.
Proof.
  intros Hfiles Hbefore Hplan. unfold output_sub_init_functions.
  unfold mbind, M_bind, mret, M_ret, fputs, printf, get_state.
  rewrite write_stdout_advance.
  destruct (bunch_function_guard purpose) as [guard|];
    rewrite !write_stdout_advance, ?advance_advance;
    rewrite advance_files, Hfiles;
    match goal with
    | |- context [process_files o _ 0 0 purpose ?s0] =>
        destruct (process_files_stops o purpose before filename after messages status
                    0 0 s0 Hbefore Hplan) as (status' & s' & ->)
    end; eauto.
Qed.

(** X18: when the name of a C file among the arguments has a special
    character, and the files before it are processed, [main] does not
    return: it exits with EXIT_FAILURE, and the output file named by
    [-o], opened and partly written, is not removed. With memory for the
    calls of [malloc] of the path search and of the files before, it
    exits in the first pass, the two messages about the file name being
    the last written to [stderr], and the errors of the files before
    have been counted once. *)
Theorem main_exits_on_special_character (o : options) (writable : string -> bool)
    (fsys : gmap string file) (memory : option nat) (before after : list string)
    (filename : string) (c : ascii) :
  run_files o fsys = before ++ filename :: after ->
  forallb (file_returns o (run_file_system o fsys)) before = true ->
  ends_in ".c" filename = true -> c_files_contain_extra_inits o = false ->
  first_special (basename filename) = Some c ->
  (forall name, output_file_name o = Some name -> writable name = true) ->
  exists s,
    main o writable fsys memory = Exits EXIT_FAILURE s /\
    (mallocs_succeed
       (path_search_mallocs o (run_file_system o fsys) (arg_files o)
        + pass_mallocs o (run_file_system o fsys) before) memory = true ->
     stderr s
     = files_errors o (run_file_system o fsys) before
         ++ [Printf (Lit ("mkinit: sorry, file names containing special characters are not supported."
                            +:+ nl)) [];
             Printf (Lit ("File name `%s' contains special character `%c'." +:+ nl))
               [A_str (basename filename); A_char c]] /\
     num_errors s = Z.of_nat (length (files_errors o (run_file_system o fsys) before))) /\
    file_system s = run_file_system o fsys /\
    forall name, output_file_name o = Some name ->
      file_system s !! name = Some Stdout_target.
Proof.
  intros Hrun Hbefore Hc Hextra Hspecial Hwritable.
  assert (Hplan : file_plan_of o (run_file_system o fsys) filename
                  = Plan_exit
                      [Printf (Lit ("mkinit: sorry, file names containing special characters are not supported."
                                      +:+ nl)) [];
                       Printf (Lit ("File name `%s' contains special character `%c'." +:+ nl))
                         [A_str (basename filename); A_char c]]
                      EXIT_FAILURE).
  { unfold file_plan_of. rewrite Hc, Hextra. unfold c_file_plan.
    rewrite Hspecial. reflexivity. }
  assert (Hargs : arg_files o <> []).
  { intros Hnil. unfold run_files in Hrun. rewrite Hnil in Hrun.
    destruct before; discriminate Hrun. }
  assert (Hw4 : writes_only
                  (if need_initialization_code o
                   then printf ("#define MR_MAY_NEED_INITIALIZATION" +:+ nl +:+ nl) []
                   else mret tt)) by auto with writes.
  assert (Hstops : exists status s, main o writable fsys memory = Exits status s).
  { unfold main. rewrite main_body_end. rewrite main_opened by assumption.
    match goal with
    | |- exists status s, (do_path_search o ≫= _) ?s1 = _ =>
        pose proof (do_path_search_spec o s1) as Hsearch
    end.
    cbn [files file_system malloc_left] in Hsearch.
    destruct (mallocs_succeed _ memory).
    - rewrite (bind_returns _ _ _ _ _ Hsearch).
      match goal with
      | |- exists status s, (output_headers o ≫= _) ?s2 = _ =>
          destruct (writes_only_output_headers o s2) as (a3 & items3 & Hs3);
          rewrite (bind_returns _ _ _ _ _ Hs3);
          destruct (Hw4 (advance items3 [] [] s2)) as (a4 & items4 & Hs4);
          rewrite (bind_returns _ _ _ _ _ Hs4);
          destruct (output_sub_init_functions_stops o PURPOSE_INIT
                      (advance items4 [] [] (advance items3 [] [] s2))
                      before filename after _ _ Hrun Hbefore Hplan)
            as (status' & s' & Hstop)
      end.
      rewrite (bind_exits _ _ _ _ _ Hstop). eauto.
    - destruct Hsearch as (s' & Hexit & _).
      rewrite (bind_exits _ _ _ _ _ Hexit). eauto. }
  destruct Hstops as (status & s & Hmain).
  destruct (main_exits _ _ _ _ _ _ Hmain) as [-> Hfs].
  specialize (Hfs Hargs Hwritable).
  exists s. split; [exact Hmain|]. split; [|split; [exact Hfs|]].
  2:{ intros name Hname. rewrite Hfs. unfold run_file_system. rewrite Hname.
      apply lookup_insert_eq. }
  intros Hmem. apply mallocs_succeed_split in Hmem. destruct Hmem as [Hmem1 Hmem2].
  revert Hmain. unfold main. rewrite main_body_end.
  rewrite main_searched by assumption.
  destruct (writes_only_output_headers o (searched_state o fsys memory))
    as (a3 & items3 & Hs3).
  rewrite (bind_returns _ _ _ _ _ Hs3).
  destruct (Hw4 (advance items3 [] [] (searched_state o fsys memory)))
    as (a4 & items4 & Hs4).
  rewrite (bind_returns _ _ _ _ _ Hs4). rewrite advance_advance.
  set (s4 := advance (items3 ++ items4) ([] ++ []) ([] ++ [])
               (searched_state o fsys memory)).
  edestruct (output_sub_init_functions_exits o PURPOSE_INIT s4 before filename after)
    as (out & Hexit); [exact Hrun|exact Hbefore|exact Hmem2|exact Hplan|].
  rewrite (bind_exits _ _ _ _ _ Hexit).
  intros Hmain. injection Hmain as <-.
  unfold exit_state, advance, s4, searched_state. simpl. rewrite ?app_nil_r.
  split; [reflexivity|]. lia.
Qed.

(** *** The options *)

Section ParseOptionsFacts.

Variable sscanf_int : string -> option Z.

Lemma option_set_rejected c optarg o :
  option_set sscanf_int c optarg o = None <-> rejected sscanf_int (c, optarg).
Proof.
  unfold option_set, rejected. simpl.
  repeat match goal with
         | |- context [Ascii.eqb c ?x] =>
             let E := fresh "E" in destruct (Ascii.eqb_spec c x) as [E|E]; [subst c|]
         end;
    try (split; [discriminate|];
         intros [Hin|[Heq _]];
         [exfalso; apply Hin; apply list_elem_of_In; simpl; tauto|discriminate Heq]).
  - destruct (sscanf_int optarg).
    + split; [discriminate|]. intros [Hin|[_ H]]; [|discriminate].
      exfalso. apply Hin. apply list_elem_of_In. simpl. tauto.
    + split; [|reflexivity]. intros _. right. split; reflexivity.
  - destruct (strcmp_eq optarg "-"); split; try discriminate;
      intros [Hin|[Heq _]]; try discriminate Heq; exfalso; apply Hin;
      apply list_elem_of_In; simpl; tauto.
  - destruct (negb (String.eqb optarg "")); split; try discriminate;
      intros [Hin|[Heq _]]; try discriminate Heq; exfalso; apply Hin;
      apply list_elem_of_In; simpl; tauto.
  - split; [|reflexivity]. intros _. left. intros Hin.
    apply list_elem_of_In in Hin. simpl in Hin. intuition congruence.
Qed.

(** What one option changes of the options the theorems below are
    about. *)
Lemma option_set_step c optarg o o1 :
  option_set sscanf_int c optarg o = Some o1 ->
  init_file_dirs o1
  = init_file_dirs o ++ (if decide (c = "I"%char) then [optarg] else []) /\
  runtime_flags o1
  = runtime_flags o
      ++ (if decide (c = "r"%char) then
            if decide (optarg <> "") then [optarg] else []
          else []) /\
  ((need_tracing o = true -> need_initialization_code o = true) ->
   need_tracing o1 = true -> need_initialization_code o1 = true) /\
  output_file_name o1
  = if decide (c = "o"%char) then
      if strcmp_eq optarg "-" then None else Some optarg
    else output_file_name o.
Proof.
  unfold option_set.
  repeat match goal with
         | |- context [Ascii.eqb c ?x] =>
             let E := fresh "E" in destruct (Ascii.eqb_spec c x) as [E|E]; [subst c|]
         end;
    try discriminate;
    try (intros H; injection H as <-; simpl;
         repeat (destruct (decide _) as [?|?]; try congruence);
         rewrite ?app_nil_r; repeat split; auto; fail).
  - destruct (sscanf_int optarg); [|discriminate].
    intros H; injection H as <-; simpl.
    repeat (destruct (decide _) as [?|?]; try congruence).
    rewrite ?app_nil_r; repeat split; auto.
  - destruct (strcmp_eq optarg "-"); intros H; injection H as <-; simpl;
      repeat (destruct (decide _) as [?|?]; try congruence);
      rewrite ?app_nil_r; repeat split; auto.
  - destruct (String.eqb_spec optarg ""); simpl; intros H; injection H as <-; simpl;
      repeat (destruct (decide _) as [?|?]; try congruence); try contradiction;
      rewrite ?app_nil_r; repeat split; auto.
Qed.

Lemma optargs_cons c0 c optarg results :
  optargs c0 ((c, optarg) :: results)
  = if decide (c = c0) then optarg :: optargs c0 results else optargs c0 results.
Proof.
  unfold optargs. rewrite filter_cons. simpl.
  destruct (decide (c = c0)); reflexivity.
Qed.

Lemma usage_exits {A : Type} s :
  @usage A s
  = Exits EXIT_FAILURE
      (exit_state
         [Printf
            (Lit ("Usage: mkinit [options] files..." +:+ nl
                    +:+ "Options: [-a] [-c maxcalls] [-o filename] [-w entry] [-i] [-l] [-t] [-x]"
                    +:+ nl)) []] s).
Proof. reflexivity. Qed.

(** The two calls of [checked_malloc] of [-I] and [-r]. *)
Lemma two_mallocs_bind {B : Type} (b : B) s :
  (_ ← checked_malloc; _ ← checked_malloc; mret b) s
  = if mallocs_succeed 2 (malloc_left s) then Returns b (spend 2 s)
    else Exits EXIT_FAILURE (exit_state [out_of_memory] (spend 2 s)).
Proof.
  unfold mbind, M_bind, checked_malloc, spend, exit_state, mret, M_ret.
  destruct s as [out err n rl fs fsys [[|[|avail]]|]]; reflexivity.
Qed.

(** One turn of the loop: [usage()], or the assignments of the option
    after its calls of [checked_malloc]. *)
Lemma parse_option_spec c optarg o s :
  parse_option sscanf_int c optarg o s
  = match option_set sscanf_int c optarg o with
    | None => usage s
    | Some o1 =>
        if mallocs_succeed (option_mallocs (c, optarg)) (malloc_left s)
        then Returns o1 (spend (option_mallocs (c, optarg)) s)
        else Exits EXIT_FAILURE
               (exit_state [out_of_memory] (spend (option_mallocs (c, optarg)) s))
    end.
Proof.
  unfold parse_option, option_set, option_mallocs. cbn [fst snd].
  assert (Hret : forall o1 : options,
            (mret o1 : M options) s
            = if mallocs_succeed 0 (malloc_left s) then Returns o1 (spend 0 s)
              else Exits EXIT_FAILURE (exit_state [out_of_memory] (spend 0 s))).
  { intros o1. rewrite mallocs_succeed_0, spend_0. reflexivity. }
  destruct (Ascii.eqb_spec c "I") as [->|HI].
  { cbn. apply two_mallocs_bind. }
  destruct (Ascii.eqb_spec c "r") as [->|Hr].
  { cbn. destruct (String.eqb optarg ""); cbn; [apply Hret|apply two_mallocs_bind]. }
  repeat match goal with
         | |- context [Ascii.eqb c ?x] => destruct (Ascii.eqb c x)
         end;
    try apply Hret; try reflexivity.
  - destruct (sscanf_int optarg); [apply Hret|reflexivity].
  - destruct (strcmp_eq optarg "-"); apply Hret.
Qed.

Lemma options_mallocs_cons r results :
  options_mallocs (r :: results) = (option_mallocs r + options_mallocs results)%nat.
Proof. reflexivity. Qed.

(** X19: the loop of [parse_options] over the options calls
    [checked_malloc] twice for each [-I] and for each [-r] with an
    argument that is not empty, and calls [usage()] at an option that
    is unknown or is [-c] with an argument that is no number. It
    returns when no option is such and there is memory for every call:
    then the directories of [-I] have been added to the search path and
    the non-empty arguments of [-r] to the runtime flags, both in the
    order of the command line; tracing is never set without the
    initialization code; the output file is that of the last [-o], the
    standard output when that is [-o -]; and nothing has been written.
    Otherwise it exits with EXIT_FAILURE at the first option that is
    rejected, with the usage message on [stderr], or for which [malloc]
    fails, with [Out of memory]. *)
Theorem parse_options_loop_spec (results : list (ascii * string)) (o : options)
    (s : state) :
  match parse_options_loop sscanf_int results o s with
  | Returns o' s' =>
      s' = spend (options_mallocs results) s /\
      mallocs_succeed (options_mallocs results) (malloc_left s) = true /\
      Forall (fun r => ~ rejected sscanf_int r) results /\
      init_file_dirs o' = init_file_dirs o ++ optargs "I" results /\
      runtime_flags o'
      = runtime_flags o ++ filter (fun a => a <> "") (optargs "r" results) /\
      ((need_tracing o = true -> need_initialization_code o = true) ->
       need_tracing o' = true -> need_initialization_code o' = true) /\
      (optargs "o" results = [] -> output_file_name o' = output_file_name o) /\
      (forall args arg, optargs "o" results = args ++ [arg] ->
         output_file_name o' = if strcmp_eq arg "-" then None else Some arg)
  | Exits status s' =>
      status = EXIT_FAILURE /\
      exists before r after,
        results = before ++ r :: after /\
        Forall (fun r => ~ rejected sscanf_int r) before /\
        mallocs_succeed (options_mallocs before) (malloc_left s) = true /\
        ((rejected sscanf_int r /\
          s' = exit_state
                 [Printf
                    (Lit ("Usage: mkinit [options] files..." +:+ nl
                            +:+ "Options: [-a] [-c maxcalls] [-o filename] [-w entry] [-i] [-l] [-t] [-x]"
                            +:+ nl)) []]
                 (spend (options_mallocs before) s)) \/
         (~ rejected sscanf_int r /\
          mallocs_succeed (options_mallocs before + option_mallocs r) (malloc_left s)
          = false /\
          s' = exit_state [out_of_memory]
                 (spend (options_mallocs before + option_mallocs r) s)))
  | Undefined => False
  end.
Proof.
  revert o s. induction results as [|[c optarg] results IH]; intros o s.
  - simpl. unfold optargs. simpl. rewrite !app_nil_r.
    split; [symmetry; apply spend_0|]. split; [apply mallocs_succeed_0|].
    repeat split; auto. intros [|? ?] ? ?; discriminate.
  - cbn [parse_options_loop]. unfold mbind, M_bind. rewrite parse_option_spec.
    destruct (option_set sscanf_int c optarg o) as [o1|] eqn:Hstep.
    + assert (Hok : ~ rejected sscanf_int (c, optarg)).
      { intros Hr. apply (option_set_rejected c optarg o) in Hr. congruence. }
      set (m := option_mallocs (c, optarg)).
      destruct (mallocs_succeed m (malloc_left s)) eqn:Hm.
      * specialize (IH o1 (spend m s)).
        destruct (option_set_step _ _ _ _ Hstep) as (Hdirs & Hflags & Htrace & Hout).
        destruct (parse_options_loop sscanf_int results o1 (spend m s))
          as [o' s'|status s'|].
        -- destruct IH as (Hs & Hmem & Hall & Hd & Hf & Ht & Ho0 & Ho).
           rewrite options_mallocs_cons. fold m.
           split; [rewrite Hs, spend_spend; reflexivity|].
           split; [rewrite mallocs_succeed_add, Hm; exact Hmem|].
           split; [constructor; assumption|].
           rewrite !optargs_cons.
           split; [|split; [|split; [|split]]].
           ++ rewrite Hd, Hdirs. destruct (decide (c = "I"%char));
                rewrite <- ?app_assoc; reflexivity.
           ++ rewrite Hf, Hflags. destruct (decide (c = "r"%char)).
              ** rewrite filter_cons. destruct (decide (optarg <> ""));
                   rewrite <- ?app_assoc; reflexivity.
              ** rewrite app_nil_r. reflexivity.
           ++ intros Hinv. apply Ht, Htrace, Hinv.
           ++ revert Hout. destruct (decide (c = "o"%char)); [discriminate|].
              intros Hout Hnone. rewrite (Ho0 Hnone). exact Hout.
           ++ revert Hout. destruct (decide (c = "o"%char)); intros Hout.
              ** intros args arg Hargs.
                 destruct (optargs "o" results) as [|a l] eqn:Hrest.
                 --- destruct args as [|x args]; simpl in Hargs;
                       [|injection Hargs as _ Hargs; destruct args; discriminate].
                     injection Hargs as <-. rewrite (Ho0 eq_refl). exact Hout.
                 --- destruct (exists_last (l := a :: l)) as (args' & arg' & Hlast);
                       [discriminate|].
                     rewrite Hlast in Hargs.
                     rewrite app_comm_cons in Hargs.
                     apply app_inj_tail in Hargs. destruct Hargs as [_ ->].
                     apply (Ho args'). exact Hlast.
              ** exact Ho.
        -- destruct IH as (Hst & before & r & after & Hres & Hall & Hmem & Hcase).
           split; [exact Hst|].
           exists ((c, optarg) :: before), r, after.
           split; [rewrite Hres; reflexivity|].
           split; [constructor; assumption|].
           rewrite options_mallocs_cons. fold m.
           split; [rewrite mallocs_succeed_add, Hm; exact Hmem|].
           destruct Hcase as [[Hr ->]|(Hr & Hfail & ->)].
           ++ left. split; [exact Hr|]. rewrite spend_spend. reflexivity.
           ++ right. split; [exact Hr|].
              rewrite <- Nat.add_assoc, mallocs_succeed_add, Hm.
              split; [exact Hfail|]. rewrite spend_spend. reflexivity.
        -- exact IH.
      * split; [reflexivity|]. exists [], (c, optarg), results.
        split; [reflexivity|]. split; [constructor|].
        split; [apply mallocs_succeed_0|].
        right. split; [exact Hok|]. split; [exact Hm|reflexivity].
    + rewrite usage_exits. split; [reflexivity|].
      exists [], (c, optarg), results.
      split; [reflexivity|]. split; [constructor|].
      split; [apply mallocs_succeed_0|].
      left. split; [apply (option_set_rejected c optarg o), Hstep|].
      rewrite spend_0. reflexivity.
Qed.

End ParseOptionsFacts.

(** *** The exits of [main] before the output *)

(** X22: [main] exits before anything is written to the output in two
    cases. Without file arguments it calls [usage()]: the usage message
    on [stderr], EXIT_FAILURE. With file arguments and an output file
    that cannot be opened for writing, it writes the one message about
    this file to [stderr] and exits with EXIT_FAILURE, leaving the file
    system as it was; no input file is looked for or read. *)
Theorem main_early_exits (o : options) (writable : string -> bool)
    (fsys : gmap string file) (memory : option nat) :
  (arg_files o = [] ->
   main o writable fsys memory
   = Exits EXIT_FAILURE
       (exit_state
          [Printf
             (Lit ("Usage: mkinit [options] files..." +:+ nl
                     +:+ "Options: [-a] [-c maxcalls] [-o filename] [-w entry] [-i] [-l] [-t] [-x]"
                     +:+ nl)) []]
          (initial_state fsys memory))) /\
  (forall name,
     arg_files o <> [] -> output_file_name o = Some name -> writable name = false ->
     exists s,
       main o writable fsys memory = Exits EXIT_FAILURE s /\
       stdout s = [] /\
       stderr s = [Printf (Lit ("%s: error opening output file `%s': %s" +:+ nl))
                     [A_str (MR_progname o); A_str name; A_strerror]] /\
       num_errors s = 0 /\ file_system s = fsys).
Proof.
  split.
  - intros Hargs. unfold main, main_body.
    apply bind_exits. unfold parse_options. rewrite Hargs. apply usage_exits.
  - intros name Hargs Hname Hwritable. unfold main, main_body.
    assert (Hlen : (Z.of_nat (length (arg_files o)) <=? 0) = false).
    { apply Z.leb_gt. destruct (arg_files o); [congruence|simpl; lia]. }
    erewrite bind_returns by (unfold parse_options; rewrite Hlen; reflexivity).
    eexists. split.
    + apply bind_exits. unfold set_output_file. rewrite Hname, Hwritable. reflexivity.
    + repeat split.
Qed.

(** *** The directory of a C file *)

Lemma strrchr_tail_Some s c t :
  strrchr_tail s c = Some t ->
  strrchr_tail t c = None /\ exists pre, s = pre +:+ t.
Proof.
  induction s as [|a s IH]; simpl; [discriminate|].
  destruct (strrchr_tail s c) as [t'|] eqn:E.
  - intros H. injection H as ->. destruct (IH eq_refl) as [Hnone [pre ->]].
    split; [exact Hnone|]. exists (String a pre). reflexivity.
  - destruct (Ascii.eqb a c); [|discriminate].
    intros H. injection H as <-. split; [exact E|].
    exists (String a ""). reflexivity.
Qed.

Lemma strrchr_tail_suffix pre t c :
  strrchr_tail (pre +:+ t) c = None -> strrchr_tail t c = None.
Proof.
  induction pre as [|a pre IH]; [exact (fun H => H)|].
  change (String a pre +:+ t) with (String a (pre +:+ t)). simpl.
  destruct (strrchr_tail (pre +:+ t) c); [discriminate|].
  intros _. apply IH. reflexivity.
Qed.

Lemma basename_separators filename :
  strrchr_tail (basename filename) "/" = None /\
  strrchr_tail (basename filename) "\" = None /\
  exists dir, filename = dir +:+ basename filename.
Proof.
  unfold basename.
  destruct (strrchr_tail filename "/") as [t1|] eqn:E1; cbn [default from_option id].
  - destruct (strrchr_tail_Some _ _ _ E1) as [Hn1 [pre1 ->]].
    destruct (strrchr_tail t1 "\") as [t2|] eqn:E2; cbn [default from_option id].
    + destruct (strrchr_tail_Some _ _ _ E2) as [Hn2 [pre2 ->]].
      split; [exact (strrchr_tail_suffix _ _ _ Hn1)|]. split; [exact Hn2|].
      exists (pre1 +:+ pre2). symmetry. apply append_assoc.
    + split; [exact Hn1|]. split; [exact E2|]. exists pre1. reflexivity.
  - destruct (strrchr_tail filename "\") as [t2|] eqn:E2; cbn [default from_option id].
    + destruct (strrchr_tail_Some _ _ _ E2) as [Hn2 [pre2 ->]].
      split; [exact (strrchr_tail_suffix _ _ _ E1)|]. split; [exact Hn2|].
      exists pre2. reflexivity.
    + split; [exact E1|]. split; [exact E2|]. exists "". reflexivity.
Qed.

(** X21: the file name [process_c_file] works on is the end of the one
    it is given, after the last slash and the last backslash: it has
    neither of them, and [process_c_file] does on it what it does on
    the name with its directory, whose components never show in a
    function name or in a message. *)
Theorem process_c_file_drops_directory (filename : string) :
  strrchr_tail (basename filename) "/" = None /\
  strrchr_tail (basename filename) "\" = None /\
  (exists dir, filename = dir +:+ basename filename) /\
  forall o nb nc purpose s,
    process_c_file o (basename filename) nb nc purpose s
    = process_c_file o filename nb nc purpose s.
Proof.
  destruct (basename_separators filename) as (Hslash & Hback & Hdir).
  split; [exact Hslash|]. split; [exact Hback|]. split; [exact Hdir|].
  intros o nb nc purpose s. rewrite !process_c_file_plan.
  assert (Hidem : basename (basename filename) = basename filename).
  { unfold basename at 1. rewrite Hslash. cbn [default from_option id].
    rewrite Hback. reflexivity. }
  unfold c_file_plan. rewrite Hidem. reflexivity.
Qed.

(** *** The names of an [ADITI_DATA] line *)



(** *** The properties above on small inputs *)

(** An init file with a line after its [ENDINIT] line, and without. *)
Lemma lines_after_endinit_ignored_witness :
  process_init_lines example_options PURPOSE_INIT
    (list_ascii_of_string ("INIT a_init" +:+ nl +:+ "ENDINIT " +:+ nl
                             +:+ "INIT b_init" +:+ nl))
    (replicate 256 NUL) 0 0 example_state
  = process_init_lines example_options PURPOSE_INIT
      (list_ascii_of_string ("INIT a_init" +:+ nl +:+ "ENDINIT " +:+ nl))
      (replicate 256 NUL) 0 0 example_state.
Proof.
  apply (lines_after_endinit_ignored example_options PURPOSE_INIT
           (list_ascii_of_string ("INIT a_init" +:+ nl)) []
           (list_ascii_of_string ("INIT b_init" +:+ nl)) []
           (replicate 256 NUL) 0 0 example_state).
  - right. exists (list_ascii_of_string "INIT a_init"). reflexivity.
  - apply not_elem_of_nil.
  - reflexivity.
Defined.

Lemma c_file_func_name_dotted_witness :
  c_file_func_name "f_oo.bar.c" = "mercury__f__oo__bar__".
Proof.
  apply (c_file_func_name_dotted ["f_oo"; "bar"] "c").
  - repeat (apply Forall_cons_2; [reflexivity|]). apply Forall_nil_2.
  - reflexivity.
Defined.

(** [process_c_file] on [dir/f_oo.bar.c] and, with [-a], on
    [dir/foo]. *)
Lemma process_c_file_name_fits_witness :
  strlen (c_file_func_name (basename "dir/f_oo.bar.c")) = 21 /\
  (exists counters s',
     process_c_file example_options "dir/f_oo.bar.c" 0 0 PURPOSE_INIT example_state
     = Returns counters s') /\
  process_c_file (set_aditi true example_options) "dir/foo" 0 0 PURPOSE_INIT example_state
  = Undefined.
Proof.
  split; [vm_compute; reflexivity|]. split.
  - destruct (process_c_file_name_fits example_options "dir/f_oo.bar.c" 0 0 PURPOSE_INIT
                example_state) as (_ & Hreturns & _).
    + reflexivity.
    + vm_compute. discriminate.
    + destruct (Hreturns eq_refl) as (counters & s' & Hrun & _). eauto.
  - destruct (process_c_file_name_fits (set_aditi true example_options) "dir/foo" 0 0
                PURPOSE_INIT example_state) as (_ & _ & _ & Hoverrun).
    + reflexivity.
    + vm_compute. discriminate.
    + destruct (Hoverrun eq_refl eq_refl) as [_ Hrun]. exact Hrun.
Defined.

Lemma c_file_func_name_identifier_witness :
  identifier_chars (c_file_func_name (basename "dir/f_oo.bar.c")) = true /\
  exists rest, c_file_func_name (basename "dir/f_oo.bar.c") = "mercury" +:+ rest.
Proof. apply (c_file_func_name_identifier "dir/f_oo.bar.c"). reflexivity. Defined.


(** The run of the example with [-a]: the two C files give two
    constants, which [rl_data] holds four times. *)
Lemma main_rl_data_four_times_witness :
  exists status s,
    main (set_aditi true example_options) (fun _ => true) example_file_system None
    = Returns status s /\
    length (rl_data s) = 8%nat /\
    In (Printf (Lit (tab +:+ "const int num_rl_modules = %d;" +:+ nl)) [A_int 8])
      (stdout s).
Proof.
  destruct (main (set_aditi true example_options) (fun _ => true) example_file_system
              None)
    as [status s| |] eqn:Hmain.
  - exists status, s. split; [reflexivity|].
    destruct (main_rl_data_four_times _ _ _ _ _ _ Hmain) as (Hrl & _ & Hout).
    split; [rewrite Hrl; vm_compute; reflexivity|].
    destruct (Hout eq_refl) as (before & between1 & between2 & after & ->).
    rewrite !in_app_iff. do 6 right. left. right. left. vm_compute. reflexivity.
  - exfalso. vm_compute in Hmain. discriminate Hmain.
  - exfalso. vm_compute in Hmain. discriminate Hmain.
Defined.

(** The run of the example with [x-y.c] for its last file. *)
Lemma main_exits_on_special_character_witness :
  exists s,
    main (with_arg_files example_options ["dir/a.b.c"; "lib.init"; "x-y.c"])
      (fun _ => true) example_file_system None
    = Exits EXIT_FAILURE s /\
    file_system s !! "out_init.c" = Some Stdout_target.
Proof.
  destruct (main_exits_on_special_character
              (with_arg_files example_options ["dir/a.b.c"; "lib.init"; "x-y.c"])
              (fun _ => true) example_file_system None
              ["dir/a.b.c"; "lib.init"] [] "x-y.c" "-"%char)
    as (s & Hmain & _ & _ & Hleft).
  - vm_compute. reflexivity.
  - vm_compute. reflexivity.
  - reflexivity.
  - reflexivity.
  - reflexivity.
  - intros name _. reflexivity.
  - exists s. split; [exact Hmain|]. apply Hleft. reflexivity.
Defined.


(** The example without arguments, and with an output file that cannot
    be written. *)
Lemma main_early_exits_witness :
  (exists s, main (with_arg_files example_options []) (fun _ => true) example_file_system
               None
             = Exits EXIT_FAILURE s /\ stdout s = []) /\
  (exists s, main example_options (fun _ => false) example_file_system None
             = Exits EXIT_FAILURE s /\ stdout s = []).
Proof.
  destruct (main_early_exits (with_arg_files example_options []) (fun _ => true)
              example_file_system None) as [Husage _].
  destruct (main_early_exits example_options (fun _ => false) example_file_system None)
    as [_ Hopen].
  split.
  - eexists. split; [apply Husage; reflexivity|reflexivity].
  - destruct (Hopen "out_init.c") as (s & Hmain & Hout & _);
      [discriminate|reflexivity|reflexivity|].
    exists s. split; [exact Hmain|exact Hout].
Defined.


End Mkinit.
